(* ===== verification/_CoqProject ===== *)
-Q . S2P
Prelude.v
Machine.v
Kalloc.v
Vm.v
VmRep.v
VmMap.v
VmCopy.v
VmProps.v
Proc.v
ProcSteps.v
ProcEffects.v
ProcSpec.v
ProcInv.v
ProcProps.v
Bio.v
BioProps.v
KallocCpu.v
Cow.v
CowProps.v
CowFork.v
Fs.v
FsBlocks.v
FsTree.v
FsData.v
FsRw.v
FsInode.v
FsProps.v
FsTrunc.v
FsPath.v
FsDir.v
File.v
Sysfile.v
FileProps.v
Syscall.v
SyscallProps.v
E1000.v
E1000Props.v
Trap.v
TrapProps.v
CowTrap.v
Ph.v
PhProps.v
Barrier.v
BarrierProps.v
Umalloc.v
UmallocGeo.v
UmallocProps.v
VmBoot.v
VmBootProps.v
Exec.v
ExecProps.v
Mmap.v
MmapProps.v
MmapTrap.v
Uthread.v
UthreadProps.v
Ulib.v
UlibProps.v
Printf.v
PrintfProps.v
Utils.v
UtilsProps.v
Pingpong.v
UserProgs.v
