(* ===== verification/Prelude.v ===== *)
(** * A verification library for the xv6 labs

    The repository holds the kernel files that nine xv6 labs change.  Each lab
    is modelled from the files it has; what a lab's kernel takes from files
    that are not in the repository is an interface (a type class) with the
    behaviour those files document as its laws.

    ** Parts, files and how they correspond to the code

    - [Prelude]: faults, the kernel monad [M S A := S -> res (A * S)], loops,
      weakest preconditions [wp] (total) and [wlp] (partial), C integers.
      [panic] is [Err (Panic _)], undefined behaviour that code can reach is
      [Err (Undef _)].
    - [Machine]: physical memory as bytes, words, the paging macros of
      pagetables [riscv.h] and [memlayout.h].
    - [Kalloc]: pagetables [kalloc.c], free list threaded through memory.
    - [Vm], [VmRep], [VmMap], [VmCopy], [VmProps]: pagetables [vm.c].  [Vm]
      translates it over physical memory; [VmRep] says which memory holds a
      three-level table ([pt_rep]) and which address space it denotes
      ([pte_of]); the others prove the operations against that description.
    - [VmBoot], [VmBootProps]: [kvmmake] and [vmprint] of the same file, with
      [proc_mapstacks] of syscalls [proc.c].
    - [Exec], [ExecProps]: pagetables [exec.c] over [Vm] and the class
      [ExecCalls] (inodes, page tables of a process).
    - [Proc], [ProcSteps], [ProcEffects], [ProcSpec], [ProcInv], [ProcProps]:
      syscalls [proc.c].  Sections between locks are atomic steps of a
      transition system over all CPUs and processes ([ProcSteps]); [ProcSpec]
      is an abstract process machine that they refine.
    - [Syscall], [SyscallProps]: syscalls [syscall.c] and [sysproc.c] over
      [Proc], and pagetables [sys_pgaccess].
    - [Bio], [BioProps]: locks [bio.c], the hashed buffer cache.
    - [KallocCpu]: locks [kalloc.c], one free list per CPU with stealing.
    - [Cow], [CowProps], [CowFork]: cow [kalloc.c] and [vm.c], reference-counted
      pages; [CowTrap]: [usertrap] of cow [trap.c], over [Trap] and [Cow].
    - [Fs], [FsBlocks], [FsTree], [FsData], [FsRw], [FsInode], [FsProps],
      [FsTrunc], [FsPath], [FsDir]: filesystem [fs.c] over the classes
      [BufLayer] (buffer cache under the log) and [CopyLayer] (copies to user
      or kernel memory); [FsTrunc] also has [bmap] and [itrunc] of mmap [fs.c].
    - [File], [Sysfile], [FileProps]: mmap [file.c] and filesystem [sysfile.c]
      over [Fs]; pipes, devices, the log and exec are the class [KernelCalls].
    - [E1000], [E1000Props]: net [e1000.c] over the class [NetLayer].
    - [Trap], [TrapProps]: traps [trap.c] and the alarm calls of [sysproc.c]
      over the class [TrapCalls].
    - [Ph], [PhProps], [Barrier], [BarrierProps]: multithreading [ph.c] and
      [barrier.c], every access to shared memory a step of its thread.
    - [Uthread], [UthreadProps]: multithreading [uthread.c] with its context
      switch [uthread_switch.S].
    - [Mmap], [MmapProps]: what the mmap lab adds to [sysfile.c], [trap.c] and
      [vm.c], over [Vm] and the class [MmapCalls]; [MmapTrap]: its [usertrap].
    - [Umalloc], [UmallocGeo], [UmallocProps]: pagetables [user/umalloc.c] over
      the class [Process]; [UmallocGeo] is the geometry of the circular list.
    - [Ulib], [UlibProps]: pagetables [user/ulib.c] over [UserCalls].
    - [Printf], [PrintfProps]: traps [printf.c] with [backtrace].
    - [Utils], [UtilsProps]: utilities [xargs.c], [primes.c] and [find.c] over
      the classes [Forks] and [FileTree]; [Pingpong]: [pingpong.c], two processes
      over the class [Pipes]; [UserProgs]: [sleep.c] and syscalls [trace.c]
      over [Ulib].

    ** What the theorems show

    Memory: [kalloc] and [kfree] implement a stack of free pages; page-table
    operations change exactly the entries of their range, undo themselves when
    memory runs out, and copies round-trip (C1, C3, C5 to C7); boot builds the
    kernel's address space, in which nothing is both writable and executable
    (C29), and [vmprint] lists a table (without a number); the per-CPU
    allocator (C19); a copy-on-write fork shares pages by reference counts,
    isolates parent and child, and a faulting store is repeated on a private
    copy (C22, C23, C4); a page fault in a mapped file loads its page (C21).
    Processes: refinement to the abstract machine, one CPU per running
    process, no orphan zombies, no lost wakeup in wait, distinct pids, the
    scheduler's choice (C8 to C12, C14); [exec] replaces the whole image or
    nothing, and the new program finds its arguments (C20, C31).
    Disk: the buffer cache is an array of blocks with LRU reuse (C15 to C17);
    truncation frees the blocks of a file and nothing leaks (C2, C24); file
    contents through all levels of indirection, inodes, paths and directories
    (C25 to C27, C30, C32).
    System calls: reference counts of files over any sequence of calls (C33),
    access bits (C35), dispatch (C37).
    Drivers, console and traps: the receive ring (C38), formats (C39), alarms
    (C40).
    Threads: the hash table loses no key (C18), the barrier keeps threads in
    step and never deadlocks without spurious wakeups (C28), a user thread that
    yields runs again (C13).
    User library: [malloc] and [free] keep a well-formed heap and implement an
    abstract allocator of disjoint blocks (C34, C36); without a number,
    [memmove] against its meaning, the string functions, and [atoi] reading
    back what [printf] prints; [xargs] runs one program per line, [primes]
    prints the primes, [find] finds the files it can reach, the two processes of
    [pingpong] exchange their messages under every schedule, [sleep] and
    [trace] pass their numbers and arguments on.

    Some theorems pin down faults of the code: [kill_zero_poisons_slot],
    [kinit_frees_shares], [itrunc_double_indirect_faults],
    [pgaccess_scan_reports], [transmit_overruns], [alarm_roundtrip],
    [barrier_spurious_fails], [malloc_huge_overruns], [exec_ustack_overrun],
    [munmap_only_first], [munmap_untouched_panics], [thread_create_overruns],
    [xargs_overruns], [find_full_name_undefined], [unexplained_fault_loops],
    [trace_unterminated].

    ** Bounds and fuel

    Every loop is [loop], which runs its body up to [2^64] times and then
    fails with [Fuel]; a [wp] theorem excludes that failure with a measure
    ([wp_loop], [wp_loop_n]).  [freewalk] recurses three times, the depth of a
    page table.  Integers are [Z] with the wrap-around of their C type written
    out ([u8], [u16], [u32], [u64], [s16], [s32]).  A lock or sleep lock that
    would have to wait is an error value in sequential models; in the models
    of threads waiting is the absence of a step.

    ** Not modelled

    User tests ([usertests.c], [*test.c]) and demo programs, boot ([main.c],
    [start]), assembly other than [uthread_switch.S], headers of declarations,
    CSR accessors other than those traps use, build files; [kvminithart],
    which only writes a control register; the copies of a file in other labs
    where they repeat a modelled one. *)

From Stdlib Require Export ZArith Lia Zquot.
From stdpp Require Export ssreflect base tactics option numbers list strings gmap relations.

#[export] Set Default Goal Selector "!".
#[global] Open Scope Z_scope.

(** [lia] also understands division and remainder by constants. *)
Ltac Zify.zify_post_hook ::= Z.to_euclidean_division_equations.

Declare Scope xv6_scope.
Delimit Scope xv6_scope with xv6.

(** ** Faults and the kernel monad

    [panic()] never returns, so a panicking run has no further state: it is
    the value [Err (Panic msg)].  [Undef] is C undefined behaviour that the
    code can reach (a null dereference, an out-of-bounds index); [Fuel] is the
    loop combinator running out of its bound, which every loop of the
    development is proved never to do on the states its theorems cover. *)

Inductive fault :=
  | Panic (msg : string)
  | Undef (msg : string)
  | Fuel.

Inductive res (A : Type) :=
  | Ok (a : A)
  | Err (f : fault).
Arguments Ok {A} a.
Arguments Err {A} f.

Definition M (S A : Type) : Type := S → res (A * S).

#[global] Instance M_ret {S} : MRet (M S) := λ A a s, Ok (a, s).
#[global] Instance M_bind {S} : MBind (M S) := λ A B k m s,
  match m s with
  | Ok (a, s') => k a s'
  | Err f => Err f
  end.

Definition panic {S A} (msg : string) : M S A := λ _, Err (Panic msg).
Definition undef {S A} (msg : string) : M S A := λ _, Err (Undef msg).
Definition out_of_fuel {S A} : M S A := λ _, Err Fuel.
Definition modify {S} (f : S → S) : M S unit := λ s, Ok (tt, f s).
Definition gets {S A} (f : S → A) : M S A := λ s, Ok (f s, s).
(** [when b m] is the C statement [if(b) m;]. *)
Definition when {S} (b : bool) (m : M S unit) : M S unit :=
  if b then m else mret tt.

(** A loop: the body returns [inl a'] to go round again with the loop
    variables [a'], [inr r] to leave the loop ([break], [return]).  [iter n]
    runs at most [2^n] rounds by running the body twice at each level, so a
    bound of [2^64] rounds, more than any counter of the program can take,
    costs nothing to evaluate. *)
Fixpoint iter {S A R} (n : nat) (body : A → M S (A + R)) (a : A) : M S (A + R) :=
  match n with
  | O => body a
  | Datatypes.S n =>
      x ← iter n body a;
      match x with
      | inl a' => iter n body a'
      | inr r => mret (inr r)
      end
  end.

Definition loop {S A R} (body : A → M S (A + R)) (a : A) : M S R :=
  x ← iter 64 body a;
  match x with
  | inl _ => out_of_fuel
  | inr r => mret r
  end.

(** [for(x in l) body]: the body returns [Some r] to leave the enclosing
    function with [r], [None] to go on with the next element. *)
Fixpoint for_each {S A R} (l : list A) (body : A → M S (option R)) : M S (option R) :=
  match l with
  | [] => mret None
  | a :: l =>
      x ← body a;
      match x with
      | Some r => mret (Some r)
      | None => for_each l body
      end
  end.

(** The same with a local variable [acc] that the body updates ([inl acc']);
    [inr r] leaves the enclosing function. *)
Fixpoint for_acc {S A B R} (l : list A) (acc : B) (body : A → B → M S (B + R)) : M S (B + R) :=
  match l with
  | [] => mret (inl acc)
  | a :: l =>
      x ← body a acc;
      match x with
      | inl acc' => for_acc l acc' body
      | inr r => mret (inr r)
      end
  end.

(** Running a component's operation inside a larger state. *)
Definition lift {S T A} (get : S → T) (set : T → S → S) (m : M T A) : M S A := λ s,
  match m (get s) with
  | Ok (a, t) => Ok (a, set t s)
  | Err f => Err f
  end.

(** ** Weakest preconditions (total correctness: no panic, no fuel error) *)

Definition wp {S A} (m : M S A) (Q : A → S → Prop) (s : S) : Prop :=
  match m s with
  | Ok (a, s') => Q a s'
  | Err _ => False
  end.

Section wp_rules.
Context {S : Type}.

Lemma wp_ret {A} (a : A) (Q : A → S → Prop) s : Q a s → wp (mret a) Q s.
Proof. done. Qed.

Lemma wp_bind {A B} (m : M S A) (k : A → M S B) Q s :
  wp m (λ a s', wp (k a) Q s') s → wp (m ≫= k) Q s.
Proof. rw /wp /mbind /M_bind. by destruct (m s) as [[a s']|]. Qed.

Lemma wp_mono {A} (m : M S A) (Q Q' : A → S → Prop) s :
  (∀ a s', Q a s' → Q' a s') → wp m Q s → wp m Q' s.
Proof. rw /wp. destruct (m s) as [[a s']|]; eauto. Qed.

Lemma wp_run {A} (m : M S A) (Q : A → S → Prop) s :
  wp m Q s → ∃ a s', m s = Ok (a, s') ∧ Q a s'.
Proof. rw /wp. destruct (m s) as [[a s']|]; [eauto|done]. Qed.

Lemma wp_of_run {A} (m : M S A) (Q : A → S → Prop) s a s' :
  m s = Ok (a, s') → Q a s' → wp m Q s.
Proof. by rw /wp => ->. Qed.

Lemma wp_conj {A} (m : M S A) (Q Q' : A → S → Prop) s :
  wp m Q s → wp m Q' s → wp m (λ a s', Q a s' ∧ Q' a s') s.
Proof. rw /wp. by destruct (m s) as [[a s']|]. Qed.

Lemma wp_gets_bind {A B} (f : S → A) (k : A → M S B) Q s :
  wp (k (f s)) Q s → wp (gets f ≫= k) Q s.
Proof. done. Qed.

Lemma wp_modify_bind {B} (f : S → S) (k : unit → M S B) Q s :
  wp (k tt) Q (f s) → wp (modify f ≫= k) Q s.
Proof. done. Qed.

(** A run that [wp] pins to one result is that equation. *)
Lemma wp_eq_run {A} (m : M S A) a s s' :
  wp m (λ a' s'', a' = a ∧ s'' = s') s → m s = Ok (a, s').
Proof. rw /wp. destruct (m s) as [[??]|]; [by intros [-> ->]|done]. Qed.

Lemma wp_when (b : bool) (m : M S unit) (Q : unit → S → Prop) s :
  (b = true → wp m Q s) → (b = false → Q tt s) → wp (when b m) Q s.
Proof. rw /when. destruct b; naive_solver. Qed.

(** The loop rule: an invariant on loop variables and state, and a measure
    that every continuing round decreases. *)
Lemma wp_iter {A R} (I : A → S → Prop) (mu : A → Z)
    (body : A → M S (A + R)) (Q : R → S → Prop) :
  (∀ a s, I a s → 0 ≤ mu a →
     wp (body a) (λ x s', match x with
                          | inl a' => I a' s' ∧ 0 ≤ mu a' < mu a
                          | inr r => Q r s'
                          end) s) →
  ∀ n a s, I a s → 0 ≤ mu a →
  wp (iter n body a) (λ x s', match x with
                              | inl a' => I a' s' ∧ 0 ≤ mu a' ≤ mu a - 2 ^ Z.of_nat n
                              | inr r => Q r s'
                              end) s.
Proof.
  intros Hbody n. induction n as [|n IH]; intros a s HI Hmu.
  - eapply wp_mono; [|by apply Hbody]. intros [a'|r] s'; [|done].
    intros [??]. split; [done|]. simpl. lia.
  - simpl. apply wp_bind. eapply wp_mono; [|by apply IH].
    intros [a'|r] s'; [|by intros; apply wp_ret]. intros [HI' Hle].
    eapply wp_mono; [|apply IH; [done|lia]]. intros [b|r] s''; [|done].
    intros [? Hb]. split; [done|].
    rw Nat2Z.inj_succ Z.pow_succ_r; lia.
Qed.

Lemma wp_loop {A R} (I : A → S → Prop) (mu : A → Z)
    (body : A → M S (A + R)) (Q : R → S → Prop) a s :
  I a s →
  0 ≤ mu a < 2 ^ 64 →
  (∀ a s, I a s → 0 ≤ mu a →
     wp (body a) (λ x s', match x with
                          | inl a' => I a' s' ∧ 0 ≤ mu a' < mu a
                          | inr r => Q r s'
                          end) s) →
  wp (loop body a) Q s.
Proof.
  intros HI Hmu Hbody. apply wp_bind.
  eapply wp_mono; [|apply (wp_iter I mu body Q Hbody 64); [done|lia]].
  intros [a'|r] s'; [|by intros; apply wp_ret].
  change (2 ^ Z.of_nat 64) with (2 ^ 64). lia.
Qed.

(** The same with the number of rounds left as a ghost index of the
    invariant, for loops whose variables alone do not bound them. *)
Lemma wp_iter_n {A R} (I : Z → A → S → Prop) (body : A → M S (A + R)) (Q : R → S → Prop) :
  (∀ n a s, I n a s → 0 ≤ n →
     wp (body a) (λ x s', match x with
                          | inl a' => ∃ n', 0 ≤ n' < n ∧ I n' a' s'
                          | inr r => Q r s'
                          end) s) →
  ∀ k n a s, I n a s → 0 ≤ n →
  wp (iter k body a) (λ x s', match x with
                              | inl a' => ∃ n', 0 ≤ n' ≤ n - 2 ^ Z.of_nat k ∧ I n' a' s'
                              | inr r => Q r s'
                              end) s.
Proof.
  intros Hbody k. induction k as [|k IH]; intros n a s HI Hn.
  - eapply wp_mono; [|by apply (Hbody n)]. intros [a'|r] s'; [|done].
    intros (n' & Hn' & H). exists n'. split; [simpl; lia|done].
  - simpl. apply wp_bind. eapply wp_mono; [|by apply (IH n)].
    intros [a'|r] s'; [|by intros; apply wp_ret]. intros (n' & Hle & HI').
    eapply wp_mono; [|apply (IH n'); [done|lia]]. intros [b|r] s''; [|done].
    intros (n'' & Hb & H). exists n''. split; [|done]. rw Nat2Z.inj_succ Z.pow_succ_r; lia.
Qed.

Lemma wp_loop_n {A R} (I : Z → A → S → Prop) (body : A → M S (A + R)) (Q : R → S → Prop) n a s :
  I n a s → 0 ≤ n < 2 ^ 64 →
  (∀ n a s, I n a s → 0 ≤ n →
     wp (body a) (λ x s', match x with
                          | inl a' => ∃ n', 0 ≤ n' < n ∧ I n' a' s'
                          | inr r => Q r s'
                          end) s) →
  wp (loop body a) Q s.
Proof.
  intros HI Hn Hbody. apply wp_bind.
  eapply wp_mono; [|apply (wp_iter_n I body Q Hbody 64 n); [done|lia]].
  intros [a'|r] s'; [|by intros; apply wp_ret].
  change (2 ^ Z.of_nat 64) with (2 ^ 64). intros (n' & ? & _). lia.
Qed.
End wp_rules.

(** ** Weakest liberal preconditions

    [wlp m Q s]: if [m] returns, it does so in [Q].  Step relations are built
    from runs that return, so their invariants need no more. *)

Definition wlp {S A} (m : M S A) (Q : A → S → Prop) (s : S) : Prop :=
  match m s with
  | Ok (a, s') => Q a s'
  | Err _ => True
  end.

Section wlp_rules.
Context {S : Type}.

Lemma wlp_ret {A} (a : A) (Q : A → S → Prop) s : Q a s → wlp (mret a) Q s.
Proof. done. Qed.

Lemma wlp_bind {A B} (m : M S A) (k : A → M S B) Q s :
  wlp m (λ a s', wlp (k a) Q s') s → wlp (m ≫= k) Q s.
Proof. rw /wlp /mbind /M_bind. by destruct (m s) as [[a s']|]. Qed.

Lemma wlp_mono {A} (m : M S A) (Q Q' : A → S → Prop) s :
  (∀ a s', Q a s' → Q' a s') → wlp m Q s → wlp m Q' s.
Proof. rw /wlp. destruct (m s) as [[a s']|]; eauto. Qed.

Lemma wlp_run {A} (m : M S A) (Q : A → S → Prop) s a s' :
  wlp m Q s → m s = Ok (a, s') → Q a s'.
Proof. rw /wlp. intros H Hr. by rw Hr in H. Qed.

Lemma wlp_of_run {A} (m : M S A) (Q : A → S → Prop) s :
  (∀ a s', m s = Ok (a, s') → Q a s') → wlp m Q s.
Proof. rw /wlp. destruct (m s) as [[a s']|]; eauto. Qed.

Lemma wlp_of_wp {A} (m : M S A) (Q : A → S → Prop) s : wp m Q s → wlp m Q s.
Proof. rw /wp /wlp. by destruct (m s) as [[a s']|]. Qed.

Lemma wlp_conj {A} (m : M S A) (Q Q' : A → S → Prop) s :
  wlp m Q s → wlp m Q' s → wlp m (λ a s', Q a s' ∧ Q' a s') s.
Proof. rw /wlp. by destruct (m s) as [[a s']|]. Qed.

Lemma wlp_panic {A} msg (Q : A → S → Prop) s : wlp (panic msg) Q s.
Proof. done. Qed.
Lemma wlp_undef {A} msg (Q : A → S → Prop) s : wlp (undef msg) Q s.
Proof. done. Qed.
Lemma wlp_modify (f : S → S) (Q : unit → S → Prop) s : Q tt (f s) → wlp (modify f) Q s.
Proof. done. Qed.
Lemma wlp_gets {A} (f : S → A) (Q : A → S → Prop) s : Q (f s) s → wlp (gets f) Q s.
Proof. done. Qed.

Lemma wlp_when (b : bool) (m : M S unit) (Q : unit → S → Prop) s :
  (b = true → wlp m Q s) → (b = false → Q tt s) → wlp (when b m) Q s.
Proof. rw /when. destruct b; [by auto|]. intros _ H. apply wlp_ret. by apply H. Qed.

Lemma wlp_lift {T A} (get : S → T) (set : T → S → S) (m : M T A) (Q : A → S → Prop) s :
  wlp m (λ a t, Q a (set t s)) (get s) → wlp (lift get set m) Q s.
Proof. rw /wlp /lift. by destruct (m (get s)) as [[a t]|]. Qed.

(** The invariant speaks of the elements already visited. *)
Lemma wlp_for_each {A R} (I : list A → S → Prop) (Q : R → S → Prop) (l : list A)
    (body : A → M S (option R)) s :
  I [] s →
  (∀ done a s, a ∈ l → I done s →
     wlp (body a) (λ x s', match x with None => I (done ++ [a]) s' | Some r => Q r s' end) s) →
  wlp (for_each l body) (λ x s', match x with None => I l s' | Some r => Q r s' end) s.
Proof.
  intros HI Hb.
  enough (∀ todo done s, done ++ todo = l → I done s →
    wlp (for_each todo body) (λ x s', match x with None => I l s' | Some r => Q r s' end) s)
    as H by (by apply (H l [])).
  induction todo as [|a todo IH]; intros dn s' Heq HI'; simpl.
  - rw app_nil_r in Heq. subst dn. by apply wlp_ret.
  - apply wlp_bind. eapply wlp_mono; [|apply (Hb dn); [set_solver|done]].
    intros [r|] s'' H; [done|]. apply (IH (dn ++ [a])); [|done]. by rw -app_assoc.
Qed.

Lemma wlp_for_acc {A B R} (I : list A → B → S → Prop) (Q : R → S → Prop) (l : list A)
    (body : A → B → M S (B + R)) b s :
  I [] b s →
  (∀ done a b s, a ∈ l → I done b s →
     wlp (body a b) (λ x s', match x with inl b' => I (done ++ [a]) b' s' | inr r => Q r s' end) s) →
  wlp (for_acc l b body) (λ x s', match x with inl b' => I l b' s' | inr r => Q r s' end) s.
Proof.
  intros HI Hb.
  enough (∀ todo done b s, done ++ todo = l → I done b s →
    wlp (for_acc todo b body) (λ x s', match x with inl b' => I l b' s' | inr r => Q r s' end) s)
    as H by (by apply (H l [])).
  induction todo as [|a todo IH]; intros dn b' s' Heq HI'; simpl.
  - rw app_nil_r in Heq. subst dn. by apply wlp_ret.
  - apply wlp_bind. eapply wlp_mono; [|apply (Hb dn); [set_solver|done]].
    intros [b''|r] s'' H; [|done]. apply (IH (dn ++ [a])); [|done]. by rw -app_assoc.
Qed.


Lemma wlp_iter {A R} (I : A → S → Prop) (Q : R → S → Prop) (body : A → M S (A + R)) n a s :
  (∀ a s, I a s → wlp (body a) (λ x s', match x with inl a' => I a' s' | inr r => Q r s' end) s) →
  I a s → wlp (iter n body a) (λ x s', match x with inl a' => I a' s' | inr r => Q r s' end) s.
Proof.
  intros Hb. revert a s. induction n as [|n IH]; intros a s Ha; [by apply Hb|].
  cbn [iter]. apply wlp_bind. eapply wlp_mono; [|by apply IH].
  intros [a'|r] s' H; [by apply IH|by apply wlp_ret].
Qed.

Lemma wlp_loop {A R} (I : A → S → Prop) (Q : R → S → Prop) (body : A → M S (A + R)) a s :
  (∀ a s, I a s → wlp (body a) (λ x s', match x with inl a' => I a' s' | inr r => Q r s' end) s) →
  I a s → wlp (loop body a) Q s.
Proof.
  intros Hb Ha. rw /loop. apply wlp_bind. eapply wlp_mono; [|by apply (wlp_iter I Q)].
  intros [a'|r] s' H; [done|by apply wlp_ret].
Qed.
End wlp_rules.

(** Total correctness of the loop with a local variable. *)
Lemma wp_for_acc {S A B R} (I : list A → B → S → Prop) (Q : R → S → Prop) (l : list A)
    (body : A → B → M S (B + R)) b s :
  I [] b s →
  (∀ done a todo b s, l = done ++ a :: todo → I done b s →
     wp (body a b) (λ x s', match x with inl b' => I (done ++ [a]) b' s' | inr r => Q r s' end) s) →
  wp (for_acc l b body) (λ x s', match x with inl b' => I l b' s' | inr r => Q r s' end) s.
Proof.
  intros HI Hb.
  enough (∀ todo done b s, done ++ todo = l → I done b s →
    wp (for_acc todo b body) (λ x s', match x with inl b' => I l b' s' | inr r => Q r s' end) s)
    as H by (by apply (H l [])).
  induction todo as [|a todo IH]; intros dn b' s' Heq HI'; simpl.
  - rw app_nil_r in Heq. subst dn. by apply wp_ret.
  - apply wp_bind. eapply wp_mono; [|by apply (Hb dn a todo)].
    intros [b''|r] s'' H; [|done]. apply (IH (dn ++ [a])); [|done]. by rw -app_assoc.
Qed.

Lemma wp_for_each {S A R} (I : list A → S → Prop) (Q : R → S → Prop) (l : list A)
    (body : A → M S (option R)) s :
  I [] s →
  (∀ done a todo s, l = done ++ a :: todo → I done s →
     wp (body a) (λ x s', match x with None => I (done ++ [a]) s' | Some r => Q r s' end) s) →
  wp (for_each l body) (λ x s', match x with None => I l s' | Some r => Q r s' end) s.
Proof.
  intros HI Hb.
  enough (∀ todo done s, done ++ todo = l → I done s →
    wp (for_each todo body) (λ x s', match x with None => I l s' | Some r => Q r s' end) s)
    as H by (by apply (H l [])).
  induction todo as [|a todo IH]; intros dn s' Heq HI'; simpl.
  - rw app_nil_r in Heq. subst dn. by apply wp_ret.
  - apply wp_bind. eapply wp_mono; [|by apply (Hb dn a todo)].
    intros [r|] s'' H; [done|]. apply (IH (dn ++ [a])); [|done]. by rw -app_assoc.
Qed.

(** A prefix of [seq 0 n] is [seq 0] of its length. *)
Lemma seq_prefix (dn td : list nat) a n : seq 0 n = dn ++ a :: td → (a < n)%nat ∧ a = length dn ∧ dn = seq 0 a.
Proof.
  intros H. assert (seq 0 n !! length dn = Some a) as Ha.
  { rw H. rewrite -> lookup_app_r by lia. by rw Nat.sub_diag. }
  apply lookup_seq in Ha as [-> Hlt]. split; [done|]. split; [done|]. simpl.
  assert (take (length dn) (seq 0 n) = dn) as Ht by (rw H take_app_length //).
  rw -{1}Ht. rewrite -> take_seq. by replace (length dn `min` n)%nat with (length dn) by lia.
Qed.

(** A search loop that leaves the state alone until it finds its element. *)
Lemma for_each_search {S A R} (l1 l2 : list A) a (r : R) (body : A → M S (option R)) s s' :
  (∀ b, b ∈ l1 → body b s = Ok (None, s)) → body a s = Ok (Some r, s') →
  for_each (l1 ++ a :: l2) body s = Ok (Some r, s').
Proof.
  intros Hskip Ha. induction l1 as [|b l1 IH]; simpl.
  - by rw /mbind /M_bind Ha.
  - rw /mbind /M_bind Hskip; [|set_solver]. apply IH. intros c Hc. apply Hskip. set_solver.
Qed.

(** [seq] split at an index. *)
Lemma seq_split i n : (i < n)%nat → seq 0 n = seq 0 i ++ i :: seq (S i) (n - S i).
Proof.
  intros Hi. replace n with (i + S (n - S i))%nat at 1 by lia. by rw seq_app.
Qed.

Arguments for_each : simpl never.
Arguments for_acc : simpl never.

(** One unfolding of a monadic program under [wp] or an equation. *)
Ltac wp_unfold := rw /wp /mbind /mret /M_bind /M_ret /modify /gets /panic /undef /when /=.

(** Split boolean comparisons of [Z] into their propositional cases. *)
Ltac zbool :=
  repeat match goal with
  | H : context [?a <? ?b] |- _ => destruct (Z.ltb_spec a b); simpl in H
  | H : context [?a <=? ?b] |- _ => destruct (Z.leb_spec a b); simpl in H
  | H : context [?a =? ?b] |- _ => destruct (Z.eqb_spec a b); simpl in H
  | |- context [?a <? ?b] => destruct (Z.ltb_spec a b); simpl
  | |- context [?a <=? ?b] => destruct (Z.leb_spec a b); simpl
  | |- context [?a =? ?b] => destruct (Z.eqb_spec a b); simpl
  end.

(** Boolean comparisons decided by [lia]. *)
Ltac zdec :=
  repeat first
    [ rewrite -> (proj2 (Z.ltb_lt _ _)) by lia
    | rewrite -> (proj2 (Z.ltb_ge _ _)) by lia
    | rewrite -> (proj2 (Z.leb_le _ _)) by lia
    | rewrite -> (proj2 (Z.leb_gt _ _)) by lia
    | rewrite -> (proj2 (Z.eqb_eq _ _)) by lia
    | rewrite -> (proj2 (Z.eqb_neq _ _)) by lia ]; simpl.

Create HintDb xv6.
#[export] Hint Resolve wp_ret wp_bind : xv6.

(** ** Integers at their C widths *)

Definition u8 (z : Z) : Z := z mod 2 ^ 8.
Definition u16 (z : Z) : Z := z mod 2 ^ 16.
Definition u32 (z : Z) : Z := z mod 2 ^ 32.
Definition u64 (z : Z) : Z := z mod 2 ^ 64.
(** [int]: two's complement on 32 bits. *)
Definition s32 (z : Z) : Z := (z + 2 ^ 31) mod 2 ^ 32 - 2 ^ 31.
(** [short]: two's complement on 16 bits. *)
Definition s16 (z : Z) : Z := (z + 2 ^ 15) mod 2 ^ 16 - 2 ^ 15.

Lemma u8_range z : 0 ≤ u8 z < 256.
Proof. rw /u8. lia. Qed.
Lemma u32_range z : 0 ≤ u32 z < 2 ^ 32.
Proof. rw /u32. lia. Qed.
Lemma u64_range z : 0 ≤ u64 z < 2 ^ 64.
Proof. rw /u64. lia. Qed.
Lemma s32_range z : - 2 ^ 31 ≤ s32 z < 2 ^ 31.
Proof. rw /s32. lia. Qed.
Lemma u8_small z : 0 ≤ z < 256 → u8 z = z.
Proof. intros. rw /u8. apply Z.mod_small. lia. Qed.
Lemma u32_small z : 0 ≤ z < 2 ^ 32 → u32 z = z.
Proof. intros. rw /u32. by apply Z.mod_small. Qed.
Lemma u64_small z : 0 ≤ z < 2 ^ 64 → u64 z = z.
Proof. intros. rw /u64. by apply Z.mod_small. Qed.
Lemma s32_small z : - 2 ^ 31 ≤ z < 2 ^ 31 → s32 z = z.
Proof. intros. rw /s32 Z.mod_small; lia. Qed.
Lemma u8_u8 z : u8 (u8 z) = u8 z.
Proof. apply u8_small, u8_range. Qed.

(** Bit tests: the C test [x & (1 << k)]. *)
Lemma land_pow2 x k : 0 ≤ k → Z.land x (2 ^ k) = if Z.testbit x k then 2 ^ k else 0.
Proof.
  intros Hk. apply Z.bits_inj'. intros n Hn.
  rw Z.land_spec Z.pow2_bits_eqb //.
  destruct (Z.eqb_spec k n) as [->|Hne].
  - rw andb_true_r. destruct (Z.testbit x n) eqn:E.
    + by rw Z.pow2_bits_true.
    + by rw Z.bits_0.
  - rw andb_false_r. destruct (Z.testbit x k).
    + by rw Z.pow2_bits_false.
    + by rw Z.bits_0.
Qed.

(** A value below [2^n] has no bit at or above [n]. *)
Lemma testbit_high a n k : 0 ≤ a < 2 ^ n → n ≤ k → Z.testbit a k = false.
Proof.
  intros [Ha Hlt] Hk. destruct (Z.eq_dec a 0) as [->|]; [apply Z.bits_0|].
  apply Z.bits_above_log2; [done|].
  apply Z.log2_lt_pow2; [lia|]. eapply Z.lt_le_trans; [done|].
  apply Z.pow_le_mono_r; lia.
Qed.

(** [lor] of a multiple of [2^n] and a value below [2^n] is their sum. *)
Lemma lor_add x f n : 0 ≤ n → 0 ≤ f < 2 ^ n → Z.lor (x * 2 ^ n) f = x * 2 ^ n + f.
Proof.
  intros Hn Hf. rw -Z.add_lor_land.
  enough (Z.land (x * 2 ^ n) f = 0) as -> by lia.
  apply Z.bits_inj'. intros k Hk. rw Z.land_spec Z.bits_0.
  destruct (Z.lt_ge_cases k n).
  - by rw Z.mul_pow2_bits_low.
  - by rw (testbit_high f n k) // andb_false_r.
Qed.

Lemma land_lnot_ones a n : 0 ≤ n → Z.land a (Z.lnot (2 ^ n - 1)) = a / 2 ^ n * 2 ^ n.
Proof.
  intros Hn. replace (2 ^ n - 1) with (Z.ones n) by (rw Z.ones_equiv; lia).
  rw -Z.ldiff_land Z.ldiff_ones_r // Z.shiftl_mul_pow2 // Z.shiftr_div_pow2 //.
Qed.

(** ** Lists *)

Lemma lookup_alter_inv {A} (f : A → A) (i j : nat) (l : list A) x :
  alter f i l !! j = Some x → (i = j ∧ ∃ y, l !! j = Some y ∧ x = f y) ∨ (i ≠ j ∧ l !! j = Some x).
Proof.
  rw list_lookup_alter. case_decide; subst; [|by eauto].
  intros (y & Hy & ->)%fmap_Some. eauto.
Qed.

Lemma alter_as_insert {A} (f : A → A) (i : nat) (l : list A) x :
  l !! i = Some x → alter f i l = <[i := f x]> l.
Proof.
  revert i. induction l as [|a l IH]; intros [|i] H; simplify_eq/=; [done..|]. by rw IH.
Qed.

(** Pigeonhole for the kernel's tables: a duplicate-free list of values of an
    interval is no longer than the interval. *)
Lemma NoDup_Z_interval (l : list Z) lo n :
  0 ≤ n → NoDup l → (∀ x, x ∈ l → lo ≤ x < lo + n) → Z.of_nat (length l) ≤ n.
Proof.
  intros Hn Hnd Hin.
  assert (l ⊆+ seqZ lo n) as Hsub.
  { apply NoDup_submseteq; [done|]. intros x Hx. apply elem_of_seqZ. by apply Hin. }
  apply submseteq_length in Hsub. rw length_seqZ in Hsub. lia.
Qed.

Lemma nth_take {A} (l : list A) n i d : (i < n)%nat → nth i (take n l) d = nth i l d.
Proof. revert n i. induction l as [|x l IH]; intros [|n] [|i] ?; simpl; try lia; auto with lia. Qed.

Lemma nth_drop {A} (l : list A) n i d : nth i (drop n l) d = nth (n + i) l d.
Proof. revert n. induction l as [|x l IH]; intros [|n]; simpl; auto. by destruct i. Qed.
