(* ===== verification/Machine.v ===== *)
(** * Physical memory and the RISC-V paging macros

    Physical memory is a function from byte addresses to bytes; every load
    reduces the cell to eight bits, so any function is a memory.  The macros
    are those of [riscv.h] and [memlayout.h], at 64-bit width. *)

From S2P Require Import Prelude.

(** ** Byte-addressed memory *)

Definition mem := Z → Z.

Definition ld8 (m : mem) (a : Z) : Z := u8 (m a).
Definition st8 (m : mem) (a v : Z) : mem := λ x, if x =? a then u8 v else m x.

(** Little-endian 64-bit access, as a [uint64*] dereference on RISC-V. *)
Definition ld64 (m : mem) (a : Z) : Z :=
  ld8 m a + ld8 m (a + 1) * 2 ^ 8 + ld8 m (a + 2) * 2 ^ 16 + ld8 m (a + 3) * 2 ^ 24
  + ld8 m (a + 4) * 2 ^ 32 + ld8 m (a + 5) * 2 ^ 40 + ld8 m (a + 6) * 2 ^ 48
  + ld8 m (a + 7) * 2 ^ 56.
Definition st64 (m : mem) (a v : Z) : mem := λ x,
  if (a <=? x) && (x <? a + 8) then u8 (Z.shiftr v (8 * (x - a))) else m x.

(** The [n] little-endian bytes of an integer. *)
Fixpoint le_bytes (n : nat) (v : Z) : list Z :=
  match n with
  | O => []
  | S n => u8 v :: le_bytes n (v / 2 ^ 8)
  end.

(** [memset(dst, c, n)] and [memmove(dst, src, n)] of the C library: the
    latter copies as if through a temporary, so overlap is no concern. *)
Definition memset (m : mem) (dst c n : Z) : mem := λ x,
  if (dst <=? x) && (x <? dst + n) then u8 c else m x.
Definition memmove (m : mem) (dst src n : Z) : mem := λ x,
  if (dst <=? x) && (x <? dst + n) then m (src + (x - dst)) else m x.
(** [memmove] from a buffer outside physical memory (a kernel local), and to one. *)
Definition mem_write (m : mem) (dst : Z) (bs : list Z) : mem := λ x,
  if (dst <=? x) && (x <? dst + Z.of_nat (length bs)) then
    u8 (nth (Z.to_nat (x - dst)) bs 0) else m x.
Definition mem_read (m : mem) (src : Z) (n : nat) : list Z :=
  (λ i, ld8 m (src + Z.of_nat i)) <$> seq 0 n.

(** Memories that agree on an interval. *)
Definition agree (m m' : mem) (lo hi : Z) : Prop := ∀ x, lo ≤ x < hi → m x = m' x.

Lemma ld64_range m a : 0 ≤ ld64 m a < 2 ^ 64.
Proof.
  rw /ld64 /ld8.
  pose proof (u8_range (m a)). pose proof (u8_range (m (a + 1))).
  pose proof (u8_range (m (a + 2))). pose proof (u8_range (m (a + 3))).
  pose proof (u8_range (m (a + 4))). pose proof (u8_range (m (a + 5))).
  pose proof (u8_range (m (a + 6))). pose proof (u8_range (m (a + 7))). lia.
Qed.

Lemma ld64_agree m m' a : agree m m' a (a + 8) → ld64 m a = ld64 m' a.
Proof. intros H. rw /ld64 /ld8 !H //; lia. Qed.

Lemma ld64_st64_eq m a v : 0 ≤ v < 2 ^ 64 → ld64 (st64 m a v) a = v.
Proof.
  intros Hv. rw /ld64 /ld8 /st64. zdec.
  rw !Z.add_simpl_l Z.sub_diag !u8_u8. rw /u8 !Z.shiftr_div_pow2; lia.
Qed.

Lemma st64_agree m a v lo hi : hi ≤ a ∨ a + 8 ≤ lo → agree (st64 m a v) m lo hi.
Proof. intros H x Hx. rw /st64. zbool; lia || done. Qed.
Lemma memset_agree m a c n lo hi : hi ≤ a ∨ a + n ≤ lo → agree (memset m a c n) m lo hi.
Proof. intros H x Hx. rw /memset. zbool; lia || done. Qed.
Lemma memmove_agree m a b n lo hi : hi ≤ a ∨ a + n ≤ lo → agree (memmove m a b n) m lo hi.
Proof. intros H x Hx. rw /memmove. zbool; lia || done. Qed.
Lemma mem_write_agree m a bs lo hi :
  hi ≤ a ∨ a + Z.of_nat (length bs) ≤ lo → agree (mem_write m a bs) m lo hi.
Proof. intros H x Hx. rw /mem_write. zbool; lia || done. Qed.

Lemma agree_trans m1 m2 m3 lo hi : agree m1 m2 lo hi → agree m2 m3 lo hi → agree m1 m3 lo hi.
Proof. intros H1 H2 x Hx. by rw H1 // H2. Qed.
Lemma agree_sym m1 m2 lo hi : agree m1 m2 lo hi → agree m2 m1 lo hi.
Proof. intros H x Hx. by rw H. Qed.
Lemma agree_refl m lo hi : agree m m lo hi.
Proof. by intros x Hx. Qed.
Lemma agree_sub m m' lo hi lo' hi' : agree m m' lo hi → lo ≤ lo' → hi' ≤ hi → agree m m' lo' hi'.
Proof. intros H ?? x Hx. apply H. lia. Qed.

Lemma ld64_st64_ne m a b v : b + 8 ≤ a ∨ a + 8 ≤ b → ld64 (st64 m a v) b = ld64 m b.
Proof. intros H. apply ld64_agree, st64_agree. lia. Qed.
Lemma ld64_memset_ne m a c n b : b + 8 ≤ a ∨ a + n ≤ b → ld64 (memset m a c n) b = ld64 m b.
Proof. intros H. apply ld64_agree, memset_agree. lia. Qed.
Lemma ld64_memset_0 m a n b : a ≤ b → b + 8 ≤ a + n → ld64 (memset m a 0 n) b = 0.
Proof. intros. rw /ld64 /ld8 /memset. by zdec. Qed.

#[export] Hint Resolve agree_refl st64_agree memset_agree memmove_agree mem_write_agree : xv6.

(** ** [riscv.h], [memlayout.h] *)

Definition PGSIZE : Z := 4096.
Definition PGSHIFT : Z := 12.
Definition PGROUNDUP (sz : Z) : Z := Z.land (u64 (sz + PGSIZE - 1)) (Z.lnot (PGSIZE - 1)).
Definition PGROUNDDOWN (a : Z) : Z := Z.land a (Z.lnot (PGSIZE - 1)).

Definition PTE_V : Z := Z.shiftl 1 0.
Definition PTE_R : Z := Z.shiftl 1 1.
Definition PTE_W : Z := Z.shiftl 1 2.
Definition PTE_X : Z := Z.shiftl 1 3.
Definition PTE_U : Z := Z.shiftl 1 4.
Definition PTE_A : Z := Z.shiftl 1 6.
Definition PTE_COW : Z := Z.shiftl 1 8.

Definition PA2PTE (pa : Z) : Z := u64 (Z.shiftl (Z.shiftr pa 12) 10).
Definition PTE2PA (pte : Z) : Z := u64 (Z.shiftl (Z.shiftr pte 10) 12).
Definition PTE_FLAGS (pte : Z) : Z := Z.land pte 0x3FF.
Definition PXMASK : Z := 0x1FF.
Definition PXSHIFT (level : Z) : Z := PGSHIFT + 9 * level.
Definition PX (level va : Z) : Z := Z.land (Z.shiftr va (PXSHIFT level)) PXMASK.
Definition MAXVA : Z := Z.shiftl 1 (9 + 9 + 9 + 12 - 1).

Definition KERNBASE : Z := 0x80000000.
Definition PHYSTOP : Z := KERNBASE + 128 * 1024 * 1024.
Definition TRAMPOLINE : Z := MAXVA - PGSIZE.
Definition TRAPFRAME : Z := TRAMPOLINE - PGSIZE.
Definition KSTACK (p : Z) : Z := TRAMPOLINE - p * 2 * PGSIZE - 3 * PGSIZE.

(** The C test [if(pte & FLAG)]. *)
Definition has (pte flag : Z) : bool := negb (Z.land pte flag =? 0).

(** Constants as numerals, for [lia]. *)
Ltac consts := change PGSIZE with 4096 in *; change PGSHIFT with 12 in *;
  change KERNBASE with 2147483648 in *; change PHYSTOP with 2281701376 in *;
  change MAXVA with 274877906944 in *; change TRAMPOLINE with 274877902848 in *;
  change TRAPFRAME with 274877898752 in *.

Lemma PGROUNDDOWN_eq a : PGROUNDDOWN a = a - a mod 4096.
Proof.
  rw /PGROUNDDOWN /PGSIZE. change (4096 - 1) with (2 ^ 12 - 1).
  rw land_lnot_ones //. change (2 ^ 12) with 4096. lia.
Qed.
Lemma PGROUNDUP_eq a : 0 ≤ a → a + 4095 < 2 ^ 64 →
  PGROUNDUP a = a + 4095 - (a + 4095) mod 4096.
Proof.
  intros ??. rw /PGROUNDUP -/(PGROUNDDOWN _) PGROUNDDOWN_eq.
  rw (u64_small (a + PGSIZE - 1)); consts; [|lia].
  by replace (a + 4096 - 1) with (a + 4095) by lia.
Qed.

Lemma PX_eq level va : 0 ≤ level → PX level va = va / 2 ^ (12 + 9 * level) mod 512.
Proof.
  intros. rw /PX /PXSHIFT /PXMASK /PGSHIFT Z.shiftr_div_pow2; [|lia].
  change 0x1FF with (Z.ones 9). by rw Z.land_ones.
Qed.
Lemma PX_range level va : 0 ≤ level → 0 ≤ PX level va < 512.
Proof. intros. rw PX_eq //. lia. Qed.

(** The three indices and the page offset determine the address. *)
Lemma PX_page va : 0 ≤ va < MAXVA →
  va / 4096 = PX 2 va * 2 ^ 18 + PX 1 va * 2 ^ 9 + PX 0 va.
Proof.
  intros Hva. rw !PX_eq; try lia. consts.
  change (2 ^ (12 + 9 * 2)) with 1073741824. change (2 ^ (12 + 9 * 1)) with 2097152.
  change (2 ^ (12 + 9 * 0)) with 4096. change (2 ^ 18) with 262144. change (2 ^ 9) with 512.
  lia.
Qed.

Definition page_aligned (a : Z) : Prop := a mod 4096 = 0.

Lemma PA2PTE_eq pa : 0 ≤ pa < 2 ^ 56 → PA2PTE pa = pa / 4096 * 1024.
Proof.
  intros. rw /PA2PTE Z.shiftr_div_pow2 // Z.shiftl_mul_pow2 //.
  change (2 ^ 12) with 4096. change (2 ^ 10) with 1024. apply u64_small. lia.
Qed.

(** A PTE built by [PA2PTE(pa) | flags]. *)
Lemma pte_sum pa f : 0 ≤ pa < 2 ^ 56 → 0 ≤ f < 1024 →
  Z.lor (PA2PTE pa) f = pa / 4096 * 1024 + f.
Proof. intros. rw PA2PTE_eq //. by apply (lor_add (pa / 4096) f 10). Qed.

Lemma PTE2PA_mk pa f : page_aligned pa → 0 ≤ pa < 2 ^ 56 → 0 ≤ f < 1024 →
  PTE2PA (Z.lor (PA2PTE pa) f) = pa.
Proof.
  intros Hal Hpa Hf. rw pte_sum // /PTE2PA Z.shiftr_div_pow2 // Z.shiftl_mul_pow2 //.
  change (2 ^ 12) with 4096. change (2 ^ 10) with 1024.
  rw /page_aligned in Hal. rw u64_small; lia.
Qed.

Lemma PTE_FLAGS_mod pte : PTE_FLAGS pte = pte mod 1024.
Proof. rw /PTE_FLAGS. change 0x3FF with (Z.ones 10). by rw Z.land_ones. Qed.

Lemma PTE_FLAGS_mk pa f : 0 ≤ pa < 2 ^ 56 → 0 ≤ f < 1024 →
  PTE_FLAGS (Z.lor (PA2PTE pa) f) = f.
Proof. intros. rw PTE_FLAGS_mod pte_sum //. lia. Qed.

Lemma PTE2PA_aligned pte : page_aligned (PTE2PA pte).
Proof.
  rw /PTE2PA /page_aligned /u64 Z.shiftl_mul_pow2 //. change (2 ^ 12) with 4096. lia.
Qed.

Lemma has_testbit pte k : 0 ≤ k → has pte (Z.shiftl 1 k) = Z.testbit pte k.
Proof.
  intros Hk. rw /has Z.shiftl_1_l land_pow2 //.
  pose proof (Z.pow_pos_nonneg 2 k ltac:(lia) Hk).
  destruct (Z.testbit pte k); simpl; zdec; done.
Qed.

(** The low ten bits of a PTE carry its flags. *)
Lemma testbit_mk pa f k : 0 ≤ pa < 2 ^ 56 → 0 ≤ f < 1024 → 0 ≤ k < 10 →
  Z.testbit (Z.lor (PA2PTE pa) f) k = Z.testbit f k.
Proof.
  intros. rw Z.lor_spec PA2PTE_eq //. change 1024 with (2 ^ 10).
  rw Z.mul_pow2_bits_low //. lia.
Qed.

Lemma lor_range_1024 a b : 0 ≤ a < 1024 → 0 ≤ b < 1024 → 0 ≤ Z.lor a b < 1024.
Proof.
  intros [] []. split; [by apply Z.lor_nonneg|].
  destruct (Z.eq_dec (Z.lor a b) 0) as [->|]; [lia|].
  apply (Z.log2_lt_pow2 _ 10); [pose proof (proj2 (Z.lor_nonneg a b)); lia|].
  rw Z.log2_lor //. apply Z.max_lub_lt.
  - destruct (Z.eq_dec a 0) as [->|]; [by simpl; lia|]. apply Z.log2_lt_pow2; lia.
  - destruct (Z.eq_dec b 0) as [->|]; [by simpl; lia|]. apply Z.log2_lt_pow2; lia.
Qed.

(** ** Little-endian 16- and 32-bit fields *)

Definition ld16 (m : mem) (a : Z) : Z := ld8 m a + ld8 m (a + 1) * 2 ^ 8.
Definition ld32 (m : mem) (a : Z) : Z :=
  ld8 m a + ld8 m (a + 1) * 2 ^ 8 + ld8 m (a + 2) * 2 ^ 16 + ld8 m (a + 3) * 2 ^ 24.
Definition st16 (m : mem) (a v : Z) : mem := mem_write m a (le_bytes 2 v).
Definition st32 (m : mem) (a v : Z) : mem := mem_write m a (le_bytes 4 v).

Lemma nth_le_bytes n v i : (i < n)%nat → nth i (le_bytes n v) 0 = u8 (v / 2 ^ (8 * Z.of_nat i)).
Proof.
  revert v i. induction n as [|n IH]; intros v i Hi; [lia|]. destruct i as [|i]; simpl.
  - by rw Z.div_1_r.
  - rw IH; [|lia]. rw Z.div_div; [|lia|apply Z.pow_pos_nonneg; lia]. rw -Z.pow_add_r; [|lia..].
    do 3 f_equal. lia.
Qed.
Lemma length_le_bytes n v : length (le_bytes n v) = n.
Proof. revert v. induction n as [|n IH]; intros v; simpl; [done|]. by rw IH. Qed.

#[local] Arguments le_bytes : simpl never.
#[local] Arguments nth : simpl never.

Lemma ld8_mem_write m a bs x :
  ld8 (mem_write m a bs) x =
    if (a <=? x) && (x <? a + Z.of_nat (length bs)) then u8 (nth (Z.to_nat (x - a)) bs 0) else ld8 m x.
Proof. rw /ld8 /mem_write. by destruct (_ && _); [rw u8_u8|]. Qed.

Lemma ld32_range m a : 0 ≤ ld32 m a < 2 ^ 32.
Proof.
  rw /ld32 /ld8. pose proof (u8_range (m a)). pose proof (u8_range (m (a + 1))).
  pose proof (u8_range (m (a + 2))). pose proof (u8_range (m (a + 3))). lia.
Qed.

Lemma ld32_st32_eq m a v : 0 ≤ v < 2 ^ 32 → ld32 (st32 m a v) a = v.
Proof.
  intros Hv. rw /ld32 /st32 !ld8_mem_write length_le_bytes. change (Z.of_nat 4) with 4. zdec.
  rw !nth_le_bytes; [|lia..]. rw !u8_u8 /u8.
  replace (Z.to_nat (a - a)) with 0%nat by lia. replace (Z.to_nat (a + 1 - a)) with 1%nat by lia.
  replace (Z.to_nat (a + 2 - a)) with 2%nat by lia. replace (Z.to_nat (a + 3 - a)) with 3%nat by lia.
  change (2 ^ (8 * Z.of_nat 0)) with 1. change (2 ^ (8 * Z.of_nat 1)) with 256.
  change (2 ^ (8 * Z.of_nat 2)) with 65536. change (2 ^ (8 * Z.of_nat 3)) with 16777216. lia.
Qed.

Lemma ld32_st32_ne m a b v : b + 4 ≤ a ∨ a + 4 ≤ b → ld32 (st32 m a v) b = ld32 m b.
Proof.
  intros Hab. rw /ld32 /st32 !ld8_mem_write length_le_bytes. change (Z.of_nat 4) with 4.
  assert (∀ x, b ≤ x < b + 4 → (a <=? x) && (x <? a + 4) = false) as E by (intros x Hx; zbool; lia).
  rw !E //; lia.
Qed.

Lemma ld32_ext m m' a : (∀ x, a ≤ x < a + 4 → m x = m' x) → ld32 m a = ld32 m' a.
Proof. intros H. rw /ld32 /ld8 !H //; lia. Qed.

Lemma ld32_zero m a : (∀ x, a ≤ x < a + 4 → m x = 0) → ld32 m a = 0.
Proof. intros H. rw /ld32 /ld8 !H //; lia. Qed.
