(* ===== verification/Kalloc.v ===== *)
(** * The physical page allocator (pagetables lab, [kernel/kalloc.c])

    The free list is threaded through the free pages themselves: the first
    eight bytes of a free page hold [r->next].  The state is physical memory
    and [kmem.freelist]; the lock of [kmem] makes each critical section one
    atomic step. *)

From S2P Require Import Prelude Machine.

(** Addresses the linker script [kernel.ld] sets: [end] is the first address
    after the kernel image, [etext] the end of its code, [trampoline] the page
    of trap entry code inside it. *)
Class KernelImage := {
  kend : Z;
  etext : Z;
  trampoline : Z;
  kend_lo : KERNBASE ≤ kend;
  kend_hi : kend ≤ PHYSTOP;
  etext_ok : page_aligned etext ∧ KERNBASE < etext ≤ kend;
  trampoline_ok : page_aligned trampoline ∧ KERNBASE ≤ trampoline < etext;
}.

(** The image built in the pagetables lab, from [kernel/kernel.sym]. *)
Definition pgtbl_image : KernelImage.
Proof.
  refine {| kend := 0x80026240; etext := 0x80008000; trampoline := 0x80007000 |};
    repeat split; vm_compute; congruence.
Defined.

Record kst := MkKst { km : mem; freelist : Z }.

Definition set_km (f : mem → mem) (s : kst) : kst := MkKst (f s.(km)) s.(freelist).
Definition set_freelist (r : Z) (s : kst) : kst := MkKst s.(km) r.

Section kalloc.
Context `{KI : KernelImage}.

Definition kfree (pa : Z) : M kst unit :=
  if negb (pa mod PGSIZE =? 0) || (pa <? kend) || (PHYSTOP <=? pa) then panic "kfree"
  else
    modify (set_km (λ m, memset m pa 1 PGSIZE));;
    let r := pa in
    fl ← gets freelist;
    modify (set_km (λ m, st64 m r fl));;
    modify (set_freelist r).

Definition kalloc : M kst Z :=
  r ← gets freelist;
  when (negb (r =? 0))
    (nxt ← gets (λ s, ld64 s.(km) r); modify (set_freelist nxt));;
  when (negb (r =? 0)) (modify (set_km (λ m, memset m r 5 PGSIZE)));;
  mret r.

(** [for(; p + PGSIZE <= pa_end; p += PGSIZE) kfree(p);] *)
Definition freerange (pa_start pa_end : Z) : M kst unit :=
  loop (λ p, if p + PGSIZE <=? pa_end then kfree p;; mret (inl (p + PGSIZE))
             else mret (inr tt))
    (PGROUNDUP pa_start).

Definition kinit : M kst unit := freerange kend PHYSTOP.

Definition free_mem : M kst Z :=
  r ← gets freelist;
  num ← loop
    (λ '(r, num), if r =? 0 then mret (inr num)
                  else nxt ← gets (λ s, ld64 s.(km) r); mret (inl (nxt, u64 (num + 1))))
    (r, 0);
  mret (u64 (num * PGSIZE)).

(** ** What a free list is *)

(** A page the allocator manages. *)
Definition managed (a : Z) : Prop := page_aligned a ∧ kend ≤ a < PHYSTOP.

Fixpoint chain (m : mem) (p : Z) (l : list Z) : Prop :=
  match l with
  | [] => p = 0
  | a :: l' => p = a ∧ chain m (ld64 m a) l'
  end.

(** [free_pages s l]: the free list of [s] is [l], managed pages without
    repetition. *)
Record free_pages (s : kst) (l : list Z) : Prop := {
  fp_chain : chain s.(km) s.(freelist) l;
  fp_managed : Forall managed l;
  fp_nodup : NoDup l;
}.

Lemma managed_bounds a : managed a → page_aligned a ∧ KERNBASE ≤ a ∧ a + 4096 ≤ PHYSTOP.
Proof. intros [Hal Ha]. pose proof kend_lo. split; [done|]. rw /page_aligned in Hal. consts. lia. Qed.

(** Two distinct managed pages do not overlap. *)
Lemma pages_disjoint a b : page_aligned a → page_aligned b → a ≠ b → a + 4096 ≤ b ∨ b + 4096 ≤ a.
Proof. rw /page_aligned. lia. Qed.

Lemma chain_agree m m' p l :
  (∀ a, a ∈ l → agree m m' a (a + 8)) → chain m p l → chain m' p l.
Proof.
  revert p. induction l as [|a l IH]; simpl; intros p Hag; [done|].
  intros [-> Hc]. split; [done|].
  rw -(ld64_agree m m' a); [|apply Hag; set_solver].
  apply IH; [|done]. intros b Hb. apply Hag. set_solver.
Qed.

(** Writing inside one page leaves the free lists of other pages alone. *)
Lemma free_pages_agree s s' l :
  s'.(freelist) = s.(freelist) →
  (∀ a, a ∈ l → agree s.(km) s'.(km) a (a + 4096)) →
  free_pages s l → free_pages s' l.
Proof.
  intros Hfl Hag [Hc Hm Hn]. split; [|done..].
  rw Hfl. eapply chain_agree; [|done].
  intros a Ha. eapply agree_sub; [by apply Hag|lia..].
Qed.

Lemma chain_head m p l : chain m p l → p = default 0 (head l).
Proof. destruct l; simpl; naive_solver. Qed.

Lemma free_pages_length s l : free_pages s l → Z.of_nat (length l) ≤ 32768.
Proof.
  intros [_ Hm Hn].
  rw -(length_fmap (λ a, a / 4096) l).
  apply (NoDup_Z_interval _ 524288); [lia|..].
  - apply NoDup_fmap_2_strong; [|done]. intros x y Hx Hy Heq.
    rw Forall_forall in Hm.
    destruct (managed_bounds x (Hm _ Hx)) as (H1 & _). destruct (managed_bounds y (Hm _ Hy)) as (H2 & _).
    rw /page_aligned in H1 H2. lia.
  - intros x (a & -> & Ha)%list_elem_of_fmap. rw Forall_forall in Hm.
    destruct (managed_bounds a (Hm _ Ha)) as (H1 & H2 & H3). consts.
    rw /page_aligned in H1. lia.
Qed.

(** ** What the operations do to it *)

Lemma kfree_spec s l pa :
  free_pages s l → managed pa → pa ∉ l →
  wp (kfree pa) (λ _ s', free_pages s' (pa :: l) ∧
        ∀ lo hi, hi ≤ pa ∨ pa + 4096 ≤ lo → agree s'.(km) s.(km) lo hi) s.
Proof.
  intros [Hc Hm Hn] Hpa Hnin. pose proof Hpa as [Hal Hr].
  destruct (managed_bounds pa Hpa) as (_ & Hlo & Hhi). pose proof kend_lo.
  rw /page_aligned in Hal.
  rw /kfree. consts. zdec. wp_unfold. split.
  - split; simpl.
    + split; [done|]. rw ld64_st64_eq; last first.
      { destruct l as [|a l]; simpl in Hc; [lia|]. destruct Hc as [-> _].
        inversion Hm as [|?? Ha _]; subst. destruct (managed_bounds a Ha). consts. lia. }
      eapply chain_agree; [|done]. intros a Ha.
      rw Forall_forall in Hm. destruct (managed_bounds a (Hm _ Ha)) as (Hal' & ? & ?).
      destruct (pages_disjoint a pa); [done..|set_solver| |];
        (eapply agree_trans; [|apply agree_sym, st64_agree; lia]);
        apply agree_sym, memset_agree; lia.
    + by constructor.
    + by constructor.
  - intros lo hi Hlh. simpl. eapply agree_trans; [apply st64_agree; lia|].
    apply memset_agree; lia.
Qed.

Lemma kalloc_spec s l :
  free_pages s l →
  wp kalloc (λ r s',
    match l with
    | [] => r = 0 ∧ s' = s
    | a :: l' => r = a ∧ free_pages s' l' ∧
        ∀ lo hi, hi ≤ a ∨ a + 4096 ≤ lo → agree s'.(km) s.(km) lo hi
    end) s.
Proof.
  intros [Hc Hm Hn]. rw /kalloc. wp_unfold.
  destruct l as [|a l]; simpl in Hc.
  - rw Hc /=. destruct s; simpl in *. by subst.
  - destruct Hc as [Hp Hc]. rw Hp. inversion Hm as [|?? Ha Hl]; subst.
    apply NoDup_cons in Hn as [Hnin Hn].
    destruct (managed_bounds _ Ha) as (Hal & Hlo & Hhi).
    assert (freelist s ≠ 0) as Hnz by (consts; lia).
    zdec. split; [done|]. split.
    + split; simpl; [|done..]. eapply chain_agree; [|done].
      intros b Hb. rw Forall_forall in Hl. destruct (managed_bounds b (Hl _ Hb)) as (Hbl & _).
      apply agree_sym. destruct (pages_disjoint (freelist s) b); [done..|set_solver| |];
        apply memset_agree; consts; lia.
    + intros lo hi Hlh. simpl. apply memset_agree. consts. lia.
Qed.

(** The pages [freerange] hands to [kfree], in order. *)
Definition range_pages (lo hi : Z) : list Z :=
  (λ i, lo + 4096 * i) <$> seqZ 0 ((hi - lo) / 4096).

Lemma elem_of_range_pages lo hi a :
  a ∈ range_pages lo hi ↔ lo ≤ a ∧ a + 4096 ≤ hi ∧ (a - lo) mod 4096 = 0.
Proof.
  rw /range_pages list_elem_of_fmap. setoid_rewrite elem_of_seqZ. split.
  - intros (i & -> & Hi). lia.
  - intros (? & ? & Hm). exists ((a - lo) / 4096). lia.
Qed.

Lemma range_pages_cons lo hi : lo + 4096 ≤ hi → range_pages lo hi = lo :: range_pages (lo + 4096) hi.
Proof.
  intros H. rw /range_pages.
  replace ((hi - lo) / 4096) with (Z.succ ((hi - (lo + 4096)) / 4096)) by lia.
  rw seqZ_cons; [|lia]. rw fmap_cons. f_equal; [lia|].
  change (Z.succ 0) with (1 + 0). rw Z.pred_succ -fmap_add_seqZ -(list_fmap_compose (Z.add 1) (λ i, lo + 4096 * i)). apply list_fmap_ext.
  intros _ x _. simpl. lia.
Qed.
Lemma range_pages_nil lo hi : hi < lo + 4096 → range_pages lo hi = [].
Proof. intros. rw /range_pages seqZ_nil //. lia. Qed.

(** [freerange] frees every whole page of the range, first page first, so they
    sit on the list in reverse. *)
Lemma freerange_spec s l lo hi :
  free_pages s l → kend ≤ lo ≤ PHYSTOP → hi ≤ PHYSTOP →
  (∀ a, a ∈ l → a < PGROUNDUP lo ∨ hi ≤ a) →
  wp (freerange lo hi) (λ _ s', free_pages s' (reverse (range_pages (PGROUNDUP lo) hi) ++ l)) s.
Proof.
  intros Hfp Hlo Hhi Hfresh. pose proof kend_lo. rw /freerange.
  assert (PGROUNDUP lo = lo + 4095 - (lo + 4095) mod 4096) as Hup
    by (apply PGROUNDUP_eq; consts; lia).
  set (lo' := PGROUNDUP lo) in *.
  apply (wp_loop (λ p s', ∃ l', free_pages s' l' ∧ page_aligned p ∧ lo' ≤ p ∧
            reverse (range_pages p hi) ++ l' = reverse (range_pages lo' hi) ++ l ∧
            (∀ a, a ∈ l' → a < p ∨ hi ≤ a))
          (λ p, Z.max 0 (hi - p))).
  - exists l. split_and!; try done. rw /page_aligned. lia.
  - consts. lia.
  - clear s Hfp Hfresh. intros p s (l' & Hfp & Hal & Hp & Heq & Hl') _. consts. zbool.
    + apply wp_bind. eapply wp_mono; last first.
      { apply kfree_spec; [done| |].
        - split; [done|]. rw /page_aligned in Hal. consts. lia.
        - intros Hin. apply Hl' in Hin. lia. }
      intros _ s' [Hfp' _]. apply wp_ret. split; [|lia].
      exists (p :: l'). split_and!; [done| |lia| |].
      * rw /page_aligned in Hal *. lia.
      * rw range_pages_cons in Heq; [|lia]. by rw reverse_cons -assoc in Heq.
      * intros a [->|Ha]%elem_of_cons; [lia|]. apply Hl' in Ha. lia.
    + apply wp_ret. rw range_pages_nil in Heq; [|lia]. by rw -Heq.
Qed.

Lemma kinit_spec s :
  freelist s = 0 →
  wp kinit (λ _ s', free_pages s' (reverse (range_pages (PGROUNDUP kend) PHYSTOP))) s.
Proof.
  intros H0. pose proof kend_lo. pose proof kend_hi.
  rw -(app_nil_r (reverse _)). apply freerange_spec; try done.
  - split; [by rw H0|constructor..].
  - by intros a ?%elem_of_nil.
Qed.

Lemma free_mem_spec s l :
  free_pages s l → free_mem s = Ok (PGSIZE * Z.of_nat (length l), s).
Proof.
  intros Hfp. pose proof (free_pages_length _ _ Hfp) as Hlen. destruct Hfp as [Hc Hm _].
  apply wp_eq_run. rw /free_mem. apply wp_gets_bind, wp_bind.
  apply (wp_loop (λ '(r, num) s', s' = s ∧ ∃ l', chain (km s) r l' ∧ Forall managed l' ∧
             0 ≤ num ∧ num + Z.of_nat (length l') = Z.of_nat (length l))
          (λ '(r, num), Z.max 0 (32768 - num))).
  - split; [done|]. by exists l.
  - consts. lia.
  - intros [r num] s' (-> & l' & Hc' & Hm' & Hnum & Hsum) _.
    destruct l' as [|a l']; simpl in Hc', Hsum.
    + rw Hc' /=. apply wp_ret, wp_ret. split; [|done].
      rw u64_small; consts; lia.
    + destruct Hc' as [-> Hc']. inversion Hm' as [|?? Ha Hl']; subst.
      destruct (managed_bounds _ Ha) as (_ & ? & _). consts. zdec.
      apply wp_gets_bind, wp_ret. rw u64_small; [|lia].
      split; [|lia]. split; [done|]. exists l'. split_and!; try done; lia.
Qed.

(** ** The allocator as an abstract stack of pages *)

Inductive kop := KAlloc | KFree (pa : Z).

(** A client's sequence of calls; the result lists what [kalloc] returned. *)
Fixpoint run_ops (ops : list kop) : M kst (list Z) :=
  match ops with
  | [] => mret []
  | KAlloc :: ops => r ← kalloc; rs ← run_ops ops; mret (r :: rs)
  | KFree pa :: ops => kfree pa;; run_ops ops
  end.

(** The abstract allocator: [None] when the client frees a page it does not
    own (not a page of RAM, or already free). *)
Fixpoint stack_ops (ops : list kop) (l : list Z) : option (list Z * list Z) :=
  match ops with
  | [] => Some ([], l)
  | KAlloc :: ops =>
      '(rs, l') ← stack_ops ops (tail l); Some (default 0 (head l) :: rs, l')
  | KFree pa :: ops =>
      if bool_decide (pa mod 4096 = 0 ∧ kend ≤ pa < PHYSTOP ∧ pa ∉ l)
      then stack_ops ops (pa :: l) else None
  end.

(** C1 [kalloc]/[kfree] implement a stack of free pages: for every sequence of
    calls in which the client only frees pages it owns, the code returns what
    the abstract stack returns (0 exactly when it is empty), never panics, and
    ends with the same free pages. *)
Theorem kalloc_refines_stack s l ops rs l' :
  free_pages s l → stack_ops ops l = Some (rs, l') →
  ∃ s', run_ops ops s = Ok (rs, s') ∧ free_pages s' l'.
Proof.
  revert s l rs. induction ops as [|[|pa] ops IH]; simpl; intros s l rs Hfp Hops.
  - injection Hops as <- <-. by exists s.
  - destruct (stack_ops ops (tail l)) as [[rs0 l0]|] eqn:E; simplify_eq/=.
    destruct (wp_run _ _ _ (kalloc_spec s l Hfp)) as (r & s1 & Hrun & Hr).
    assert (free_pages s1 (tail l) ∧ r = default 0 (head l)) as [Hfp1 ->].
    { destruct l as [|a l]; simpl; [by destruct Hr as [-> ->]|by destruct Hr as (-> & ? & _)]. }
    destruct (IH s1 (tail l) rs0 Hfp1 E) as (s2 & Hrun2 & Hfp2).
    exists s2. split; [|done]. by rw /mbind /M_bind Hrun /= Hrun2.
  - case_bool_decide as Hpa; [|done]. destruct Hpa as (Hal & Hr & Hnin).
    destruct (wp_run _ _ _ (kfree_spec s l pa Hfp (conj Hal Hr) Hnin)) as (u & s1 & Hrun & Hfp1 & _).
    destruct (IH s1 (pa :: l) rs Hfp1 Hops) as (s2 & Hrun2 & Hfp2).
    exists s2. split; [|done]. by rw /mbind /M_bind Hrun.
Qed.

(** Boot: [kinit] puts every whole page between [PGROUNDUP(end)] and
    [PHYSTOP] on the free list, each once, and [free_mem] then reports their
    total size. *)
Theorem kinit_frees_all_ram m :
  ∃ s l, kinit (MkKst m 0) = Ok (tt, s) ∧ free_pages s l ∧
    (∀ a, a ∈ l ↔ page_aligned a ∧ kend ≤ a ∧ a + PGSIZE ≤ PHYSTOP) ∧
    free_mem s = Ok (PHYSTOP - PGROUNDUP kend, s).
Proof.
  destruct (wp_run _ _ _ (kinit_spec (MkKst m 0) eq_refl)) as ([] & s & Hrun & Hfp).
  pose proof kend_lo. pose proof kend_hi.
  assert (PGROUNDUP kend = kend + 4095 - (kend + 4095) mod 4096) as Hup
    by (apply PGROUNDUP_eq; consts; lia).
  exists s. eexists. split_and!; [done|done|..].
  - intros a. rw elem_of_reverse elem_of_range_pages /page_aligned. consts. lia.
  - rw (free_mem_spec _ _ Hfp) length_reverse /range_pages length_fmap length_seqZ.
    do 2 f_equal. consts. lia.
Qed.
End kalloc.

(** C1 at a concrete sequence: two pages freed, three allocated. *)
Lemma kalloc_refines_stack_witness :
  ∃ s', run_ops (KI := pgtbl_image) [KFree 0x80030000; KFree 0x80031000; KAlloc; KAlloc; KAlloc]
          (MkKst (λ _, 0) 0) = Ok ([0x80031000; 0x80030000; 0], s') ∧ free_pages (KI := pgtbl_image) s' [].
Proof.
  apply (kalloc_refines_stack (KI := pgtbl_image) _ []).
  - split; [done|constructor..].
  - vm_compute. reflexivity.
Defined.
