(* ===== verification/Vm.v ===== *)
(** * Page tables (pagetables lab, [kernel/vm.c])

    The definitions translate [vm.c] over physical memory: a page-table page
    is 512 little-endian PTEs in memory, [walk] reads and writes them there,
    and page-table pages come from [kalloc].  [pagetable_t] values and PTE
    pointers are physical addresses. *)

From S2P Require Import Prelude Machine Kalloc.

Section vm.
Context `{KI : KernelImage}.

(** ** Translation of [vm.c] *)

(** The address of the PTE for [va], 0 when there is none. *)
Definition walk (pagetable va : Z) (alloc : bool) : M kst Z :=
  if MAXVA <=? va then panic "walk" else
  loop (λ '(level, pagetable),
    if 0 <? level then
      let pte := pagetable + 8 * PX level va in
      v ← gets (λ s, ld64 s.(km) pte);
      if has v PTE_V then mret (inl (level - 1, PTE2PA v))
      else if negb alloc then mret (inr 0)
      else
        page ← kalloc;
        if page =? 0 then mret (inr 0)
        else
          modify (set_km (λ m, memset m page 0 PGSIZE));;
          modify (set_km (λ m, st64 m pte (Z.lor (PA2PTE page) PTE_V)));;
          mret (inl (level - 1, page))
    else mret (inr (pagetable + 8 * PX 0 va))) (2, pagetable).

Definition walkaddr (pagetable va : Z) : M kst Z :=
  if MAXVA <=? va then mret 0 else
  pte ← walk pagetable va false;
  if pte =? 0 then mret 0 else
  v ← gets (λ s, ld64 s.(km) pte);
  if negb (has v PTE_V) then mret 0
  else if negb (has v PTE_U) then mret 0
  else mret (PTE2PA v).

Definition mappages (pagetable va size pa perm : Z) : M kst Z :=
  if size =? 0 then panic "mappages: size" else
  let a := PGROUNDDOWN va in
  let last := PGROUNDDOWN (u64 (va + size - 1)) in
  loop (λ '(a, pa),
    pte ← walk pagetable a true;
    if pte =? 0 then mret (inr (-1)) else
    v ← gets (λ s, ld64 s.(km) pte);
    if has v PTE_V then panic "mappages: remap" else
    modify (set_km (λ m, st64 m pte (Z.lor (Z.lor (PA2PTE pa) perm) PTE_V)));;
    if a =? last then mret (inr 0)
    else mret (inl (u64 (a + PGSIZE), u64 (pa + PGSIZE)))) (a, pa).

Definition kvmmap (kpgtbl va pa sz perm : Z) : M kst unit :=
  r ← mappages kpgtbl va sz pa perm;
  if negb (r =? 0) then panic "kvmmap" else mret tt.

Definition uvmunmap (pagetable va npages : Z) (do_free : bool) : M kst unit :=
  if negb (va mod PGSIZE =? 0) then panic "uvmunmap: not aligned" else
  loop (λ a,
    if a <? u64 (va + npages * PGSIZE) then
      pte ← walk pagetable a false;
      if pte =? 0 then panic "uvmunmap: walk" else
      v ← gets (λ s, ld64 s.(km) pte);
      if negb (has v PTE_V) then panic "uvmunmap: not mapped" else
      if PTE_FLAGS v =? PTE_V then panic "uvmunmap: not a leaf" else
      when do_free (kfree (PTE2PA v));;
      modify (set_km (λ m, st64 m pte 0));;
      mret (inl (u64 (a + PGSIZE)))
    else mret (inr tt)) va.

Definition uvmcreate : M kst Z :=
  pagetable ← kalloc;
  if pagetable =? 0 then mret 0 else
  modify (set_km (λ m, memset m pagetable 0 PGSIZE));;
  mret pagetable.

(** [src] is the kernel array holding the first program. *)
Definition uvminit (pagetable : Z) (src : list Z) (sz : Z) : M kst unit :=
  if PGSIZE <=? sz then panic "inituvm: more than a page" else
  mem ← kalloc;
  modify (set_km (λ m, memset m mem 0 PGSIZE));;
  mappages pagetable 0 PGSIZE mem (Z.lor (Z.lor (Z.lor PTE_W PTE_R) PTE_X) PTE_U);;
  modify (set_km (λ m, mem_write m mem (take (Z.to_nat sz) src))).

Definition uvmdealloc (pagetable oldsz newsz : Z) : M kst Z :=
  if oldsz <=? newsz then mret oldsz else
  when (PGROUNDUP newsz <? PGROUNDUP oldsz)
    (let npages := s32 ((PGROUNDUP oldsz - PGROUNDUP newsz) / PGSIZE) in
     uvmunmap pagetable (PGROUNDUP newsz) npages true);;
  mret newsz.

Definition uvmalloc (pagetable oldsz newsz : Z) : M kst Z :=
  if newsz <? oldsz then mret oldsz else
  let oldsz := PGROUNDUP oldsz in
  loop (λ a,
    if a <? newsz then
      mem ← kalloc;
      if mem =? 0 then
        uvmdealloc pagetable a oldsz;; mret (inr 0)
      else
        modify (set_km (λ m, memset m mem 0 PGSIZE));;
        r ← mappages pagetable a PGSIZE mem (Z.lor (Z.lor (Z.lor PTE_W PTE_X) PTE_R) PTE_U);
        if negb (r =? 0) then
          kfree mem;; uvmdealloc pagetable a oldsz;; mret (inr 0)
        else mret (inl (u64 (a + PGSIZE)))
    else mret (inr newsz)) oldsz.

(** [freewalk] recurses once per level; [depth] bounds the recursion. *)
Fixpoint freewalk (depth : nat) (pagetable : Z) : M kst unit :=
  match depth with
  | O => out_of_fuel
  | S depth =>
      loop (λ i,
        if i <? 512 then
          pte ← gets (λ s, ld64 s.(km) (pagetable + 8 * i));
          if has pte PTE_V && (Z.land pte (Z.lor (Z.lor PTE_R PTE_W) PTE_X) =? 0) then
            freewalk depth (PTE2PA pte);;
            modify (set_km (λ m, st64 m (pagetable + 8 * i) 0));;
            mret (inl (i + 1))
          else if has pte PTE_V then panic "freewalk: leaf"
          else mret (inl (i + 1))
        else mret (inr tt)) 0;;
      kfree pagetable
  end.

Definition uvmfree (pagetable sz : Z) : M kst unit :=
  when (0 <? sz) (uvmunmap pagetable 0 (PGROUNDUP sz / PGSIZE) true);;
  freewalk 3 pagetable.

Definition uvmcopy (old new sz : Z) : M kst Z :=
  loop (λ i,
    let err := uvmunmap new 0 (i / PGSIZE) true;; mret (inr (-1)) in
    if i <? sz then
      pte ← walk old i false;
      if pte =? 0 then panic "uvmcopy: pte should exist" else
      v ← gets (λ s, ld64 s.(km) pte);
      if negb (has v PTE_V) then panic "uvmcopy: page not present" else
      let pa := PTE2PA v in
      let flags := PTE_FLAGS v in
      mem ← kalloc;
      if mem =? 0 then err else
      modify (set_km (λ m, memmove m mem pa PGSIZE));;
      r ← mappages new i PGSIZE mem flags;
      if negb (r =? 0) then kfree mem;; err
      else mret (inl (u64 (i + PGSIZE)))
    else mret (inr 0)) 0.

Definition uvmclear (pagetable va : Z) : M kst unit :=
  pte ← walk pagetable va false;
  if pte =? 0 then panic "uvmclear" else
  modify (set_km (λ m, st64 m pte (Z.land (ld64 m pte) (Z.lnot PTE_U)))).

(** [src] is the kernel buffer; the loop variables are [dstva], [src], [len]. *)
Definition copyout (pagetable dstva : Z) (src : list Z) (len : Z) : M kst Z :=
  loop (λ '(dstva, src, len),
    if 0 <? len then
      let va0 := PGROUNDDOWN dstva in
      pa0 ← walkaddr pagetable va0;
      if pa0 =? 0 then mret (inr (-1)) else
      let n := PGSIZE - (dstva - va0) in
      let n := if len <? n then len else n in
      modify (set_km (λ m, mem_write m (pa0 + (dstva - va0)) (take (Z.to_nat n) src)));;
      mret (inl (u64 (va0 + PGSIZE), drop (Z.to_nat n) src, len - n))
    else mret (inr 0)) (dstva, src, len).

(** The result carries the bytes written to [dst] so far. *)
Definition copyin (pagetable srcva len : Z) : M kst (Z * list Z) :=
  loop (λ '(dst, srcva, len),
    if 0 <? len then
      let va0 := PGROUNDDOWN srcva in
      pa0 ← walkaddr pagetable va0;
      if pa0 =? 0 then mret (inr (-1, dst)) else
      let n := PGSIZE - (srcva - va0) in
      let n := if len <? n then len else n in
      bs ← gets (λ s, mem_read s.(km) (pa0 + (srcva - va0)) (Z.to_nat n));
      mret (inl (dst ++ bs, u64 (va0 + PGSIZE), len - n))
    else mret (inr (0, dst))) ([], srcva, len).

(** [copyinstr]: the inner loop copies up to [n] bytes of one page, stopping at
    a NUL; the result carries the bytes written to [dst], the NUL included. *)
Definition copyinstr (pagetable srcva max : Z) : M kst (Z * list Z) :=
  loop (λ '(dst, srcva, max, got_null),
    if negb got_null && (0 <? max) then
      let va0 := PGROUNDDOWN srcva in
      pa0 ← walkaddr pagetable va0;
      if pa0 =? 0 then mret (inr (-1, dst)) else
      let n := PGSIZE - (srcva - va0) in
      let n := if max <? n then max else n in
      '(dst, max, got_null) ← loop (λ '(n, max, p, dst),
        if 0 <? n then
          c ← gets (λ s, ld8 s.(km) p);
          if c =? 0 then mret (inr (dst ++ [0], max, true))
          else mret (inl (n - 1, max - 1, p + 1, dst ++ [c]))
        else mret (inr (dst, max, false))) (n, max, pa0 + (srcva - va0), dst);
      mret (inl (dst, u64 (va0 + PGSIZE), max, got_null))
    else if (got_null : bool) then mret (inr (0, dst))
    else mret (inr (-1, dst))) ([], srcva, max, false).

End vm.
