(* ===== verification/VmRep.v ===== *)
(** * What a page table means

    A page table in memory is described by the finite map [t] from index
    paths (innermost index first) to page-table pages: [t !! []] is the root,
    [t !! [i1; i2]] the leaf table under root entry [i2] and middle entry
    [i1].  [pte_of] is the address space it denotes: the PTE of each virtual
    page.  The lemmas say how [walk], a store to a leaf PTE and the loops of
    [mappages] and [uvmunmap] move between such descriptions. *)

From S2P Require Import Prelude Machine Kalloc Vm.

Section rep.
Context `{KI : KernelImage}.
Implicit Types (t : gmap (list Z) Z) (m : mem) (p : list Z).

Record pt_rep m t (root : Z) : Prop := {
  pt_root : t !! [] = Some root;
  pt_len : ∀ p a, t !! p = Some a → (length p ≤ 2)%nat;
  pt_closed : ∀ i p a, t !! (i :: p) = Some a → is_Some (t !! p) ∧ 0 ≤ i < 512;
  pt_inj : ∀ p q a, t !! p = Some a → t !! q = Some a → p = q;
  pt_page : ∀ p a, t !! p = Some a → managed a;
  pt_node : ∀ p a i, t !! p = Some a → (length p < 2)%nat → 0 ≤ i < 512 →
    ld64 m (a + 8 * i) =
      match t !! (i :: p) with Some b => Z.lor (PA2PTE b) PTE_V | None => 0 end;
}.

(** [pt_free t l]: no page-table page is on the free list. *)
Definition pt_free t (l : list Z) : Prop := ∀ p a, t !! p = Some a → a ∉ l.

Definition leaf_path (va : Z) : list Z := [PX 1 va; PX 2 va].
Definition leaf_addr t (va : Z) : Z :=
  match t !! leaf_path va with Some q => q + 8 * PX 0 va | None => 0 end.
Definition pte_of m t (va : Z) : Z :=
  match t !! leaf_path va with Some q => ld64 m (q + 8 * PX 0 va) | None => 0 end.

(** [pte_of] in two memories, outside a set of pages. *)
Definition same_space m t m' t' : Prop := ∀ va, pte_of m' t' va = pte_of m t va.

(** The frame of an operation that touches only page-table pages and pages it
    takes from (or returns to) the free list [l]. *)
Definition frame m m' t (l : list Z) : Prop := ∀ b,
  page_aligned b → b ∉ l → (∀ p, t !! p ≠ Some b) → agree m' m b (b + 4096).

Lemma child_pte b : managed b →
  has (Z.lor (PA2PTE b) PTE_V) PTE_V = true ∧ PTE2PA (Z.lor (PA2PTE b) PTE_V) = b.
Proof.
  intros Hb. destruct (managed_bounds b Hb) as (Hal & Hlo & Hhi). consts.
  change PTE_V with 1. split; [|by apply PTE2PA_mk; [done|lia|lia]].
  rw (has_testbit _ 0); [|lia]. by rw testbit_mk; [|lia..].
Qed.

Lemma managed_nz a : managed a → 0 < a.
Proof. intros H. destruct (managed_bounds a H) as (_ & ? & _). consts. lia. Qed.

(** An entry of a page-table page lies inside the page. *)
Lemma entry_inside a i : 0 ≤ i < 512 → a ≤ a + 8 * i ∧ a + 8 * i + 8 ≤ a + 4096.
Proof. lia. Qed.

Lemma pt_rep_agree m m' t root :
  (∀ p a, t !! p = Some a → (length p < 2)%nat → agree m m' a (a + 4096)) →
  pt_rep m t root → pt_rep m' t root.
Proof.
  intros Hag [????? Hn]. split; try done.
  intros p a i Hp Hlen Hi. rw -(Hn p a i) //.
  symmetry. apply ld64_agree. eapply agree_sub; [by eapply Hag|lia..].
Qed.

Lemma same_space_agree m m' t :
  (∀ p a, t !! p = Some a → agree m' m a (a + 4096)) → same_space m t m' t.
Proof.
  intros Hag va. rw /pte_of. destruct (t !! leaf_path va) as [q|] eqn:Hq; [|done].
  apply ld64_agree. pose proof (PX_range 0 va ltac:(lia)).
  eapply agree_sub; [by eapply Hag|lia..].
Qed.

(** Distinct page-table pages are disjoint. *)
Lemma pt_disjoint m t root p q a b :
  pt_rep m t root → t !! p = Some a → t !! q = Some b → p ≠ q → a + 4096 ≤ b ∨ b + 4096 ≤ a.
Proof.
  intros Hr Hp Hq Hne. apply pages_disjoint.
  - by destruct (pt_page _ _ _ Hr _ _ Hp).
  - by destruct (pt_page _ _ _ Hr _ _ Hq).
  - intros ->. by apply Hne, (pt_inj _ _ _ Hr p q b).
Qed.

(** Hanging a fresh zeroed page [b] below entry [i] of the table at path [p]. *)
Lemma pt_rep_grow m m0 t root p a i b :
  pt_rep m t root → t !! p = Some a → (length p < 2)%nat → 0 ≤ i < 512 →
  t !! (i :: p) = None → managed b → (∀ q, t !! q ≠ Some b) →
  (∀ q c, t !! q = Some c → agree m0 m c (c + 4096)) →
  let m' := st64 (memset m0 b 0 PGSIZE) (a + 8 * i) (Z.lor (PA2PTE b) PTE_V) in
  let t' := <[i :: p := b]> t in
  pt_rep m' t' root ∧ same_space m t m' t'.
Proof.
  intros Hr Hp Hlen Hi Hnone Hb Hfresh Hag m' t'.
  destruct (managed_bounds b Hb) as (Hbal & Hblo & Hbhi).
  assert (∀ q c, t !! q = Some c → c + 4096 ≤ b ∨ b + 4096 ≤ c) as Hdis.
  { intros q c Hq. apply pages_disjoint; [by destruct (pt_page _ _ _ Hr _ _ Hq)|done|].
    intros ->. by apply (Hfresh q). }
  assert (i :: p ≠ p) as Hnep.
  { intros Heq. apply (f_equal length) in Heq. simpl in Heq. lia. }
  assert (∀ q c, t !! q = Some c → q ≠ p → agree m' m c (c + 4096)) as Hother.
  { intros q c Hq Hne. eapply agree_trans; [|by eapply Hag].
    eapply agree_trans.
    - apply st64_agree. destruct (pt_disjoint _ _ _ _ _ _ _ Hr Hq Hp Hne); lia.
    - apply memset_agree. consts. destruct (Hdis q c Hq); lia. }
  assert (∀ j, 0 ≤ j < 512 → j ≠ i → ld64 m' (a + 8 * j) = ld64 m (a + 8 * j)) as Hself.
  { intros j Hj Hne. rw /m' ld64_st64_ne; [|lia].
    apply ld64_agree. eapply agree_trans; [|eapply agree_sub; [by eapply Hag|lia..]].
    apply memset_agree. consts. destruct (Hdis p a Hp); lia. }
  assert (∀ j, 0 ≤ j < 512 → ld64 m' (b + 8 * j) = 0) as Hzero.
  { intros j Hj. rw /m' ld64_st64_ne; [|destruct (Hdis p a Hp); lia].
    apply ld64_memset_0; consts; lia. }
  assert (∀ j, t !! (j :: i :: p) = None) as Hnochild.
  { intros j. destruct (t !! (j :: i :: p)) eqn:E; [|done].
    destruct (pt_closed _ _ _ Hr _ _ _ E) as [[? H] _]. congruence. }
  split.
  - split.
    + rw lookup_insert_ne //. apply Hr.
    + intros q c. rw lookup_insert. case_decide; [by subst; simpl; lia|apply Hr].
    + intros j q c. rw lookup_insert. case_decide as Hc; subst.
      * injection Hc as -> ->. intros _. rw lookup_insert_ne //; eauto.
      * intros Hq. destruct (pt_closed _ _ _ Hr _ _ _ Hq) as [Hs ?]. split; [|done].
        rw lookup_insert. case_decide; eauto.
    + intros q1 q2 c. rw !lookup_insert. repeat case_decide; subst; try done.
      * intros [= ->] H2. by apply Hfresh in H2.
      * intros H2 [= ->]. by apply Hfresh in H2.
      * apply Hr.
    + intros q c. rw lookup_insert. case_decide; [by intros [= <-]|apply Hr].
    + intros q c j Hq Hql Hj. rw lookup_insert in Hq. case_decide as Hc; subst.
      * injection Hq as <-. rw lookup_insert_ne; [|intros Heq; injection Heq as _ Heq;
          apply (f_equal length) in Heq; simpl in Heq; lia].
        rw Hnochild. by apply Hzero.
      * destruct (decide (q = p)) as [->|Hne].
        { assert (c = a) as -> by congruence. destruct (decide (j = i)) as [->|Hji].
          - rw lookup_insert_eq /m' ld64_st64_eq //.
            change PTE_V with 1. rw pte_sum; consts; lia.
          - rw lookup_insert_ne; [|congruence]. rw Hself //. by apply Hr. }
        rw lookup_insert_ne; [|congruence].
        rw (ld64_agree m' m); [by apply Hr|]. eapply agree_sub; [by eapply Hother|lia..].
  - intros va. rw /pte_of. pose proof (PX_range 0 va ltac:(lia)).
    rw lookup_insert. case_decide as Hc.
    + rw Hzero // -Hc. by rw Hnone.
    + destruct (t !! leaf_path va) as [q|] eqn:Hq; [|done].
      apply ld64_agree. eapply agree_sub; [eapply Hother; [done|]|lia..].
      intros <-. simpl in Hlen. lia.
Qed.

(** A store to a leaf PTE changes the space at that page only. *)
Lemma pt_rep_store m t root va v :
  pt_rep m t root → 0 ≤ va < MAXVA → leaf_addr t va ≠ 0 → 0 ≤ v < 2 ^ 64 →
  let m' := st64 m (leaf_addr t va) v in
  pt_rep m' t root ∧
  (∀ va', 0 ≤ va' < MAXVA →
     pte_of m' t va' = if va' / 4096 =? va / 4096 then v else pte_of m t va').
Proof.
  intros Hr Hva Hnz Hv. rw /leaf_addr in Hnz *.
  destruct (t !! leaf_path va) as [q|] eqn:Hq; [|done]. set (m' := st64 m (q + 8 * PX 0 va) v).
  pose proof (PX_range 0 va ltac:(lia)) as H0.
  split.
  - eapply pt_rep_agree; [|done]. intros p a Hp Hlen. apply agree_sym, st64_agree.
    destruct (pt_disjoint _ _ _ _ _ _ _ Hr Hp Hq); [|lia..].
    intros ->. simpl in Hlen. lia.
  - intros va' Hva'. pose proof (PX_range 0 va' ltac:(lia)) as H0'.
    pose proof (PX_page va Hva) as E. pose proof (PX_page va' Hva') as E'.
    pose proof (PX_range 1 va ltac:(lia)). pose proof (PX_range 1 va' ltac:(lia)).
    pose proof (PX_range 2 va ltac:(lia)). pose proof (PX_range 2 va' ltac:(lia)).
    rw /pte_of. destruct (Z.eqb_spec (va' / 4096) (va / 4096)) as [Heq|Hne].
    + assert (PX 2 va' = PX 2 va ∧ PX 1 va' = PX 1 va ∧ PX 0 va' = PX 0 va) as (F2 & F1 & F0)
        by lia.
      rw /leaf_path F2 F1 F0 -/(leaf_path va) Hq. by apply ld64_st64_eq.
    + destruct (t !! leaf_path va') as [q'|] eqn:Hq'; [|done].
      destruct (decide (leaf_path va' = leaf_path va)) as [Hpath|Hpath].
      * rw Hpath Hq in Hq'. injection Hq' as <-. injection Hpath as F1 F2.
        apply ld64_st64_ne. lia.
      * apply ld64_st64_ne. destruct (pt_disjoint _ _ _ _ _ _ _ Hr Hq' Hq Hpath); lia.
Qed.

(** ** [walk] *)

(** The path of the table [walk] looks at on reaching [level]. *)
Definition path_at (va level : Z) : list Z :=
  if level =? 2 then [] else if level =? 1 then [PX 2 va] else leaf_path va.

Lemma path_at_next va level : 0 < level ≤ 2 →
  path_at va (level - 1) = PX level va :: path_at va level ∧ (length (path_at va level) < 2)%nat.
Proof. intros. assert (level = 1 ∨ level = 2) as [-> | ->] by lia; simpl; split; (done || lia). Qed.

(** If the table under [level] is missing there is no leaf. *)
Lemma leaf_addr_missing m t root va level :
  pt_rep m t root → 0 < level ≤ 2 → t !! path_at va (level - 1) = None → leaf_addr t va = 0.
Proof.
  intros Hr Hl Hn. rw /leaf_addr. destruct (t !! leaf_path va) as [q|] eqn:Hq; [|done].
  assert (level = 1 ∨ level = 2) as [-> | ->] by lia.
  - change (t !! leaf_path va = None) in Hn. congruence.
  - change (t !! [PX 2 va] = None) in Hn.
    destruct (pt_closed _ _ _ Hr _ _ _ Hq) as [[? H] _]. congruence.
Qed.

Lemma leaf_addr_nz m t root va q :
  pt_rep m t root → t !! leaf_path va = Some q → leaf_addr t va = q + 8 * PX 0 va ∧ leaf_addr t va ≠ 0.
Proof.
  intros Hr Hq. rw /leaf_addr Hq. split; [done|].
  pose proof (managed_nz q (pt_page _ _ _ Hr _ _ Hq)). pose proof (PX_range 0 va ltac:(lia)). lia.
Qed.

Lemma pte_of_leaf_addr m t va : leaf_addr t va ≠ 0 → ld64 m (leaf_addr t va) = pte_of m t va.
Proof. rw /leaf_addr /pte_of. by destruct (t !! leaf_path va). Qed.

Lemma walk_spec s t root va :
  pt_rep (km s) t root → 0 ≤ va < MAXVA → walk root va false s = Ok (leaf_addr t va, s).
Proof.
  intros Hr Hva. apply wp_eq_run. rw /walk. zdec.
  apply (wp_loop (λ '(level, pt) s', s' = s ∧ 0 ≤ level ≤ 2 ∧ t !! path_at va level = Some pt)
           (λ '(level, _), level)).
  - split_and!; [done|lia|lia|apply Hr].
  - lia.
  - intros [level pt] s' (-> & Hl & Hp) _.
    destruct (Z.ltb_spec 0 level).
    + destruct (path_at_next va level) as [Hnext Hlen]; [lia|].
      apply wp_gets_bind. rw (pt_node _ _ _ Hr _ _ _ Hp Hlen); [|by apply PX_range; lia].
      rw -Hnext. destruct (t !! path_at va (level - 1)) as [b|] eqn:Hb.
      * destruct (child_pte b) as [-> ->]; [by eapply pt_page|].
        apply wp_ret. split; [|lia]. split_and!; [done|lia|lia|done].
      * apply wp_ret. split; [|done]. by rw (leaf_addr_missing _ _ _ _ _ Hr _ Hb); [|lia].
    + assert (level = 0) as -> by lia. apply wp_ret. split; [|done].
      by destruct (leaf_addr_nz _ _ _ va pt Hr Hp) as [-> _].
Qed.

(** [evolves s t pool s' t' l' root sp]: from state [s] with table [t], an
    operation that owns the pages [pool] has reached [s'], where the table is
    [t'], the free list [l'] and the address space [sp].  New page-table pages
    and free pages come from the pool, and nothing outside the tables and the
    pool was written. *)
Record evolves (s : kst) t (pool : list Z) (s' : kst) t' (l' : list Z) (root : Z) (sp : Z → Z)
  : Prop := {
  g_rep : pt_rep (km s') t' root;
  g_sub : t ⊆ t';
  g_space : ∀ va, 0 ≤ va < MAXVA → pte_of (km s') t' va = sp va;
  g_fp : free_pages s' l';
  g_free : pt_free t' l';
  g_pool : l' ⊆ pool;
  g_new : ∀ p a, t' !! p = Some a → t !! p = Some a ∨ a ∈ pool;
  g_frame : frame (km s) (km s') t pool;
}.

Lemma evolves_refl s t l root :
  pt_rep (km s) t root → free_pages s l → pt_free t l →
  evolves s t l s t l root (pte_of (km s) t).
Proof. intros. split; try done. auto. Qed.

(** Spaces are functions compared on the addresses below [MAXVA]. *)
Lemma evolves_ext s t pool s' t' l' root sp sp' :
  (∀ va, 0 ≤ va < MAXVA → sp va = sp' va) →
  evolves s t pool s' t' l' root sp → evolves s t pool s' t' l' root sp'.
Proof. intros Heq [? ? Hsp ? ? ? ? ?]. split; try done. intros. by rw Hsp // Heq. Qed.

Lemma evolves_managed s t pool s' t' l' root sp a :
  evolves s t pool s' t' l' root sp → a ∈ l' → managed a.
Proof. intros Hg Ha. pose proof (fp_managed _ _ (g_fp _ _ _ _ _ _ _ _ Hg)) as Hm.
  rw Forall_forall in Hm. by apply Hm. Qed.

(** One allocating step of [walk]: the page [b] just popped off the free list
    becomes the child of the table at path [p]. *)
Lemma evolves_step s t pool s1 t1 l1 root sp p a i b s2 :
  evolves s t pool s1 t1 (b :: l1) root sp → t1 !! p = Some a → (length p < 2)%nat → 0 ≤ i < 512 →
  t1 !! (i :: p) = None → free_pages s2 l1 →
  (∀ lo hi, hi ≤ b ∨ b + 4096 ≤ lo → agree s2.(km) s1.(km) lo hi) →
  evolves s t pool
    (set_km (λ m, st64 m (a + 8 * i) (Z.lor (PA2PTE b) PTE_V)) (set_km (λ m, memset m b 0 PGSIZE) s2))
    (<[i :: p := b]> t1) l1 root sp.
Proof.
  intros [Hr Hsub Hsp Hfp Hfree Hpool Hnew Hfr] Hp Hlen Hi Hnone Hfp2 Hag.
  pose proof (fp_managed _ _ Hfp) as Hm. inversion Hm as [|?? Hb Hl1]; subst.
  pose proof (fp_nodup _ _ Hfp) as [Hbn _]%NoDup_cons.
  assert (∀ q, t1 !! q ≠ Some b) as Hfresh.
  { intros q Hq. apply (Hfree q b Hq). set_solver. }
  assert (∀ c, page_aligned c → c ≠ b → c ≠ a →
            agree (st64 (memset (km s2) b 0 PGSIZE) (a + 8 * i) (Z.lor (PA2PTE b) PTE_V))
                  (km s1) c (c + 4096)) as Hpages.
  { intros c Hc Hcb Hca. destruct (managed_bounds b Hb) as (Hbal & _).
    pose proof (pt_page _ _ _ Hr _ _ Hp) as [Haal _].
    destruct (pages_disjoint c b), (pages_disjoint c a); try done;
      (eapply agree_trans; [apply st64_agree; lia|]);
      (eapply agree_trans; [apply memset_agree; consts; lia|]); apply Hag; lia. }
  destruct (pt_rep_grow (km s1) (km s2) t1 root p a i b) as [Hr' Hsp']; try done.
  { intros q c Hq. apply Hag. assert (c ≠ b) by (intros ->; by eapply Hfresh).
    destruct (pages_disjoint c b); try done; [by destruct (pt_page _ _ _ Hr _ _ Hq)|by destruct Hb|lia..]. }
  split; simpl; try done.
  - etrans; [done|]. by apply insert_subseteq.
  - intros va Hva. by rw Hsp' Hsp.
  - eapply free_pages_agree; [..|done]; [done|]. intros c Hc. simpl.
    assert (page_aligned c) as Hcal by (rw Forall_forall in Hl1; by apply Hl1).
    apply agree_sym.
    eapply agree_trans; [apply Hpages; [done|set_solver|]|].
    + intros ->. apply (Hfree p a Hp). set_solver.
    + apply agree_sym, Hag. assert (c ≠ b) by set_solver.
      destruct (pages_disjoint c b); try done; [by destruct Hb|lia..].
  - intros q c. rw lookup_insert. case_decide; [by intros [= <-]|].
    intros Hq Hin. apply (Hfree q c Hq). set_solver.
  - set_solver.
  - intros q c. rw lookup_insert. case_decide; [|eauto].
    intros [= <-]. right. set_solver.
  - intros c Hc Hcl Hct. eapply agree_trans; [|by apply Hfr].
    apply Hpages; [done|set_solver|]. intros ->.
    destruct (Hnew p a Hp) as [Hta|Hin]; [by eapply Hct|done].
Qed.

(** A store to a leaf PTE. *)
Lemma evolves_store s t pool s1 t1 l1 root sp va v :
  evolves s t pool s1 t1 l1 root sp → 0 ≤ va < MAXVA → leaf_addr t1 va ≠ 0 → 0 ≤ v < 2 ^ 64 →
  evolves s t pool (set_km (λ m, st64 m (leaf_addr t1 va) v) s1) t1 l1 root
    (λ va', if va' / 4096 =? va / 4096 then v else sp va').
Proof.
  intros [Hr Hsub Hsp Hfp Hfree Hpool Hnew Hfr] Hva Hnz Hv.
  destruct (pt_rep_store _ _ _ _ _ Hr Hva Hnz Hv) as [Hr' Hsp'].
  pose proof (PX_range 0 va ltac:(lia)). rw /leaf_addr in Hnz.
  destruct (t1 !! leaf_path va) as [q|] eqn:Hq; [|done].
  assert (leaf_addr t1 va = q + 8 * PX 0 va) as Hla by (by rw /leaf_addr Hq).
  destruct (pt_page _ _ _ Hr _ _ Hq) as [Hqal _].
  assert (∀ c, page_aligned c → c ≠ q →
            agree (st64 (km s1) (q + 8 * PX 0 va) v) (km s1) c (c + 4096)) as Hpages.
  { intros c Hc Hcq. apply st64_agree. destruct (pages_disjoint c q); try done; lia. }
  split; simpl; try done.
  - intros va' Hva'. rw Hsp' //. by case_match; [|apply Hsp].
  - eapply free_pages_agree; [..|done]; [done|]. intros c Hc. rw /= Hla. apply agree_sym, Hpages.
    + pose proof (fp_managed _ _ Hfp) as Hm. rw Forall_forall in Hm. by apply Hm.
    + intros ->. by eapply Hfree.
  - intros c Hc Hcl Hct. rw Hla. eapply agree_trans; [|by apply Hfr]. apply Hpages; [done|].
    intros ->. destruct (Hnew _ _ Hq); [by eapply Hct|done].
Qed.

(** The tables on the way to [va]. *)
Definition on_path (va : Z) (p : list Z) : Prop := p = [PX 2 va] ∨ p = leaf_path va.

(** Every page taken from the free list became a table on the way to an
    address that satisfies [P]. *)
Definition tables_grow (P : Z → Prop) t1 (l1 : list Z) t' (l' : list Z) : Prop :=
  (size t' + length l' = size t1 + length l1)%nat ∧
  ∀ p a, t' !! p = Some a → is_Some (t1 !! p) ∨ ∃ va, P va ∧ on_path va p.

Lemma tables_grow_refl P t l : tables_grow P t l t l.
Proof. split; [done|]. eauto. Qed.
Lemma tables_grow_trans P Q t1 l1 t2 l2 t3 l3 : (∀ va, P va → Q va) →
  tables_grow Q t1 l1 t2 l2 → tables_grow P t2 l2 t3 l3 → tables_grow Q t1 l1 t3 l3.
Proof.
  intros HPQ [Hn Hp] [Hn' Hp']. split; [lia|]. intros p a Ha.
  destruct (Hp' p a Ha) as [[b Hb]|(va & Hva & Hon)]; [by eapply Hp|right; eauto].
Qed.

Lemma walk_alloc_grows s t pool s1 t1 l1 root sp va :
  evolves s t pool s1 t1 l1 root sp → 0 ≤ va < MAXVA →
  wp (walk root va true) (λ r s', ∃ t' l', evolves s t pool s' t' l' root sp ∧
        (∃ u, l1 = u ++ l') ∧ (r = 0 ∧ l' = [] ∨ r = leaf_addr t' va ∧ r ≠ 0) ∧ tables_grow (eq va) t1 l1 t' l') s1.
Proof.
  intros Hg0 Hva. rw /walk. zdec.
  apply (wp_loop (λ '(level, pt) s', 0 ≤ level ≤ 2 ∧ ∃ t' l',
             evolves s t pool s' t' l' root sp ∧ (∃ u, l1 = u ++ l') ∧
             t' !! path_at va level = Some pt ∧ tables_grow (eq va) t1 l1 t' l')
           (λ '(level, _), level)).
  - split; [lia|]. exists t1, l1. split_and!; [done|by exists []|apply Hg0|apply tables_grow_refl].
  - lia.
  - intros [level pt] s2 (Hl & t2 & l2 & Hg & Hu & Hp & Hgr) _.
    pose proof (g_rep _ _ _ _ _ _ _ _ Hg) as Hr.
    destruct (Z.ltb_spec 0 level).
    + destruct (path_at_next va level) as [Hnext Hlen]; [lia|].
      apply wp_gets_bind. rw (pt_node _ _ _ Hr _ _ _ Hp Hlen); [|by apply PX_range; lia].
      rw -Hnext. destruct (t2 !! path_at va (level - 1)) as [b|] eqn:Hb.
      * destruct (child_pte b) as [-> ->]; [by eapply pt_page|].
        apply wp_ret. split; [|lia]. split; [lia|]. eauto 10.
      * simpl. apply wp_bind. eapply wp_mono; [|apply kalloc_spec, Hg].
        intros r s3 Hk. destruct l2 as [|b l2].
        { destruct Hk as [-> ->]. apply wp_ret. eauto 10. }
        destruct Hk as (-> & Hfp & Hag).
        pose proof (managed_nz b (evolves_managed _ _ _ _ _ _ _ _ b Hg ltac:(set_solver))). zdec.
        apply wp_modify_bind, wp_modify_bind, wp_ret. split; [|lia]. split; [lia|].
        assert (on_path va (path_at va (level - 1))) as Hon.
        { assert (level = 1 ∨ level = 2) as [->| ->] by lia; [by right|by left]. }
        eexists _, l2. split_and!.
        { eapply evolves_step; try done; [by apply PX_range; lia|by rw -Hnext]. }
        { destruct Hu as [u ->]. exists (u ++ [b]). by rw -assoc. }
        { by rw Hnext lookup_insert_eq. }
        rw -Hnext. destruct Hgr as [Hn Hps]. split; [rw map_size_insert_None //=; simpl in Hn; lia|].
        intros p a. rw lookup_insert. case_decide as Hpe; [subst p; right; by exists va|apply Hps].
    + assert (level = 0) as -> by lia. apply wp_ret. exists t2, l2. split_and!; [done..| |done].
      right. by destruct (leaf_addr_nz _ _ _ va pt Hr Hp) as [-> ?].
Qed.

(** ** [mappages] and [uvmunmap] on address spaces *)

(** The space after mapping [n] pages at [a] to consecutive frames from [pa]. *)
Definition map_range (sp : Z → Z) (a n pa perm : Z) : Z → Z := λ va,
  if (a <=? va) && (va <? a + n * 4096) then
    Z.lor (Z.lor (PA2PTE (pa + (va / 4096 - a / 4096) * 4096)) perm) PTE_V
  else sp va.
Definition unmap_range (sp : Z → Z) (a n : Z) : Z → Z := λ va,
  if (a <=? va) && (va <? a + n * 4096) then 0 else sp va.

Lemma map_pte_range pa perm : 0 ≤ pa < 2 ^ 56 → 0 ≤ perm < 1024 →
  0 ≤ Z.lor (Z.lor (PA2PTE pa) perm) PTE_V < 2 ^ 64.
Proof.
  intros. change PTE_V with 1. rw -Z.lor_assoc pte_sum //; [|by apply lor_range_1024].
  pose proof (lor_range_1024 perm 1). lia.
Qed.

Lemma mappages_grows s t pool s1 t1 l1 root sp va size pa perm :
  evolves s t pool s1 t1 l1 root sp →
  0 ≤ va → 0 < size → va + size ≤ MAXVA → 0 ≤ pa → pa + size + 4096 < 2 ^ 56 → 0 ≤ perm < 1024 →
  let a0 := PGROUNDDOWN va in
  let np := (PGROUNDDOWN (va + size - 1) - a0) / 4096 + 1 in
  (∀ va', a0 ≤ va' < a0 + np * 4096 → has (sp va') PTE_V = false) →
  wp (mappages root va size pa perm) (λ r s', ∃ t' l' n,
      evolves s t pool s' t' l' root (map_range sp a0 n pa perm) ∧ (∃ u, l1 = u ++ l') ∧
      (r = 0 ∧ n = np ∨ r = -1 ∧ 0 ≤ n < np ∧ l' = []) ∧
      tables_grow (λ va', a0 ≤ va' < a0 + np * 4096) t1 l1 t' l') s1.
Proof.
  intros Hg0 Hva Hsz Hmax Hpa Hpa2 Hperm a0 np Hun. rw /mappages. zdec.
  rw u64_small; [|consts; lia]. rw -/a0.
  set (last := PGROUNDDOWN (va + size - 1)) in *.
  assert (a0 mod 4096 = 0 ∧ last mod 4096 = 0 ∧ 0 ≤ a0 ≤ va ∧ a0 ≤ last ∧ last < MAXVA
          ∧ last < va + size ∧ va < a0 + 4096)
    as (Ha0 & Hlast & Hav & Hal & Hlm & Hls & Hva0).
  { rw /a0 /last !PGROUNDDOWN_eq. consts. lia. }
  apply (wp_loop (λ '(a, pa') s', ∃ t' l' n, evolves s t pool s' t' l' root (map_range sp a0 n pa perm) ∧
            (∃ u, l1 = u ++ l') ∧ 0 ≤ n < np ∧ a = a0 + n * 4096 ∧ pa' = pa + n * 4096 ∧
            tables_grow (λ va', a0 ≤ va' < a0 + np * 4096) t1 l1 t' l')
          (λ '(a, _), last - a)).
  - exists t1, l1, 0. split_and!; try lia.
    + eapply evolves_ext; [|done]. intros va' _. rw /map_range. by zbool; try lia.
    + by exists [].
    + apply tables_grow_refl.
  - consts. lia.
  - intros [a pa'] s2 (t2 & l2 & n & Hg & Hu & Hn & -> & -> & Hgr) _.
    assert (0 ≤ a0 + n * 4096 ≤ last) as Hrng by lia.
    apply wp_bind. eapply wp_mono; [|eapply walk_alloc_grows; [done|lia]].
    intros pte s3 (t3 & l3 & Hg3 & [u3 ->] & Hcase & Hgr3).
    assert (tables_grow (λ va', a0 ≤ va' < a0 + np * 4096) t1 l1 t3 l3) as Hgr' by (eapply tables_grow_trans; [|done..]; simpl; lia).
    assert (∃ u, l1 = u ++ l3) as Hu' by (destruct Hu as [u ->]; exists (u ++ u3); by rw assoc).
    destruct Hcase as [[-> ->]|[-> Hnz]].
    { apply wp_ret. exists t3, [], n. split_and!; try done. right. split_and!; (lia || done). }
    rw (proj2 (Z.eqb_neq _ _) Hnz). apply wp_gets_bind.
    rw pte_of_leaf_addr // (g_space _ _ _ _ _ _ _ _ Hg3); [|lia].
    assert (map_range sp a0 n pa perm (a0 + n * 4096) = sp (a0 + n * 4096)) as ->
      by (rw /map_range; zbool; lia || done).
    rw Hun; [|lia]. apply wp_modify_bind.
    pose proof (map_pte_range (pa + n * 4096) perm ltac:(lia) Hperm) as Hv.
    pose proof (evolves_store _ _ _ _ _ _ _ _ (a0 + n * 4096) _ Hg3 ltac:(lia) Hnz Hv) as Hg4.
    assert (evolves s t pool
       (set_km (λ m, st64 m (leaf_addr t3 (a0 + n * 4096))
            (Z.lor (Z.lor (PA2PTE (pa + n * 4096)) perm) PTE_V)) s3)
       t3 l3 root (map_range sp a0 (n + 1) pa perm)) as Hg5.
    { eapply evolves_ext; [|exact Hg4]. intros va' Hva'. rw /map_range.
      destruct (Z.eqb_spec (va' / 4096) ((a0 + n * 4096) / 4096)) as [Heq|Hne].
      - zdec. do 3 f_equal. lia.
      - zbool; (lia || done). }
    destruct (Z.eqb_spec (a0 + n * 4096) last) as [Heq|Hne]; apply wp_ret.
    + exists t3, l3, (n + 1). split_and!; try done. left. lia.
    + consts. rw !u64_small; try lia. split; [|lia].
      exists t3, l3, (n + 1). split_and!; try done; lia.
Qed.

Lemma mappages_spec s t pool s1 t1 l1 root sp va size pa perm :
  evolves s t pool s1 t1 l1 root sp →
  0 ≤ va → 0 < size → va + size ≤ MAXVA → 0 ≤ pa → pa + size + 4096 < 2 ^ 56 → 0 ≤ perm < 1024 →
  let a0 := PGROUNDDOWN va in
  let np := (PGROUNDDOWN (va + size - 1) - a0) / 4096 + 1 in
  (∀ va', a0 ≤ va' < a0 + np * 4096 → has (sp va') PTE_V = false) →
  wp (mappages root va size pa perm) (λ r s', ∃ t' l' n,
      evolves s t pool s' t' l' root (map_range sp a0 n pa perm) ∧ (∃ u, l1 = u ++ l') ∧
      (r = 0 ∧ n = np ∨ r = -1 ∧ 0 ≤ n < np ∧ l' = [])) s1.
Proof.
  intros Hg Hva Hsz Hmax Hpa Hpa2 Hperm a0 np Hun.
  eapply wp_mono; [|eapply (mappages_grows _ _ _ _ _ _ _ _ va size pa perm Hg); eassumption].
  intros r s' (t' & l' & n & Hg' & Hu & Hcase & _). eauto 10.
Qed.

Lemma has_0 f : has 0 f = false.
Proof. rw /has Z.land_0_l //. Qed.

(** The frames a range of a space maps, first page first. *)
Definition frames (sp : Z → Z) (va n : Z) : list Z := (λ i, PTE2PA (sp (va + 4096 * i))) <$> seqZ 0 n.

Lemma frames_snoc sp va n : 0 ≤ n → frames sp va (n + 1) = frames sp va n ++ [PTE2PA (sp (va + 4096 * n))].
Proof.
  intros. rw /frames seqZ_app; [|lia..]. by rw fmap_app.
Qed.

Lemma elem_of_frames sp va n a :
  a ∈ frames sp va n ↔ ∃ i, 0 ≤ i < n ∧ a = PTE2PA (sp (va + 4096 * i)).
Proof.
  rw /frames list_elem_of_fmap. setoid_rewrite elem_of_seqZ. split.
  - intros (i & -> & ?). exists i. split; [lia|done].
  - intros (i & ? & ->). exists i. split; [done|lia].
Qed.
End rep.
