(* ===== verification/VmMap.v ===== *)
(** * Address-space operations: [uvmunmap], [uvmalloc], [uvmdealloc], [uvmcopy]

    Built on [evolves] of VmRep: each operation is shown to move a page table
    from one described address space to another, handing pages to and from
    the allocator's free list. *)

From S2P Require Import Prelude Machine Kalloc Vm VmRep.

Section map.
Context `{KI : KernelImage}.
Implicit Types (t to tn : gmap (list Z) Z) (m : mem) (p : list Z) (s : kst).

Lemma evolves_trans s t pool s1 t1 l1 root sp1 pool1 s2 t2 l2 sp2 :
  evolves s t pool s1 t1 l1 root sp1 → evolves s1 t1 pool1 s2 t2 l2 root sp2 → pool1 ⊆ pool →
  evolves s t pool s2 t2 l2 root sp2.
Proof.
  intros [_ Hsub _ _ _ _ Hnew Hfr] [Hr2 Hsub2 Hsp2 Hfp2 Hfree2 Hpool2 Hnew2 Hfr2] Hp.
  split; try done.
  - by etrans.
  - by etrans.
  - intros p a Ha. destruct (Hnew2 p a Ha) as [Ha'|Ha']; [by apply Hnew|right; by apply Hp].
  - intros b Hb Hbp Hbt. eapply agree_trans; [apply Hfr2; [done| |]|by apply Hfr].
    + intros Hin. by apply Hbp, Hp.
    + intros p Hbt1. destruct (Hnew p b Hbt1); [by eapply Hbt|done].
Qed.

(** Restart the description from the current state: what happens next then
    leaves every page that is neither a table nor free now untouched. *)
Lemma evolves_here s t pool s1 t1 l1 root sp :
  evolves s t pool s1 t1 l1 root sp → evolves s1 t1 l1 s1 t1 l1 root sp.
Proof. intros [????????]. split; try done. auto. Qed.

(** A step that changes one page of the pool, not a table, and the free list. *)
Lemma evolves_upd s t pool s1 t1 l1 root sp b s2 l2 :
  evolves s t pool s1 t1 l1 root sp →
  page_aligned b → b ∈ pool → (∀ p, t1 !! p ≠ Some b) →
  (∀ lo hi, hi ≤ b ∨ b + 4096 ≤ lo → agree (km s2) (km s1) lo hi) →
  free_pages s2 l2 → l2 ⊆ b :: l1 →
  evolves s t pool s2 t1 l2 root sp.
Proof.
  intros [Hr Hsub Hsp Hfp Hfree Hpool Hnew Hfr] Hb Hbp Hbt Hag Hfp2 Hl2.
  assert (∀ c, page_aligned c → c ≠ b → agree (km s2) (km s1) c (c + 4096)) as Hag'.
  { intros c Hc Hne. apply Hag. destruct (pages_disjoint c b); try done; lia. }
  assert (∀ p a, t1 !! p = Some a → page_aligned a ∧ a ≠ b) as Htab.
  { intros p a Ha. split; [by destruct (pt_page _ _ _ Hr _ _ Ha)|intros ->; by eapply Hbt]. }
  split; try done.
  - eapply pt_rep_agree; [|done]. intros p a Ha _. apply agree_sym.
    destruct (Htab p a Ha). by apply Hag'.
  - intros va Hva. rw -Hsp //. apply same_space_agree. intros p a Ha.
    destruct (Htab p a Ha). by apply Hag'.
  - intros p a Ha Hin. destruct (Htab p a Ha). apply Hl2 in Hin as [?|?]%elem_of_cons; [done|].
    by eapply Hfree.
  - set_solver.
  - intros c Hc Hcp Hct. eapply agree_trans; [|by apply Hfr]. apply Hag'; [done|set_solver].
Qed.

Lemma evolves_kalloc s t pool s1 t1 l1 root sp :
  evolves s t pool s1 t1 l1 root sp →
  wp kalloc (λ r s', match l1 with
    | [] => r = 0 ∧ s' = s1
    | b :: l => r = b ∧ managed b ∧ b ∉ l ∧ evolves s t pool s' t1 l root sp ∧
        (∀ lo hi, hi ≤ b ∨ b + 4096 ≤ lo → agree s'.(km) s1.(km) lo hi)
    end) s1.
Proof.
  intros Hg. eapply wp_mono; [|apply kalloc_spec, Hg]. intros r s' Hk.
  destruct l1 as [|b l]; [done|]. destruct Hk as (-> & Hfp & Hag).
  pose proof (evolves_managed _ _ _ _ _ _ _ _ b Hg ltac:(set_solver)) as Hb.
  pose proof (fp_nodup _ _ (g_fp _ _ _ _ _ _ _ _ Hg)) as [Hbl _]%NoDup_cons.
  split_and!; try done. eapply evolves_upd; try done.
  - by destruct Hb.
  - eapply (g_pool _ _ _ _ _ _ _ _ Hg). set_solver.
  - intros p Hp. eapply (g_free _ _ _ _ _ _ _ _ Hg); [done|]. set_solver.
  - set_solver.
Qed.

Lemma evolves_kfree s t pool s1 t1 l1 root sp b :
  evolves s t pool s1 t1 l1 root sp → managed b → b ∉ l1 → b ∈ pool → (∀ p, t1 !! p ≠ Some b) →
  wp (kfree b) (λ _ s', evolves s t pool s' t1 (b :: l1) root sp ∧
        ∀ lo hi, hi ≤ b ∨ b + 4096 ≤ lo → agree s'.(km) s1.(km) lo hi) s1.
Proof.
  intros Hg Hb Hbl Hbp Hbt. eapply wp_mono; [|apply kfree_spec; [apply Hg|done..]].
  intros _ s' [Hfp Hag]. split; [|done]. eapply evolves_upd; try done. by destruct Hb.
Qed.

(** A write confined to a page of the pool that is neither free nor a table. *)
Lemma evolves_write_page s t pool s2 t1 l1 root sp b (f : mem → mem) :
  evolves s t pool s2 t1 l1 root sp → managed b → b ∉ l1 → b ∈ pool → (∀ p, t1 !! p ≠ Some b) →
  (∀ lo hi, hi ≤ b ∨ b + 4096 ≤ lo → agree (f (km s2)) (km s2) lo hi) →
  evolves s t pool (set_km f s2) t1 l1 root sp.
Proof.
  intros Hg [Hal Hb] Hbl Hbp Hbt Hag. eapply evolves_upd; try done; [|set_solver].
  eapply free_pages_agree; [..|apply Hg]; [done|]. intros c Hc. simpl. apply agree_sym, Hag.
  pose proof (evolves_managed _ _ _ _ _ _ _ _ c Hg Hc) as [Hcal _].
  destruct (pages_disjoint c b); try done; [set_solver|lia..].
Qed.

(** ** [uvmunmap] *)

Lemma mapped_leaf_addr m t root va f :
  pt_rep m t root → has (pte_of m t va) f = true → leaf_addr t va ≠ 0.
Proof.
  intros Hr. rw /pte_of. destruct (t !! leaf_path va) eqn:E; [|by rw has_0].
  intros _. by destruct (leaf_addr_nz _ _ _ va _ Hr E).
Qed.

Lemma uvmunmap_spec s t pool s1 t1 l1 root sp va n (do_free : bool) :
  evolves s t pool s1 t1 l1 root sp →
  0 ≤ va → page_aligned va → 0 ≤ n → va + n * 4096 ≤ MAXVA →
  (∀ i, 0 ≤ i < n → has (sp (va + 4096 * i)) PTE_V = true ∧ PTE_FLAGS (sp (va + 4096 * i)) ≠ PTE_V) →
  (do_free = true → Forall managed (frames sp va n) ∧ NoDup (frames sp va n ++ l1) ∧
     frames sp va n ⊆ pool ∧ ∀ p a, t1 !! p = Some a → a ∉ frames sp va n) →
  wp (uvmunmap root va n do_free) (λ _ s',
    evolves s t pool s' t1 ((if do_free then reverse (frames sp va n) else []) ++ l1) root
      (unmap_range sp va n)) s1.
Proof.
  intros Hg Hva Hal Hn Hmax Hmap Hfree. rw /uvmunmap. rw /page_aligned in Hal. consts. zdec.
  rw (u64_small (va + n * 4096)); [|lia].
  apply (wp_loop (λ a s', ∃ k, 0 ≤ k ≤ n ∧ a = va + 4096 * k ∧
      evolves s t pool s' t1 ((if do_free then reverse (frames sp va k) else []) ++ l1) root
        (unmap_range sp va k)) (λ a, va + n * 4096 - a)).
  - exists 0. split_and!; try lia. eapply evolves_ext; last first.
    + by destruct do_free.
    + intros va' _. rw /unmap_range. zbool; (lia || done).
  - lia.
  - intros a s2 (k & Hk & -> & Hg2) _. zbool; last first.
    { apply wp_ret. by assert (k = n) as -> by lia. }
    apply wp_bind. pose proof (g_rep _ _ _ _ _ _ _ _ Hg2) as Hr2.
    eapply wp_of_run; [eapply walk_spec; [done|consts; lia]|].
    assert (unmap_range sp va k (va + 4096 * k) = sp (va + 4096 * k)) as Hsk
      by (rw /unmap_range; zbool; (lia || done)).
    destruct (Hmap k) as [HV Hflags]; [lia|].
    assert (pte_of (km s2) t1 (va + 4096 * k) = sp (va + 4096 * k)) as Hpte
      by (rw (g_space _ _ _ _ _ _ _ _ Hg2) //; consts; lia).
    assert (leaf_addr t1 (va + 4096 * k) ≠ 0) as Hnz.
    { eapply mapped_leaf_addr; [done|]. by rw Hpte. }
    rw (proj2 (Z.eqb_neq _ _) Hnz). apply wp_gets_bind.
    rw pte_of_leaf_addr // Hpte HV /= (proj2 (Z.eqb_neq _ _) Hflags).
    assert (∀ l2 s3, evolves s t pool s3 t1 l2 root (unmap_range sp va k) →
      l2 = (if do_free then reverse (frames sp va (k + 1)) else []) ++ l1 →
      wp (modify (set_km (λ m, st64 m (leaf_addr t1 (va + 4096 * k)) 0));;
          mret (inl (u64 (va + 4096 * k + 4096))))
        (λ (x : Z + unit) s', match x with
           | inl a' => (∃ k0, 0 ≤ k0 ≤ n ∧ a' = va + 4096 * k0 ∧
               evolves s t pool s' t1 ((if do_free then reverse (frames sp va k0) else []) ++ l1)
                 root (unmap_range sp va k0)) ∧ 0 ≤ va + n * 4096 - a' < va + n * 4096 - (va + 4096 * k)
           | inr _ => evolves s t pool s' t1 ((if do_free then reverse (frames sp va n) else []) ++ l1)
               root (unmap_range sp va n)
           end) s3) as Hfin.
    { intros l2 s3 Hg3 ->. apply wp_modify_bind, wp_ret. rw u64_small; [|consts; lia].
      split; [|lia]. exists (k + 1). split_and!; try lia.
      eapply evolves_ext; [|eapply (evolves_store _ _ _ _ _ _ _ _ (va + 4096 * k) 0 Hg3); consts; lia].
      intros va' Hva'. rw /unmap_range.
      destruct (Z.eqb_spec (va' / 4096) ((va + 4096 * k) / 4096)); zbool; (lia || done). }
    apply wp_bind. destruct do_free; simpl; [|by apply wp_ret, (Hfin l1)].
    destruct Hfree as (Hman & Hnd & Hpl & Htab); [done|].
    assert (PTE2PA (sp (va + 4096 * k)) ∈ frames sp va n) as Hin
      by (apply elem_of_frames; exists k; split; [lia|done]).
    eapply wp_mono; [|eapply evolves_kfree; [exact Hg2|..]].
    + intros _ s3 [Hg3 _]. eapply Hfin; [done|]. rw frames_snoc; [|lia].
      by rw reverse_snoc.
    + rw Forall_forall in Hman. by apply Hman.
    + replace n with (k + (n - k)) in Hnd by lia. rw /frames seqZ_app in Hnd; [|lia..].
      rw fmap_app in Hnd. rw (seqZ_cons (0 + k)) in Hnd; [|lia].
      rw fmap_cons Z.add_0_l -/(frames sp va k) in Hnd.
      intros [Hx|Hx]%elem_of_app.
      * rw elem_of_reverse in Hx. apply NoDup_app in Hnd as (Hnd & _).
        apply NoDup_app in Hnd as (_ & Hnd & _). by eapply Hnd; [done|left].
      * apply NoDup_app in Hnd as (_ & Hnd & _). eapply Hnd; [|done].
        apply elem_of_app. right. by left.
    + by apply Hpl.
    + intros p Hp. by eapply Htab.
Qed.

(** ** Mapping freshly allocated pages one after the other *)

(** After [k] rounds of the loops of [uvmalloc] and [uvmcopy]: the pages
    [fs] were taken from the pool and mapped at [lo], page [i] with
    permissions [perm i]. *)
Definition mk_pte (b perm : Z) : Z := Z.lor (Z.lor (PA2PTE b) perm) PTE_V.

Record mapped_new s t pool s' t' l' root (sp : Z → Z) (lo k : Z) (perm : Z → Z) (fs : list Z)
  (sp' : Z → Z) : Prop := {
  mn_ev : evolves s t pool s' t' l' root sp';
  mn_len : Z.of_nat (length fs) = k;
  mn_nodup : NoDup (fs ++ l');
  mn_managed : Forall managed fs;
  mn_pool : fs ⊆ pool;
  mn_tab : ∀ p a, t' !! p = Some a → a ∉ fs;
  mn_out : ∀ va, 0 ≤ va < MAXVA → ¬ (lo ≤ va < lo + 4096 * k) → sp' va = sp va;
  mn_in : ∀ i b va, 0 ≤ i < k → fs !! Z.to_nat i = Some b → lo + 4096 * i ≤ va < lo + 4096 * i + 4096 →
    sp' va = mk_pte b (perm i);
}.

(** Permissions that make a valid leaf: below the flag field, and some bit
    besides [PTE_V]. *)
Definition leaf_perm (f : Z) : Prop := 0 ≤ f < 1024 ∧ Z.lor f PTE_V ≠ PTE_V.

Lemma mk_pte_props b f : managed b → leaf_perm f →
  has (mk_pte b f) PTE_V = true ∧ PTE_FLAGS (mk_pte b f) = Z.lor f PTE_V ∧ PTE2PA (mk_pte b f) = b.
Proof.
  intros Hb [Hf _]. destruct (managed_bounds b Hb) as (Hal & Hlo & Hhi). consts.
  pose proof (lor_range_1024 f 1 Hf ltac:(lia)) as Hr.
  rw /mk_pte. change PTE_V with 1. rw -Z.lor_assoc. split_and!.
  - rw (has_testbit _ 0); [|lia]. rw testbit_mk; [|lia..]. rw Z.lor_spec. by rw orb_true_r.
  - by apply PTE_FLAGS_mk; [lia|].
  - by apply PTE2PA_mk; [|lia|].
Qed.

Lemma mapped_new_frames s t pool s' t' l' root sp lo k perm fs sp' :
  mapped_new s t pool s' t' l' root sp lo k perm fs sp' → (∀ i, 0 ≤ i < k → leaf_perm (perm i)) →
  frames sp' lo k = fs.
Proof.
  intros Hm Hperm. pose proof (mn_len _ _ _ _ _ _ _ _ _ _ _ _ _ Hm) as Hlen.
  apply list_eq. intros i. rw /frames list_lookup_fmap.
  destruct (fs !! i) as [b|] eqn:Hb.
  - pose proof (lookup_lt_Some _ _ _ Hb). rw lookup_seqZ_lt; [|lia]. simpl. f_equal.
    rw (mn_in _ _ _ _ _ _ _ _ _ _ _ _ _ Hm (Z.of_nat i) b); [|lia|by rw Nat2Z.id|lia].
    apply mk_pte_props; [|apply Hperm; lia].
    pose proof (mn_managed _ _ _ _ _ _ _ _ _ _ _ _ _ Hm) as HF. rw Forall_forall in HF.
    apply HF. by apply list_elem_of_lookup; exists i.
  - apply lookup_ge_None in Hb. rw lookup_seqZ_ge //. lia.
Qed.

(** Undoing the loop: unmapping the [k] pages with [do_free] gives every page
    back and restores the space. *)
Lemma mapped_new_undo s t pool s' t' l' root sp lo k perm fs sp' :
  mapped_new s t pool s' t' l' root sp lo k perm fs sp' → (∀ i, 0 ≤ i < k → leaf_perm (perm i)) →
  0 ≤ lo → page_aligned lo → lo + k * 4096 ≤ MAXVA →
  (∀ va, lo ≤ va < lo + 4096 * k → sp va = 0) →
  wp (uvmunmap root lo k true) (λ _ s'', evolves s t pool s'' t' (reverse fs ++ l') root sp) s'.
Proof.
  intros Hm Hperm Hlo Hal Hmax Hzero. pose proof (mapped_new_frames _ _ _ _ _ _ _ _ _ _ _ _ _ Hm Hperm) as Hfs.
  pose proof (mn_len _ _ _ _ _ _ _ _ _ _ _ _ _ Hm) as Hlen.
  eapply wp_mono; [|eapply (uvmunmap_spec _ _ _ _ _ _ _ _ _ _ true (mn_ev _ _ _ _ _ _ _ _ _ _ _ _ _ Hm)); try done].
  - intros u s''. rw Hfs. apply evolves_ext. intros va Hva. rw /unmap_range.
    zbool; try (apply Hm; [done|lia]). rw Hzero //. lia.
  - lia.
  - intros i Hi. destruct (lookup_lt_is_Some_2 fs (Z.to_nat i)) as [b Hb]; [lia|].
    rw (mn_in _ _ _ _ _ _ _ _ _ _ _ _ _ Hm i b); [|done..|lia].
    assert (managed b) as Hbm.
    { pose proof (mn_managed _ _ _ _ _ _ _ _ _ _ _ _ _ Hm) as HF. rw Forall_forall in HF.
      apply HF. by apply list_elem_of_lookup; eexists. }
    destruct (mk_pte_props b (perm i) Hbm (Hperm i Hi)) as (-> & -> & _). split; [done|]. by apply Hperm.
  - intros _. rw Hfs. split_and!; apply Hm.
Qed.

(** The pages mapped so far, and the next one, are out of the allocator's and
    the page table's reach. *)
Lemma mapped_new_private s t pool s1 t1 l1 root sp lo k perm fs sp1 b c :
  mapped_new s t pool s1 t1 (b :: l1) root sp lo k perm fs sp1 → c ∈ b :: fs →
  managed c ∧ c ∈ pool ∧ c ∉ l1 ∧ (∀ p, t1 !! p ≠ Some c) ∧ (c ∈ fs → c ≠ b).
Proof.
  intros [Hev Hlen Hnd Hman Hpool Htab _ _] Hc. rw Forall_forall in Hman.
  apply NoDup_app in Hnd as (_ & Hd & [Hbl _]%NoDup_cons).
  assert (b ∉ fs) as Hbfs by (intros Hx; eapply Hd; [done|by left]).
  apply elem_of_cons in Hc as [->|Hc].
  - split_and!; try done.
    + eapply evolves_managed; [done|]. by left.
    + eapply (g_pool _ _ _ _ _ _ _ _ Hev). by left.
    + intros p Hp. eapply (g_free _ _ _ _ _ _ _ _ Hev); [done|]. by left.
  - split_and!; auto.
    + intros Hx. eapply Hd; [done|]. by right.
    + intros p Hp. by eapply Htab.
    + by intros _ ->.
Qed.

(** A page handed back unmapped after a failed [mappages]. *)
Lemma mapped_new_push s t pool s1 t1 l1 root sp lo k perm fs sp1 b s2 :
  mapped_new s t pool s1 t1 l1 root sp lo k perm fs sp1 → b ∉ fs ++ l1 →
  evolves s t pool s2 t1 (b :: l1) root sp1 →
  mapped_new s t pool s2 t1 (b :: l1) root sp lo k perm fs sp1.
Proof.
  intros [? ? Hnd ? ? ? ? ?] Hb Hg. split; try done.
  apply NoDup_app in Hnd as (? & Hd & ?). apply NoDup_app. split_and!; try done.
  - intros x Hx [->|Hx']%elem_of_cons; [set_solver|]. by eapply Hd.
  - constructor; [set_solver|done].
Qed.

(** One more page: [b] was popped off the free list and its page prepared;
    [mappages] then maps it, or fails leaving it unmapped. *)
Lemma mapped_new_extend s t pool s1 t1 l1 root sp lo k perm fs sp1 b s2 :
  mapped_new s t pool s1 t1 (b :: l1) root sp lo k perm fs sp1 →
  evolves s t pool s2 t1 l1 root sp1 →
  0 ≤ lo → page_aligned lo → 0 ≤ k → lo + (k + 1) * 4096 ≤ MAXVA → leaf_perm (perm k) →
  (∀ va, lo + 4096 * k ≤ va < lo + 4096 * k + 4096 → sp va = 0) →
  wp (mappages root (lo + 4096 * k) PGSIZE b (perm k)) (λ r s3, ∃ t3 l3,
    (∀ c, page_aligned c → c ∉ l1 → (∀ p, t1 !! p ≠ Some c) → agree (km s3) (km s2) c (c + 4096)) ∧
    (r = 0 ∧ (∃ sp3, mapped_new s t pool s3 t3 l3 root sp lo (k + 1) perm (fs ++ [b]) sp3) ∨
     r = -1 ∧ mapped_new s t pool s3 t3 l3 root sp lo k perm fs sp1 ∧
       managed b ∧ b ∉ fs ++ l3 ∧ b ∈ pool ∧ (∀ p, t3 !! p ≠ Some b))) s2.
Proof.
  intros [Hev1 Hlen Hnd Hman Hpool Htab Hout Hin] Hg2 Hlo Hal Hk Hmax [Hperm _] Hzero.
  pose proof (evolves_managed _ _ _ _ _ _ _ _ b Hev1 ltac:(set_solver)) as Hb.
  destruct (managed_bounds b Hb) as (_ & Hblo & Hbhi). rw /page_aligned in Hal.
  assert (PGROUNDDOWN (lo + 4096 * k) = lo + 4096 * k) as Ha by (rw PGROUNDDOWN_eq; lia).
  assert (PGROUNDDOWN (lo + 4096 * k + 4096 - 1) = lo + 4096 * k) as Hl by (rw PGROUNDDOWN_eq; lia).
  assert (b ∈ pool) as Hbp by (eapply (g_pool _ _ _ _ _ _ _ _ Hev1); set_solver).
  assert (∀ p, t1 !! p ≠ Some b) as Hbt.
  { intros p Hp. eapply (g_free _ _ _ _ _ _ _ _ Hev1); [done|set_solver]. }
  assert (b ∉ fs ∧ b ∉ l1 ∧ NoDup (fs ++ l1)) as (Hbfs & Hbl & Hnd').
  { apply NoDup_app in Hnd as (? & Hd & [? ?]%NoDup_cons). split_and!; [|done|].
    - intros Hx. eapply Hd; [done|]. by left.
    - apply NoDup_app. split_and!; try done. intros x Hx Hx'. eapply Hd; [done|]. by right. }
  eapply wp_mono; [|eapply (mappages_spec _ _ _ _ _ _ _ _ _ PGSIZE b (perm k)
    (evolves_here _ _ _ _ _ _ _ _ Hg2)); consts; rw ?Ha ?Hl; try lia].
  - intros r s3 (t3 & l3 & n & Hg3 & [u Hu] & Hcase). consts. rw Ha Hl Z.sub_diag /= in Hg3 Hcase.
    exists t3, l3. split; [exact (g_frame _ _ _ _ _ _ _ _ Hg3)|].
    assert (∀ c, c ∉ l1 → (∀ p, t1 !! p ≠ Some c) → ∀ p, t3 !! p ≠ Some c) as Hnot.
    { intros c Hcl Hct p Hp. destruct (g_new _ _ _ _ _ _ _ _ Hg3 p c Hp); [by eapply Hct|done]. }
    assert (∀ p a, t3 !! p = Some a → a ∉ fs) as Htab3.
    { intros p a Hp Hfs. eapply (Hnot a); [| |done].
      - intros Hx. apply NoDup_app in Hnd' as (_ & Hd & _). by eapply Hd.
      - intros q Hq. by eapply Htab. }
    assert (l1 ⊆ pool) as Hl1p by apply (g_pool _ _ _ _ _ _ _ _ Hg2).
    assert (NoDup (fs ++ l3)) as Hnd3.
    { subst l1. apply NoDup_app in Hnd' as (? & Hd & Hnd2). apply NoDup_app in Hnd2 as (_ & _ & ?).
      apply NoDup_app. split_and!; try done. intros x Hx Hx'. eapply Hd; [done|]. set_solver. }
    destruct Hcase as [[-> ->]|(-> & Hn & ->)].
    + left. split; [done|]. eexists. split.
      * by eapply evolves_trans.
      * rw length_app /=. lia.
      * rw -assoc. apply NoDup_app in Hnd3 as (? & Hd & ?). apply NoDup_app. split_and!; try done.
        -- intros x Hx [->|Hx']%elem_of_cons; [done|]. by eapply Hd.
        -- constructor; [|done]. subst l1. set_solver.
      * apply Forall_app. by split; [|constructor].
      * set_solver.
      * intros p a Hp [Hx| ->%list_elem_of_singleton]%elem_of_app; [by eapply Htab3|].
        by eapply (Hnot b).
      * intros va Hva Hr. rw /map_range. zbool; [lia|..]; apply Hout; (done || lia).
      * intros i c va Hi Hc Hva. rw /map_range. destruct (Z.eq_dec i k) as [->|Hik].
        -- rw lookup_app_r in Hc; [|lia]. replace (Z.to_nat k - length fs)%nat with 0%nat in Hc by lia.
           injection Hc as <-. zdec. rw /mk_pte. do 2 f_equal.
           replace (va / 4096 - (lo + 4096 * k) / 4096) with 0 by lia. by rw Z.add_0_r.
        -- rw lookup_app_l in Hc; [|lia]. zbool; [lia|..]; (apply (Hin i); [lia|done|lia]).
    + right. assert (n = 0) as -> by lia. split_and!; try done.
      * split; try done. eapply evolves_trans; [done| |done].
        eapply evolves_ext; [|done]. intros va _. rw /map_range. zbool; (lia || done).
      * by rw app_nil_r.
      * intros p Hp. by eapply (Hnot b).
  - intros va' Hva'. rw Hout; [|lia..]. rw Hzero; [|lia]. by rw has_0.
Qed.

(** ** [uvmdealloc], [uvmalloc], [uvmcopy] *)

Lemma PGROUNDUP_aligned a : 0 ≤ a ≤ MAXVA → page_aligned a → PGROUNDUP a = a.
Proof. intros ??. rw /page_aligned in H0. rw PGROUNDUP_eq; consts; lia. Qed.

Lemma mapped_new_dealloc s t pool s' t' l' root sp lo k perm fs sp' :
  mapped_new s t pool s' t' l' root sp lo k perm fs sp' → (∀ i, 0 ≤ i < k → leaf_perm (perm i)) →
  0 ≤ lo → page_aligned lo → lo + k * 4096 ≤ MAXVA →
  (∀ va, lo ≤ va < lo + 4096 * k → sp va = 0) →
  wp (uvmdealloc root (lo + 4096 * k) lo)
    (λ _ s'', evolves s t pool s'' t' (reverse fs ++ l') root sp) s'.
Proof.
  intros Hm Hperm Hlo Hal Hmax Hzero. pose proof (mn_len _ _ _ _ _ _ _ _ _ _ _ _ _ Hm) as Hlen.
  rw /uvmdealloc. destruct (Z.leb_spec (lo + 4096 * k) lo).
  - assert (k = 0) as -> by lia. assert (fs = []) as -> by (destruct fs; simpl in *; [done|lia]).
    apply wp_ret. simpl. eapply evolves_ext; [|apply Hm]. intros va Hva. apply Hm; [done|lia].
  - rw (PGROUNDUP_aligned lo); [|lia|done].
    rw PGROUNDUP_aligned; [|lia|rw /page_aligned in Hal *; lia].
    consts. zdec. replace (lo + 4096 * k - lo) with (k * 4096) by lia.
    rw Z.div_mul; [|lia]. rw s32_small; [|lia].
    apply wp_bind. eapply wp_mono; [|by eapply mapped_new_undo].
    intros ? s''. intros Hg; by apply wp_ret.
Qed.

Definition zero_page m (b : Z) : Prop := ∀ x, b ≤ x < b + 4096 → m x = 0.

Lemma zero_page_agree m m' b : agree m' m b (b + 4096) → zero_page m b → zero_page m' b.
Proof. intros Hag Hz x Hx. by rw Hag // Hz. Qed.

Lemma zero_page_memset m b c :
  page_aligned b → page_aligned c → c = b ∨ c ≠ b ∧ zero_page m c →
  zero_page (memset m b 0 PGSIZE) c.
Proof.
  intros Hb Hc Hcase x Hx. rw /memset. consts. destruct Hcase as [->|[Hne Hz]].
  - by zdec.
  - specialize (Hz x Hx). destruct (pages_disjoint c b); try done; zbool; (lia || done).
Qed.

Definition ualloc_perm : Z := Z.lor (Z.lor (Z.lor PTE_W PTE_X) PTE_R) PTE_U.

Lemma ualloc_leaf_perm : leaf_perm ualloc_perm.
Proof. split; [by vm_compute|by intros ?%(f_equal (λ z, z =? 1))]. Qed.

(** The state [uvmalloc] leaves: either the [k] new pages, zeroed and mapped
    with full user permissions, or the space it started from. *)
Definition uvmalloc_post s t l root sp lo newsz (r : Z) (s' : kst) : Prop :=
  (r = newsz ∧ ∃ k t' l' fs sp', mapped_new s t l s' t' l' root sp lo k (λ _, ualloc_perm) fs sp' ∧
     (newsz ≤ lo + 4096 * k ∧ (0 < k → lo + 4096 * (k - 1) < newsz)) ∧ (∀ b, b ∈ fs → zero_page (km s') b)) ∨
  (r = 0 ∧ ∃ t' l', evolves s t l s' t' l' root sp).

Lemma uvmalloc_spec s t l root oldsz newsz :
  pt_rep (km s) t root → free_pages s l → pt_free t l →
  0 ≤ oldsz ≤ newsz → newsz ≤ MAXVA →
  (∀ va, PGROUNDUP oldsz ≤ va < PGROUNDUP newsz → pte_of (km s) t va = 0) →
  wp (uvmalloc root oldsz newsz)
    (uvmalloc_post s t l root (pte_of (km s) t) (PGROUNDUP oldsz) newsz) s.
Proof.
  intros Hr Hfp Hfree Hsz Hmax Hun. rw /uvmalloc. zdec. cbv zeta.
  assert (PGROUNDUP oldsz = oldsz + 4095 - (oldsz + 4095) mod 4096) as Hlo
    by (apply PGROUNDUP_eq; consts; lia).
  assert (PGROUNDUP newsz = newsz + 4095 - (newsz + 4095) mod 4096) as Hhi
    by (apply PGROUNDUP_eq; consts; lia).
  set (lo := PGROUNDUP oldsz) in *. set (sp := pte_of (km s) t) in *.
  assert (0 ≤ lo ∧ page_aligned lo) as [Hlo0 Hal] by (rw /page_aligned; lia).
  apply (wp_loop (λ a s', ∃ k t' l' fs sp', 0 ≤ k ∧ a = lo + 4096 * k ∧
      (0 < k → lo + 4096 * (k - 1) < newsz) ∧
      mapped_new s t l s' t' l' root sp lo k (λ _, ualloc_perm) fs sp' ∧
      (∀ b, b ∈ fs → zero_page (km s') b)) (λ a, Z.max 0 (newsz - a))).
  - exists 0, t, l, [], sp. split_and!; try lia; [|set_solver].
    split; simpl; [by apply evolves_refl|done|apply Hfp|constructor|set_solver|set_solver|done|intros; lia].
  - consts. lia.
  - intros a s1 (k & t1 & l1 & fs & sp1 & Hk & -> & Hkn & Hm & Hz) _.
    destruct (Z.ltb_spec (lo + 4096 * k) newsz) as [Hlt|Hge]; last first.
    { apply wp_ret. left. split; [done|]. exists k, t1, l1, fs, sp1. split_and!; try done. }
    assert (lo + (k + 1) * 4096 ≤ MAXVA) as Hfit by (rw /page_aligned in Hal; consts; lia).
    assert (∀ va, lo ≤ va < lo + 4096 * (k + 1) → sp va = 0) as Hzero.
    { intros va Hva. apply Hun. rw /page_aligned in Hal. lia. }
    pose proof (mn_ev _ _ _ _ _ _ _ _ _ _ _ _ _ Hm) as Hev.
    assert (∀ s' t' l', mapped_new s t l s' t' l' root sp lo k (λ _, ualloc_perm) fs sp1 →
      wp (uvmdealloc root (lo + 4096 * k) lo;; mret (inr 0))
        (λ (x : Z + Z) s', match x with
           | inl a' => False
           | inr r => uvmalloc_post s t l root sp lo newsz r s'
           end) s') as Hundo.
    { intros s' t' l' Hm'. apply wp_bind. eapply wp_mono; [|eapply mapped_new_dealloc;
        [exact Hm'|intros; apply ualloc_leaf_perm|done..|lia|intros; apply Hzero; lia]].
      intros ? s'' Hg. apply wp_ret. right. split; [done|]. eexists _, _. exact Hg. }
    apply wp_bind. eapply wp_mono; [|eapply (evolves_kalloc _ _ _ _ _ _ _ _ Hev)].
    intros b s2 Hb. destruct l1 as [|b' l1].
    { destruct Hb as [-> ->]. simpl. eapply wp_mono; [|by eapply Hundo]. by intros [] ?. }
    destruct Hb as (-> & Hbm & Hbl & Hg2 & Hag2). pose proof (managed_nz _ Hbm). zdec.
    pose proof (λ c, mapped_new_private _ _ _ _ _ _ _ _ _ _ _ _ _ _ c Hm) as Hpriv.
    destruct (Hpriv b') as (_ & Hbp & _ & Hbt & _); [by left|].
    apply wp_modify_bind, wp_bind.
    eapply wp_mono; [|eapply (mapped_new_extend _ _ _ _ _ _ _ _ _ _ (λ _, ualloc_perm));
      [exact Hm| |done..|apply ualloc_leaf_perm|intros; apply Hzero; lia]]; last first.
    { apply (evolves_write_page _ _ _ _ _ _ _ _ b' _ Hg2); try done.
      intros x y Hxy. apply memset_agree. consts. lia. }
    intros r s3 (t3 & l3 & Hfr & Hcase).
    assert (∀ c, c ∈ b' :: fs → zero_page (km s3) c) as Hz3.
    { intros c Hc. destruct (Hpriv c Hc) as ([Hcal _] & _ & Hcl & Hct & Hcb).
      eapply zero_page_agree; [by apply Hfr|]. eapply zero_page_memset; try done.
      - by destruct Hbm.
      - apply elem_of_cons in Hc as [->|Hc]; [by left|right]. split; [auto|].
        eapply zero_page_agree; [|by apply Hz]. apply Hag2.
        destruct Hbm as [Hbal _]. destruct (pages_disjoint c b'); auto; lia. }
    destruct Hcase as [[-> [sp3 Hm3]]|(-> & Hm3 & Hb3 & Hbn & _ & Hbt3)]; simpl.
    + apply wp_ret. consts. rw u64_small; [|lia]. split; [|lia].
      exists (k + 1), t3, l3, (fs ++ [b']), sp3. split_and!; try lia; [done|].
      intros c Hc. apply Hz3. set_solver.
    + apply wp_bind. eapply wp_mono; [|eapply evolves_kfree; [apply Hm3|done|set_solver|done..]].
      intros _ s4 [Hg4 _]. eapply wp_mono; [|eapply (Hundo _ t3 (b' :: l3))]; [by intros [] ?|].
      by eapply mapped_new_push.
Qed.

(** ** [uvmcopy] *)

(** Page [b] of [m'] holds what page [a] of [m] held. *)
Definition page_copy m' b m a : Prop := ∀ x, 0 ≤ x < 4096 → m' (b + x) = m (a + x).

Lemma page_copy_agree m' m'' b m a : agree m'' m' b (b + 4096) → page_copy m' b m a → page_copy m'' b m a.
Proof. intros Hag Hc x Hx. rw Hag; [by apply Hc|lia]. Qed.

(** The parent's page [i]: its frame is a page outside the free list and the
    child's page table. *)
Record parent_ok s (to tn : gmap (list Z) Z) (oldroot sz : Z) (l : list Z) : Prop := {
  po_rep : pt_rep (km s) to oldroot;
  po_free : pt_free to l;
  po_tab : ∀ p q a, to !! p = Some a → tn !! q ≠ Some a;
  po_page : ∀ i, 0 ≤ i → 4096 * i < sz →
    let v := pte_of (km s) to (4096 * i) in
    has v PTE_V = true ∧ leaf_perm (PTE_FLAGS v) ∧ PTE2PA v ∉ l ∧ (∀ q, tn !! q ≠ Some (PTE2PA v));
}.

(** While the child is built, the parent stays as it was. *)
Lemma parent_kept s to tn oldroot sz l s1 t1 l1 newroot sp1 :
  parent_ok s to tn oldroot sz l → evolves s tn l s1 t1 l1 newroot sp1 →
  pt_rep (km s1) to oldroot ∧ (∀ va, pte_of (km s1) to va = pte_of (km s) to va) ∧
  (∀ i, 0 ≤ i → 4096 * i < sz → let pa := PTE2PA (pte_of (km s) to (4096 * i)) in
     agree (km s1) (km s) pa (pa + 4096)).
Proof.
  intros [Hr Hf Htab Hpage] Hg.
  assert (∀ p a, to !! p = Some a → agree (km s1) (km s) a (a + 4096)) as Hag.
  { intros p a Ha. apply (g_frame _ _ _ _ _ _ _ _ Hg).
    - by destruct (pt_page _ _ _ Hr _ _ Ha).
    - by eapply Hf.
    - intros q. by eapply Htab. }
  split_and!.
  - eapply pt_rep_agree; [|done]. intros. apply agree_sym. by eapply Hag.
  - by apply same_space_agree.
  - intros i Hi Hsz. destruct (Hpage i Hi Hsz) as (_ & _ & Hl & Ht).
    by apply (g_frame _ _ _ _ _ _ _ _ Hg); [apply PTE2PA_aligned|..].
Qed.

(** The child after [k] pages. *)
Definition copied s to s' (k : Z) (fs : list Z) : Prop := ∀ i b, 0 ≤ i < k → fs !! Z.to_nat i = Some b →
  page_copy (km s') b (km s) (PTE2PA (pte_of (km s) to (4096 * i))).

Definition uvmcopy_post s to tn l new sp sz (r : Z) (s' : kst) : Prop :=
  (r = 0 ∧ ∃ k t' l' fs sp',
     mapped_new s tn l s' t' l' new sp 0 k (λ i, PTE_FLAGS (pte_of (km s) to (4096 * i))) fs sp' ∧
     sz ≤ 4096 * k ∧ (0 < k → 4096 * (k - 1) < sz) ∧ copied s to s' k fs) ∨
  (r = -1 ∧ ∃ t' l', evolves s tn l s' t' l' new sp).

(** One more page copied: [b] is popped, filled from the parent's frame and mapped. *)
Lemma copied_extend s to tn oldroot sz l s1 t1 l1 new sp k perm fs sp1 b s2 s3 :
  parent_ok s to tn oldroot sz l →
  mapped_new s tn l s1 t1 (b :: l1) new sp 0 k perm fs sp1 → copied s to s1 k fs →
  0 ≤ k → 4096 * k < sz →
  evolves s tn l s2 t1 l1 new sp1 →
  (∀ lo hi, hi ≤ b ∨ b + 4096 ≤ lo → agree (km s2) (km s1) lo hi) →
  (∀ c, page_aligned c → c ∉ l1 → (∀ p, t1 !! p ≠ Some c) →
     agree (km s3) (memmove (km s2) b (PTE2PA (pte_of (km s) to (4096 * k))) PGSIZE) c (c + 4096)) →
  copied s to s3 (k + 1) (fs ++ [b]).
Proof.
  intros Hpo Hm Hc Hk Hksz Hg2 Hag2 Hfr i c Hi Hic.
  pose proof (mn_len _ _ _ _ _ _ _ _ _ _ _ _ _ Hm) as Hlen.
  assert (c ∈ b :: fs) as Hcin.
  { apply list_elem_of_lookup_2 in Hic. set_solver. }
  destruct (mapped_new_private _ _ _ _ _ _ _ _ _ _ _ _ _ _ c Hm Hcin) as ([Hcal _] & _ & Hcl & Hct & Hcb).
  destruct (mapped_new_private _ _ _ _ _ _ _ _ _ _ _ _ _ _ b Hm) as ([Hbal _] & _ & _ & _ & Hbfs); [by left|].
  eapply page_copy_agree; [by apply Hfr|]. destruct (Z.eq_dec i k) as [->|Hik].
  - rw lookup_app_r in Hic; [|lia]. replace (Z.to_nat k - length fs)%nat with 0%nat in Hic by lia.
    injection Hic as <-. intros x Hx. rw /memmove. consts. zdec. rw Z.add_simpl_l.
    destruct (parent_kept _ _ _ _ _ _ _ _ _ _ _ Hpo Hg2) as (_ & _ & Hkeep).
    apply (Hkeep k); lia.
  - rw lookup_app_l in Hic; [|lia]. assert (c ≠ b) as Hne by (apply Hcb, list_elem_of_lookup; eauto).
    eapply page_copy_agree; [|apply (Hc i); [lia|done]].
    destruct (pages_disjoint c b); try done;
      (eapply agree_trans; [apply memmove_agree; consts; lia|apply Hag2; lia]).
Qed.

Lemma uvmcopy_spec s to tn old new sz l :
  parent_ok s to tn old sz l → pt_rep (km s) tn new → free_pages s l → pt_free tn l →
  0 ≤ sz ≤ MAXVA → (∀ va, 0 ≤ va < PGROUNDUP sz → pte_of (km s) tn va = 0) →
  wp (uvmcopy old new sz) (uvmcopy_post s to tn l new (pte_of (km s) tn) sz) s.
Proof.
  intros Hpo Hr Hfp Hfree Hsz Hun. rw /uvmcopy.
  assert (PGROUNDUP sz = sz + 4095 - (sz + 4095) mod 4096) as Hup by (apply PGROUNDUP_eq; consts; lia).
  set (sp := pte_of (km s) tn) in *.
  set (perm := λ i, PTE_FLAGS (pte_of (km s) to (4096 * i))).
  apply (wp_loop (λ i s', ∃ k t' l' fs sp', 0 ≤ k ∧ i = 4096 * k ∧ (0 < k → 4096 * (k - 1) < sz) ∧
      mapped_new s tn l s' t' l' new sp 0 k perm fs sp' ∧ copied s to s' k fs) (λ i, Z.max 0 (sz - i))).
  - exists 0, tn, l, [], sp. split_and!; try lia; [|intros ???; lia].
    split; simpl; [by apply evolves_refl|done|apply Hfp|constructor|set_solver|set_solver|done|intros; lia].
  - consts. lia.
  - intros i s1 (k & t1 & l1 & fs & sp1 & Hk & -> & Hkn & Hm & Hc) _. cbv zeta.
    destruct (Z.ltb_spec (4096 * k) sz) as [Hlt|Hge]; last first.
    { apply wp_ret. left. split; [done|]. exists k, t1, l1, fs, sp1. split_and!; try done; lia. }
    pose proof (mn_ev _ _ _ _ _ _ _ _ _ _ _ _ _ Hm) as Hev.
    destruct (parent_kept _ _ _ _ _ _ _ _ _ _ _ Hpo Hev) as (Hro & Hso & _).
    destruct (po_page _ _ _ _ _ _ Hpo k Hk Hlt) as (HV & Hperm & _).
    assert (∀ j, 0 ≤ j < k + 1 → leaf_perm (perm j)) as Hperms.
    { intros j Hj. apply (po_page _ _ _ _ _ _ Hpo); lia. }
    apply wp_bind. eapply wp_of_run; [eapply walk_spec; [done|consts; lia]|].
    assert (leaf_addr to (4096 * k) ≠ 0) as Hnz.
    { eapply mapped_leaf_addr; [done|]. by rw Hso. }
    rw (proj2 (Z.eqb_neq _ _) Hnz). apply wp_gets_bind. rw pte_of_leaf_addr // Hso HV /=.
    assert (∀ s' t' l', mapped_new s tn l s' t' l' new sp 0 k perm fs sp1 →
      wp (uvmunmap new 0 (4096 * k / PGSIZE) true;; mret (inr (-1)))
        (λ (x : Z + Z) s', match x with
           | inl a' => False | inr r => uvmcopy_post s to tn l new sp sz r s' end) s') as Hundo.
    { intros s' t' l' Hm'. consts. rw Z.mul_comm Z.div_mul; [|lia]. apply wp_bind.
      eapply wp_mono; [|eapply mapped_new_undo; [exact Hm'|auto with lia|done..|consts; lia|intros; apply Hun; lia]].
      intros ? s'' Hg. apply wp_ret. right. split; [done|]. eexists _, _. exact Hg. }
    apply wp_bind. eapply wp_mono; [|eapply (evolves_kalloc _ _ _ _ _ _ _ _ Hev)].
    intros b s2 Hb. destruct l1 as [|b' l1].
    { destruct Hb as [-> ->]. simpl. eapply wp_mono; [|by eapply Hundo]. by intros [] ?. }
    destruct Hb as (-> & Hbm & Hbl & Hg2 & Hag2). pose proof (managed_nz _ Hbm). zdec.
    destruct (mapped_new_private _ _ _ _ _ _ _ _ _ _ _ _ _ _ b' Hm) as (_ & Hbp & _ & Hbt & _); [by left|].
    apply wp_modify_bind, wp_bind.
    eapply wp_mono; [|eapply (mapped_new_extend _ _ _ _ _ _ _ _ 0 k perm);
      [exact Hm| |done..|consts; lia|apply Hperms; lia|intros; apply Hun; lia]]; last first.
    { apply (evolves_write_page _ _ _ _ _ _ _ _ b' _ Hg2); try done.
      intros x y Hxy. apply memmove_agree. consts. lia. }
    intros r s3 (t3 & l3 & Hfr & Hcase).
    destruct Hcase as [[-> [sp3 Hm3]]|(-> & Hm3 & Hb3 & Hbn & _ & Hbt3)]; simpl.
    + apply wp_ret. consts. rw u64_small; [|lia]. split; [|lia].
      exists (k + 1), t3, l3, (fs ++ [b']), sp3. split_and!; try lia; [done|].
      by eapply copied_extend.
    + apply wp_bind. eapply wp_mono; [|eapply evolves_kfree; [apply Hm3|done|set_solver|done..]].
      intros _ s4 [Hg4 _]. eapply wp_mono; [|eapply (Hundo _ t3 (b' :: l3))]; [by intros [] ?|].
      by eapply mapped_new_push.
Qed.
End map.
