(* ===== verification/VmCopy.v ===== *)
(** * Copying between kernel and user memory: [walkaddr], [copyin], [copyout]

    Both directions are shown against one notion of user memory: [upa], the
    physical address of a user virtual address in the described page table. *)

From S2P Require Import Prelude Machine Kalloc Vm VmRep VmMap.

Section copy.
Context `{KI : KernelImage}.
Implicit Types (t : gmap (list Z) Z) (m : mem) (s : kst).

(** What [walkaddr] returns: the frame of a valid user page, otherwise 0. *)
Definition uframe m t (va : Z) : Z :=
  if MAXVA <=? va then 0 else
  let v := pte_of m t va in
  if has v PTE_V && has v PTE_U then PTE2PA v else 0.

Definition upa m t (va : Z) : Z := uframe m t (PGROUNDDOWN va) + va mod 4096.

Lemma walkaddr_spec s t root va :
  pt_rep (km s) t root → 0 ≤ va → walkaddr root va s = Ok (uframe (km s) t va, s).
Proof.
  intros Hr Hva. rw /walkaddr /uframe. destruct (Z.leb_spec MAXVA va); [done|].
  rw /mbind /M_bind (walk_spec s t root va) //.
  destruct (Z.eqb_spec (leaf_addr t va) 0) as [H0|Hnz].
  - assert (pte_of (km s) t va = 0) as ->; [|by rw has_0].
    rw /pte_of. destruct (t !! leaf_path va) eqn:Hq; [|done].
    by destruct (leaf_addr_nz _ _ _ va _ Hr Hq).
  - rw /gets pte_of_leaf_addr //. destruct (has _ PTE_V), (has _ PTE_U); done.
Qed.

Lemma uframe_aligned m t va : page_aligned (uframe m t va).
Proof. rw /uframe. repeat case_match; try done. apply PTE2PA_aligned. Qed.

(** A memory that agrees on the tables gives the same translation. *)
Lemma uframe_agree m m' t va :
  (∀ p a, t !! p = Some a → agree m' m a (a + 4096)) → uframe m' t va = uframe m t va.
Proof. intros Hag. rw /uframe (same_space_agree m m' t Hag va) //. Qed.

(** The user range [va, va+len) is backed by frames that are not tables, and
    no two of its bytes share a cell. *)
Record urange m t (va len : Z) : Prop := {
  ur_mapped : ∀ i, 0 ≤ i < len → uframe m t (PGROUNDDOWN (va + i)) ≠ 0;
  ur_tab : ∀ i p, 0 ≤ i < len → t !! p ≠ Some (uframe m t (PGROUNDDOWN (va + i)));
  ur_inj : ∀ i j, 0 ≤ i < len → 0 ≤ j < len → upa m t (va + i) = upa m t (va + j) → i = j;
}.

Lemma ur_bound m t va len i : urange m t va len → 0 ≤ va → 0 ≤ i < len → va + i < MAXVA.
Proof.
  intros Hu Hva Hi. pose proof (ur_mapped _ _ _ _ Hu i Hi) as Hf. rw /uframe in Hf.
  destruct (Z.leb_spec MAXVA (PGROUNDDOWN (va + i))) as [|Hlt]; [done|].
  rw PGROUNDDOWN_eq in Hlt. consts. lia.
Qed.

(** The bytes of one page-bounded chunk translate contiguously. *)
Lemma upa_chunk m t va i : 0 ≤ i → va mod 4096 + i < 4096 → upa m t (va + i) = upa m t va + i.
Proof.
  intros. rw /upa !PGROUNDDOWN_eq. replace (va + i - (va + i) mod 4096) with (va - va mod 4096) by lia.
  lia.
Qed.

Definition user_bytes m t (va : Z) (n : Z) : list Z := (λ i, ld8 m (upa m t (va + i))) <$> seqZ 0 n.

Lemma user_bytes_app m t va a b : 0 ≤ a → 0 ≤ b →
  user_bytes m t va (a + b) = user_bytes m t va a ++ user_bytes m t (va + a) b.
Proof.
  intros. rw /user_bytes seqZ_app //. rw fmap_app. f_equal.
  rw Z.add_0_l -{1}(Z.add_0_r a) -fmap_add_seqZ -list_fmap_compose. apply list_fmap_ext.
  intros _ x _. simpl. by rw Z.add_assoc.
Qed.

Lemma mem_read_chunk m t va n : 0 ≤ n → va mod 4096 + n ≤ 4096 →
  mem_read m (upa m t va) (Z.to_nat n) = user_bytes m t va n.
Proof.
  intros Hn Hle. apply list_eq. intros i. rw /mem_read /user_bytes list_lookup_fmap (list_lookup_fmap _ (seqZ 0 n)).
  destruct (decide (Z.of_nat i < n)).
  - rw lookup_seq_lt; [|lia]. rw lookup_seqZ_lt //. simpl.
    rw upa_chunk; [done|lia..].
  - rw lookup_seq_ge; [|lia]. by rw lookup_seqZ_ge; [|lia].
Qed.

(** The size of the chunk the loops copy in one round. *)
Lemma chunk_size va len : 0 < len →
  let n := PGSIZE - (va - PGROUNDDOWN va) in
  let n := if len <? n then len else n in
  n = Z.min len (4096 - va mod 4096) ∧ 0 < n ≤ len.
Proof. intros Hl. cbv zeta. rw PGROUNDDOWN_eq. consts. zbool; lia. Qed.

Lemma copyin_ok s t root va len :
  pt_rep (km s) t root → 0 ≤ va → 0 ≤ len < 2 ^ 63 →
  (∀ i, 0 ≤ i < len → uframe (km s) t (PGROUNDDOWN (va + i)) ≠ 0) →
  copyin root va len s = Ok ((0, user_bytes (km s) t va len), s).
Proof.
  intros Hr Hva Hlen Hmap. apply wp_eq_run. rw /copyin.
  apply (wp_loop (λ '(dst, sva, rest) s', s' = s ∧ ∃ d, 0 ≤ d ∧ d + rest = len ∧ 0 ≤ rest ∧
      dst = user_bytes (km s) t va d ∧ (0 < rest → sva = va + d)) (λ '(_, _, rest), rest)).
  - split; [done|]. exists 0. split_and!; try lia. done.
  - lia.
  - intros [[dst sva] rest] s' (-> & d & Hd & Hsum & Hrest & -> & Hsva) _.
    destruct (Z.ltb_spec 0 rest) as [Hpos|Hz]; last first.
    { apply wp_ret. assert (d = len) as -> by lia. done. }
    rw Hsva //. destruct (chunk_size (va + d) rest Hpos) as [Hn Hnr]. cbv zeta in Hn, Hnr.
    set (n := if rest <? _ then _ else _) in *. cbv zeta. rw -/n.
    assert (PGROUNDDOWN (va + d) < MAXVA) as Hmax.
    { pose proof (Hmap d ltac:(lia)) as Hf. rw /uframe in Hf. by zbool. }
    apply wp_bind. eapply wp_of_run; [apply walkaddr_spec; [done|rw PGROUNDDOWN_eq; lia]|].
    rw (proj2 (Z.eqb_neq _ _) (Hmap d ltac:(lia))). apply wp_gets_bind, wp_ret.
    split; [|lia]. split; [done|]. exists (d + n). split_and!; try lia.
    + rw user_bytes_app; [|lia..]. f_equal. rw -mem_read_chunk; [|lia..].
      rw /upa. do 2 f_equal. rw PGROUNDDOWN_eq. lia.
    + intros Hr'. rw u64_small; rw PGROUNDDOWN_eq in Hmax *; consts; lia.
Qed.

(** The effect of a successful [copyout]. *)
Record written m m' t (va : Z) (bs : list Z) : Prop := {
  wr_in : ∀ i, 0 ≤ i < Z.of_nat (length bs) → ld8 m' (upa m t (va + i)) = u8 (nth (Z.to_nat i) bs 0);
  wr_out : ∀ x, (∀ i, 0 ≤ i < Z.of_nat (length bs) → x ≠ upa m t (va + i)) → m' x = m x;
}.

Lemma written_tables m m' t root va bs :
  pt_rep m t root → urange m t va (Z.of_nat (length bs)) → written m m' t va bs →
  ∀ p a, t !! p = Some a → agree m' m a (a + 4096).
Proof.
  intros Hr Hu Hw p a Ha x Hx. apply (wr_out _ _ _ _ _ Hw). intros i Hi ->.
  pose proof (ur_tab _ _ _ _ Hu i p Hi) as Hne. rw Ha in Hne.
  pose proof (pt_page _ _ _ Hr _ _ Ha) as [Hal _].
  pose proof (uframe_aligned m t (PGROUNDDOWN (va + i))) as Hfal.
  rw /upa in Hx. destruct (pages_disjoint a (uframe m t (PGROUNDDOWN (va + i)))); try done; try lia.
  by intros ->.
Qed.

(** Writing the next chunk of the buffer. *)
Lemma written_chunk m m' t va bs d n :
  urange m t va (Z.of_nat (length bs)) → 0 ≤ d → 0 < n → d + n ≤ Z.of_nat (length bs) →
  (va + d) mod 4096 + n ≤ 4096 →
  written m m' t va (take (Z.to_nat d) bs) →
  written m (mem_write m' (upa m t (va + d)) (take (Z.to_nat n) (drop (Z.to_nat d) bs))) t va
    (take (Z.to_nat (d + n)) bs).
Proof.
  intros Hu Hd Hn Hle Hchunk [Hin Hout]. rw length_take in Hin Hout.
  assert (length (take (Z.to_nat n) (drop (Z.to_nat d) bs)) = Z.to_nat n) as Hlen
    by (rw length_take length_drop; lia).
  split; rw length_take.
  - intros i Hi. rw /ld8 /mem_write Hlen.
    destruct (Z.lt_ge_cases i d) as [Hid|Hid].
    + assert (¬ (upa m t (va + d) ≤ upa m t (va + i) < upa m t (va + d) + n)) as Hno.
      { intros Hx. remember (upa m t (va + i) - upa m t (va + d)) as j eqn:Hj.
        assert (upa m t (va + i) = upa m t (va + (d + j))) as Heq.
        { rw Z.add_assoc (upa_chunk m t (va + d) j); lia. }
        apply (ur_inj _ _ _ _ Hu) in Heq; lia. }
      assert (u8 (m' (upa m t (va + i))) = u8 (nth (Z.to_nat i) (take (Z.to_nat (d + n)) bs) 0)) as Heq.
      { rw -/(ld8 m' _) Hin; [|lia]. rw !nth_take; lia || done. }
      zbool; (lia || done).
    + replace (va + i) with (va + d + (i - d)) by lia. rw (upa_chunk m t (va + d)); [|lia..].
      zdec. replace (upa m t (va + d) + (i - d) - upa m t (va + d)) with (i - d) by lia.
      rw u8_u8. f_equal. rw !nth_take; try lia. rw nth_drop. f_equal. lia.
  - intros x Hx. rw /mem_write Hlen.
    destruct (Z.leb_spec (upa m t (va + d)) x), (Z.ltb_spec x (upa m t (va + d) + Z.of_nat (Z.to_nat n)));
      simpl; try (apply Hout; intros i Hi; apply Hx; lia).
    exfalso. apply (Hx (d + (x - upa m t (va + d)))); [lia|].
    rw Z.add_assoc (upa_chunk m t (va + d)); lia.
Qed.

Lemma copyout_ok s t root va bs :
  pt_rep (km s) t root → 0 ≤ va → Z.of_nat (length bs) < 2 ^ 63 →
  urange (km s) t va (Z.of_nat (length bs)) →
  wp (copyout root va bs (Z.of_nat (length bs)))
    (λ r s', r = 0 ∧ freelist s' = freelist s ∧ written (km s) (km s') t va bs) s.
Proof.
  intros Hr Hva Hlen Hu. rw /copyout. set (len := Z.of_nat (length bs)) in *.
  apply (wp_loop (λ '(dva, src, rest) s', freelist s' = freelist s ∧ ∃ d, 0 ≤ d ∧ d + rest = len ∧ 0 ≤ rest ∧
      src = drop (Z.to_nat d) bs ∧ (0 < rest → dva = va + d) ∧
      written (km s) (km s') t va (take (Z.to_nat d) bs)) (λ '(_, _, rest), rest)).
  - split; [done|]. exists 0. split_and!; try lia; try done. split; [|done]. simpl. lia.
  - lia.
  - intros [[dva src] rest] s1 (Hfl & d & Hd & Hsum & Hrest & -> & Hdva & Hw) _.
    destruct (Z.ltb_spec 0 rest) as [Hpos|Hz]; last first.
    { apply wp_ret. assert (d = len) as -> by lia. split_and!; try done.
      by rw /len Nat2Z.id take_ge in Hw. }
    rw Hdva //. destruct (chunk_size (va + d) rest Hpos) as [Hn Hnr]. cbv zeta in Hn, Hnr.
    set (n := if rest <? _ then _ else _) in *. cbv zeta. rw -/n.
    pose proof (ur_bound _ _ _ _ d Hu Hva ltac:(lia)) as Hmax.
    assert (∀ p a, t !! p = Some a → agree (km s1) (km s) a (a + 4096)) as Hag.
    { eapply written_tables; [done| |exact Hw]. rw length_take.
      destruct Hu as [H1 H2 H3]. split; intros; [apply H1|apply H2|apply H3]; (done || lia). }
    apply wp_bind. eapply wp_of_run; [apply walkaddr_spec; [|rw PGROUNDDOWN_eq; lia]|].
    { eapply pt_rep_agree; [|done]. intros. apply agree_sym. by eapply Hag. }
    rw (uframe_agree (km s) (km s1)) //. rw (proj2 (Z.eqb_neq _ _) (ur_mapped _ _ _ _ Hu d ltac:(lia))).
    apply wp_modify_bind, wp_ret. split; [|lia]. split; [done|].
    exists (d + n). split_and!; try lia.
    + rw drop_drop. f_equal. lia.
    + intros Hr'. rw u64_small; rw PGROUNDDOWN_eq; consts; lia.
    + simpl. replace (uframe (km s) t (PGROUNDDOWN (va + d)) + (va + d - PGROUNDDOWN (va + d)))
        with (upa (km s) t (va + d)) by (pose proof (PGROUNDDOWN_eq (va + d)); rw /upa; lia).
      apply written_chunk; try done; lia.
Qed.
End copy.
