(* ===== verification/VmProps.v ===== *)
(** * What [vm.c] guarantees

    The properties of the page-table code, stated of runs of the translated
    functions, and a concrete page table at which they apply. *)

From S2P Require Import Prelude Machine Kalloc Vm VmRep VmMap VmCopy.

Section props.
Context `{KI : KernelImage}.
Implicit Types (t to tn : gmap (list Z) Z) (s : kst).

(** The PTE the hardware (or a later [walk]) finds for [va]. *)
Definition lookup_pte (root va : Z) : M kst Z :=
  pte ← walk root va false;
  if pte =? 0 then mret 0 else gets (λ s, ld64 s.(km) pte).

Lemma lookup_pte_spec s t root va :
  pt_rep (km s) t root → 0 ≤ va < MAXVA → lookup_pte root va s = Ok (pte_of (km s) t va, s).
Proof.
  intros Hr Hva. rw /lookup_pte /mbind /M_bind (walk_spec s t root va) //.
  destruct (Z.eqb_spec (leaf_addr t va) 0) as [H0|Hnz]; [|by rw /gets pte_of_leaf_addr].
  rw /pte_of. destruct (t !! leaf_path va) eqn:Hq; [|done].
  by destruct (leaf_addr_nz _ _ _ va _ Hr Hq).
Qed.

(** A page table, its free list and its unused part of the space. *)
Definition vm_ok s t (root : Z) (l : list Z) : Prop :=
  pt_rep (km s) t root ∧ free_pages s l ∧ pt_free t l.

(** C3 [mappages] on an unmapped, page-aligned range returns 0 or -1 and never
    panics.  When it returns 0, exactly the PTEs of the range changed: each
    page of the range now maps to the corresponding frame with the requested
    permissions, and every other virtual page has the PTE it had. *)
Theorem mappages_maps s t root l va size pa perm :
  vm_ok s t root l → page_aligned va → page_aligned size → 0 ≤ va → 0 < size → va + size ≤ MAXVA →
  0 ≤ pa → pa + size + 4096 < 2 ^ 56 → 0 ≤ perm < 1024 →
  (∀ va', va ≤ va' < va + size → has (pte_of (km s) t va') PTE_V = false) →
  ∃ r s', mappages root va size pa perm s = Ok (r, s') ∧ (r = 0 ∨ r = -1) ∧
    (r = 0 → ∀ va', 0 ≤ va' < MAXVA →
       lookup_pte root va' s' =
         Ok (if (va <=? va') && (va' <? va + size)
             then Z.lor (Z.lor (PA2PTE (pa + (va' / 4096 - va / 4096) * 4096)) perm) PTE_V
             else pte_of (km s) t va', s')).
Proof.
  intros (Hr & Hfp & Hf) Hal Hsal Hva Hsz Hmax Hpa Hpa2 Hperm Hun. rw /page_aligned in Hal Hsal.
  assert (PGROUNDDOWN va = va) as Ha by (rw PGROUNDDOWN_eq; lia).
  assert ((PGROUNDDOWN (va + size - 1) - PGROUNDDOWN va) / 4096 + 1 = size / 4096) as Hnp
    by (rw !PGROUNDDOWN_eq; lia).
  pose proof (mappages_spec _ _ _ _ _ _ _ _ va size pa perm (evolves_refl s t l root Hr Hfp Hf)
    Hva Hsz Hmax Hpa Hpa2 Hperm) as Hspec. cbv zeta in Hspec. rw Hnp Ha in Hspec.
  apply wp_run in Hspec as (r & s' & Hrun & t' & l' & n & Hg & _ & Hcase);
    [|intros va' ?; apply Hun; lia].
  exists r, s'. split_and!; [done|by destruct Hcase as [[-> _]|[-> _]]; [left|right]|].
  intros -> va' Hva'. destruct Hcase as [[_ ->]|[? _]]; [|done].
  rw (lookup_pte_spec _ t') //; [|apply Hg]. do 2 f_equal.
  rw (g_space _ _ _ _ _ _ _ _ Hg) // /map_range.
  by replace (size / 4096 * 4096) with size by lia.
Qed.

(** [uvmunmap] with [do_free] on a range of mapped leaf pages whose frames
    are distinct pages not already free: every frame goes back to the free
    list, first page first, the range has no PTE any more, and the rest of the
    space is unchanged. *)
Theorem uvmunmap_frees s t root l va n :
  let sp := pte_of (km s) t in
  vm_ok s t root l → 0 ≤ va → page_aligned va → 0 ≤ n → va + n * 4096 ≤ MAXVA →
  (∀ i, 0 ≤ i < n → has (sp (va + 4096 * i)) PTE_V = true ∧ PTE_FLAGS (sp (va + 4096 * i)) ≠ PTE_V) →
  Forall managed (frames sp va n) → NoDup (frames sp va n ++ l) →
  (∀ p a, t !! p = Some a → a ∉ frames sp va n) →
  ∃ s', uvmunmap root va n true s = Ok (tt, s') ∧
    free_pages s' (reverse (frames sp va n) ++ l) ∧
    (∀ va', 0 ≤ va' < MAXVA → lookup_pte root va' s' =
       Ok (if (va <=? va') && (va' <? va + n * 4096) then 0 else sp va', s')).
Proof.
  intros sp (Hr & Hfp & Hf) Hva Hal Hn Hmax Hmap Hman Hnd Htab.
  pose proof (evolves_refl s t l root Hr Hfp Hf) as Hg0.
  assert (evolves s t (frames sp va n ++ l) s t l root sp) as Hg1.
  { eapply evolves_trans; [|exact Hg0|set_solver]. destruct Hg0. split; try done; set_solver. }
  assert (frames sp va n ⊆ frames sp va n ++ l) as Hsub by set_solver.
  destruct (wp_run _ _ _ (uvmunmap_spec _ _ _ _ _ _ _ _ _ _ true Hg1 Hva Hal Hn Hmax Hmap
    (λ _, conj Hman (conj Hnd (conj Hsub Htab))))) as ([] & s' & Hrun & Hg).
  exists s'. split_and!; [done|apply Hg|]. intros va' Hva'.
  rw (lookup_pte_spec _ t) //; [|apply Hg]. by rw (g_space _ _ _ _ _ _ _ _ Hg).
Qed.

(** C5 [uvmalloc] is all or nothing: it returns [newsz] with every page from
    [PGROUNDUP(oldsz)] up to [newsz] mapped read/write/execute/user to a
    distinct zeroed page, or it returns 0 with the address space as it was,
    the pages mapped on the way unmapped and freed again. *)
Theorem uvmalloc_all_or_nothing s t root l oldsz newsz :
  vm_ok s t root l → 0 ≤ oldsz ≤ newsz → newsz ≤ MAXVA →
  (∀ va, PGROUNDUP oldsz ≤ va < PGROUNDUP newsz → pte_of (km s) t va = 0) →
  ∃ r s', uvmalloc root oldsz newsz s = Ok (r, s') ∧
    ((r = newsz ∧ ∃ fs, NoDup fs ∧ (∀ b, b ∈ fs → b ∈ l ∧ zero_page (km s') b) ∧
        newsz ≤ PGROUNDUP oldsz + 4096 * Z.of_nat (length fs) ∧
        ∀ va, 0 ≤ va < MAXVA → lookup_pte root va s' =
          Ok (match fs !! Z.to_nat ((va - PGROUNDUP oldsz) / 4096) with
              | Some b => if PGROUNDUP oldsz <=? va then mk_pte b ualloc_perm else pte_of (km s) t va
              | None => pte_of (km s) t va end, s'))
     ∨ (r = 0 ∧ ∀ va, 0 ≤ va < MAXVA → lookup_pte root va s' = Ok (pte_of (km s) t va, s'))).
Proof.
  intros (Hr & Hfp & Hf) Hsz Hmax Hun.
  destruct (wp_run _ _ _ (uvmalloc_spec s t l root oldsz newsz Hr Hfp Hf Hsz Hmax Hun))
    as (r & s' & Hrun & [(-> & k & t' & l' & fs & sp' & Hm & Hk & Hz)|(-> & t' & l' & Hg)]);
    eexists _, s'; (split; [done|]).
  - left. split; [done|]. exists fs. pose proof (mn_len _ _ _ _ _ _ _ _ _ _ _ _ _ Hm) as Hlen.
    split_and!.
    + by pose proof (mn_nodup _ _ _ _ _ _ _ _ _ _ _ _ _ Hm) as (? & _)%NoDup_app.
    + intros b Hb. split; [by apply (mn_pool _ _ _ _ _ _ _ _ _ _ _ _ _ Hm)|by apply Hz].
    + lia.
    + intros va Hva. pose proof (mn_ev _ _ _ _ _ _ _ _ _ _ _ _ _ Hm) as Hg.
      rw (lookup_pte_spec _ t') //; [|apply Hg]. rw (g_space _ _ _ _ _ _ _ _ Hg) //. do 2 f_equal.
      assert (0 ≤ PGROUNDUP oldsz) by (rw PGROUNDUP_eq; consts; lia).
      destruct (Z.leb_spec (PGROUNDUP oldsz) va) as [Hle|Hgt]; last first.
      { rw (mn_out _ _ _ _ _ _ _ _ _ _ _ _ _ Hm) //; [by case_match|lia]. }
      destruct (fs !! _) as [b|] eqn:Hb.
      * pose proof (lookup_lt_Some _ _ _ Hb).
        rw (mn_in _ _ _ _ _ _ _ _ _ _ _ _ _ Hm ((va - PGROUNDUP oldsz) / 4096) b) //; lia.
      * apply lookup_ge_None in Hb. apply (mn_out _ _ _ _ _ _ _ _ _ _ _ _ _ Hm); [done|lia].
  - right. split; [done|]. intros va Hva. rw (lookup_pte_spec _ t') //; [|apply Hg].
    by rw (g_space _ _ _ _ _ _ _ _ Hg).
Qed.


(** C7 What the kernel copies out to user memory is what it copies back in:
    on a mapped user range, [copyout] succeeds, a following [copyin] of the
    same range succeeds and returns exactly those bytes, and memory outside
    the range is untouched. *)
Theorem copyout_copyin s t root va bs :
  pt_rep (km s) t root → 0 ≤ va → Z.of_nat (length bs) < 2 ^ 63 →
  Forall (λ b, 0 ≤ b < 256) bs → urange (km s) t va (Z.of_nat (length bs)) →
  ∃ s', copyout root va bs (Z.of_nat (length bs)) s = Ok (0, s') ∧
    copyin root va (Z.of_nat (length bs)) s' = Ok ((0, bs), s') ∧
    freelist s' = freelist s ∧
    (∀ x, (∀ i, 0 ≤ i < Z.of_nat (length bs) → x ≠ upa (km s) t (va + i)) → km s' x = km s x).
Proof.
  intros Hr Hva Hlen Hbs Hu.
  destruct (wp_run _ _ _ (copyout_ok s t root va bs Hr Hva Hlen Hu)) as (r & s' & Hrun & -> & Hfl & Hw).
  pose proof (written_tables _ _ _ _ _ _ Hr Hu Hw) as Hag.
  exists s'. split_and!; [done| |done|apply Hw].
  rw (copyin_ok s' t) //; [|by eapply pt_rep_agree; [|done]; intros; apply agree_sym; eapply Hag|lia|].
  - do 3 f_equal. apply list_eq. intros i. rw /user_bytes list_lookup_fmap.
    destruct (bs !! i) as [b|] eqn:Hb.
    + pose proof (lookup_lt_Some _ _ _ Hb). rw lookup_seqZ_lt; [|lia]. rw Z.add_0_l /=. f_equal.
      assert (upa (km s') t (va + Z.of_nat i) = upa (km s) t (va + Z.of_nat i)) as ->
        by (rw /upa (uframe_agree (km s)) //).
      rw (wr_in _ _ _ _ _ Hw); [|lia]. rw Nat2Z.id (nth_lookup_Some _ _ _ _ Hb).
      apply u8_small. rw Forall_forall in Hbs. apply Hbs. by eapply list_elem_of_lookup_2.
    + apply lookup_ge_None in Hb. by rw lookup_seqZ_ge; [|lia].
  - intros i Hi. rw (uframe_agree (km s)) //. by apply (ur_mapped _ _ _ _ Hu).
Qed.
End props.

(** ** A concrete page table *)

Module Demo.
#[local] Existing Instance pgtbl_image.

(** Five free pages, a process with one page [D] mapped at 0 through the
    tables [R], [T1], [T0], and an empty child root [R2]. *)
Definition F (i : Z) : Z := 0x80100000 + 4096 * i.
Definition R : Z := 0x80200000.
Definition T1 : Z := 0x80201000.
Definition T0 : Z := 0x80202000.
Definition D : Z := 0x80203000.
Definition R2 : Z := 0x80204000.
Definition dflags : Z := 0x17.

Definition m_free : mem :=
  st64 (st64 (st64 (st64 (st64 (λ _, 0) (F 0) (F 1)) (F 1) (F 2)) (F 2) (F 3)) (F 3) (F 4)) (F 4) 0.
Definition m_demo : mem :=
  st64 (st64 (st64 m_free R (Z.lor (PA2PTE T1) PTE_V)) T1 (Z.lor (PA2PTE T0) PTE_V))
    T0 (Z.lor (PA2PTE D) dflags).
Definition s_demo : kst := MkKst m_demo (F 0).
Definition l_demo : list Z := [F 0; F 1; F 2; F 3; F 4].
Definition t_demo : gmap (list Z) Z := <[[0; 0] := T0]> (<[[0] := T1]> {[ [] := R ]}).
Definition t_child : gmap (list Z) Z := {[ [] := R2 ]}.

Lemma ld64_st64_case m a b v : 0 ≤ v < 2 ^ 64 → b = a ∨ b + 8 ≤ a ∨ a + 8 ≤ b →
  ld64 (st64 m a v) b = if b =? a then v else ld64 m b.
Proof. intros Hv Hab. zbool; [subst; by apply ld64_st64_eq|by apply ld64_st64_ne; lia]. Qed.

(** A load from the table area. *)
Lemma ld64_demo b : b mod 8 = 0 → F 5 ≤ b →
  ld64 m_demo b = if b =? T0 then Z.lor (PA2PTE D) dflags else
                  if b =? T1 then Z.lor (PA2PTE T0) PTE_V else
                  if b =? R then Z.lor (PA2PTE T1) PTE_V else 0.
Proof.
  intros Hb Hlo. rw /m_demo /m_free. change (F 0) with 0x80100000. change (F 1) with 0x80101000.
  change (F 2) with 0x80102000. change (F 3) with 0x80103000. change (F 4) with 0x80104000.
  change (F 5) with 0x80105000 in Hlo. change T0 with 0x80202000. change T1 with 0x80201000.
  change R with 0x80200000. rw !ld64_st64_case; try lia; try (vm_compute; split; congruence).
  zbool; (lia || done).
Qed.

Lemma demo_managed : Forall managed [F 0; F 1; F 2; F 3; F 4; R; T1; T0; D; R2].
Proof. repeat constructor; vm_compute; congruence. Qed.

Lemma managed_demo a : a ∈ [F 0; F 1; F 2; F 3; F 4; R; T1; T0; D; R2] → managed a.
Proof. revert a. apply Forall_forall, demo_managed. Qed.

Lemma demo_free : free_pages s_demo l_demo.
Proof.
  split.
  - repeat split; vm_compute; reflexivity.
  - repeat constructor; vm_compute; congruence.
  - by apply (bool_decide_unpack _); vm_compute.
Qed.

Lemma demo_lookup p a : t_demo !! p = Some a →
  p = [] ∧ a = R ∨ p = [0] ∧ a = T1 ∨ p = [0; 0] ∧ a = T0.
Proof.
  rw /t_demo !lookup_insert lookup_empty. repeat case_decide; naive_solver.
Qed.

Lemma demo_rep : pt_rep m_demo t_demo R.
Proof.
  split.
  - done.
  - intros p a H. apply demo_lookup in H. naive_solver lia.
  - intros i p a H. apply demo_lookup in H as [[H _]|[[H _]|[H _]]]; simplify_eq; (split; [by eexists|lia]).
  - intros p q a Hp Hq. apply demo_lookup in Hp, Hq. naive_solver.
  - intros p a H. apply demo_lookup in H. apply managed_demo. set_solver.
  - intros p a i Hp Hlen Hi. apply demo_lookup in Hp as [[-> ->]|[[-> ->]|[-> ->]]]; [..|simpl in Hlen; lia];
      (rw ld64_demo; [|change R with 0x80200000 || change T1 with 0x80201000; lia
                      |change (F 5) with 0x80105000; change R with 0x80200000 || change T1 with 0x80201000; lia]);
      rw /t_demo !lookup_insert lookup_empty; destruct (Z.eq_dec i 0) as [->|Hne]; try reflexivity;
      repeat case_decide; simplify_eq;
      change R with 0x80200000; change T1 with 0x80201000; change T0 with 0x80202000; zbool; (lia || done).
Qed.

Lemma demo_ok : vm_ok s_demo t_demo R l_demo.
Proof.
  split_and!; [exact demo_rep|exact demo_free|]. intros p a H. apply demo_lookup in H.
  by destruct H as [[_ ->]|[[_ ->]|[_ ->]]]; apply (bool_decide_unpack _); vm_compute.
Qed.

(** The demo space: page 0 maps [D], nothing else is mapped below 2MB. *)
Lemma demo_pte va : 0 ≤ va < 2097152 →
  pte_of m_demo t_demo va = if va <? 4096 then Z.lor (PA2PTE D) dflags else 0.
Proof.
  intros Hva. rw /pte_of /leaf_path.
  assert (PX 1 va = 0 ∧ PX 2 va = 0 ∧ PX 0 va = va / 4096) as (-> & -> & ->).
  { rw !PX_eq; lia. }
  change (t_demo !! [0; 0]) with (Some T0). cbv iota beta. change T0 with 0x80202000.
  rw ld64_demo; [|lia|change (F 5) with 0x80105000; lia].
  change R with 0x80200000. change T1 with 0x80201000. change T0 with 0x80202000.
  zbool; (lia || done).
Qed.

Lemma mappages_maps_witness : ∃ r s',
  mappages R 0x1000 0x1000 0x80030000 dflags s_demo = Ok (r, s') ∧ (r = 0 ∨ r = -1) ∧
    (r = 0 → ∀ va', 0 ≤ va' < MAXVA → lookup_pte R va' s' =
       Ok (if (0x1000 <=? va') && (va' <? 0x1000 + 0x1000)
           then Z.lor (Z.lor (PA2PTE (0x80030000 + (va' / 4096 - 0x1000 / 4096) * 4096)) dflags) PTE_V
           else pte_of (km s_demo) t_demo va', s')).
Proof.
  apply (mappages_maps s_demo t_demo R l_demo); try done; [exact demo_ok|].
  intros va' Hva'. change (km s_demo) with m_demo. rw demo_pte; [|lia]. by zdec.
Defined.

Lemma uvmunmap_frees_witness :
  let sp := pte_of (km s_demo) t_demo in
  ∃ s', uvmunmap R 0 1 true s_demo = Ok (tt, s') ∧
    free_pages s' (reverse (frames sp 0 1) ++ l_demo) ∧
    (∀ va', 0 ≤ va' < MAXVA → lookup_pte R va' s' =
       Ok (if (0 <=? va') && (va' <? 0 + 1 * 4096) then 0 else sp va', s')).
Proof.
  apply (uvmunmap_frees s_demo t_demo R l_demo); try done.
  - exact demo_ok.
  - intros i Hi. assert (i = 0) as -> by lia. vm_compute. split; congruence.
  - repeat constructor; vm_compute; congruence.
  - by apply (bool_decide_unpack _); vm_compute.
  - intros p a H. apply demo_lookup in H.
    by destruct H as [[_ ->]|[[_ ->]|[_ ->]]]; apply (bool_decide_unpack _); vm_compute.
Defined.

Lemma uvmalloc_all_or_nothing_witness : ∃ r s',
  uvmalloc R 4096 8192 s_demo = Ok (r, s') ∧
    ((r = 8192 ∧ ∃ fs, NoDup fs ∧ (∀ b, b ∈ fs → b ∈ l_demo ∧ zero_page (km s') b) ∧
        8192 ≤ PGROUNDUP 4096 + 4096 * Z.of_nat (length fs) ∧
        ∀ va, 0 ≤ va < MAXVA → lookup_pte R va s' =
          Ok (match fs !! Z.to_nat ((va - PGROUNDUP 4096) / 4096) with
              | Some b => if PGROUNDUP 4096 <=? va then mk_pte b ualloc_perm else pte_of (km s_demo) t_demo va
              | None => pte_of (km s_demo) t_demo va end, s'))
     ∨ (r = 0 ∧ ∀ va, 0 ≤ va < MAXVA → lookup_pte R va s' = Ok (pte_of (km s_demo) t_demo va, s'))).
Proof.
  apply (uvmalloc_all_or_nothing s_demo t_demo R l_demo 4096 8192); try done; [exact demo_ok|].
  intros va Hva. change (PGROUNDUP 4096) with 4096 in Hva. change (PGROUNDUP 8192) with 8192 in Hva.
  change (km s_demo) with m_demo. rw demo_pte; [|lia]. by zdec.
Defined.

Lemma child_rep : pt_rep m_demo t_child R2.
Proof.
  assert (∀ p a, t_child !! p = Some a → p = [] ∧ a = R2) as H
    by (intros p a Hp; rw /t_child lookup_singleton in Hp; case_decide; naive_solver).
  split.
  - done.
  - intros p a [-> ->]%H. simpl. lia.
  - intros i p a [? _]%H. done.
  - by intros p q a [-> _]%H [-> _]%H.
  - intros p a [-> ->]%H. apply managed_demo. set_solver.
  - intros p a i [-> ->]%H _ Hi. rw /t_child lookup_singleton_ne //.
    change R2 with 0x80204000. rw ld64_demo; [|lia|change (F 5) with 0x80105000; lia].
    change R with 0x80200000; change T1 with 0x80201000; change T0 with 0x80202000; zbool; (lia || done).
Qed.

Lemma demo_parent : parent_ok s_demo t_demo t_child R 4096 l_demo.
Proof.
  split.
  - exact demo_rep.
  - apply demo_ok.
  - intros p q a H. apply demo_lookup in H. rw /t_child lookup_singleton.
    case_decide; [|done]. by destruct H as [[_ ->]|[[_ ->]|[_ ->]]].
  - intros i Hi Hsz. assert (i = 0) as -> by lia. split_and!.
    + by vm_compute.
    + split; vm_compute; [split; congruence|congruence].
    + by apply (bool_decide_unpack _); vm_compute.
    + intros q. rw /t_child lookup_singleton. case_decide; [|done]. by vm_compute.
Qed.


Lemma copyout_copyin_witness : ∃ s', copyout R 16 [1; 2; 3] 3 s_demo = Ok (0, s') ∧
    copyin R 16 3 s' = Ok ((0, [1; 2; 3]), s') ∧
    freelist s' = freelist s_demo ∧
    (∀ x, (∀ i, 0 ≤ i < 3 → x ≠ upa (km s_demo) t_demo (16 + i)) → km s' x = km s_demo x).
Proof.
  assert (∀ i, 0 ≤ i < 3 → uframe (km s_demo) t_demo (PGROUNDDOWN (16 + i)) = D) as Hd.
  { intros i Hi. rw PGROUNDDOWN_eq. replace (16 + i - (16 + i) mod 4096) with 0 by lia. by vm_compute. }
  apply (copyout_copyin s_demo t_demo R 16 [1; 2; 3]); try done.
  - exact demo_rep.
  - repeat constructor; lia.
  - split; simpl.
    + intros i Hi. by rw Hd.
    + intros i p Hi Hp. rw Hd // in Hp. apply demo_lookup in Hp.
      by destruct Hp as [[_ H]|[[_ H]|[_ H]]]; vm_compute in H.
    + intros i j Hi Hj. rw /upa !Hd //. lia.
Defined.
End Demo.
