(* ===== verification/Proc.v ===== *)
(** * Processes (syscalls lab, [proc.c] and [proc.h])

    The process table, the per-CPU [struct cpu] and the functions of [proc.c].
    A function takes the number [c] of the CPU that runs it where the source
    reads [r_tp()].  Spinlocks are tracked: [acquire] of a lock the CPU already
    holds and [release] of one it does not hold panic as in [spinlock.c], and
    [sched] tests what it tests in the source.  A function that sleeps is cut
    at [sched()]: the part before it ends with the switch to the scheduler, the
    part after it is the continuation recorded in the step relation of
    [ProcSteps.v]. *)

From S2P Require Import Prelude Machine Kalloc Vm.

(** ** What processes need of the file layer

    [filedup] and [fileclose] of [file.c], [idup], [iput], [namei], [fsinit] of
    [fs.c], [begin_op] and [end_op] of the log, over the layer's own state
    [F]. File and inode pointers are numbers, 0 is the null pointer. *)

Class FileLayer (F : Type) := {
  fl_filedup : Z → M F Z;
  fl_fileclose : Z → M F unit;
  fl_idup : Z → M F Z;
  fl_iput : Z → M F unit;
  fl_begin_op : M F unit;
  fl_end_op : M F unit;
  fl_namei : string → M F Z;
}.

Module Proc.

Definition NPROC : nat := 64.
Definition NCPU : nat := 8.
Definition NOFILE : nat := 16.

Inductive procstate := UNUSED | USED | SLEEPING | RUNNABLE | RUNNING | ZOMBIE.
#[export] Instance procstate_eq_dec : EqDecision procstate.
Proof. solve_decision. Defined.

(** A sleep channel: null, the address of a process table entry ([wait] sleeps
    on [p], [exit] wakes [p->parent]), or any other address. *)
Inductive channel := ChNull | ChProc (i : nat) | ChAddr (a : Z).
#[export] Instance channel_eq_dec : EqDecision channel.
Proof. solve_decision. Defined.

(** A pointer to a process table entry, used as a channel. *)
Definition proc_chan (p : option nat) : channel :=
  match p with Some i => ChProc i | None => ChNull end.

Inductive lock := PidLock | WaitLock | ProcLock (i : nat) | OtherLock (a : Z).
#[export] Instance lock_eq_dec : EqDecision lock.
Proof. solve_decision. Defined.

(** Saved registers for kernel context switches; [s0] to [s11] are a list. *)
Record context := MkContext { ctx_ra : Z; ctx_sp : Z; ctx_s : list Z }.
Definition context0 : context := MkContext 0 0 (replicate 12 0).

Record proc := MkProc {
  p_state : procstate;
  p_chan : channel;
  p_killed : Z;
  p_xstate : Z;
  p_pid : Z;
  p_parent : option nat;
  p_kstack : Z;
  p_sz : Z;
  p_pagetable : Z;
  p_trapframe : Z;
  p_context : context;
  p_ofile : list Z;
  p_cwd : Z;
  p_name : string;
  p_trace_mask : Z;
}.

Definition set_p_state (v : procstate) (p : proc) : proc :=
  MkProc v p.(p_chan) p.(p_killed) p.(p_xstate) p.(p_pid) p.(p_parent) p.(p_kstack) p.(p_sz)
    p.(p_pagetable) p.(p_trapframe) p.(p_context) p.(p_ofile) p.(p_cwd) p.(p_name)
    p.(p_trace_mask).
Definition set_p_chan (v : channel) (p : proc) : proc :=
  MkProc p.(p_state) v p.(p_killed) p.(p_xstate) p.(p_pid) p.(p_parent) p.(p_kstack) p.(p_sz)
    p.(p_pagetable) p.(p_trapframe) p.(p_context) p.(p_ofile) p.(p_cwd) p.(p_name)
    p.(p_trace_mask).
Definition set_p_killed (v : Z) (p : proc) : proc :=
  MkProc p.(p_state) p.(p_chan) v p.(p_xstate) p.(p_pid) p.(p_parent) p.(p_kstack) p.(p_sz)
    p.(p_pagetable) p.(p_trapframe) p.(p_context) p.(p_ofile) p.(p_cwd) p.(p_name)
    p.(p_trace_mask).
Definition set_p_xstate (v : Z) (p : proc) : proc :=
  MkProc p.(p_state) p.(p_chan) p.(p_killed) v p.(p_pid) p.(p_parent) p.(p_kstack) p.(p_sz)
    p.(p_pagetable) p.(p_trapframe) p.(p_context) p.(p_ofile) p.(p_cwd) p.(p_name)
    p.(p_trace_mask).
Definition set_p_pid (v : Z) (p : proc) : proc :=
  MkProc p.(p_state) p.(p_chan) p.(p_killed) p.(p_xstate) v p.(p_parent) p.(p_kstack) p.(p_sz)
    p.(p_pagetable) p.(p_trapframe) p.(p_context) p.(p_ofile) p.(p_cwd) p.(p_name)
    p.(p_trace_mask).
Definition set_p_parent (v : option nat) (p : proc) : proc :=
  MkProc p.(p_state) p.(p_chan) p.(p_killed) p.(p_xstate) p.(p_pid) v p.(p_kstack) p.(p_sz)
    p.(p_pagetable) p.(p_trapframe) p.(p_context) p.(p_ofile) p.(p_cwd) p.(p_name)
    p.(p_trace_mask).
Definition set_p_kstack (v : Z) (p : proc) : proc :=
  MkProc p.(p_state) p.(p_chan) p.(p_killed) p.(p_xstate) p.(p_pid) p.(p_parent) v p.(p_sz)
    p.(p_pagetable) p.(p_trapframe) p.(p_context) p.(p_ofile) p.(p_cwd) p.(p_name)
    p.(p_trace_mask).
Definition set_p_sz (v : Z) (p : proc) : proc :=
  MkProc p.(p_state) p.(p_chan) p.(p_killed) p.(p_xstate) p.(p_pid) p.(p_parent) p.(p_kstack) v
    p.(p_pagetable) p.(p_trapframe) p.(p_context) p.(p_ofile) p.(p_cwd) p.(p_name)
    p.(p_trace_mask).
Definition set_p_pagetable (v : Z) (p : proc) : proc :=
  MkProc p.(p_state) p.(p_chan) p.(p_killed) p.(p_xstate) p.(p_pid) p.(p_parent) p.(p_kstack)
    p.(p_sz) v p.(p_trapframe) p.(p_context) p.(p_ofile) p.(p_cwd) p.(p_name)
    p.(p_trace_mask).
Definition set_p_trapframe (v : Z) (p : proc) : proc :=
  MkProc p.(p_state) p.(p_chan) p.(p_killed) p.(p_xstate) p.(p_pid) p.(p_parent) p.(p_kstack)
    p.(p_sz) p.(p_pagetable) v p.(p_context) p.(p_ofile) p.(p_cwd) p.(p_name)
    p.(p_trace_mask).
Definition set_p_context (v : context) (p : proc) : proc :=
  MkProc p.(p_state) p.(p_chan) p.(p_killed) p.(p_xstate) p.(p_pid) p.(p_parent) p.(p_kstack)
    p.(p_sz) p.(p_pagetable) p.(p_trapframe) v p.(p_ofile) p.(p_cwd) p.(p_name)
    p.(p_trace_mask).
Definition set_p_ofile (v : list Z) (p : proc) : proc :=
  MkProc p.(p_state) p.(p_chan) p.(p_killed) p.(p_xstate) p.(p_pid) p.(p_parent) p.(p_kstack)
    p.(p_sz) p.(p_pagetable) p.(p_trapframe) p.(p_context) v p.(p_cwd) p.(p_name)
    p.(p_trace_mask).
Definition set_p_cwd (v : Z) (p : proc) : proc :=
  MkProc p.(p_state) p.(p_chan) p.(p_killed) p.(p_xstate) p.(p_pid) p.(p_parent) p.(p_kstack)
    p.(p_sz) p.(p_pagetable) p.(p_trapframe) p.(p_context) p.(p_ofile) v p.(p_name)
    p.(p_trace_mask).
Definition set_p_name (v : string) (p : proc) : proc :=
  MkProc p.(p_state) p.(p_chan) p.(p_killed) p.(p_xstate) p.(p_pid) p.(p_parent) p.(p_kstack)
    p.(p_sz) p.(p_pagetable) p.(p_trapframe) p.(p_context) p.(p_ofile) p.(p_cwd) v
    p.(p_trace_mask).
Definition set_p_trace_mask (v : Z) (p : proc) : proc :=
  MkProc p.(p_state) p.(p_chan) p.(p_killed) p.(p_xstate) p.(p_pid) p.(p_parent) p.(p_kstack)
    p.(p_sz) p.(p_pagetable) p.(p_trapframe) p.(p_context) p.(p_ofile) p.(p_cwd) p.(p_name)
    v.

(** [struct cpu]; [c_next] is the loop variable [p] of its [scheduler()]. *)
Record cpu := MkCpu { c_proc : option nat; c_next : nat }.

Section proc.
Context {KI : KernelImage} {F : Type} {FL : FileLayer F}.
(** The address of [forkret], which a new process's context returns to. *)
Context (forkret_pc : Z).

Record kern := MkKern {
  kmem : kst;
  procs : list proc;
  cpus : list cpu;
  initproc : option nat;
  nextpid : Z;
  held : list lock;
  fls : F;
}.

Definition set_kmem (k : kst) (s : kern) : kern :=
  MkKern k s.(procs) s.(cpus) s.(initproc) s.(nextpid) s.(held) s.(fls).
Definition set_procs (f : list proc → list proc) (s : kern) : kern :=
  MkKern s.(kmem) (f s.(procs)) s.(cpus) s.(initproc) s.(nextpid) s.(held) s.(fls).
Definition set_cpus (f : list cpu → list cpu) (s : kern) : kern :=
  MkKern s.(kmem) s.(procs) (f s.(cpus)) s.(initproc) s.(nextpid) s.(held) s.(fls).
Definition set_initproc (p : option nat) (s : kern) : kern :=
  MkKern s.(kmem) s.(procs) s.(cpus) p s.(nextpid) s.(held) s.(fls).
Definition set_nextpid (n : Z) (s : kern) : kern :=
  MkKern s.(kmem) s.(procs) s.(cpus) s.(initproc) n s.(held) s.(fls).
Definition set_held (h : list lock) (s : kern) : kern :=
  MkKern s.(kmem) s.(procs) s.(cpus) s.(initproc) s.(nextpid) h s.(fls).
Definition set_fls (f : F) (s : kern) : kern :=
  MkKern s.(kmem) s.(procs) s.(cpus) s.(initproc) s.(nextpid) s.(held) f.

Definition K {A} (m : M kst A) : M kern A := lift kmem set_kmem m.
Definition Fl {A} (m : M F A) : M kern A := lift fls set_fls m.

(** Reading and updating [proc[i]]; a pointer outside the table is undefined. *)
Definition getp (i : nat) : M kern proc := λ s,
  match s.(procs) !! i with
  | Some p => Ok (p, s)
  | None => Err (Undef "proc index")
  end.
Definition updp (i : nat) (f : proc → proc) : M kern unit :=
  getp i;; modify (set_procs (alter f i)).
Definition deref {A} (p : option A) : M kern A :=
  match p with Some i => mret i | None => undef "null pointer" end.
(** The indices of [for(p = proc; p < &proc[NPROC]; p++)]. *)
Definition all_procs : list nat := seq 0 NPROC.

(** *** Spinlocks held by the running CPU *)
Definition acquire (l : lock) : M kern unit :=
  h ← gets held;
  if bool_decide (l ∈ h) then panic "acquire" else modify (set_held (l :: h)).
Definition release (l : lock) : M kern unit :=
  h ← gets held;
  if bool_decide (l ∈ h) then modify (set_held (filter (λ x, x ≠ l) h))
  else panic "release".
Definition holding (l : lock) : M kern bool := gets (λ s, bool_decide (l ∈ s.(held))).

(** *** Boot *)
Definition proc_mapstacks (kpgtbl : Z) : M kern unit :=
  for_each (R := unit) all_procs (λ i,
    pa ← K kalloc;
    if pa =? 0 then panic "kalloc" else
    let va := KSTACK (Z.of_nat i) in
    K (kvmmap kpgtbl va pa PGSIZE (Z.lor PTE_R PTE_W));;
    mret None);;
  mret tt.

Definition procinit : M kern unit :=
  for_each (R := unit) all_procs (λ i,
    updp i (set_p_kstack (KSTACK (Z.of_nat i)));; mret None);;
  mret tt.

(** *** The current process *)
Definition mycpu (c : nat) : M kern cpu :=
  cs ← gets cpus; deref (cs !! c).
Definition myproc (c : nat) : M kern (option nat) :=
  cp ← mycpu c; mret cp.(c_proc).
Definition set_cpu (c : nat) (f : cpu → cpu) : M kern unit :=
  mycpu c;; modify (set_cpus (alter f c)).

(** [int] arithmetic: overflow of [nextpid + 1] is undefined. *)
Definition allocpid : M kern Z :=
  acquire PidLock;;
  pid ← gets nextpid;
  (if 2 ^ 31 - 1 <=? pid then undef "nextpid overflow"
   else modify (set_nextpid (pid + 1)));;
  release PidLock;;
  mret pid.

(** *** Page tables of processes *)
Definition proc_freepagetable (pagetable sz : Z) : M kst unit :=
  uvmunmap pagetable TRAMPOLINE 1 false;;
  uvmunmap pagetable TRAPFRAME 1 false;;
  uvmfree pagetable sz.

Definition proc_pagetable (trapframe : Z) : M kst Z :=
  pagetable ← uvmcreate;
  if pagetable =? 0 then mret 0 else
  r ← mappages pagetable TRAMPOLINE PGSIZE trampoline (Z.lor PTE_R PTE_X);
  if r <? 0 then uvmfree pagetable 0;; mret 0 else
  r ← mappages pagetable TRAPFRAME PGSIZE trapframe (Z.lor PTE_R PTE_W);
  if r <? 0 then
    uvmunmap pagetable TRAMPOLINE 1 false;; uvmfree pagetable 0;; mret 0
  else mret pagetable.

Definition freeproc (i : nat) : M kern unit :=
  p ← getp i;
  when (negb (p.(p_trapframe) =? 0)) (K (kfree p.(p_trapframe)));;
  updp i (set_p_trapframe 0);;
  when (negb (p.(p_pagetable) =? 0)) (K (proc_freepagetable p.(p_pagetable) p.(p_sz)));;
  updp i (set_p_pagetable 0);;
  updp i (set_p_sz 0);;
  updp i (set_p_pid 0);;
  updp i (set_p_parent None);;
  updp i (set_p_name EmptyString);;
  updp i (set_p_chan ChNull);;
  updp i (set_p_killed 0);;
  updp i (set_p_xstate 0);;
  updp i (set_p_state UNUSED).

(** The search loop leaves with [p->lock] held. *)
Definition find_unused : M kern (option nat) :=
  for_each all_procs (λ i,
    acquire (ProcLock i);;
    p ← getp i;
    if bool_decide (p.(p_state) = UNUSED) then mret (Some i)
    else release (ProcLock i);; mret None).

Definition allocproc : M kern (option nat) :=
  found ← find_unused;
  match found with
  | None => mret None
  | Some i =>
      pid ← allocpid;
      updp i (set_p_pid pid);;
      updp i (set_p_state USED);;
      tf ← K kalloc;
      updp i (set_p_trapframe tf);;
      if tf =? 0 then
        freeproc i;; release (ProcLock i);; mret None
      else
      pt ← K (proc_pagetable tf);
      updp i (set_p_pagetable pt);;
      if pt =? 0 then
        freeproc i;; release (ProcLock i);; mret None
      else
      p ← getp i;
      updp i (set_p_context (MkContext forkret_pc (u64 (p.(p_kstack) + PGSIZE)) (replicate 12 0)));;
      mret (Some i)
  end.

(** [safestrcpy(dst, src, n)]: at most [n - 1] characters. *)
Definition safestrcpy (src : string) (n : nat) : string := String.substring 0 (n - 1) src.

Definition initcode : list Z := [
  0x17; 0x05; 0x00; 0x00; 0x13; 0x05; 0x45; 0x02;
  0x97; 0x05; 0x00; 0x00; 0x93; 0x85; 0x35; 0x02;
  0x93; 0x08; 0x70; 0x00; 0x73; 0x00; 0x00; 0x00;
  0x93; 0x08; 0x20; 0x00; 0x73; 0x00; 0x00; 0x00;
  0xef; 0xf0; 0x9f; 0xff; 0x2f; 0x69; 0x6e; 0x69;
  0x74; 0x00; 0x00; 0x24; 0x00; 0x00; 0x00; 0x00;
  0x00; 0x00; 0x00; 0x00 ].

(** Offsets of the fields of [struct trapframe], and its size. *)
Definition TF_epc : Z := 24.
Definition TF_sp : Z := 48.
Definition TF_a0 : Z := 112.
Definition TF_a1 : Z := 120.
Definition TF_a7 : Z := 168.
Definition TF_size : Z := 288.

Definition tf_store (tf off v : Z) : M kst unit :=
  modify (set_km (λ m, st64 m (tf + off) v)).

Definition userinit : M kern unit :=
  r ← allocproc;
  modify (set_initproc r);;
  i ← deref r;
  p ← getp i;
  K (uvminit p.(p_pagetable) initcode (Z.of_nat (length initcode)));;
  updp i (set_p_sz PGSIZE);;
  K (tf_store p.(p_trapframe) TF_epc 0);;
  K (tf_store p.(p_trapframe) TF_sp PGSIZE);;
  updp i (set_p_name (safestrcpy "initcode" 16));;
  cwd ← Fl (fl_namei "/");
  updp i (set_p_cwd cwd);;
  updp i (set_p_state RUNNABLE);;
  release (ProcLock i).

(** [sz] is a [uint], so [sz + n] wraps at 32 bits. *)
Definition growproc (c : nat) (n : Z) : M kern Z :=
  r ← myproc c; i ← deref r; p ← getp i;
  let sz := u32 p.(p_sz) in
  if 0 <? n then
    r ← K (uvmalloc p.(p_pagetable) sz (u32 (sz + n)));
    let sz := u32 r in
    if sz =? 0 then mret (-1)
    else updp i (set_p_sz sz);; mret 0
  else if n <? 0 then
    r ← K (uvmdealloc p.(p_pagetable) sz (u32 (sz + n)));
    updp i (set_p_sz (u32 r));; mret 0
  else updp i (set_p_sz sz);; mret 0.

(** [fork] up to the first [release(&np->lock)]: [None] is the return of -1. *)
Definition fork_create (c : nat) : M kern (option (nat * Z)) :=
  r ← myproc c; i ← deref r; p ← getp i;
  r ← allocproc;
  match r with
  | None => mret None
  | Some n =>
      np ← getp n;
      e ← K (uvmcopy p.(p_pagetable) np.(p_pagetable) p.(p_sz));
      if e <? 0 then freeproc n;; release (ProcLock n);; mret None else
      updp n (set_p_sz p.(p_sz));;
      K (modify (set_km (λ m, memmove m np.(p_trapframe) p.(p_trapframe) TF_size)));;
      K (tf_store np.(p_trapframe) TF_a0 0);;
      for_each (R := unit) (seq 0 NOFILE) (λ fd,
        let f := nth fd p.(p_ofile) 0 in
        if negb (f =? 0) then
          f' ← Fl (fl_filedup f);
          updp n (λ np, set_p_ofile (<[fd := f']> np.(p_ofile)) np);;
          mret None
        else mret None);;
      cwd ← Fl (fl_idup p.(p_cwd));
      updp n (set_p_cwd cwd);;
      updp n (set_p_trace_mask p.(p_trace_mask));;
      updp n (set_p_name (safestrcpy p.(p_name) 16));;
      np ← getp n;
      let pid := np.(p_pid) in
      release (ProcLock n);;
      mret (Some (n, pid))
  end.

Definition fork_set_parent (c n : nat) : M kern unit :=
  r ← myproc c;
  acquire WaitLock;;
  updp n (set_p_parent r);;
  release WaitLock.

Definition fork_start (n : nat) : M kern unit :=
  acquire (ProcLock n);;
  updp n (set_p_state RUNNABLE);;
  release (ProcLock n).

Definition fork (c : nat) : M kern Z :=
  r ← fork_create c;
  match r with
  | None => mret (-1)
  | Some (n, pid) => fork_set_parent c n;; fork_start n;; mret pid
  end.

(** *** Sleep and wakeup *)
Definition wakeup (c : nat) (chan : channel) : M kern unit :=
  for_each (R := unit) all_procs (λ i,
    me ← myproc c;
    if bool_decide (me = Some i) then mret None else
    acquire (ProcLock i);;
    p ← getp i;
    (if bool_decide (p.(p_state) = SLEEPING ∧ p.(p_chan) = chan)
     then updp i (set_p_state RUNNABLE) else mret tt);;
    release (ProcLock i);;
    mret None);;
  mret tt.

(** The scheduler after [swtch] comes back to it: [c->proc = 0], release the
    process's lock, go on with the next entry. *)
Definition scheduler_resume (c i : nat) : M kern unit :=
  set_cpu c (λ _, MkCpu None (S i mod NPROC)%nat);;
  release (ProcLock i).

(** One round of the scheduler's inner loop: either [Some i], a process was
    chosen and runs, with [p->lock] held as it was at its own switch, or
    [None]. *)
Definition scheduler (c : nat) : M kern (option nat) :=
  cp ← mycpu c;
  let i := cp.(c_next) in
  acquire (ProcLock i);;
  p ← getp i;
  if bool_decide (p.(p_state) = RUNNABLE) then
    updp i (set_p_state RUNNING);;
    set_cpu c (λ cp, MkCpu (Some i) cp.(c_next));;
    mret (Some i)
  else
    set_cpu c (λ cp, MkCpu cp.(c_proc) (S i mod NPROC)%nat);;
    release (ProcLock i);;
    mret None.

(** [sched()] up to its [swtch], then the scheduler it switches to. *)
Definition sched (c : nat) : M kern unit :=
  r ← myproc c; i ← deref r; p ← getp i;
  b ← holding (ProcLock i);
  h ← gets held;
  if negb b then panic "sched p->lock"
  else if negb (length h =? 1)%nat then panic "sched locks"
  else if bool_decide (p.(p_state) = RUNNING) then panic "sched running"
  else scheduler_resume c i.

Definition yield (c : nat) : M kern unit :=
  r ← myproc c; i ← deref r;
  acquire (ProcLock i);;
  updp i (set_p_state RUNNABLE);;
  sched c.

(** [sleep] up to its [sched()], and what it does when it is scheduled again
    except for reacquiring [lk]. *)
Definition sleep (c : nat) (chan : channel) (lk : lock) : M kern unit :=
  r ← myproc c; i ← deref r;
  acquire (ProcLock i);;
  release lk;;
  updp i (set_p_chan chan);;
  updp i (set_p_state SLEEPING);;
  sched c.

Definition sleep_resume (i : nat) : M kern unit :=
  updp i (set_p_chan ChNull);;
  release (ProcLock i).

(** [forkret] and the end of [yield]: a process scheduled again releases its
    lock. *)
Definition forkret (i : nat) : M kern unit := release (ProcLock i).

Definition kill (pid : Z) : M kern Z :=
  r ← for_each all_procs (λ i,
    acquire (ProcLock i);;
    p ← getp i;
    if p.(p_pid) =? pid then
      updp i (set_p_killed 1);;
      (if bool_decide (p.(p_state) = SLEEPING)
       then updp i (set_p_state RUNNABLE) else mret tt);;
      release (ProcLock i);;
      mret (Some 0)
    else release (ProcLock i);; mret None);
  mret (default (-1) r).

(** *** Exit and wait *)
Definition reparent (c i : nat) : M kern unit :=
  for_each (R := unit) all_procs (λ j,
    pp ← getp j;
    if bool_decide (pp.(p_parent) = Some i) then
      ip ← gets initproc;
      updp j (set_p_parent ip);;
      wakeup c (proc_chan ip);;
      mret None
    else mret None);;
  mret tt.

Definition exit (c : nat) (status : Z) : M kern unit :=
  r ← myproc c;
  ip ← gets initproc;
  if bool_decide (r = ip) then panic "init exiting" else
  i ← deref r;
  for_each (R := unit) (seq 0 NOFILE) (λ fd,
    p ← getp i;
    let f := nth fd p.(p_ofile) 0 in
    if negb (f =? 0) then
      Fl (fl_fileclose f);;
      updp i (λ p, set_p_ofile (<[fd := 0]> p.(p_ofile)) p);;
      mret None
    else mret None);;
  p ← getp i;
  Fl fl_begin_op;;
  Fl (fl_iput p.(p_cwd));;
  Fl fl_end_op;;
  updp i (set_p_cwd 0);;
  acquire WaitLock;;
  reparent c i;;
  p ← getp i;
  wakeup c (proc_chan p.(p_parent));;
  acquire (ProcLock i);;
  updp i (set_p_xstate status);;
  updp i (set_p_state ZOMBIE);;
  release WaitLock;;
  sched c.

(** One scan of [wait]'s loop, which ends in the return of a value ([Some r])
    or in the [sleep] of [p] on its own channel ([None]). *)
Definition wait_scan (c : nat) (addr : Z) : M kern (option Z) :=
  r ← myproc c; i ← deref r;
  acquire WaitLock;;
  x ← for_acc all_procs false (λ n havekids,
    np ← getp n;
    if bool_decide (np.(p_parent) = Some i) then
      acquire (ProcLock n);;
      np ← getp n;
      if bool_decide (np.(p_state) = ZOMBIE) then
        let pid := np.(p_pid) in
        p ← getp i;
        e ← (if negb (addr =? 0)
             then K (copyout p.(p_pagetable) addr (le_bytes 4 np.(p_xstate)) 4)
             else mret 0);
        if e <? 0 then
          release (ProcLock n);; release WaitLock;; mret (inr (-1))
        else
          freeproc n;; release (ProcLock n);; release WaitLock;; mret (inr pid)
      else release (ProcLock n);; mret (inl true)
    else mret (inl havekids));
  match x with
  | inr r => mret (Some r)
  | inl havekids =>
      p ← getp i;
      if negb havekids || negb (p.(p_killed) =? 0) then
        release WaitLock;; mret (Some (-1))
      else
        sleep c (ChProc i) WaitLock;; mret None
  end.

(** *** Copies that may be to or from kernel memory *)
Definition either_copyout (c : nat) (user_dst : bool) (dst : Z) (src : list Z) (len : Z) : M kern Z :=
  r ← myproc c;
  if user_dst then
    i ← deref r; p ← getp i;
    K (copyout p.(p_pagetable) dst src len)
  else K (modify (set_km (λ m, mem_write m dst (take (Z.to_nat len) src))));; mret 0.

Definition either_copyin (c : nat) (user_src : bool) (src len : Z) : M kern (Z * list Z) :=
  r ← myproc c;
  if user_src then
    i ← deref r; p ← getp i;
    K (copyin p.(p_pagetable) src len)
  else bs ← K (gets (λ s, mem_read s.(km) src (Z.to_nat len))); mret (0, bs).

Definition states (s : procstate) : option string :=
  match s with
  | UNUSED => Some "unused"
  | SLEEPING => Some "sleep "
  | RUNNABLE => Some "runble"
  | RUNNING => Some "run   "
  | ZOMBIE => Some "zombie"
  | USED => None
  end.

(** The lines [procdump] prints: pid, state, name. *)
Definition procdump : M kern (list (Z * string * string)) :=
  ps ← gets procs;
  mret (omap (λ p, if bool_decide (p.(p_state) = UNUSED) then None
                   else Some (p.(p_pid), default "???" (states p.(p_state)), p.(p_name))) ps).

Definition nproc : M kern Z :=
  x ← for_acc (R := Empty_set) all_procs 0 (λ i num,
    acquire (ProcLock i);;
    p ← getp i;
    let num := if bool_decide (p.(p_state) ≠ UNUSED) then u64 (num + 1) else num in
    release (ProcLock i);;
    mret (inl num));
  match x with inl num => mret num | inr r => match (r : Empty_set) with end end.

End proc.
End Proc.
