(* ===== verification/ProcSteps.v ===== *)
(** * Processes as a state machine ([proc.c])

    The kernel's CPUs interleave the critical sections of [proc.c]: a step is
    one run of such a section by one CPU, taken in a state where no CPU is
    inside another.  [kpc] records where in [proc.c] a process is when it is
    not inside a section, so that what it does next is what the source does
    next.  The file proves what each section does to the table. *)

From S2P Require Import Prelude Machine Kalloc Vm Proc.
Import Proc.

Module ProcSteps.

(** Where a process stands between two sections. *)
Inductive kpc :=
  | KUser                 (* in user space, or in code that is not of proc.c *)
  | KFork1 (n : nat)      (* in fork, before np->parent = p *)
  | KFork2 (n : nat)      (* in fork, before np->state = RUNNABLE *)
  | KWait (addr : Z)      (* in wait, before acquire(&wait_lock) *)
  | KWaitSleep (addr : Z) (* in wait, inside sleep(p, &wait_lock) *)
  | KSleep.               (* inside any other sleep() *)

Section steps.
Context {KI : KernelImage} {F : Type} {FL : FileLayer F} (forkret_pc : Z).

Definition sys : Type := kern (F := F) * (nat → kpc).
Definition upd (pcs : nat → kpc) (i : nat) (pc : kpc) : nat → kpc :=
  λ j, if decide (j = i) then pc else pcs j.

(** CPU [c] runs process [i]. *)
Definition on_cpu (s : kern (F := F)) (c i : nat) : Prop :=
  ∃ cp, s.(cpus) !! c = Some cp ∧ cp.(c_proc) = Some i.
Definition idle (s : kern (F := F)) (c : nat) : Prop :=
  ∃ cp, s.(cpus) !! c = Some cp ∧ cp.(c_proc) = None.

(** What a process does when it is scheduled again. *)
Definition resume (i : nat) (pc : kpc) : M (kern (F := F)) kpc :=
  match pc with
  | KSleep => sleep_resume i;; mret KUser
  | KWaitSleep addr => sleep_resume i;; mret (KWait addr)
  | _ => forkret i;; mret pc
  end.

(** Fields of a process that code outside these sections may change: all but
    those that scheduling, [kill] and [wait] depend on. *)
Definition same_sched (p q : proc) : Prop :=
  q.(p_state) = p.(p_state) ∧ q.(p_chan) = p.(p_chan) ∧ q.(p_pid) = p.(p_pid)
  ∧ q.(p_parent) = p.(p_parent) ∧ q.(p_killed) = p.(p_killed) ∧ q.(p_xstate) = p.(p_xstate).

Inductive step : sys → sys → Prop :=
  | step_fork c i s pcs n pid s' :
      on_cpu s c i → pcs i = KUser →
      fork_create forkret_pc c s = Ok (Some (n, pid), s') →
      step (s, pcs) (s', upd (upd pcs n KUser) i (KFork1 n))
  | step_fork_fail c i s pcs s' :
      on_cpu s c i → pcs i = KUser →
      fork_create forkret_pc c s = Ok (None, s') →
      step (s, pcs) (s', pcs)
  | step_fork_parent c i s pcs n s' :
      on_cpu s c i → pcs i = KFork1 n →
      fork_set_parent c n s = Ok (tt, s') →
      step (s, pcs) (s', upd pcs i (KFork2 n))
  | step_fork_start c i s pcs n s' :
      on_cpu s c i → pcs i = KFork2 n →
      fork_start n s = Ok (tt, s') →
      step (s, pcs) (s', upd pcs i KUser)
  | step_exit c i s pcs status s' :
      on_cpu s c i → pcs i = KUser →
      exit c status s = Ok (tt, s') →
      step (s, pcs) (s', pcs)
  | step_wait_call c i s pcs addr :
      on_cpu s c i → pcs i = KUser →
      step (s, pcs) (s, upd pcs i (KWait addr))
  | step_wait_return c i s pcs addr r s' :
      on_cpu s c i → pcs i = KWait addr →
      wait_scan c addr s = Ok (Some r, s') →
      step (s, pcs) (s', upd pcs i KUser)
  | step_wait_sleep c i s pcs addr s' :
      on_cpu s c i → pcs i = KWait addr →
      wait_scan c addr s = Ok (None, s') →
      step (s, pcs) (s', upd pcs i (KWaitSleep addr))
  | step_sleep c i s pcs a lk s' :
      on_cpu s c i → pcs i = KUser →
      (acquire (OtherLock lk);; sleep c (ChAddr a) (OtherLock lk)) s = Ok (tt, s') →
      step (s, pcs) (s', upd pcs i KSleep)
  | step_yield c i s pcs s' :
      on_cpu s c i →
      yield c s = Ok (tt, s') →
      step (s, pcs) (s', pcs)
  | step_sched_skip c s pcs s' :
      idle s c →
      scheduler c s = Ok (None, s') →
      step (s, pcs) (s', pcs)
  | step_sched_run c s pcs i s1 pc s' :
      idle s c →
      scheduler c s = Ok (Some i, s1) →
      resume i (pcs i) s1 = Ok (pc, s') →
      step (s, pcs) (s', upd pcs i pc)
  | step_kill c i s pcs pid r s' :
      on_cpu s c i →
      kill pid s = Ok (r, s') →
      step (s, pcs) (s', pcs)
  | step_wakeup c s pcs a s' :
      is_Some (s.(cpus) !! c) →
      wakeup c (ChAddr a) s = Ok (tt, s') →
      step (s, pcs) (s', pcs)
  | step_other c i s pcs k f g :
      on_cpu s c i →
      (∀ p, same_sched p (g p)) →
      step (s, pcs) (set_kmem k (set_fls f (set_procs (alter g i) s)), pcs).

(** Boot: a zeroed process table on which [procinit] and [userinit] have run. *)
Definition proc0 : proc :=
  MkProc UNUSED ChNull 0 0 0 None 0 0 0 0 context0 (replicate NOFILE 0) 0 EmptyString 0.
Definition boot_state (k : kst) (f : F) : kern :=
  MkKern k (replicate NPROC proc0) (replicate NCPU (MkCpu None 0)) None 1 [] f.

Inductive initial : sys → Prop :=
  | initial_boot k f s :
      (procinit;; userinit forkret_pc) (boot_state k f) = Ok (tt, s) →
      initial (s, λ _, KUser).

Definition reachable (σ : sys) : Prop := ∃ σ0, initial σ0 ∧ rtc step σ0 σ.

End steps.
End ProcSteps.
