(* ===== verification/ProcEffects.v ===== *)
(** * What the sections of [proc.c] do to the process table

    One lemma per operation, over the fields that scheduling depends on
    ([pview]); memory and the file layer may change freely.  The lemmas feed
    the invariant of [ProcInv.v]. *)

From S2P Require Import Prelude Machine Kalloc Vm Proc ProcSteps.
Import Proc ProcSteps.

Module ProcEffects.

(** The part of a process that the invariant is about. *)
Record pview := MkView {
  v_state : procstate;
  v_chan : channel;
  v_pid : Z;
  v_parent : option nat;
}.
Definition view (p : proc) : pview :=
  MkView p.(p_state) p.(p_chan) p.(p_pid) p.(p_parent).
Definition v_with_state (st : procstate) (v : pview) : pview :=
  MkView st v.(v_chan) v.(v_pid) v.(v_parent).
Definition v_with_parent (pa : option nat) (v : pview) : pview :=
  MkView v.(v_state) v.(v_chan) v.(v_pid) pa.

(** [wakeup(ch)] called by the process [me]. *)
Definition v_wake (me : option nat) (ch : channel) (i : nat) (v : pview) : pview :=
  if decide (me = Some i) then v
  else if decide (v.(v_state) = SLEEPING ∧ v.(v_chan) = ch) then v_with_state RUNNABLE v
  else v.

Section effects.
Context {KI : KernelImage} {F : Type} {FL : FileLayer F} (forkret_pc : Z).
Implicit Types (s : kern (F := F)).

Definition views (s : kern (F := F)) : list pview := view <$> s.(procs).

(** [s'] differs from [s] only in memory, the file layer, the process table,
    whose views are [vs], [nextpid] and the locks held. *)
Definition eff (s : kern (F := F)) (vs : list pview) (np : Z) (h : list lock)
    (s' : kern (F := F)) : Prop :=
  views s' = vs ∧ s'.(cpus) = s.(cpus) ∧ s'.(initproc) = s.(initproc)
  ∧ s'.(nextpid) = np ∧ s'.(held) = h.
Definition same_but (s : kern (F := F)) (vs : list pview) (s' : kern (F := F)) : Prop :=
  eff s vs s.(nextpid) s.(held) s'.

Lemma filter_release (l : lock) h : l ∉ h → filter (λ x, x ≠ l) (l :: h) = h.
Proof.
  intros Hl. rw filter_cons_False; [|by intros []].
  induction h as [|x h IH]; [done|].
  rw filter_cons_True; [|set_solver]. rw IH; [done|set_solver].
Qed.

(** *** Primitive operations *)
Lemma wlp_K {A} (m : M kst A) (Q : A → kern → Prop) s :
  (∀ a k, Q a (set_kmem k s)) → wlp (K m) Q s.
Proof. intros H. apply wlp_lift, wlp_of_run. eauto. Qed.
Lemma wlp_Fl {A} (m : M F A) (Q : A → kern → Prop) s :
  (∀ a f, Q a (set_fls f s)) → wlp (Fl m) Q s.
Proof. intros H. apply wlp_lift, wlp_of_run. eauto. Qed.
Lemma wlp_getp i (Q : proc → kern → Prop) s :
  (∀ p, s.(procs) !! i = Some p → Q p s) → wlp (getp i) Q s.
Proof. intros H. rw /wlp /getp. destruct (procs s !! i) eqn:E; [by apply H|done]. Qed.
Lemma wlp_updp i f (Q : unit → kern → Prop) s :
  (∀ p, s.(procs) !! i = Some p → Q tt (set_procs (alter f i) s)) → wlp (updp i f) Q s.
Proof.
  intros H. apply wlp_bind, wlp_getp. intros p Hp. by eapply wlp_modify, H.
Qed.
Lemma wlp_deref {A} (o : option A) (Q : A → kern → Prop) s :
  (∀ a, o = Some a → Q a s) → wlp (deref o) Q s.
Proof. intros H. destruct o; [by apply H|done]. Qed.
Lemma wlp_acquire l (Q : unit → kern → Prop) s :
  (l ∉ s.(held) → Q tt (set_held (l :: s.(held)) s)) → wlp (acquire l) Q s.
Proof.
  intros H. apply wlp_bind, wlp_gets. case_bool_decide; [done|]. by apply wlp_modify, H.
Qed.
Lemma wlp_release l (Q : unit → kern → Prop) s :
  Q tt (set_held (filter (λ x, x ≠ l) s.(held)) s) → wlp (release l) Q s.
Proof.
  intros H. apply wlp_bind, wlp_gets. case_bool_decide; [|done]. by apply wlp_modify, H.
Qed.
Lemma wlp_myproc c (Q : option nat → kern → Prop) s :
  (∀ cp, s.(cpus) !! c = Some cp → Q cp.(c_proc) s) → wlp (myproc c) Q s.
Proof.
  intros H. apply wlp_bind, wlp_bind, wlp_gets, wlp_deref. intros cp Hcp. by apply wlp_ret, H.
Qed.
Lemma wlp_set_cpu c f (Q : unit → kern → Prop) s :
  (∀ cp, s.(cpus) !! c = Some cp → Q tt (set_cpus (alter f c) s)) → wlp (set_cpu c f) Q s.
Proof.
  intros H. apply wlp_bind, wlp_bind, wlp_gets, wlp_deref. intros cp Hcp. by eapply wlp_modify, H.
Qed.

Lemma views_alter s i f g :
  (∀ p, view (f p) = g (view p)) → views (set_procs (alter f i) s) = alter g i (views s).
Proof.
  intros H. apply list_eq. intros j. rw /views /= list_lookup_fmap.
  destruct (decide (i = j)) as [->|Hne].
  - rw !list_lookup_alter_eq list_lookup_fmap. destruct (procs s !! j); simpl; [by rw H|done].
  - by rw !list_lookup_alter_ne // list_lookup_fmap.
Qed.

Lemma lookup_views s i v :
  views s !! i = Some v ↔ ∃ p, s.(procs) !! i = Some p ∧ v = view p.
Proof. rw /views list_lookup_fmap fmap_Some. naive_solver. Qed.

Lemma set_held_id s : set_held s.(held) s = s.
Proof. by destruct s. Qed.
Lemma set_held_released s l : l ∉ s.(held) →
  set_held (filter (λ x, x ≠ l) (l :: s.(held))) (set_held (l :: s.(held)) s) = s.
Proof. intros. rw filter_release //. by destruct s. Qed.

End effects.

(** Symbolic execution of a [wlp] goal down to its postcondition. *)
Ltac wlp_step :=
  match goal with
  | |- wlp (mret _) _ _ => apply wlp_ret
  | |- wlp (_ ≫= _) _ _ => apply wlp_bind
  | |- wlp (gets _) _ _ => apply wlp_gets
  | |- wlp (modify _) _ _ => apply wlp_modify
  | |- wlp (panic _) _ _ => apply wlp_panic
  | |- wlp (undef _) _ _ => apply wlp_undef
  | |- wlp (K _) _ _ => apply wlp_K; intros ? ?
  | |- wlp (Fl _) _ _ => apply wlp_Fl; intros ? ?
  | |- wlp (getp _) _ _ => apply wlp_getp; intros ? ?
  | |- wlp (updp _ _) _ _ => apply wlp_updp; intros ? ?
  | |- wlp (deref _) _ _ => apply wlp_deref; intros ? ?
  | |- wlp (acquire _) _ _ => apply wlp_acquire; intros ?
  | |- wlp (release _) _ _ => apply wlp_release
  | |- wlp (myproc _) _ _ => apply wlp_myproc; intros ? ?
  | |- wlp (set_cpu _ _) _ _ => apply wlp_set_cpu; intros ? ?
  | |- wlp (when _ _) _ _ => apply wlp_when; intros ?
  end; simpl.
Ltac wlp_steps := repeat wlp_step.


(** Equality of two process tables updated entry by entry. *)
Ltac table_eq :=
  apply list_eq; let j := fresh "j" in intros j;
  rewrite -> ?list_lookup_fmap, ?list_lookup_alter; repeat (rewrite -> ?list_lookup_fmap, ?list_lookup_alter);
  repeat case_decide; subst; try done;
  repeat match goal with
  | H : ?l !! ?i = Some _ |- _ => rewrite -> H
  end; simpl; try done;
  repeat match goal with |- context [?l !! ?i] => destruct (l !! i) eqn:?; simpl end; try done.

Section operations.
Context {KI : KernelImage} {F : Type} {FL : FileLayer F} (forkret_pc : Z).
Implicit Types (s : kern (F := F)).

Definition v_free : pview := MkView UNUSED ChNull 0 None.

Lemma freeproc_effect i s :
  wlp (freeproc i) (λ _ s', same_but s (alter (λ _, v_free) i (views s)) s') s.
Proof.
  rw /freeproc. wlp_steps; (repeat split; [rw /views /=; table_eq|done..]).
Qed.

Lemma find_unused_effect s :
  wlp find_unused (λ r s', match r with
    | None => s' = s
    | Some i => ProcLock i ∉ s.(held) ∧ s' = set_held (ProcLock i :: s.(held)) s
                ∧ ∃ p, s.(procs) !! i = Some p ∧ p.(p_state) = UNUSED
    end) s.
Proof.
  apply (wlp_for_each (λ _ s', s' = s)); [done|].
  intros _ i s' _ ->. wlp_steps. case_bool_decide; wlp_steps; [by eauto|].
  by apply set_held_released.
Qed.

Definition v_used (pid : Z) (v : pview) : pview := MkView USED v.(v_chan) pid v.(v_parent).

(** A failed [allocproc] leaves the table as it was, except that the slot it
    tried, if there was one, has been cleared again and a pid is gone. *)
Definition alloc_failed s s' : Prop :=
  same_but s (views s) s'
  ∨ ∃ i v, views s !! i = Some v ∧ v.(v_state) = UNUSED
      ∧ eff s (alter (λ _, v_free) i (views s)) (s.(nextpid) + 1) s.(held) s'.
Definition alloc_done s i h s' : Prop :=
  ∃ v, views s !! i = Some v ∧ v.(v_state) = UNUSED ∧ ProcLock i ∉ s.(held)
    ∧ eff s (alter (v_used s.(nextpid)) i (views s)) (s.(nextpid) + 1) h s'.

Lemma allocpid_effect s :
  wlp allocpid (λ pid s', pid = s.(nextpid) ∧ s' = set_nextpid (s.(nextpid) + 1) s) s.
Proof.
  rw /allocpid. wlp_steps. destruct (_ <=? _); wlp_steps.
  split; [done|]. rw filter_release //.
Qed.

(** [freeproc] and [release] of a slot that was just taken. *)
Lemma undo_alloc {R} i s v s1 :
  views s !! i = Some v → v.(v_state) = UNUSED → ProcLock i ∉ s.(held) →
  (∃ f, eff s (alter f i (views s)) (s.(nextpid) + 1) (ProcLock i :: s.(held)) s1) →
  wlp (freeproc i;; release (ProcLock i);; mret (None : option R))
    (λ r s', r = None ∧ alloc_failed s s') s1.
Proof.
  intros Hv Hst Hl (f & Hvs & Hcp & Hip & Hnp & Hh).
  apply wlp_bind. eapply wlp_mono; [|apply freeproc_effect].
  intros _ s2 (Hvs2 & Hcp2 & Hip2 & Hnp2 & Hh2). wlp_steps.
  split; [done|]. right. exists i, v.
  split_and!; [done..|]. repeat split; simpl; try congruence.
  - change (views s2 = alter (λ _, v_free) i (views s)). rw Hvs2 Hvs. table_eq.
  - rw Hh2 Hh. by apply filter_release.
Qed.

Lemma allocproc_effect s :
  wlp (allocproc forkret_pc) (λ r s', match r with
    | None => alloc_failed s s'
    | Some i => alloc_done s i (ProcLock i :: s.(held)) s'
    end) s.
Proof.
  rw /allocproc. apply wlp_bind. eapply wlp_mono; [|apply find_unused_effect].
  intros [i|] s0; [|intros ->; by left].
  intros (Hl & -> & p & Hp & Hst).
  apply wlp_bind. eapply wlp_mono; [|apply allocpid_effect].
  intros pid s0 [-> ->]. wlp_steps.
  assert (views s !! i = Some (view p)) as Hv by (apply lookup_views; eauto).
  destruct (_ =? 0).
  { eapply wlp_mono; [|eapply (undo_alloc i s (view p)); [done..|]].
    { by intros ? ? [-> ?]. }
    exists (v_used (nextpid s)). repeat split. rw /views /=. table_eq. }
  wlp_steps. destruct (_ =? 0).
  { eapply wlp_mono; [|eapply (undo_alloc i s (view p)); [done..|]].
    { by intros ? ? [-> ?]. }
    exists (v_used (nextpid s)). repeat split. rw /views /=. table_eq. }
  wlp_steps. exists (view p). split_and!; [done..|].
  repeat split. rw /views /=. table_eq.
Qed.

Lemma same_but_trans s vs np h s1 vs2 s2 :
  eff s vs np h s1 → same_but s1 vs2 s2 → eff s vs2 np h s2.
Proof. rw /same_but /eff. intuition congruence. Qed.

Lemma views_id s i f : (∀ p, view (f p) = view p) → views (set_procs (alter f i) s) = views s.
Proof. intros H. rw /views /=. table_eq. by rw H. Qed.

(** The loop that duplicates the parent's open files. *)
Lemma dup_files_effect n p s :
  wlp (for_each (R := unit) (seq 0 NOFILE) (λ fd,
        let f := nth fd p.(p_ofile) 0 in
        if negb (f =? 0) then
          f' ← Fl (fl_filedup f);
          updp n (λ np, set_p_ofile (<[fd := f']> np.(p_ofile)) np);;
          mret None
        else mret None)) (λ x s', same_but s (views s) s') s.
Proof.
  eapply wlp_mono; [|apply (wlp_for_each (λ _ s', same_but s (views s) s') (λ _ _, False)); [done|]].
  { by intros [[]|]. }
  intros _ fd s1 _ Hs1. simpl. destruct (negb _); wlp_steps; [|done].
  destruct Hs1 as (Hv & ? & ? & ? & ?). repeat split; try done.
  etrans; [by apply views_id|exact Hv].
Qed.

Lemma fork_create_effect c s :
  wlp (fork_create forkret_pc c) (λ r s', match r with
    | None => alloc_failed s s'
    | Some (n, pid) => pid = s.(nextpid) ∧ alloc_done s n s.(held) s'
    end) s.
Proof.
  rw /fork_create. wlp_steps. eapply wlp_mono; [|apply allocproc_effect].
  intros [n|] s1; [|by intros]. intros (v & Hv & Hst & Hl & Heff). wlp_steps.
  destruct (_ <? 0).
  { eapply wlp_mono; [|eapply (undo_alloc n s v); [done..|]].
    { by intros ? ? [-> ?]. }
    exists (v_used (nextpid s)). done. }
  wlp_steps. eapply wlp_mono; [|apply dup_files_effect]. intros ? s2 Hs2. wlp_steps.
  destruct Heff as (Hvs & Hcp & Hip & Hnp & Hh), Hs2 as (Hvs2 & Hcp2 & Hip2 & Hnp2 & Hh2).
  assert (views s2 = alter (v_used (nextpid s)) n (views s)) as Hs2.
  { rw -Hvs Hvs2. etrans; [|by apply (views_id s1 n (set_p_sz (p_sz p)))]. done. }
  match goal with H : procs ?t !! n = Some ?q |- p_pid ?q = _ ∧ _ =>
    assert (views t = views s2) as Ht by (repeat (etrans; [by apply views_id|]); done);
    assert (views t !! n = Some (view q)) as Hq by (apply lookup_views; eauto) end.
  rw Ht Hs2 list_lookup_alter_eq Hv /= in Hq. injection Hq as _ _ Hpid _.
  split; [done|]. exists v. split_and!; [done..|]. simpl in *.
  split_and!; simpl; [by rw -Hs2 -Ht|congruence..|].
  rw Hh2 Hh. by apply filter_release.
Qed.

Lemma v_wake_idemp me ch i v : v_wake me ch i (v_wake me ch i v) = v_wake me ch i v.
Proof. rw /v_wake. repeat case_decide; simpl in *; naive_solver. Qed.

(** [vs'] is [vs] with [f] applied to the entries whose index is in [l]. *)
Definition mapped_on (l : list nat) (f : nat → pview → pview) (vs vs' : list pview) : Prop :=
  ∀ j, vs' !! j = (if decide (j ∈ l) then f j <$> vs !! j else vs !! j).

Lemma mapped_on_imap n f vs vs' : length vs = n → mapped_on (seq 0 n) f vs vs' → vs' = imap f vs.
Proof.
  intros <- H. apply list_eq. intros j. rw H list_lookup_imap. case_decide as Hj; [done|].
  rw (lookup_ge_None_2 vs j) //. rw elem_of_seq in Hj. lia.
Qed.

Lemma mapped_on_snoc l f vs vs' vs'' i :
  (∀ v, f i (f i v) = f i v) →
  mapped_on l f vs vs' → vs'' = alter (f i) i vs' → mapped_on (l ++ [i]) f vs vs''.
Proof.
  intros Hf H -> j. rw list_lookup_alter H. case_decide as Hij; subst.
  - rewrite -> (decide_True (P := j ∈ l ++ [j])) by set_solver.
    case_decide; [|done]. destruct (vs !! j); simpl; [by rw Hf|done].
  - rewrite -> (decide_ext (j ∈ l ++ [i]) (j ∈ l)); [done|set_solver].
Qed.

Lemma alter_id' (f : pview → pview) (i : nat) (vs : list pview) :
  (∀ v, vs !! i = Some v → f v = v) → alter f i vs = vs.
Proof. intros H. table_eq. by rw H. Qed.
Lemma alter_views f (g : pview → pview) (i : nat) s p :
  s.(procs) !! i = Some p → view (f p) = g (view p) →
  view <$> alter f i s.(procs) = alter g i (views s).
Proof. intros Hp H. rw /views. table_eq. by rw H. Qed.

Lemma wakeup_effect c ch s cp :
  length s.(procs) = NPROC → s.(cpus) !! c = Some cp →
  wlp (wakeup c ch) (λ _ s', same_but s (imap (v_wake cp.(c_proc) ch) (views s)) s') s.
Proof.
  intros Hlen Hcp. set (me := c_proc cp).
  apply wlp_bind. eapply wlp_mono; [|apply (wlp_for_each (λ dn s',
    ∃ vs', same_but s vs' s' ∧ mapped_on dn (v_wake me ch) (views s) vs') (λ _ _, False))].
  - intros [[]|] s'; [done|]. intros (vs' & Heff & Hm). apply wlp_ret.
    apply mapped_on_imap in Hm; [by subst vs'|]. by rw /views length_fmap.
  - exists (views s). split; [done|]. intros j. case_decide; [set_solver|done].
  - intros dn i s' _ (vs' & (Hvs & Hcps & Hip & Hnp & Hh) & Hm). wlp_steps.
    rewrite -> Hcps, Hcp in H. injection H as <-. fold me.
    case_bool_decide as Hme; wlp_steps.
    { exists vs'. split; [done|]. eapply mapped_on_snoc; [by intros; apply v_wake_idemp|done|].
      symmetry. apply alter_id'. intros v _. by rw /v_wake decide_True. }
    simpl in *. case_bool_decide as Hsl; wlp_steps; exists (alter (v_wake me ch i) i vs');
      (split; [|by eapply mapped_on_snoc; [by intros; apply v_wake_idemp|..]]);
      split_and!; simpl; try done; try (by rw filter_release).
    + rw /views /= -Hvs. eapply alter_views; [done|].
      rw /v_wake. repeat case_decide; naive_solver.
    + rw -Hvs /views /=. symmetry. apply alter_id'. intros v Hv.
      apply lookup_views in Hv as (q & Hq & ->). simplify_eq.
      rw /v_wake. repeat case_decide; naive_solver.
Qed.

(** *** Switching *)

(** CPU [c] has left process [i] for its scheduler, no lock is held. *)
Definition switched s vs c i s' : Prop :=
  views s' = vs ∧ s'.(cpus) = alter (λ _, MkCpu None (S i mod NPROC)%nat) c s.(cpus)
  ∧ s'.(initproc) = s.(initproc) ∧ s'.(nextpid) = s.(nextpid) ∧ s'.(held) = [].

Lemma sched_effect c i s :
  on_cpu s c i → wlp (sched c) (λ _ s', switched s (views s) c i s') s.
Proof.
  intros (cp & Hcp & Hi). rw /sched. wlp_steps.
  match goal with H : cpus s !! c = Some ?q |- _ => rewrite -> Hcp in H; injection H as <- end.
  simplify_eq. rw /holding. wlp_steps.
  destruct (decide (ProcLock i ∈ held s)) as [Hl|Hl]; last by rewrite -> bool_decide_false.
  rewrite -> bool_decide_true by done.
  destruct (held s) as [|l []] eqn:Eh; simpl; [done| |done].
  apply list_elem_of_singleton in Hl as <-.
  case_bool_decide; [done|]. rw /scheduler_resume. wlp_steps.
  repeat split. rw /= Eh. apply filter_release. set_solver.
Qed.

Lemma yield_effect c i s :
  on_cpu s c i → wlp (yield c) (λ _ s', switched s (alter (v_with_state RUNNABLE) i (views s)) c i s') s.
Proof.
  intros (cp & Hcp & Hi). rw /yield. wlp_steps. simplify_eq.
  eapply wlp_mono; [|apply (sched_effect _ i); by exists cp].
  intros _ s' (Hv & Hc & Hip & Hnp & Hh). split_and!; try done. rw Hv /views /=. table_eq.
Qed.

Definition v_sleep (ch : channel) (v : pview) : pview := MkView SLEEPING ch v.(v_pid) v.(v_parent).

Lemma sleep_effect c i ch lk s :
  on_cpu s c i → wlp (sleep c ch lk) (λ _ s', switched s (alter (v_sleep ch) i (views s)) c i s') s.
Proof.
  intros (cp & Hcp & Hi). rw /sleep. wlp_steps. simplify_eq.
  eapply wlp_mono; [|apply (sched_effect _ i); by exists cp].
  intros _ s' (Hv & Hc & Hip & Hnp & Hh). split_and!; try done. rw Hv /views /=. table_eq.
Qed.

Lemma scheduler_effect c s cp :
  s.(cpus) !! c = Some cp →
  wlp (scheduler c) (λ r s', match r with
    | None => s' = set_cpus (alter (λ cp, MkCpu cp.(c_proc) (S cp.(c_next) mod NPROC)%nat) c) s
    | Some i => ∃ v, i = cp.(c_next) ∧ views s !! i = Some v ∧ v.(v_state) = RUNNABLE
        ∧ views s' = alter (v_with_state RUNNING) i (views s)
        ∧ s'.(cpus) = alter (λ cp, MkCpu (Some i) cp.(c_next)) c s.(cpus)
        ∧ s'.(initproc) = s.(initproc) ∧ s'.(nextpid) = s.(nextpid)
        ∧ ProcLock i ∉ s.(held) ∧ s'.(held) = ProcLock i :: s.(held)
    end) s.
Proof.
  intros Hcp. rw /scheduler /mycpu. wlp_steps. simplify_eq.
  case_bool_decide; wlp_steps.
  - exists (view p). split_and!; try done; [apply lookup_views; eauto|rw /views /=; table_eq].
  - rw filter_release //. rw /set_held /set_cpus /=. f_equal.
    apply list_eq. intros j. rw !list_lookup_alter. case_decide; [|done]. subst.
    by rw Hcp.
Qed.

Definition v_unchan (v : pview) : pview := MkView v.(v_state) ChNull v.(v_pid) v.(v_parent).
(** What resuming does to the process's entry. *)
Definition v_resume (pc : kpc) : pview → pview :=
  match pc with KSleep | KWaitSleep _ => v_unchan | _ => λ v, v end.
Definition pc_resume (pc : kpc) : kpc :=
  match pc with KSleep => KUser | KWaitSleep a => KWait a | _ => pc end.

Lemma resume_effect i pc s h :
  s.(held) = ProcLock i :: h → ProcLock i ∉ h →
  wlp (resume i pc) (λ pc' s', pc' = pc_resume pc
    ∧ eff s (alter (v_resume pc) i (views s)) s.(nextpid) h s') s.
Proof.
  intros Hh Hl. destruct pc; rw /resume /forkret /sleep_resume; wlp_steps;
    (split; [done|]; split_and!; simpl; try done; [|by rw Hh filter_release]);
    rw /views /=; table_eq.
Qed.

Definition v_kill (v : pview) : pview :=
  if decide (v.(v_state) = SLEEPING) then v_with_state RUNNABLE v else v.

Lemma kill_effect pid s :
  wlp (kill pid) (λ _ s', same_but s (views s) s'
    ∨ ∃ i, same_but s (alter v_kill i (views s)) s') s.
Proof.
  rw /kill. apply wlp_bind. eapply wlp_mono; [|apply (wlp_for_each (λ _ s', s' = s)
    (λ _ s', ∃ i, same_but s (alter v_kill i (views s)) s')); [done|]].
  { intros [r|] s' H; wlp_steps; [by right|left; by subst]. }
  intros _ i s' _ ->. wlp_steps. destruct (_ =? _); wlp_steps; last first.
  { by apply set_held_released. }
  simpl in *. simplify_eq. case_bool_decide; wlp_steps; exists i; split_and!; simpl; try done;
    try (by rw filter_release).
  - rw /views /=. table_eq. rw /v_kill /=. by case_decide.
  - rw /views /=. table_eq. rw /v_kill /=. by case_decide.
Qed.

(** *** Exit and wait *)

(** The table after [reparent(i)] has visited the entries [l]. *)
Definition reparented (i : nat) (ip : option nat) (l : list nat) (vs vs' : list pview) : Prop :=
  length vs' = length vs ∧ ∀ j v, vs !! j = Some v → ∃ v', vs' !! j = Some v'
    ∧ v'.(v_pid) = v.(v_pid) ∧ v'.(v_chan) = v.(v_chan)
    ∧ v'.(v_parent) = (if decide (v.(v_parent) = Some i ∧ j ∈ l) then ip else v.(v_parent))
    ∧ (v'.(v_state) = v.(v_state)
       ∨ v.(v_state) = SLEEPING ∧ v.(v_chan) = proc_chan ip ∧ v'.(v_state) = RUNNABLE)
    ∧ ((∃ k w, k ∈ l ∧ vs !! k = Some w ∧ w.(v_parent) = Some i) →
       j ≠ i → v.(v_state) = SLEEPING → v.(v_chan) = proc_chan ip → v'.(v_state) = RUNNABLE).

Lemma reparented_nil i ip vs : reparented i ip [] vs vs.
Proof.
  split; [done|]. intros j v Hv. exists v. rewrite -> decide_False by set_solver.
  split_and!; try done; [by left|]. set_solver.
Qed.

Lemma reparented_other i ip l j w vs vs' :
  vs !! j = Some w → w.(v_parent) ≠ Some i →
  reparented i ip l vs vs' → reparented i ip (l ++ [j]) vs vs'.
Proof.
  intros Hw Hwp [Hlen H]. split; [done|]. intros k v Hv.
  destruct (H k v Hv) as (v' & ? & ? & ? & Hp & ? & Hwk). exists v'.
  split_and!; try done.
  - rw Hp. repeat case_decide; set_solver.
  - intros (k' & w' & Hk' & ? & ?). apply Hwk. exists k', w'. set_solver.
Qed.

Lemma reparented_again i ip l j vs vs' :
  j ∈ l → reparented i ip l vs vs' → reparented i ip (l ++ [j]) vs vs'.
Proof.
  intros Hj [Hlen H]. split; [done|]. intros k v Hv.
  destruct (H k v Hv) as (v' & ? & ? & ? & Hp & ? & Hwk). exists v'.
  split_and!; try done.
  - rw Hp. repeat case_decide; set_solver.
  - intros (k' & w' & Hk' & ? & ?). apply Hwk. exists k', w'. set_solver.
Qed.

Lemma reparented_child i ip l j vs vs' :
  reparented i ip l vs vs' →
  (∃ w, vs !! j = Some w ∧ w.(v_parent) = Some i) →
  reparented i ip (l ++ [j]) vs
    (imap (v_wake (Some i) (proc_chan ip)) (alter (v_with_parent ip) j vs')).
Proof.
  intros [Hlen H] (w & Hw & Hwp). split.
  { by rw length_imap length_alter. }
  intros k v Hv. destruct (H k v Hv) as (v' & Hv' & Hpid & Hch & Hp & Hst & Hwk).
  rw list_lookup_imap list_lookup_alter.
  set (v1 := if decide (j = k) then v_with_parent ip v' else v').
  exists (v_wake (Some i) (proc_chan ip) k v1).
  assert (v_state v1 = v_state v' ∧ v_chan v1 = v_chan v' ∧ v_pid v1 = v_pid v') as (E1 & E2 & E3).
  { rw /v1. by destruct (decide (j = k)). }
  split; [rw /v1; destruct (decide (j = k)) as [->|]; rw ?Hv' //|].
  split_and!.
  - rw /v_wake. repeat case_decide; simpl; congruence.
  - rw /v_wake. repeat case_decide; simpl; congruence.
  - trans (v_parent v1); [rw /v_wake; by repeat case_decide|]. rw /v1.
    destruct (decide (j = k)) as [<-|Hjk].
    { rewrite -> Hw in Hv. injection Hv as <-. rewrite -> decide_True; [done|set_solver]. }
    rw Hp. repeat case_decide; set_solver.
  - clear Hp Hwk. rw /v_wake E1 E2. repeat case_decide; simpl; rw ?E1; try exact Hst.
    destruct Hst as [Hst|(?&?&?)]; right; [|done].
    match goal with H : _ ∧ _ |- _ => destruct H as [Hs Hc] end. split_and!; congruence.
  - clear Hp Hwk. intros _ Hki Hsl Hc. rw /v_wake. rewrite -> decide_False by congruence.
    case_decide as Hd; [done|]. rw E1.
    destruct Hst as [Hst|(?&?&?)]; [|done]. exfalso. apply Hd. split; congruence.
Qed.

Lemma reparent_effect c i s cp :
  length s.(procs) = NPROC → s.(cpus) !! c = Some cp → cp.(c_proc) = Some i →
  s.(initproc) ≠ Some i →
  wlp (reparent c i) (λ _ s', ∃ vs', same_but s vs' s'
    ∧ reparented i s.(initproc) all_procs (views s) vs') s.
Proof.
  intros Hlen Hcp Hi Hne. apply wlp_bind.
  eapply wlp_mono; [|apply (wlp_for_each (λ dn s', ∃ vs', same_but s vs' s'
    ∧ reparented i s.(initproc) dn (views s) vs') (λ _ _, False))].
  - by intros [[]|].
  - exists (views s). split; [done|]. apply reparented_nil.
  - intros dn j s' _ (vs' & (Hvs & Hcps & Hip & Hnp & Hh) & Hrep). wlp_step. wlp_step.
    assert (vs' !! j = Some (view p)) as Hvj by (rw -Hvs; apply lookup_views; eauto).
    destruct (views s !! j) as [w|] eqn:Ew; last first.
    { apply lookup_lt_Some in Hvj. rw (proj1 Hrep) in Hvj.
      apply lookup_lt_is_Some in Hvj as [w Hw]. congruence. }
    destruct (proj2 Hrep j w Ew) as (v' & Hv' & _ & _ & Hpar & _).
    rewrite -> Hv' in Hvj. injection Hvj as ->. simpl in Hpar.
    case_bool_decide as Hch; wlp_steps.
    + rewrite Hip. eapply wlp_mono; [|apply (wakeup_effect _ _ _ cp)].
      * intros _ s2 (Hvs2 & Hcps2 & Hip2 & Hnp2 & Hh2). wlp_steps.
        eexists. split; [split_and!; [done|simpl in *; congruence..]|].
        rw Hi. rewrite -> (views_alter _ _ _ (v_with_parent (initproc s))) by done.
        rw Hvs. apply reparented_child; [done|]. exists w. split; [done|].
        rewrite -> Hpar in Hch. case_decide; naive_solver.
      * rw /= length_alter. apply (f_equal length) in Hvs. rw /views length_fmap in Hvs.
        rw Hvs (proj1 Hrep) /views length_fmap //.
      * by rw /= Hcps.
    + exists vs'. split; [done|]. destruct (decide (v_parent w = Some i)) as [Hwp|Hwp].
      * apply reparented_again; [|done]. rewrite -> Hpar in Hch.
        case_decide as Hd; [by destruct Hd|naive_solver].
      * by eapply reparented_other.
Qed.

Lemma length_views s : length (views s) = length s.(procs).
Proof. apply length_fmap. Qed.
Lemma same_but_length s vs s' : same_but s vs s' → length s'.(procs) = length vs.
Proof. intros (<- & _). by rw length_views. Qed.

(** The loop that closes the files of an exiting process. *)
Lemma close_files_effect i s :
  wlp (for_each (R := unit) (seq 0 NOFILE) (λ fd,
        p ← getp i;
        let f := nth fd p.(p_ofile) 0 in
        if negb (f =? 0) then
          Fl (fl_fileclose f);;
          updp i (λ p, set_p_ofile (<[fd := 0]> p.(p_ofile)) p);;
          mret None
        else mret None)) (λ x s', same_but s (views s) s') s.
Proof.
  eapply wlp_mono; [|apply (wlp_for_each (λ _ s', same_but s (views s) s') (λ _ _, False)); [done|]].
  { by intros [[]|]. }
  intros _ fd s1 _ Hs1. wlp_steps. destruct (negb _); wlp_steps; [|done].
  destruct Hs1 as (Hv & ? & ? & ? & ?). repeat split; try done.
  etrans; [by apply views_id|exact Hv].
Qed.

Lemma exit_effect c i status s :
  length s.(procs) = NPROC → on_cpu s c i →
  wlp (exit c status) (λ _ s', s.(initproc) ≠ Some i ∧ ∃ vs1 v1,
    reparented i s.(initproc) all_procs (views s) vs1 ∧ vs1 !! i = Some v1
    ∧ switched s (alter (v_with_state ZOMBIE) i
                    (imap (v_wake (Some i) (proc_chan v1.(v_parent))) vs1)) c i s') s.
Proof.
  intros Hlen (cp & Hcp & Hi). rw /exit. do 2 wlp_step. simplify_eq. wlp_step. wlp_step.
  case_bool_decide as Hinit; [done|]. rw Hi. do 3 wlp_step. simplify_eq.
  eapply wlp_mono; [|apply close_files_effect]. intros ? s1 (Hv1 & Hc1 & Hip1 & Hnp1 & Hh1).
  wlp_steps.
  eapply wlp_mono; [|apply (reparent_effect _ _ _ cp)]; simpl.
  2: { rw length_alter -(length_views s1) Hv1 length_views //. }
  2-4: congruence.
  intros ? s2 (vs1 & (Hv2 & Hc2 & Hip2 & Hnp2 & Hh2) & Hrep). wlp_steps.
  match goal with |- context [proc_chan (p_parent ?q)] => rename q into pme end.
  match type of Hrep with reparented _ _ _ (views ?X) _ =>
    assert (views X = views s) as Hv1'
      by (etrans; [by apply (views_id _ i (set_p_cwd 0))|exact Hv1]) end.
  rewrite -> Hv1' in Hrep.
  assert (vs1 !! i = Some (view pme)) as Hvi by (rw -Hv2; apply lookup_views; eauto).
  eapply wlp_mono; [|apply (wakeup_effect _ _ _ cp)].
  2: { rw -length_views Hv2 (proj1 Hrep) length_views //. }
  2: { simpl in *. congruence. }
  intros ? s3 (Hv3 & Hc3 & Hip3 & Hnp3 & Hh3). wlp_steps.
  eapply wlp_mono; [|apply (sched_effect _ i)].
  2: { exists cp. simpl in *. split; congruence. }
  intros ? s4 (Hv4 & Hc4 & Hip4 & Hnp4 & Hh4). split; [congruence|].
  exists vs1, (view pme). simpl in *. split; [by rw -Hip1|]. split; [done|].
  split_and!; try congruence; [|by rw Hc4 Hc3 Hc2 Hc1]. rw Hv4. rw -Hi -Hv2 -Hv3 /views /=. table_eq.
Qed.

(** A scan of [wait] either returns -1, reaps a zombie child, or has seen that
    no child is a zombie and goes to sleep. *)
Lemma wait_scan_effect c i addr s :
  length s.(procs) = NPROC → on_cpu s c i →
  wlp (wait_scan c addr) (λ r s', match r with
    | Some r => (r = -1 ∧ same_but s (views s) s')
        ∨ (∃ n v, views s !! n = Some v ∧ v.(v_state) = ZOMBIE ∧ v.(v_parent) = Some i
             ∧ r = v.(v_pid) ∧ same_but s (alter (λ _, v_free) n (views s)) s')
    | None => (∀ n v, views s !! n = Some v → v.(v_parent) = Some i → v.(v_state) ≠ ZOMBIE)
        ∧ switched s (alter (v_sleep (ChProc i)) i (views s)) c i s'
    end) s.
Proof.
  intros Hlen (cp & Hcp & Hi). rw /wait_scan. wlp_steps. simplify_eq.
  set (sl := set_held (WaitLock :: held s) s).
  eapply wlp_mono; [|apply (wlp_for_acc
    (λ dn _ s', s' = sl ∧ ∀ n v, n ∈ dn → views s !! n = Some v → v.(v_parent) = Some i →
                               v.(v_state) ≠ ZOMBIE)
    (λ r s', (r = -1 ∧ same_but s (views s) s')
        ∨ (∃ n v, views s !! n = Some v ∧ v.(v_state) = ZOMBIE ∧ v.(v_parent) = Some i
             ∧ r = v.(v_pid) ∧ same_but s (alter (λ _, v_free) n (views s)) s')))].
  - intros [hk|r] s1; [|by intros; wlp_steps]. intros [-> Hno]. wlp_steps.
    destruct (_ || _); wlp_steps.
    { left. split; [done|]. repeat split. by apply filter_release. }
    eapply wlp_mono; [|apply (sleep_effect _ i); by exists cp].
    intros ? s2 Hs2. wlp_steps. split; [|done]. intros n v Hn. apply (Hno n v); [|done].
    apply lookup_lt_Some in Hn. rw length_views Hlen in Hn.
    apply elem_of_seq. lia.
  - split; [done|]. set_solver.
  - intros dn n hk s1 _ [-> Hno]. wlp_steps.
    assert (views s !! n = Some (view p)) as Hn by (apply lookup_views; eauto).
    case_bool_decide as Hpar; wlp_steps; last first.
    { split; [done|]. intros n' v [?|Hx%list_elem_of_singleton]%elem_of_app ??; [by eapply Hno|].
      by simplify_eq. }
    simpl in *. simplify_eq. case_bool_decide as Hz; wlp_steps; last first.
    { split.
      - rw /sl. rw filter_release; [|set_solver]. done.
      - intros n' v [?|Hx%list_elem_of_singleton]%elem_of_app ??; [by eapply Hno|].
        by simplify_eq. }
    apply (wlp_mono _ (λ _ s', ∃ k, s' = set_kmem k (set_held (ProcLock n :: WaitLock :: held s) sl))).
    2: { destruct (negb _); wlp_steps; [by eauto|]. by exists (kmem s). }
    intros e s1 [k ->]. destruct (e <? 0); wlp_steps.
    { left. split; [done|]. repeat split. rw /= !filter_release //; set_solver. }
    eapply wlp_mono; [|apply freeproc_effect].
    intros ? s2 (Hv2 & Hc2 & Hip2 & Hnp2 & Hh2). wlp_steps.
    right. exists n, (view p). split_and!; try done. split_and!; try done.
    rw /= Hh2 /= !filter_release //.
Qed.

End operations.

End ProcEffects.
