(* ===== verification/ProcSpec.v ===== *)
(** * The abstract process machine and its invariant

    [astep] is what [proc.c] promises to do to the process table, one rule per
    transition of the life cycle of a process; [Inv] is the invariant that all
    its runs keep.  [ProcInv.v] proves that the code implements it. *)

From S2P Require Import Prelude Machine Kalloc Vm Proc ProcSteps ProcEffects.
Import Proc ProcSteps ProcEffects.

Module ProcSpec.

Record astate := MkA {
  a_vs : list pview;
  a_cs : list cpu;
  a_np : Z;
  a_pcs : nat → kpc;
}.

Definition runs (cs : list cpu) (c i : nat) : Prop :=
  ∃ cp, cs !! c = Some cp ∧ cp.(c_proc) = Some i.
Definition leave (i : nat) : cpu → cpu := λ _, MkCpu None (S i mod NPROC)%nat.

(** States in which a process can still run. *)
Definition active (st : procstate) : Prop := st = SLEEPING ∨ st = RUNNABLE ∨ st = RUNNING.
Definition forking (pc : kpc) : option nat :=
  match pc with KFork1 n | KFork2 n => Some n | _ => None end.

Inductive astep (ip : option nat) : astate → astate → Prop :=
  | a_stutter a : astep ip a a
  | a_alloc_fail vs cs np pcs n v :
      vs !! n = Some v → v.(v_state) = UNUSED →
      astep ip (MkA vs cs np pcs) (MkA (alter (λ _, v_free) n vs) cs (np + 1) pcs)
  | a_fork vs cs np pcs c i n v :
      runs cs c i → pcs i = KUser → vs !! n = Some v → v.(v_state) = UNUSED →
      astep ip (MkA vs cs np pcs)
        (MkA (alter (v_used np) n vs) cs (np + 1) (upd (upd pcs n KUser) i (KFork1 n)))
  | a_fork_parent vs cs np pcs c i n :
      runs cs c i → pcs i = KFork1 n →
      astep ip (MkA vs cs np pcs)
        (MkA (alter (v_with_parent (Some i)) n vs) cs np (upd pcs i (KFork2 n)))
  | a_fork_start vs cs np pcs c i n :
      runs cs c i → pcs i = KFork2 n →
      astep ip (MkA vs cs np pcs)
        (MkA (alter (v_with_state RUNNABLE) n vs) cs np (upd pcs i KUser))
  | a_exit vs cs np pcs c i vs1 v1 :
      runs cs c i → pcs i = KUser → ip ≠ Some i →
      reparented i ip all_procs vs vs1 → vs1 !! i = Some v1 →
      astep ip (MkA vs cs np pcs)
        (MkA (alter (v_with_state ZOMBIE) i (imap (v_wake (Some i) (proc_chan v1.(v_parent))) vs1))
             (alter (leave i) c cs) np pcs)
  | a_wait_call vs cs np pcs c i addr :
      runs cs c i → pcs i = KUser →
      astep ip (MkA vs cs np pcs) (MkA vs cs np (upd pcs i (KWait addr)))
  | a_wait_fail vs cs np pcs c i addr :
      runs cs c i → pcs i = KWait addr →
      astep ip (MkA vs cs np pcs) (MkA vs cs np (upd pcs i KUser))
  | a_reap vs cs np pcs c i addr n v :
      runs cs c i → pcs i = KWait addr →
      vs !! n = Some v → v.(v_state) = ZOMBIE → v.(v_parent) = Some i →
      astep ip (MkA vs cs np pcs) (MkA (alter (λ _, v_free) n vs) cs np (upd pcs i KUser))
  | a_wait_sleep vs cs np pcs c i addr :
      runs cs c i → pcs i = KWait addr →
      (∀ n v, vs !! n = Some v → v.(v_parent) = Some i → v.(v_state) ≠ ZOMBIE) →
      astep ip (MkA vs cs np pcs)
        (MkA (alter (v_sleep (ChProc i)) i vs) (alter (leave i) c cs) np (upd pcs i (KWaitSleep addr)))
  | a_sleep vs cs np pcs c i a :
      runs cs c i → pcs i = KUser →
      astep ip (MkA vs cs np pcs)
        (MkA (alter (v_sleep (ChAddr a)) i vs) (alter (leave i) c cs) np (upd pcs i KSleep))
  | a_yield vs cs np pcs c i :
      runs cs c i →
      astep ip (MkA vs cs np pcs)
        (MkA (alter (v_with_state RUNNABLE) i vs) (alter (leave i) c cs) np pcs)
  | a_skip vs cs np pcs c (f : cpu → cpu) :
      (∀ cp, (f cp).(c_proc) = cp.(c_proc)) →
      astep ip (MkA vs cs np pcs) (MkA vs (alter f c cs) np pcs)
  | a_run vs cs np pcs c cp (f : cpu → cpu) i v :
      cs !! c = Some cp → cp.(c_proc) = None → vs !! i = Some v → v.(v_state) = RUNNABLE →
      (∀ cp, (f cp).(c_proc) = Some i) →
      astep ip (MkA vs cs np pcs)
        (MkA (alter (v_resume (pcs i)) i (alter (v_with_state RUNNING) i vs)) (alter f c cs) np
             (upd pcs i (pc_resume (pcs i))))
  | a_kill vs cs np pcs i :
      astep ip (MkA vs cs np pcs) (MkA (alter v_kill i vs) cs np pcs)
  | a_wake vs cs np pcs me a :
      astep ip (MkA vs cs np pcs) (MkA (imap (v_wake me (ChAddr a)) vs) cs np pcs).

(** ** The invariant, in five parts *)

(** A process is RUNNING exactly when some CPU runs it, and then only one. *)
Record InvCpu (a : astate) : Prop := {
  inv_run i v : a.(a_vs) !! i = Some v → v.(v_state) = RUNNING ↔ ∃ c, runs a.(a_cs) c i;
  inv_one c1 c2 i : runs a.(a_cs) c1 i → runs a.(a_cs) c2 i → c1 = c2;
  inv_in c i : runs a.(a_cs) c i → is_Some (a.(a_vs) !! i);
}.

(** Pids in use are positive, below [nextpid] and distinct. *)
Record InvPid (a : astate) : Prop := {
  inv_np : 1 ≤ a.(a_np);
  inv_pid i v : a.(a_vs) !! i = Some v → v.(v_state) ≠ UNUSED → 1 ≤ v.(v_pid) < a.(a_np);
  inv_pid_inj i j v w : a.(a_vs) !! i = Some v → a.(a_vs) !! j = Some w →
    v.(v_state) ≠ UNUSED → w.(v_state) ≠ UNUSED → v.(v_pid) = w.(v_pid) → i = j;
}.

(** Every process but init that has started has a parent, and parents can run:
    in particular no zombie is ever without someone to reap it. *)
Record InvFamily (ip : option nat) (a : astate) : Prop := {
  inv_init : ∃ i v, ip = Some i ∧ a.(a_vs) !! i = Some v ∧ active v.(v_state);
  inv_unused i v : a.(a_vs) !! i = Some v → v.(v_state) = UNUSED → v.(v_parent) = None;
  inv_parent i j v : a.(a_vs) !! i = Some v → v.(v_parent) = Some j →
    ∃ w, a.(a_vs) !! j = Some w ∧ active w.(v_state);
  inv_orphan i v : a.(a_vs) !! i = Some v → v.(v_state) ≠ UNUSED → v.(v_state) ≠ USED →
    ip ≠ Some i → v.(v_parent) ≠ None;
}.

(** A process in [fork] owns the USED slot it fills; only processes that can
    run are inside a kernel function. *)
Record InvFork (a : astate) : Prop := {
  inv_fork i n : forking (a.(a_pcs) i) = Some n → ∃ w, a.(a_vs) !! n = Some w
    ∧ w.(v_state) = USED ∧ (a.(a_pcs) i = KFork2 n → w.(v_parent) = Some i);
  inv_fork_inj i j n : forking (a.(a_pcs) i) = Some n → forking (a.(a_pcs) j) = Some n → i = j;
  inv_dead i v : a.(a_vs) !! i = Some v → ¬ active v.(v_state) → a.(a_pcs) i = KUser;
}.

(** Who sleeps on which channel, and no lost wakeup: a process that sleeps in
    [wait] has no zombie child. *)
Record InvSleep (a : astate) : Prop := {
  inv_sleep i v : a.(a_vs) !! i = Some v → v.(v_state) = SLEEPING →
    (a.(a_pcs) i = KSleep ∧ ∃ ad, v.(v_chan) = ChAddr ad)
    ∨ (∃ addr, a.(a_pcs) i = KWaitSleep addr ∧ v.(v_chan) = ChProc i);
  inv_wait i v j w : a.(a_vs) !! i = Some v → v.(v_state) = SLEEPING →
    v.(v_chan) = ChProc i → a.(a_vs) !! j = Some w → w.(v_parent) = Some i →
    w.(v_state) ≠ ZOMBIE;
}.

Record Inv (ip : option nat) (a : astate) : Prop := {
  inv_len : length a.(a_vs) = NPROC;
  inv_cpu : InvCpu a;
  inv_pids : InvPid a;
  inv_family : InvFamily ip a;
  inv_forks : InvFork a;
  inv_sleeps : InvSleep a;
}.

(** ** Preservation *)

Lemma lookup_wake_inv me ch (vs : list pview) j x :
  imap (v_wake me ch) vs !! j = Some x → ∃ y, vs !! j = Some y ∧ x = v_wake me ch j y.
Proof. rw list_lookup_imap. intros (y & Hy & ->)%fmap_Some. eauto. Qed.

(** Waking touches only the state of processes that slept. *)
Lemma v_wake_fields me ch i v :
  (v_wake me ch i v).(v_pid) = v.(v_pid) ∧ (v_wake me ch i v).(v_parent) = v.(v_parent)
  ∧ (v_wake me ch i v).(v_chan) = v.(v_chan)
  ∧ ((v_wake me ch i v).(v_state) = v.(v_state)
     ∨ v.(v_state) = SLEEPING ∧ v.(v_chan) = ch ∧ (v_wake me ch i v).(v_state) = RUNNABLE).
Proof.
  rw /v_wake. repeat case_decide; simpl; (split_and!; [done..|]); [by left| |by left].
  right. tauto.
Qed.

Lemma runs_alter f c cs c' i :
  runs (alter f c cs) c' i ↔
  (c ≠ c' ∧ runs cs c' i) ∨ (c = c' ∧ ∃ cp, cs !! c = Some cp ∧ (f cp).(c_proc) = Some i).
Proof.
  rw /runs list_lookup_alter. case_decide; subst.
  - split.
    + intros (cp & (cp0 & ? & ->)%fmap_Some & ?). right. eauto.
    + intros [[? _]|(_ & cp & Hcp & ?)]; [done|]. exists (f cp). by rw Hcp.
  - split; [by left|]. by intros [[_ ?]|[? _]].
Qed.

Lemma runs_leave i c cs c' j : runs cs c i → (∀ c1 c2, runs cs c1 i → runs cs c2 i → c1 = c2) →
  runs (alter (leave i) c cs) c' j ↔ runs cs c' j ∧ j ≠ i.
Proof.
  intros Hr Ho. rw runs_alter /leave /=. split.
  - intros [[Hne Hr']|(-> & ? & ? & [=])]. split; [done|]. intros ->. eauto.
  - intros [Hr' Hne]. left. split; [|done]. intros ->.
    destruct Hr as (cp & ? & ?), Hr' as (cp' & ? & ?). congruence.
Qed.

(** Both directions of the pointwise relation between two tables. *)
Definition pw (R : nat → pview → pview → Prop) (vs vs' : list pview) : Prop :=
  (∀ j v', vs' !! j = Some v' → ∃ v, vs !! j = Some v ∧ R j v v')
  ∧ (∀ j v, vs !! j = Some v → ∃ v', vs' !! j = Some v' ∧ R j v v').

Lemma pw_refl (R : nat → pview → pview → Prop) vs :
  (∀ j v, vs !! j = Some v → R j v v) → pw R vs vs.
Proof. split; intros; eauto. Qed.
Lemma pw_alter (R : nat → pview → pview → Prop) f i vs :
  (∀ v, vs !! i = Some v → R i v (f v)) → (∀ j v, vs !! j = Some v → j ≠ i → R j v v) →
  pw R vs (alter f i vs).
Proof.
  intros Hi Hj. split.
  - intros j v' [(-> & v & ? & ->)|[? ?]]%lookup_alter_inv; eauto.
  - intros j v Hv. rw list_lookup_alter. case_decide; subst; [rw Hv /=|]; eauto.
Qed.
Lemma pw_wake (R : nat → pview → pview → Prop) me ch vs :
  (∀ j v, vs !! j = Some v → R j v (v_wake me ch j v)) → pw R vs (imap (v_wake me ch) vs).
Proof.
  intros H. split.
  - intros j v' (v & ? & ->)%lookup_wake_inv. eauto.
  - intros j v Hv. rw list_lookup_imap Hv /=. eauto.
Qed.
Lemma pw_trans R1 R2 (R : nat → pview → pview → Prop) vs vs1 vs2 :
  pw R1 vs vs1 → pw R2 vs1 vs2 → (∀ j u v w, R1 j u v → R2 j v w → R j u w) → pw R vs vs2.
Proof.
  intros [H1 H1'] [H2 H2'] HR. split.
  - intros j w (v & Hv & ?)%H2. destruct (H1 _ _ Hv) as (u & ? & ?). eauto.
  - intros j u (v & Hv & ?)%H1'. destruct (H2' _ _ Hv) as (w & ? & ?). eauto.
Qed.
Lemma pw_mono (R R' : nat → pview → pview → Prop) vs vs' :
  (∀ j v v', R j v v' → R' j v v') → pw R vs vs' → pw R' vs vs'.
Proof. intros HR [H1 H2]. split; intros j v Hv; [destruct (H1 _ _ Hv)|destruct (H2 _ _ Hv)]; naive_solver. Qed.

(** What [exit] of process [i] does to each entry. *)
Definition exit_entry (vs : list pview) (i : nat) (ip : option nat) (j : nat) (v v' : pview) : Prop :=
  v'.(v_pid) = v.(v_pid) ∧ v'.(v_chan) = v.(v_chan)
  ∧ v'.(v_parent) = (if decide (v.(v_parent) = Some i) then ip else v.(v_parent))
  ∧ (j = i → v'.(v_state) = ZOMBIE)
  ∧ (j ≠ i → v'.(v_state) = v.(v_state) ∨ v.(v_state) = SLEEPING ∧ v'.(v_state) = RUNNABLE)
  ∧ (j ≠ i → v'.(v_state) = SLEEPING →
       (∀ u, vs !! i = Some u → v.(v_chan) ≠ proc_chan (if decide (u.(v_parent) = Some i) then ip else u.(v_parent)))
       ∧ (v.(v_chan) = proc_chan ip → ∀ k w, vs !! k = Some w → w.(v_parent) ≠ Some i)).

Lemma exit_pw i ip vs vs1 v1 :
  length vs = NPROC → reparented i ip all_procs vs vs1 → vs1 !! i = Some v1 →
  pw (exit_entry vs i ip) vs
    (alter (v_with_state ZOMBIE) i (imap (v_wake (Some i) (proc_chan v1.(v_parent))) vs1)).
Proof.
  intros Hlen [Hlen1 Hrep] Hv1.
  assert (∀ j v, vs !! j = Some v → j ∈ all_procs) as Hall.
  { intros j v Hj%lookup_lt_Some. apply elem_of_seq. lia. }
  assert (pw (λ j v v', vs !! j = Some v ∧ vs1 !! j = Some v') vs vs1) as Hpw.
  { split.
    - intros j v' Hv'. destruct (lookup_lt_is_Some_2 vs j) as [v Hv]; [|by eauto].
      rw -Hlen1. by eapply lookup_lt_Some.
    - intros j v Hv. destruct (Hrep j v Hv) as (v' & ? & _). eauto. }
  eapply pw_trans; [exact Hpw|eapply pw_trans with
    (R1 := λ j v v', v' = v_wake (Some i) (proc_chan v1.(v_parent)) j v)
    (R2 := λ j v v', v' = if decide (j = i) then v_with_state ZOMBIE v else v)
    (R := λ j v v', v' = if decide (j = i) then v_with_state ZOMBIE v
                         else v_wake (Some i) (proc_chan v1.(v_parent)) j v)|].
  - by apply pw_wake.
  - apply pw_alter; intros; by case_decide.
  - intros j u v w -> ->. case_decide; [|done]. subst. by rw /v_wake decide_True.
  - intros j u v w [Hu Hv] ->. destruct (Hrep j u Hu) as (v' & Hv' & Hpid & Hch & Hpar & Hst & Hwk).
    rewrite -> Hv in Hv'. injection Hv' as <-.
    rewrite -> (decide_ext _ (v_parent u = Some i)) in Hpar by naive_solver.
    destruct (v_wake_fields (Some i) (proc_chan (v_parent v1)) j v) as (E1 & E2 & E3 & E4).
    set (w := if decide (j = i) then _ else _).
    assert (v_pid w = v_pid v ∧ v_chan w = v_chan v ∧ v_parent w = v_parent v) as (F1 & F2 & F3).
    { rw /w. destruct (decide (j = i)); simpl; done. }
    split_and!; [congruence..| | |].
    + intros Hji. rw /w. by rewrite -> decide_True.
    + intros Hne. rw /w. rewrite -> decide_False by done.
      destruct Hst as [Hst|(Hs & Hc & Hr)], E4 as [E4|(Hs' & Hc' & Hr')]; rw ?E4 ?Hr'; auto.
      right. split; congruence.
    + intros Hne. rw /w. rewrite -> decide_False by done. intros Hsl.
      destruct E4 as [E4|(_ & _ & E4)]; [|congruence]. rewrite -> Hsl in E4. symmetry in E4.
      destruct Hst as [Hst|(_ & _ & Hst)]; [|congruence]. rewrite -> E4 in Hst. split.
      * intros ui Hui Hc. destruct (Hrep i ui Hui) as (vi & Hvi & _ & _ & Hpi & _).
        rewrite -> Hv1 in Hvi. injection Hvi as ->.
        rewrite -> (decide_ext _ (v_parent ui = Some i)) in Hpi by naive_solver.
        revert Hsl. rw /v_wake. rewrite -> decide_False by congruence.
        rewrite -> decide_True; [done|]. split; [done|]. by rw Hpi Hch.
      * intros Hc k w' Hw' Hp'. rewrite -> E4 in Hwk.
        discriminate Hwk; try done. exists k, w'. eauto.
Qed.

(** *** CPUs *)

Lemma inv_cpu_same vs vs' cs np np' pcs pcs' :
  pw (λ _ v v', v'.(v_state) = RUNNING ↔ v.(v_state) = RUNNING) vs vs' →
  InvCpu (MkA vs cs np pcs) → InvCpu (MkA vs' cs np' pcs').
Proof.
  intros [H1 H2] [Hr Ho Hi]. split; simpl in *.
  - intros i v' Hv'. destruct (H1 _ _ Hv') as (v & Hv & Hs). rw Hs. by apply Hr.
  - done.
  - intros c i Hc. destruct (Hi c i Hc) as [v Hv]. destruct (H2 _ _ Hv) as (v' & ? & _). eauto.
Qed.

Lemma inv_cpu_leave i c vs vs' cs np np' pcs pcs' :
  pw (λ j v v', if decide (j = i) then v'.(v_state) ≠ RUNNING
                else v'.(v_state) = RUNNING ↔ v.(v_state) = RUNNING) vs vs' →
  runs cs c i →
  InvCpu (MkA vs cs np pcs) → InvCpu (MkA vs' (alter (leave i) c cs) np' pcs').
Proof.
  intros [H1 H2] Hc [Hr Ho Hi]. simpl in *.
  assert (∀ c' j, runs (alter (leave i) c cs) c' j ↔ runs cs c' j ∧ j ≠ i) as Hl
    by (intros; apply runs_leave; eauto).
  split; simpl.
  - intros j v' Hv'. destruct (H1 _ _ Hv') as (v & Hv & Hs). case_decide as Hji.
    + split; [done|]. intros [c' [_ ?]%Hl]. done.
    + rw Hs (Hr j v Hv). split; intros [c' Hc']; exists c'; apply Hl; naive_solver.
  - intros c1 c2 j [? _]%Hl [? _]%Hl. eauto.
  - intros c' j [Hj _]%Hl. destruct (Hi _ _ Hj) as [v Hv]. destruct (H2 _ _ Hv) as (? & ? & _). eauto.
Qed.

Lemma inv_cpu_run i c cp f vs vs' cs np np' pcs pcs' :
  pw (λ j v v', if decide (j = i) then v'.(v_state) = RUNNING ∧ v.(v_state) = RUNNABLE
                else v'.(v_state) = RUNNING ↔ v.(v_state) = RUNNING) vs vs' →
  cs !! c = Some cp → cp.(c_proc) = None → is_Some (vs !! i) → (∀ cp, (f cp).(c_proc) = Some i) →
  InvCpu (MkA vs cs np pcs) → InvCpu (MkA vs' (alter f c cs) np' pcs').
Proof.
  intros [H1 H2] Hcp Hn [vi Hvi] Hf [Hr Ho Hi]. simpl in *.
  destruct (H2 _ _ Hvi) as (vi' & Hvi' & Hsi). rewrite -> decide_True in Hsi by done.
  assert (∀ c', ¬ runs cs c' i) as Hno.
  { intros c' Hc'. destruct (Hr i vi Hvi) as [_ Hri]. rewrite Hri in Hsi; [|by eauto]. naive_solver. }
  assert (∀ c' j, runs (alter f c cs) c' j ↔ runs cs c' j ∨ (c' = c ∧ j = i)) as Hl.
  { intros c' j. rw runs_alter. split.
    - intros [[? ?]|(-> & cp' & ? & Hj)]; [by left|right]. rewrite -> Hf in Hj. by injection Hj.
    - intros [Hj|[-> ->]]; [|right; eauto]. left. split; [|done]. intros ->.
      destruct Hj as (? & ? & ?). congruence. }
  split; simpl.
  - intros j v' Hv'. destruct (H1 _ _ Hv') as (v & Hv & Hs). case_decide as Hji.
    + subst. split; [|by intros; apply Hs]. intros _. exists c. apply Hl. by right.
    + rw Hs (Hr j v Hv). split; intros [c' Hc']; exists c'.
      * apply Hl. by left.
      * apply Hl in Hc'. naive_solver.
  - intros c1 c2 j [Hj|[-> ->]]%Hl [Hj'|[? ?]]%Hl; subst; [by eauto|..|done];
      exfalso; by eapply Hno.
  - intros c' j [Hj|[-> ->]]%Hl; [|by eauto].
    destruct (Hi _ _ Hj) as [v Hv]. destruct (H2 _ _ Hv) as (? & ? & _). eauto.
Qed.

Lemma runs_running vs cs np pcs c i :
  InvCpu (MkA vs cs np pcs) → runs cs c i → ∃ v, vs !! i = Some v ∧ v.(v_state) = RUNNING.
Proof.
  intros [Hr _ Hi] Hc. simpl in *. destruct (Hi _ _ Hc) as [v Hv].
  exists v. split; [done|]. apply (Hr i v Hv). eauto.
Qed.

Lemma inv_cpu_step ip a a' : astep ip a a' → Inv ip a → InvCpu a'.
Proof.
  intros Hstep [Hlen Hcpu Hpid Hfam Hfk Hsl]. destruct Hstep.
  - done.
  - eapply inv_cpu_same; [|done]. apply pw_alter; [|done]. intros u Hu. simpl. simplify_eq. split; congruence.
  - eapply inv_cpu_same; [|done]. apply pw_alter; [|done]. intros u Hu. simpl. simplify_eq. split; congruence.
  - eapply inv_cpu_same; [|done]. by apply pw_alter.
  - eapply inv_cpu_same; [|done]. apply pw_alter; [|done]. intros u Hu. simpl.
    destruct (inv_fork _ Hfk i n) as (w & Hw & Hus & _); [by rw /= H0|].
    simpl in *. simplify_eq. split; congruence.
  - eapply inv_cpu_leave; [|done..]. eapply pw_mono; [|by apply exit_pw].
    intros j v v' (_ & _ & _ & Hz & Hs & _). case_decide as Hji; [by rw Hz|].
    destruct (Hs Hji) as [->|[-> ->]]; done.
  - eapply inv_cpu_same; [|done]. by apply pw_refl.
  - eapply inv_cpu_same; [|done]. by apply pw_refl.
  - eapply inv_cpu_same; [|done]. apply pw_alter; [|done]. intros u Hu. simpl. simplify_eq. split; congruence.
  - eapply inv_cpu_leave; [|done..]. apply pw_alter; [by intros; rewrite -> decide_True|].
    intros. by rewrite -> decide_False.
  - eapply inv_cpu_leave; [|done..]. apply pw_alter; [by intros; rewrite -> decide_True|].
    intros. by rewrite -> decide_False.
  - eapply inv_cpu_leave; [|done..]. apply pw_alter; [by intros; rewrite -> decide_True|].
    intros. by rewrite -> decide_False.
  - destruct Hcpu as [Hr Ho Hi]. simpl in *.
    assert (∀ c' j, runs (alter f c cs) c' j ↔ runs cs c' j) as Hl.
    { intros c' j. rw runs_alter. split.
      - intros [[? ?]|(-> & cp & ? & Hj)]; [done|]. rewrite -> H in Hj. by exists cp.
      - intros Hj. destruct (decide (c = c')) as [<-|]; [right|by left]. split; [done|].
        destruct Hj as (cp & ? & ?). exists cp. by rw H. }
    split; simpl; setoid_rewrite Hl; eauto.
  - eapply inv_cpu_run; [|done..| |done|done]; [|by eauto].
    eapply (pw_trans (λ j u w, vs !! j = Some u ∧ w = if decide (j = i) then v_with_state RUNNING u else u)
      (λ j u w, w.(v_state) = u.(v_state))).
    + apply pw_alter; intros; by case_decide.
    + apply pw_alter; [|done]. intros. by destruct (pcs i).
    + intros j u w x [Hu ->] Hx. case_decide; [|by rw Hx]. subst. simplify_eq. done.
  - eapply inv_cpu_same; [|done]. apply pw_alter; [|done]. intros u Hu. rw /v_kill.
    case_decide; simpl; [split; congruence|done].
  - eapply inv_cpu_same; [|done]. apply pw_wake. intros j u Hu.
    destruct (v_wake_fields me (ChAddr a) j u) as (_ & _ & _ & [->|(-> & _ & ->)]); done.
Qed.

(** *** Pids *)

Definition keeps_pid (v v' : pview) : Prop :=
  v'.(v_state) ≠ UNUSED → v.(v_state) ≠ UNUSED ∧ v'.(v_pid) = v.(v_pid).

Lemma inv_pid_same vs vs' cs cs' np np' pcs pcs' :
  pw (λ _, keeps_pid) vs vs' → np ≤ np' →
  InvPid (MkA vs cs np pcs) → InvPid (MkA vs' cs' np' pcs').
Proof.
  intros [H1 _] Hnp [Hn Hp Hinj]. split; simpl in *; [lia|..].
  - intros i v' Hv' Hu. destruct (H1 _ _ Hv') as (v & Hv & [? ->]%(λ H, H Hu)).
    specialize (Hp i v Hv). lia.
  - intros i j v' w' Hv' Hw' Hu Hu'.
    destruct (H1 _ _ Hv') as (v & Hv & [? ->]%(λ H, H Hu)).
    destruct (H1 _ _ Hw') as (w & Hw & [? ->]%(λ H, H Hu')). eauto.
Qed.

Lemma inv_pid_new n vs vs' cs cs' np pcs pcs' :
  pw (λ j v v', if decide (j = n) then v'.(v_pid) = np else keeps_pid v v') vs vs' →
  InvPid (MkA vs cs np pcs) → InvPid (MkA vs' cs' (np + 1) pcs').
Proof.
  intros [H1 _] [Hn Hp Hinj]. split; simpl in *; [lia|..].
  - intros i v' Hv' Hu. destruct (H1 _ _ Hv') as (v & Hv & Hk). case_decide; [lia|].
    destruct (Hk Hu) as [? ->]. specialize (Hp i v Hv). lia.
  - intros i j v' w' Hv' Hw' Hu Hu' Heq.
    destruct (H1 _ _ Hv') as (v & Hv & Hk), (H1 _ _ Hw') as (w & Hw & Hk').
    destruct (decide (i = n)), (decide (j = n)); [congruence|..].
    + destruct (Hk' Hu') as [? E]. specialize (Hp j w Hw). lia.
    + destruct (Hk Hu) as [? E]. specialize (Hp i v Hv). lia.
    + destruct (Hk Hu), (Hk' Hu'). apply (Hinj i j v w); congruence.
Qed.

Lemma inv_pid_step ip a a' : astep ip a a' → Inv ip a → InvPid a'.
Proof.
  intros Hstep [Hlen Hcpu Hpid Hfam Hfk Hsl]. destruct Hstep.
  - done.
  - eapply inv_pid_same; [| |done]; [|lia]. apply pw_alter; [|by rw /keeps_pid]. intros u Hu. by rw /keeps_pid.
  - eapply (inv_pid_new n); [|done]. apply pw_alter; intros; by case_decide.
  - eapply inv_pid_same; [| |done]; [|lia]. apply pw_alter; by rw /keeps_pid.
  - destruct (inv_fork _ Hfk i n) as (w & Hw & Hus & _); [by rw /= H0|]. simpl in *.
    eapply inv_pid_same; [| |done]; [|lia]. apply pw_alter; [|by rw /keeps_pid].
    intros u Hu _. simplify_eq. by rw Hus.
  - destruct (runs_running _ _ _ _ _ _ Hcpu H) as (vi & Hvi & Hri).
    eapply inv_pid_same; [| |done]; [|lia].
    eapply (pw_mono (λ j v v', vs !! j = Some v ∧ exit_entry vs i ip j v v')).
    2: { destruct (exit_pw _ _ _ _ _ Hlen H2 H3) as [E1 E2]. split.
         - intros j v' Hv'. destruct (E1 j v' Hv') as (v & ? & ?). eauto.
         - intros j v Hv. destruct (E2 j v Hv) as (v' & ? & ?). eauto. }
    intros j v v' (Hv & Hp & _ & _ & Hz & Hs & _) Hu. split; [|done].
    destruct (decide (j = i)) as [->|Hji]; [simplify_eq; by rw Hri|].
    destruct (Hs Hji) as [<-|[-> _]]; done.
  - eapply inv_pid_same; [| |done]; [|lia]. by apply pw_refl.
  - eapply inv_pid_same; [| |done]; [|lia]. by apply pw_refl.
  - eapply inv_pid_same; [| |done]; [|lia]. apply pw_alter; by rw /keeps_pid.
  - destruct (runs_running _ _ _ _ _ _ Hcpu H) as (vi & Hvi & Hri).
    eapply inv_pid_same; [| |done]; [|lia]. apply pw_alter; [|by rw /keeps_pid].
    intros u Hu _. simplify_eq. by rw Hri.
  - destruct (runs_running _ _ _ _ _ _ Hcpu H) as (vi & Hvi & Hri).
    eapply inv_pid_same; [| |done]; [|lia]. apply pw_alter; [|by rw /keeps_pid].
    intros u Hu _. simplify_eq. by rw Hri.
  - destruct (runs_running _ _ _ _ _ _ Hcpu H) as (vi & Hvi & Hri).
    eapply inv_pid_same; [| |done]; [|lia]. apply pw_alter; [|by rw /keeps_pid].
    intros u Hu _. simplify_eq. by rw Hri.
  - eapply inv_pid_same; [| |done]; [|lia]. by apply pw_refl.
  - eapply inv_pid_same; [| |done]; [|lia].
    eapply (pw_trans (λ j, keeps_pid) (λ j u w, w.(v_state) = u.(v_state) ∧ w.(v_pid) = u.(v_pid))).
    + apply (pw_alter _ (v_with_state RUNNING) i); [|by rw /keeps_pid]. intros u Hu _. split; [congruence|done].
    + apply pw_alter; [|done]. intros. by destruct (pcs i).
    + rw /keeps_pid. intros j u w x Hk [-> ->]. done.
  - eapply inv_pid_same; [| |done]; [|lia]. apply pw_alter; [|by rw /keeps_pid]. intros u Hu.
    rw /v_kill /keeps_pid. case_decide; simpl; [|done]. by rw H.
  - eapply inv_pid_same; [| |done]; [|lia]. apply pw_wake. intros j u Hu Hn.
    destruct (v_wake_fields me (ChAddr a) j u) as (Hp & _ & _ & [Hs|(Hs & _ & _)]); split; congruence.
Qed.

(** *** Families *)

Definition family_entry (ip : option nat) (vs : list pview) (j : nat) (v v' : pview) : Prop :=
  (active v.(v_state) → active v'.(v_state))
  ∧ (v'.(v_state) = UNUSED → v'.(v_parent) = None)
  ∧ (∀ k, v'.(v_parent) = Some k → v.(v_parent) = Some k
       ∨ ∃ w, vs !! k = Some w ∧ active w.(v_state))
  ∧ (v'.(v_state) ≠ UNUSED → v'.(v_state) ≠ USED → ip ≠ Some j → v'.(v_parent) ≠ None).

Lemma inv_family_pw ip vs vs' cs cs' np np' pcs pcs' :
  pw (family_entry ip vs) vs vs' →
  InvFamily ip (MkA vs cs np pcs) → InvFamily ip (MkA vs' cs' np' pcs').
Proof.
  intros [H1 H2] [Hi Hu Hp Ho]. simpl in *.
  assert (∀ k w, vs !! k = Some w → active w.(v_state) →
    ∃ w', vs' !! k = Some w' ∧ active w'.(v_state)) as Hact.
  { intros k w Hw Ha. destruct (H2 _ _ Hw) as (w' & ? & Hk & _). eauto. }
  split; simpl.
  - destruct Hi as (i & v & -> & Hv & Ha). destruct (Hact _ _ Hv Ha) as (v' & ? & ?). eauto.
  - intros i v' Hv'. destruct (H1 _ _ Hv') as (v & Hv & _ & Hx & _). exact Hx.
  - intros i j v' Hv' Hpa. destruct (H1 _ _ Hv') as (v & Hv & _ & _ & Hx & _).
    destruct (Hx _ Hpa) as [Hpv|(w & Hw & Ha)]; [|by eapply Hact].
    destruct (Hp _ _ _ Hv Hpv) as (w & Hw & Ha). by eapply Hact.
  - intros i v' Hv'. destruct (H1 _ _ Hv') as (v & Hv & _ & _ & _ & Hx). exact Hx.
Qed.

(** An entry whose state changes between states in which a process can run. *)
Lemma family_entry_active ip a j v v' :
  InvFamily ip a → a.(a_vs) !! j = Some v → v.(v_state) ≠ USED → v.(v_state) ≠ UNUSED →
  active v'.(v_state) → v'.(v_parent) = v.(v_parent) → family_entry ip a.(a_vs) j v v'.
Proof.
  intros [Hi Hu Hp Ho] Hv Hus Hun Ha Hpa. split_and!.
  - done.
  - intros E. rewrite -> E in Ha. by destruct Ha as [?|[?|?]].
  - intros k Hk. left. congruence.
  - intros _ _ Hne. rw Hpa. by eapply Ho.
Qed.

Lemma family_entry_refl ip a j v :
  InvFamily ip a → a.(a_vs) !! j = Some v → family_entry ip a.(a_vs) j v v.
Proof. intros [Hi Hu Hp Ho] Hv. split_and!; eauto. Qed.

Lemma active_not st : active st → st ≠ UNUSED ∧ st ≠ USED ∧ st ≠ ZOMBIE.
Proof. by intros [->|[-> | ->]]. Qed.
Lemma not_active st : st = UNUSED ∨ st = USED ∨ st = ZOMBIE → ¬ active st.
Proof. by intros [->|[-> | ->]] [?|[?|?]]. Qed.
Lemma active_running : active RUNNING.
Proof. by right; right. Qed.
Lemma active_runnable : active RUNNABLE.
Proof. by right; left. Qed.
Lemma active_sleeping : active SLEEPING.
Proof. by left. Qed.
#[local] Hint Resolve active_running active_runnable active_sleeping : core.

Lemma family_entry_free ip vs j v : ¬ active v.(v_state) → family_entry ip vs j v v_free.
Proof. intros Hna. split_and!; simpl; try done. Qed.

Lemma family_exit ip vs vs' cs cs' np pcs pcs' i v :
  vs !! i = Some v → v.(v_state) = RUNNING → ip ≠ Some i → pw (exit_entry vs i ip) vs vs' →
  InvFamily ip (MkA vs cs np pcs) → InvFamily ip (MkA vs' cs' np pcs').
Proof.
  intros Hvi Hri Hip [H1 H2] [Hi Hu Hp Ho]. simpl in *.
  assert (∀ k w, k ≠ i → vs !! k = Some w → active w.(v_state) →
    ∃ w', vs' !! k = Some w' ∧ active w'.(v_state)) as Hact.
  { intros k w Hk Hw Ha. destruct (H2 _ _ Hw) as (w' & ? & _ & _ & _ & _ & Hs & _).
    exists w'. split; [done|]. destruct (Hs Hk) as [->|[_ ->]]; auto. }
  destruct Hi as (i0 & v0 & -> & Hv0 & Ha0). assert (i0 ≠ i) as Hi0 by congruence.
  split; simpl.
  - destruct (Hact _ _ Hi0 Hv0 Ha0) as (w' & ? & ?). eauto.
  - intros j v' Hv' Hun. destruct (H1 _ _ Hv') as (w & Hw & _ & _ & Hpa & Hz & Hs & _).
    destruct (decide (j = i)) as [->|Hji]; [naive_solver congruence|].
    destruct (Hs Hji) as [Hs'|[_ Hs']]; [|congruence].
    assert (v_parent w = None) as Hpn by (apply (Hu j); [done|congruence]).
    rewrite -> Hpn in Hpa. case_decide; congruence.
  - intros j k v' Hv' Hk. destruct (H1 _ _ Hv') as (w & Hw & _ & _ & Hpa & _).
    rewrite -> Hpa in Hk. case_decide as Hc.
    + injection Hk as <-. by eapply Hact.
    + destruct (Hp _ _ _ Hw Hk) as (x & ? & ?). apply (Hact k x); [congruence|done..].
  - intros j v' Hv' Hun Hus Hne. destruct (H1 _ _ Hv') as (w & Hw & _ & _ & Hpa & Hz & Hs & _).
    rw Hpa. case_decide; [done|]. apply (Ho j w Hw); [..|done].
    + destruct (decide (j = i)) as [->|Hji]; [congruence|].
      destruct (Hs Hji) as [<-|[-> _]]; done.
    + destruct (decide (j = i)) as [->|Hji]; [congruence|].
      destruct (Hs Hji) as [<-|[-> _]]; done.
Qed.

(** The running process moves to another state in which it can run. *)
Lemma family_runner ip vs cs cs' np pcs pcs' c i f :
  InvCpu (MkA vs cs np pcs) → runs cs c i →
  (∀ v, active (f v).(v_state)) → (∀ v, (f v).(v_parent) = v.(v_parent)) →
  InvFamily ip (MkA vs cs np pcs) → InvFamily ip (MkA (alter f i vs) cs' np pcs').
Proof.
  intros Hcpu Hr Hf Hpa Hfam. destruct (runs_running _ _ _ _ _ _ Hcpu Hr) as (vi & Hvi & Hri).
  eapply inv_family_pw; [|done]. apply pw_alter.
  - intros u Hu. apply (family_entry_active ip (MkA vs cs np pcs)); simpl; [done..| | |done|done]; congruence.
  - intros j u Hu _. by apply (family_entry_refl ip (MkA vs cs np pcs)).
Qed.

Lemma inv_family_step ip a a' : astep ip a a' → Inv ip a → InvFamily ip a'.
Proof.
  intros Hstep [Hlen Hcpu Hpid Hfam Hfk Hsl].
  assert (∀ j v, a.(a_vs) !! j = Some v → family_entry ip a.(a_vs) j v v) as Hrefl
    by (intros; by apply family_entry_refl).
  destruct Hstep; simpl in *; try done.
  - eapply inv_family_pw; [|done]. apply pw_alter; [|by eauto]. intros u Hu. simplify_eq.
    apply family_entry_free, not_active. by left.
  - eapply inv_family_pw; [|done]. apply pw_alter; [|by eauto]. intros u Hu. simplify_eq.
    split_and!; simpl; [|done|by left|done]. intros Ha. rewrite -> H2 in Ha. by apply not_active in Ha; [|left].
  - destruct (inv_fork _ Hfk i n) as (w & Hw & Hus & _); [by rw /= H0|].
    destruct (runs_running _ _ _ _ _ _ Hcpu H) as (vi & Hvi & Hri).
    eapply inv_family_pw; [|done]. apply pw_alter; [|by eauto]. intros u Hu. simpl in *. simplify_eq.
    split_and!; simpl; [done|congruence| |done]. intros k [= <-]. right. exists vi. rw Hri. auto.
  - destruct (inv_fork _ Hfk i n) as (w & Hw & Hus & Hpar); [by rw /= H0|].
    eapply inv_family_pw; [|done]. apply pw_alter; [|by eauto]. intros u Hu. simpl in *. simplify_eq.
    split_and!; simpl; [by auto|done|by left|]. by rw (Hpar H0).
  - destruct (runs_running _ _ _ _ _ _ Hcpu H) as (vi & Hvi & Hri).
    eapply family_exit; [done..| |done]. by apply exit_pw.
  - eapply inv_family_pw; [|done]. by apply pw_refl.
  - eapply inv_family_pw; [|done]. by apply pw_refl.
  - eapply inv_family_pw; [|done]. apply pw_alter; [|by eauto]. intros u Hu. simplify_eq.
    apply family_entry_free, not_active. by right; right.
  - by eapply family_runner.
  - by eapply family_runner.
  - by eapply family_runner; [..|auto|].
  - eapply inv_family_pw; [|done]. by apply pw_refl.
  - eapply inv_family_pw; [|done].
    eapply (pw_trans (λ j u w, vs !! j = Some u ∧ w = if decide (j = i) then v_with_state RUNNING u else u)
      (λ j u w, w.(v_state) = u.(v_state) ∧ w.(v_parent) = u.(v_parent))).
    + apply pw_alter; intros; by case_decide.
    + apply pw_alter; [|done]. intros. by destruct (pcs i).
    + intros j u w x [Hu ->] [Hx Hx']. case_decide; subst.
      * simplify_eq. apply (family_entry_active ip (MkA vs cs np pcs)); simpl; try done; rw ?H2 ?Hx //.
      * specialize (Hrefl j u Hu). rw /family_entry Hx Hx'. exact Hrefl.
  - eapply inv_family_pw; [|done]. apply pw_alter; [|by eauto]. intros u Hu. rw /v_kill.
    case_decide as Hs; [|by eauto].
    apply (family_entry_active ip (MkA vs cs np pcs)); simpl; try done; rw ?Hs //.
  - eapply inv_family_pw; [|done]. apply pw_wake. intros j u Hu.
    destruct (v_wake_fields me (ChAddr a) j u) as (_ & Hp & _ & [Hs|(Hs & _ & Hs')]).
    + specialize (Hrefl j u Hu). rw /family_entry Hs Hp. exact Hrefl.
    + apply (family_entry_active ip (MkA vs cs np pcs)); simpl; try done; rw ?Hs ?Hs' //.
Qed.

(** *** Forks *)

(** No new fork begins; the slots being filled keep their state and parent. *)
Lemma inv_fork_pw vs vs' cs cs' np np' (pcs pcs' : nat → kpc) :
  (∀ k, pcs' k = pcs k ∨ forking (pcs' k) = None) →
  pw (λ j v v',
    (v.(v_state) = USED → ∀ k, forking (pcs' k) = Some j →
       v'.(v_state) = USED ∧ (v.(v_parent) = Some k → v'.(v_parent) = Some k))
    ∧ (¬ active v'.(v_state) → pcs' j = KUser)) vs vs' →
  InvFork (MkA vs cs np pcs) → InvFork (MkA vs' cs' np' pcs').
Proof.
  intros Hpc [H1 H2] [Hf Hinj Hd]. simpl in *.
  assert (∀ k n, forking (pcs' k) = Some n → pcs' k = pcs k) as Hold.
  { intros k n Hk. destruct (Hpc k) as [?|E]; [done|congruence]. }
  split; simpl.
  - intros k n Hk. assert (E := Hold k n Hk). rewrite -> E in Hk.
    destruct (Hf _ _ Hk) as (w & Hw & Hus & Hpa). destruct (H2 _ _ Hw) as (w' & Hw' & Hx & _).
    exists w'. rewrite <- E in Hk. destruct (Hx Hus k Hk). rw E. naive_solver.
  - intros k l n Hk Hl. assert (Ek := Hold _ _ Hk). assert (El := Hold _ _ Hl).
    apply (Hinj k l n); congruence.
  - intros j v' Hv' Hna. destruct (H1 _ _ Hv') as (v & Hv & _ & Hx). by apply Hx.
Qed.

(** The same when only the entry [i], which is not being filled, changes. *)
Lemma inv_fork_one vs cs cs' np np' (pcs pcs' : nat → kpc) i f v :
  vs !! i = Some v → v.(v_state) ≠ USED →
  (∀ k, k ≠ i → pcs' k = pcs k ∨ forking (pcs' k) = None ∧ ∀ u, vs !! k = Some u → active u.(v_state)) →
  pcs' i = pcs i ∨ forking (pcs' i) = None →
  (¬ active (f v).(v_state) → pcs' i = KUser) →
  InvFork (MkA vs cs np pcs) → InvFork (MkA (alter f i vs) cs' np' pcs').
Proof.
  intros Hv Hus Hk Hi Hd Hfk. eapply inv_fork_pw; [|apply pw_alter|done].
  - intros k. destruct (decide (k = i)) as [->|Hne]; [done|]. destruct (Hk k Hne) as [?|[? _]]; auto.
  - intros u Hu. simplify_eq. by split.
  - intros j u Hu Hji. split; [by auto|]. intros Hna. destruct (Hk j Hji) as [->|[_ Ha]].
    + by eapply (inv_dead _ Hfk).
    + exfalso. by eapply Hna, Ha.
Qed.

Lemma upd_eq pcs i pc : upd pcs i pc i = pc.
Proof. by rw /upd decide_True. Qed.
Lemma upd_ne pcs i j pc : j ≠ i → upd pcs i pc j = pcs j.
Proof. intros. by rw /upd decide_False. Qed.

(** A process in [wait] or in user mode starts or ends a call. *)
Lemma inv_fork_call vs cs np pcs c i pc :
  InvCpu (MkA vs cs np pcs) → runs cs c i → forking pc = None →
  InvFork (MkA vs cs np pcs) → InvFork (MkA vs cs np (upd pcs i pc)).
Proof.
  intros Hcpu Hr Hpc Hfk. destruct (runs_running _ _ _ _ _ _ Hcpu Hr) as (vi & Hvi & Hri).
  eapply inv_fork_pw; [|apply pw_refl|exact Hfk].
  - intros k. destruct (decide (k = i)) as [->|]; [rw upd_eq; by right|left; by apply upd_ne].
  - intros j v Hv. split; [by auto|]. intros Hna. destruct (decide (j = i)) as [->|].
    + simplify_eq. rewrite -> Hri in Hna. destruct Hna. auto.
    + rw upd_ne //. by eapply (inv_dead _ Hfk).
Qed.

Lemma inv_fork_begin vs cs np pcs c i n v :
  InvCpu (MkA vs cs np pcs) → runs cs c i → pcs i = KUser → vs !! n = Some v → v.(v_state) = UNUSED →
  InvFork (MkA vs cs np pcs) →
  InvFork (MkA (alter (v_used np) n vs) cs (np + 1) (upd (upd pcs n KUser) i (KFork1 n))).
Proof.
  intros Hcpu Hr Hu Hn Hun [Hf Hinj Hd]. simpl in *.
  destruct (runs_running _ _ _ _ _ _ Hcpu Hr) as (vi & Hvi & Hri).
  assert (i ≠ n) as Hin by congruence.
  assert (∀ k m, k ≠ i → forking (upd (upd pcs n KUser) i (KFork1 n) k) = Some m →
    k ≠ n ∧ m ≠ n ∧ forking (pcs k) = Some m ∧ upd (upd pcs n KUser) i (KFork1 n) k = pcs k) as Hold.
  { intros k m Hki. rw upd_ne //. destruct (decide (k = n)) as [->|Hkn]; [by rw upd_eq|].
    rw upd_ne //. intros Hk. split_and!; try done. intros ->.
    destruct (Hf _ _ Hk) as (w & Hw & Hus & _). congruence. }
  split; simpl.
  - intros k m Hk. destruct (decide (k = i)) as [->|Hki].
    + rewrite -> upd_eq in *. injection Hk as <-. rw list_lookup_alter_eq Hn /=.
      eexists. split; [done|]. done.
    + destruct (Hold _ _ Hki Hk) as (? & ? & Hk' & ->). rw list_lookup_alter_ne //. by apply Hf.
  - intros k l m Hk Hl. destruct (decide (k = i)) as [->|Hki], (decide (l = i)) as [->|Hli]; [done|..].
    + rewrite -> upd_eq in Hk. injection Hk as <-. by destruct (Hold _ _ Hli Hl) as (_ & ? & _).
    + rewrite -> upd_eq in Hl. injection Hl as <-. by destruct (Hold _ _ Hki Hk) as (_ & ? & _).
    + destruct (Hold _ _ Hki Hk) as (_ & _ & ? & _), (Hold _ _ Hli Hl) as (_ & _ & ? & _). eauto.
  - intros j u [(<- & w & Hw & ->)|[Hnj Hu']]%lookup_alter_inv Hna.
    + rw upd_ne // upd_eq //.
    + destruct (decide (j = i)) as [->|Hji]; [|rw !upd_ne //; by eapply Hd].
      simplify_eq. rewrite -> Hri in Hna. destruct Hna. auto.
Qed.

Lemma inv_fork_mid vs cs np pcs c i n (pc : kpc) f :
  InvCpu (MkA vs cs np pcs) → runs cs c i → pcs i = KFork1 n ∧ pc = KFork2 n ∧ f = v_with_parent (Some i)
    ∨ pcs i = KFork2 n ∧ pc = KUser ∧ f = v_with_state RUNNABLE →
  InvFork (MkA vs cs np pcs) → InvFork (MkA (alter f n vs) cs np (upd pcs i pc)).
Proof.
  intros Hcpu Hr Hcase [Hf Hinj Hd]. simpl in *.
  destruct (runs_running _ _ _ _ _ _ Hcpu Hr) as (vi & Hvi & Hri).
  assert (forking (pcs i) = Some n) as Hfi by (by destruct Hcase as [(-> & _)|(-> & _)]).
  destruct (Hf i n Hfi) as (w & Hw & Hus & _). assert (i ≠ n) as Hin by congruence.
  assert (∀ k m, k ≠ i → forking (pcs k) = Some m → m ≠ n) as Hother.
  { intros k m Hki Hk ->. apply Hki. by eapply Hinj. }
  split; simpl.
  - intros k m Hk. destruct (decide (k = i)) as [->|Hki].
    + rewrite -> upd_eq in *. destruct Hcase as [(_ & -> & ->)|(_ & -> & ->)]; [|done].
      injection Hk as <-. rw list_lookup_alter_eq Hw /=. eauto.
    + rewrite -> upd_ne in * by done. rw list_lookup_alter_ne; [by apply Hf|].
      intros <-. by eapply Hother.
  - intros k l m Hk Hl.
    assert (∀ k, forking (upd pcs i pc k) = Some m → forking (pcs k) = Some m) as Hx.
    { intros k'. destruct (decide (k' = i)) as [->|]; [|by rw upd_ne].
      rw upd_eq. destruct Hcase as [(-> & -> & _)|(_ & -> & _)]; done. }
    eapply Hinj; eauto.
  - intros j u [(<- & x & Hx & ->)|[Hnj Hu']]%lookup_alter_inv Hna.
    + rw upd_ne //. apply (Hd n w); [done|]. apply not_active. auto.
    + destruct (decide (j = i)) as [->|Hji]; [|rw !upd_ne //; by eapply Hd].
      simplify_eq. rewrite -> Hri in Hna. destruct Hna. auto.
Qed.

(** Entries that keep their parent and do not leave or enter USED, UNUSED or
    ZOMBIE, with the continuations unchanged. *)
Definition calm (v v' : pview) : Prop :=
  v'.(v_parent) = v.(v_parent)
  ∧ (v'.(v_state) = v.(v_state) ∨ active v.(v_state) ∧ active v'.(v_state)).

Lemma inv_fork_calm vs vs' cs cs' np pcs :
  pw (λ _, calm) vs vs' → InvFork (MkA vs cs np pcs) → InvFork (MkA vs' cs' np pcs).
Proof.
  intros [H1 H2] Hfk.
  eapply inv_fork_pw; [by left| |done].
  assert (∀ j v v', vs !! j = Some v → calm v v' →
    (v_state v = USED → ∀ k, forking (pcs k) = Some j →
       v_state v' = USED ∧ (v_parent v = Some k → v_parent v' = Some k))
    ∧ (¬ active (v_state v') → pcs j = KUser)) as Hc.
  { intros j v v' Hv [Hp Hs]. split.
    - intros Hus k _. rw Hp. split; [|done]. destruct Hs as [->|[Ha _]]; [done|].
      rewrite -> Hus in Ha. by apply not_active in Ha; [|auto].
    - intros Hna. destruct Hs as [Hs|[_ Ha]]; [|done]. apply (inv_dead _ Hfk j v Hv). congruence. }
  split; intros j v Hv; [destruct (H1 _ _ Hv) as (u & ? & ?)|destruct (H2 _ _ Hv) as (u & ? & ?)]; eauto.
Qed.

Lemma inv_fork_step ip a a' : astep ip a a' → Inv ip a → InvFork a'.
Proof.
  intros Hstep [Hlen Hcpu Hpid Hfam Hfk Hsl]. destruct Hstep; simpl in *; try done.
  - eapply inv_fork_one; [done|congruence|by left|by left| |done].
    intros _. apply (inv_dead _ Hfk n v); [done|]. apply not_active. auto.
  - by eapply inv_fork_begin.
  - eapply inv_fork_mid; [done..|by left|done].
  - eapply inv_fork_mid; [done..|by right|done].
  - destruct (runs_running _ _ _ _ _ _ Hcpu H) as (vi & Hvi & Hri).
    eapply inv_fork_pw; [by left| |done].
    destruct (exit_pw _ _ _ _ _ Hlen H2 H3) as [E1 E2].
    assert (∀ j v v', vs !! j = Some v → exit_entry vs i ip j v v' →
      (v_state v = USED → ∀ k, forking (pcs k) = Some j →
       v_state v' = USED ∧ (v_parent v = Some k → v_parent v' = Some k))
      ∧ (¬ active (v_state v') → pcs j = KUser)) as Hc.
    { intros j v v' Hv (_ & _ & Hpa & Hz & Hs & _). split.
      - intros Hus k Hk. destruct (decide (j = i)) as [->|Hji]; [congruence|]. split.
        + destruct (Hs Hji) as [?|[? _]]; congruence.
        + intros Hpk. rw Hpa. case_decide as Hd; [|done].
          rewrite -> Hpk in Hd. injection Hd as ->. by rewrite -> H0 in Hk.
      - intros Hna. destruct (decide (j = i)) as [->|Hji]; [done|].
        destruct (Hs Hji) as [Hs'|[_ Hs']].
        + apply (inv_dead _ Hfk j v Hv). congruence.
        + rewrite -> Hs' in Hna. destruct Hna. auto. }
    split; intros j v Hv; [destruct (E1 _ _ Hv) as (u & ? & ?)|destruct (E2 _ _ Hv) as (u & ? & ?)]; eauto.
  - by eapply inv_fork_call.
  - by eapply inv_fork_call.
  - destruct (runs_running _ _ _ _ _ _ Hcpu H) as (vi & Hvi & Hri).
    assert (n ≠ i) as Hni by congruence.
    eapply inv_fork_one; [done|congruence| | | |done].
    + intros k Hk. destruct (decide (k = i)) as [->|]; [|left; by apply upd_ne].
      right. rw upd_eq. split; [done|]. intros u Hu. simplify_eq. rw Hri. auto.
    + left. by apply upd_ne.
    + intros _. rw upd_ne //. apply (inv_dead _ Hfk n v); [done|]. apply not_active. auto.
  - destruct (runs_running _ _ _ _ _ _ Hcpu H) as (vi & Hvi & Hri).
    eapply inv_fork_one; [done|congruence| | | |done].
    + intros k Hk. left. by apply upd_ne.
    + right. by rw upd_eq.
    + simpl. intros Hna. destruct Hna. auto.
  - destruct (runs_running _ _ _ _ _ _ Hcpu H) as (vi & Hvi & Hri).
    eapply inv_fork_one; [done|congruence| | | |done].
    + intros k Hk. left. by apply upd_ne.
    + right. by rw upd_eq.
    + simpl. intros Hna. destruct Hna. auto.
  - destruct (runs_running _ _ _ _ _ _ Hcpu H) as (vi & Hvi & Hri).
    eapply inv_fork_calm; [|done]. apply pw_alter; [|by intros; split; [|left]].
    intros u Hu. simplify_eq. split; [done|]. right. rw Hri. auto.
  - eapply inv_fork_calm; [|done]. apply pw_refl. intros. by split; [|left].
  - eapply inv_fork_pw; [| |done].
    { intros k. destruct (decide (k = i)) as [->|]; [|left; by apply upd_ne].
      rw upd_eq. destruct (pcs i); by [left|right]. }
    eapply (pw_trans (λ j u w, vs !! j = Some u ∧ w = if decide (j = i) then v_with_state RUNNING u else u)
      (λ j u w, w.(v_state) = u.(v_state) ∧ w.(v_parent) = u.(v_parent))).
    + apply pw_alter; intros; by case_decide.
    + apply pw_alter; [|done]. intros. by destruct (pcs i).
    + intros j u w x [Hu ->] [Hx Hx']. rw Hx Hx'. destruct (decide (j = i)) as [->|Hji].
      * simplify_eq. split; [congruence|]. intros Hna. destruct Hna. auto.
      * split; [by auto|]. rw upd_ne //. by apply (inv_dead _ Hfk).
  - eapply inv_fork_calm; [|done]. apply pw_alter; [|by intros; split; [|left]].
    intros u Hu. rw /v_kill. case_decide as Hs; [|by split; [|left]]. split; [done|].
    right. rw Hs. auto.
  - eapply inv_fork_calm; [|done]. apply pw_wake. intros j u Hu.
    destruct (v_wake_fields me (ChAddr a) j u) as (_ & Hp & _ & [Hs|(Hs & _ & Hs')]).
    + by split; [|left].
    + split; [done|]. right. rw Hs Hs'. auto.
Qed.

(** *** Sleepers *)

(** [w'] is [w] or a process that was asleep and is woken; [wait]ers keep their
    channel and nobody becomes a zombie or a child. *)
Lemma inv_sleep_pw vs vs' cs cs' np np' (pcs pcs' : nat → kpc) :
  pw (λ j v v',
    (v'.(v_state) = SLEEPING → v.(v_state) = SLEEPING ∧ v'.(v_chan) = v.(v_chan) ∧ pcs' j = pcs j)
    ∧ (v'.(v_state) = ZOMBIE → v.(v_state) = ZOMBIE ∧ v'.(v_parent) = v.(v_parent))) vs vs' →
  InvSleep (MkA vs cs np pcs) → InvSleep (MkA vs' cs' np' pcs').
Proof.
  intros [H1 _] [Hs Hw]. simpl in *. split; simpl.
  - intros i v' Hv' Hsl. destruct (H1 _ _ Hv') as (v & Hv & Hx & _).
    destruct (Hx Hsl) as (? & -> & ->). by apply Hs.
  - intros i v' j w' Hv' Hsl Hc Hw' Hpa Hz.
    destruct (H1 _ _ Hv') as (v & Hv & Hx & _), (H1 _ _ Hw') as (w & Hw0 & _ & Hy).
    destruct (Hx Hsl) as (? & E & _), (Hy Hz) as [Hz' E'].
    eapply (Hw i v j w); congruence.
Qed.

(** The running process [i] goes to sleep. *)
Lemma inv_sleep_self vs cs cs' np pcs i f v pc :
  vs !! i = Some v → v.(v_state) = RUNNING →
  (f v).(v_state) = SLEEPING → (f v).(v_parent) = v.(v_parent) →
  (pc = KSleep ∧ ∃ ad, (f v).(v_chan) = ChAddr ad) ∨
    ((∃ addr, pc = KWaitSleep addr) ∧ (f v).(v_chan) = ChProc i
     ∧ ∀ n w, vs !! n = Some w → w.(v_parent) = Some i → w.(v_state) ≠ ZOMBIE) →
  InvSleep (MkA vs cs np pcs) → InvSleep (MkA (alter f i vs) cs' np (upd pcs i pc)).
Proof.
  intros Hv Hr Hf Hfp Hcase [Hs Hw]. simpl in *. split; simpl.
  - intros j u [(<- & y & Hy & ->)|[Hne Hu]]%lookup_alter_inv Hsl.
    + simplify_eq. rw upd_eq. destruct Hcase as [?|([addr ->] & ? & _)]; [by left|right; eauto].
    + rw upd_ne //. by apply Hs.
  - intros k u j w [(<- & y & Hy & ->)|[Hne Hu]]%lookup_alter_inv Hsl Hc
      [(<- & z & Hz & ->)|[Hne' Hw']]%lookup_alter_inv Hpa Hzo; simplify_eq; try congruence.
    + destruct Hcase as [(_ & ad & ?)|(_ & _ & Hno)]; [congruence|]. by eapply Hno.
    + by eapply (Hw k u j w).
Qed.

Lemma inv_sleep_exit ip vs vs' cs cs' np pcs i v :
  InvFamily ip (MkA vs cs np pcs) →
  vs !! i = Some v → v.(v_state) = RUNNING → ip ≠ Some i → pw (exit_entry vs i ip) vs vs' →
  InvSleep (MkA vs cs np pcs) → InvSleep (MkA vs' cs' np pcs).
Proof.
  intros Hfam Hvi Hri Hip [H1 H2] [Hs Hw]. simpl in *. split; simpl.
  - intros j v' Hv' Hsl. destruct (H1 _ _ Hv') as (u & Hu & _ & Hc & _ & Hz & Hst & _).
    destruct (decide (j = i)) as [->|Hji]; [rewrite -> Hz in Hsl by done; congruence|].
    rw Hc. apply Hs; [done|]. destruct (Hst Hji) as [?|[? _]]; congruence.
  - intros k k' j w' Hk' Hsl Hc Hw' Hpa Hzo.
    destruct (H1 _ _ Hk') as (u & Hu & _ & Hch & _ & Hz & Hst & Hnowake).
    destruct (decide (k = i)) as [->|Hki]; [rewrite -> Hz in Hsl by done; congruence|].
    assert (v_state u = SLEEPING) as Hus by (destruct (Hst Hki) as [?|[? _]]; congruence).
    rewrite -> Hch in Hc. destruct (Hnowake Hki Hsl) as [Hn1 Hn2].
    destruct (H1 _ _ Hw') as (w & Hw0 & _ & _ & Hpw & Hz' & Hst' & _).
    rewrite -> Hpw in Hpa. destruct (decide (j = i)) as [->|Hji].
    + (* the exiting process is a zombie; its parent was woken *)
      simplify_eq. apply (Hn1 v Hvi). rw Hc.
      destruct (decide (v_parent v = Some i)) as [_|_]; rw Hpa; done.
    + assert (v_state w = ZOMBIE) as Hwz by (destruct (Hst' Hji) as [?|[? ?]]; congruence).
      case_decide as Hd.
      * apply (Hn2 (eq_trans Hc (f_equal proc_chan (eq_sym Hpa))) j w Hw0 Hd).
      * by eapply (Hw k u j w).
Qed.

Lemma inv_sleep_step ip a a' : astep ip a a' → Inv ip a → InvSleep a'.
Proof.
  intros Hstep [Hlen Hcpu Hpid Hfam Hfk Hsl]. destruct Hstep; simpl in *; try done.
  - eapply inv_sleep_pw; [|done]. by apply pw_alter.
  - destruct (runs_running _ _ _ _ _ _ Hcpu H) as (vi & Hvi & Hri).
    eapply inv_sleep_pw; [|done]. apply pw_alter; [done|].
    intros j u Hu Hjn. split; [|done]. intros Hs. split_and!; try done.
    rw !upd_ne //. congruence.
  - destruct (runs_running _ _ _ _ _ _ Hcpu H) as (vi & Hvi & Hri).
    destruct (inv_fork _ Hfk i n) as (w & Hw & Hus & _); [by rw /= H0|]. simpl in *.
    eapply inv_sleep_pw; [|done]. apply pw_alter.
    + intros u Hu. simplify_eq. simpl. rw Hus. done.
    + intros j u Hu Hjn. split; [|done]. intros Hs. split_and!; try done. rw !upd_ne //. congruence.
  - destruct (runs_running _ _ _ _ _ _ Hcpu H) as (vi & Hvi & Hri).
    eapply inv_sleep_pw; [|done]. apply pw_alter; [done|].
    intros j u Hu Hjn. split; [|done]. intros Hs. split_and!; try done. rw !upd_ne //. congruence.
  - destruct (runs_running _ _ _ _ _ _ Hcpu H) as (vi & Hvi & Hri).
    eapply inv_sleep_exit; [done..| |done]. by apply exit_pw.
  - destruct (runs_running _ _ _ _ _ _ Hcpu H) as (vi & Hvi & Hri).
    eapply inv_sleep_pw; [|done]. apply pw_refl. intros j u Hu. split; [|done]. intros Hs.
    split_and!; try done. rw upd_ne //. congruence.
  - destruct (runs_running _ _ _ _ _ _ Hcpu H) as (vi & Hvi & Hri).
    eapply inv_sleep_pw; [|done]. apply pw_refl. intros j u Hu. split; [|done]. intros Hs.
    split_and!; try done. rw upd_ne //. congruence.
  - destruct (runs_running _ _ _ _ _ _ Hcpu H) as (vi & Hvi & Hri).
    eapply inv_sleep_pw; [|done]. apply pw_alter; [done|].
    intros j u Hu Hjn. split; [|done]. intros Hs. split_and!; try done. rw !upd_ne //. congruence.
  - destruct (runs_running _ _ _ _ _ _ Hcpu H) as (vi & Hvi & Hri).
    eapply inv_sleep_self; [done..| |done]. right. by eauto.
  - destruct (runs_running _ _ _ _ _ _ Hcpu H) as (vi & Hvi & Hri).
    eapply inv_sleep_self; [done..| |done]. left. by eauto.
  - eapply inv_sleep_pw; [|done]. by apply pw_alter.
  - eapply inv_sleep_pw; [|done]. by apply pw_refl.
  - eapply inv_sleep_pw; [|done].
    eapply (pw_trans (λ j u w, w = if decide (j = i) then v_with_state RUNNING u else u)
      (λ j u w, w.(v_state) = u.(v_state) ∧ (j ≠ i → w = u))).
    + apply pw_alter; intros; by case_decide.
    + apply pw_alter; [|done]. intros. by destruct (pcs i).
    + intros j u w x -> [Hx Hx']. rw Hx. destruct (decide (j = i)) as [->|Hji]; [done|].
      rw Hx' // upd_ne //.
  - eapply inv_sleep_pw; [|done]. apply pw_alter; [|done].
    intros u Hu. rw /v_kill. case_decide; [done|]. done.
  - eapply inv_sleep_pw; [|done]. apply pw_wake. intros j u Hu.
    destruct (v_wake_fields me (ChAddr a) j u) as (_ & Hp & Hc & [Hs|(Hs & _ & Hs')]).
    + rw Hs Hp Hc. done.
    + rw Hs'. done.
Qed.

(** Every step of the abstract machine keeps the invariant. *)
Lemma inv_step ip a a' : astep ip a a' → Inv ip a → Inv ip a'.
Proof.
  intros Hstep HI. split.
  - assert (length (a_vs a) = NPROC) as Hlen by apply HI.
    destruct Hstep; simpl in *; rewrite ?length_alter ?length_imap; try done.
    by destruct H2 as [-> _].
  - by eapply inv_cpu_step.
  - by eapply inv_pid_step.
  - by eapply inv_family_step.
  - by eapply inv_fork_step.
  - by eapply inv_sleep_step.
Qed.

End ProcSpec.
