(* ===== verification/ProcInv.v ===== *)
(** * The process code implements the abstract machine

    Every reachable step of [proc.c] is a step of [ProcSpec.astep], so every
    reachable state of the kernel has the invariant; the theorems at the end
    read off what it says about the table. *)

From S2P Require Import Prelude Machine Kalloc Vm Proc ProcSteps ProcEffects ProcSpec.
Import Proc ProcSteps ProcEffects ProcSpec.

Module ProcInv.

Section inv.
Context {KI : KernelImage} {F : Type} {FL : FileLayer F} (forkret_pc : Z).
Implicit Types (s : kern (F := F)).

Definition abs (σ : sys (F := F)) : astate :=
  MkA (views (fst σ)) (fst σ).(cpus) (fst σ).(nextpid) (snd σ).

(** ** One step *)

Lemma abs_eff s s' pcs vs np h : eff s vs np h s' → abs (s', pcs) = MkA vs s.(cpus) np pcs.
Proof. intros (<- & Hc & _ & <- & _). by rw /abs /= Hc. Qed.

Lemma abs_switched s s' pcs vs c i : switched s vs c i s' →
  abs (s', pcs) = MkA vs (alter (leave i) c s.(cpus)) s.(nextpid) pcs.
Proof. intros (<- & Hc & _ & Hn & _). by rw /abs /= Hc Hn. Qed.

(** A step keeps [initproc], the size of the table and holds no lock at its
    end. *)
Definition kept (s s' : kern (F := F)) : Prop := s'.(initproc) = s.(initproc) ∧ s'.(held) = [].

Lemma kept_eff s vs np s' : eff s vs np [] s' → kept s s'.
Proof. by intros (_ & _ & ? & _ & ?). Qed.
Lemma kept_switched s vs c i s' : switched s vs c i s' → kept s s'.
Proof. by intros (_ & _ & ? & _ & ?). Qed.

Lemma fork_set_parent_effect c i n s :
  on_cpu s c i →
  wlp (fork_set_parent c n) (λ _ s', same_but s (alter (v_with_parent (Some i)) n (views s)) s') s.
Proof.
  intros (cp & Hcp & Hi). rw /fork_set_parent. wlp_steps. simplify_eq.
  split_and!; simpl; try done; [|by apply filter_release]. rw Hi /views /=. table_eq.
Qed.

Lemma fork_start_effect n s :
  wlp (fork_start n) (λ _ s', same_but s (alter (v_with_state RUNNABLE) n (views s)) s') s.
Proof.
  rw /fork_start. wlp_steps. split_and!; simpl; try done; [|by apply filter_release].
  rw /views /=. table_eq.
Qed.

(** A section whose effect is known: its abstract state and what it keeps. *)
Ltac section_done Heff Hh :=
  rewrite /same_but Hh in Heff; (split; [|by eapply kept_eff]);
  rw (abs_eff _ _ _ _ _ _ Heff).

Lemma simulate σ σ' :
  step forkret_pc σ σ' → (fst σ).(held) = [] → length (fst σ).(procs) = NPROC →
  astep (fst σ).(initproc) (abs σ) (abs σ') ∧ kept (fst σ) (fst σ').
Proof.
  intros Hstep Hh Hlen. destruct Hstep; simpl in *.
  - pose proof (wlp_run _ _ _ _ _ (fork_create_effect _ _ _) H1) as (-> & v & Hv & Hst & _ & Heff).
    section_done Heff Hh. by eapply a_fork.
  - pose proof (wlp_run _ _ _ _ _ (fork_create_effect _ _ _) H1) as [Heff|(n & v & Hv & Hst & Heff)];
      section_done Heff Hh; [apply a_stutter|by eapply a_alloc_fail].
  - pose proof (wlp_run _ _ _ _ _ (fork_set_parent_effect _ i _ _ H) H1) as Heff.
    section_done Heff Hh. by eapply a_fork_parent.
  - pose proof (wlp_run _ _ _ _ _ (fork_start_effect _ _) H1) as Heff.
    section_done Heff Hh. by eapply a_fork_start.
  - pose proof (wlp_run _ _ _ _ _ (exit_effect _ i _ _ Hlen H) H1) as (Hip & vs1 & v1 & Hrep & Hv1 & Hsw).
    rw (abs_switched _ _ _ _ _ _ Hsw). split; [by eapply a_exit|exact (kept_switched _ _ _ _ _ Hsw)].
  - split; [by eapply a_wait_call|done].
  - pose proof (wlp_run _ _ _ _ _ (wait_scan_effect _ i _ _ Hlen H) H1)
      as [[-> Heff]|(n & v & Hv & Hst & Hpa & -> & Heff)]; section_done Heff Hh;
      [by eapply a_wait_fail|by eapply a_reap].
  - pose proof (wlp_run _ _ _ _ _ (wait_scan_effect _ i _ _ Hlen H) H1) as [Hno Hsw].
    rw (abs_switched _ _ _ _ _ _ Hsw). split; [by eapply a_wait_sleep|exact (kept_switched _ _ _ _ _ Hsw)].
  - assert (wlp (acquire (OtherLock lk);; sleep c (ChAddr a) (OtherLock lk))
      (λ _ s', switched s (alter (v_sleep (ChAddr a)) i (views s)) c i s') s) as Hw.
    { wlp_step. wlp_step. eapply wlp_mono; [|apply (sleep_effect _ i); exact H]. by intros. }
    pose proof (wlp_run _ _ _ _ _ Hw H1) as Hsw.
    rw (abs_switched _ _ _ _ _ _ Hsw). split; [by eapply a_sleep|exact (kept_switched _ _ _ _ _ Hsw)].
  - pose proof (wlp_run _ _ _ _ _ (yield_effect _ i _ H) H0) as Hsw.
    rw (abs_switched _ _ _ _ _ _ Hsw). split; [by eapply a_yield|exact (kept_switched _ _ _ _ _ Hsw)].
  - destruct H as (cp & Hcp & Hidle).
    pose proof (wlp_run _ _ _ _ _ (scheduler_effect _ _ _ Hcp) H0) as ->. split; [|done].
    by apply (a_skip _ _ _ _ _ c).
  - destruct H as (cp & Hcp & Hidle).
    pose proof (wlp_run _ _ _ _ _ (scheduler_effect _ _ _ Hcp) H0)
      as (v & -> & Hv & Hst & Hvs & Hcs & Hip & Hnp & Hl & Hh').
    rewrite -> Hh in *.
    pose proof (wlp_run _ _ _ _ _ (resume_effect _ _ _ [] Hh' ltac:(set_solver)) H1)
      as (-> & Heff).
    split.
    + rw (abs_eff _ _ _ _ _ _ Heff) Hvs Hcs Hnp. by eapply a_run.
    + apply kept_eff in Heff as [? ?]. split; congruence.
  - pose proof (wlp_run _ _ _ _ _ (kill_effect _ _) H0) as [Heff|[j Heff]]; section_done Heff Hh;
      [apply a_stutter|apply a_kill].
  - destruct H as [cp Hcp].
    pose proof (wlp_run _ _ _ _ _ (wakeup_effect _ _ _ _ Hlen Hcp) H0) as Heff.
    section_done Heff Hh. apply a_wake.
  - split; [|done]. assert (views (set_procs (alter g i) s) = views s) as Hvs.
    { apply views_id. intros p. destruct (H0 p) as (? & ? & ? & ? & _). by rw /view; f_equal. }
    assert (abs (set_kmem k (set_fls f (set_procs (alter g i) s)), pcs) = abs (s, pcs)) as ->.
    { rw /abs /=. f_equal. exact Hvs. }
    apply a_stutter.
Qed.

(** ** Boot *)

Lemma procinit_effect s : wlp procinit (λ _ s', same_but s (views s) s') s.
Proof.
  apply wlp_bind. eapply wlp_mono; [|apply (wlp_for_each (λ _ s', same_but s (views s) s') (λ _ _, False)); [done|]].
  { by intros [[]|]. }
  intros _ i s1 _ (Hv & ? & ? & ? & ?). wlp_steps. repeat split; try done.
  etrans; [by apply views_id|exact Hv].
Qed.

Lemma userinit_effect s :
  wlp (userinit forkret_pc) (λ _ s', ∃ i v, views s !! i = Some v ∧ v.(v_state) = UNUSED
    ∧ s'.(initproc) = Some i ∧ s'.(cpus) = s.(cpus) ∧ s'.(nextpid) = s.(nextpid) + 1
    ∧ s'.(held) = s.(held)
    ∧ views s' = alter (v_with_state RUNNABLE) i (alter (v_used s.(nextpid)) i (views s))) s.
Proof.
  rw /userinit. apply wlp_bind. eapply wlp_mono; [|apply allocproc_effect].
  intros [i|] s1; [|by wlp_steps].
  intros (v & Hv & Hst & Hl & (Hvs & Hcs & Hip & Hnp & Hh)). wlp_steps. simplify_eq.
  eexists _, v. split_and!; [done..| |]; simpl.
  - rw Hh. by apply filter_release.
  - rw -Hvs /views /=. table_eq.
Qed.

Lemma initial_inv σ : initial forkret_pc σ → Inv (fst σ).(initproc) (abs σ) ∧ (fst σ).(held) = [].
Proof.
  intros [k f s Hrun]. simpl.
  assert (wlp (procinit;; userinit forkret_pc) (λ _ s', ∃ i,
    s'.(initproc) = Some i ∧ (i < NPROC)%nat ∧ s'.(cpus) = replicate NCPU (MkCpu None 0)
    ∧ s'.(nextpid) = 2 ∧ s'.(held) = []
    ∧ views s' = <[i := MkView RUNNABLE ChNull 1 None]> (replicate NPROC v_free))
    (boot_state k f)) as Hw.
  { apply wlp_bind. eapply wlp_mono; [|apply procinit_effect].
    intros ? s1 (Hv1 & Hc1 & _ & Hn1 & Hh1). eapply wlp_mono; [|apply userinit_effect].
    intros ? s2 (i & v & Hv & Hst & Hip & Hc & Hn & Hh & Hvs). exists i.
    assert (views (boot_state k f) = replicate NPROC v_free) as Hb by done.
    rewrite -> Hv1, Hb in Hv. apply lookup_replicate in Hv as [-> Hi].
    split_and!; try done; [by rw Hc Hc1|by rw Hn Hn1|by rw Hh Hh1|].
    rw Hvs Hv1 Hb Hn1. apply list_eq. intros j.
    destruct (decide (i = j)) as [->|Hne].
    - rw !list_lookup_alter_eq list_lookup_insert_eq ?length_replicate // lookup_replicate_2 //.
    - rw !list_lookup_alter_ne // list_lookup_insert_ne //. }
  destruct (wlp_run _ _ _ _ _ Hw Hrun) as (i & -> & Hi & Hc & Hn & Hh & Hvs).
  split; [|done]. clear Hw Hrun.
  assert (∀ j v, views s !! j = Some v → j = i ∧ v = MkView RUNNABLE ChNull 1 None ∨ j ≠ i ∧ v = v_free) as Hcase.
  { intros j v. rw Hvs. destruct (decide (j = i)) as [->|Hne].
    - rw list_lookup_insert_eq ?length_replicate //. intros [= <-]. by left.
    - rw list_lookup_insert_ne //. intros [-> _]%lookup_replicate. by right. }
  assert (∀ c j, ¬ runs (cpus s) c j) as Hidle.
  { intros c j (cp & Hcp & Hj). rw Hc in Hcp. by apply lookup_replicate in Hcp as [-> _]. }
  assert (views s !! i = Some (MkView RUNNABLE ChNull 1 None)) as Hvi.
  { rw Hvs. apply list_lookup_insert_eq. by rw length_replicate. }
  split; simpl.
  - by rw Hvs length_insert length_replicate.
  - split; simpl.
    + intros j v [[-> ->]|[_ ->]]%Hcase; (split; [done|intros [c []%Hidle]]).
    + by intros c1 c2 j []%Hidle.
    + by intros c j []%Hidle.
  - split; simpl; rw ?Hn; [lia| |].
    + intros j v [[-> ->]|[_ ->]]%Hcase; simpl; [lia|done].
    + intros j l v w [[-> ->]|[? ->]]%Hcase [[-> ->]|[? ->]]%Hcase; done.
  - split; simpl.
    + exists i. eexists. split; [done|]. split; [exact Hvi|]. by right; left.
    + intros j v [[-> ->]|[_ ->]]%Hcase; done.
    + intros j l v [[-> ->]|[_ ->]]%Hcase; done.
    + intros j v [[-> ->]|[_ ->]]%Hcase; done.
  - split; simpl; done.
  - split; simpl.
    + intros j v [[-> ->]|[_ ->]]%Hcase; done.
    + intros j v l w [[-> ->]|[_ ->]]%Hcase; done.
Qed.

Lemma reachable_inv σ :
  reachable forkret_pc σ → Inv (fst σ).(initproc) (abs σ) ∧ (fst σ).(held) = [].
Proof.
  intros (σ0 & H0 & Hrtc). apply initial_inv in H0. revert H0.
  induction Hrtc as [|σ1 σ2 σ3 Hstep _ IH]; [done|]. intros [HI Hh]. apply IH.
  assert (length (procs (fst σ1)) = NPROC) as Hlen.
  { pose proof (inv_len _ _ HI) as Hl. by rw /= length_views in Hl. }
  destruct (simulate _ _ Hstep Hh Hlen) as [Ha [Hip Hh']].
  split; [|done]. rw Hip. by eapply inv_step.
Qed.

End inv.
End ProcInv.
