(* ===== verification/ProcProps.v ===== *)
(** * What the process invariant says about the kernel ([proc.c]) *)

From S2P Require Import Prelude Machine Kalloc Vm Proc ProcSteps ProcEffects ProcSpec ProcInv.
Import Proc ProcSteps ProcEffects ProcSpec ProcInv.

Module ProcProps.

Section props.
Context {KI : KernelImage} {F : Type} {FL : FileLayer F} (forkret_pc : Z).
Implicit Types (s : kern (F := F)) (σ : sys (F := F)).

Lemma view_lookup s i p : s.(procs) !! i = Some p → views s !! i = Some (view p).
Proof. intros. apply lookup_views. eauto. Qed.

(** C8: refinement. In every reachable state, every section of [fork], [exit],
    [wait], [sleep], [wakeup], [kill], [yield] and [scheduler] that completes
    is a transition of the abstract process machine, on the state it
    abstracts. *)
Theorem proc_refines_machine σ σ' :
  reachable forkret_pc σ → step forkret_pc σ σ' →
  astep (fst σ).(initproc) (abs σ) (abs σ').
Proof.
  intros [HI Hh]%reachable_inv Hstep. eapply simulate; [done..|].
  pose proof (inv_len _ _ HI) as Hl. by rw /= length_views in Hl.
Qed.

(** C9: a process is RUNNING exactly when some CPU runs it, and then exactly
    one does, however the CPUs' schedulers interleave. *)
Theorem running_on_one_cpu s pcs i p :
  reachable forkret_pc (s, pcs) → s.(procs) !! i = Some p →
  (p.(p_state) = RUNNING ↔ ∃ c, on_cpu s c i)
  ∧ (∀ c1 c2, on_cpu s c1 i → on_cpu s c2 i → c1 = c2).
Proof.
  intros [HI _]%reachable_inv Hp%view_lookup.
  split; [exact (inv_run _ (inv_cpu _ _ HI) _ _ Hp)|].
  intros c1 c2. apply (inv_one _ (inv_cpu _ _ HI)).
Qed.

(** C10: no orphans. A zombie always has a parent that can still run and so
    can reap it: [exit] hands the children of a dying process to init, and
    init does not exit. *)
Theorem zombies_have_live_parents s pcs i p :
  reachable forkret_pc (s, pcs) → s.(procs) !! i = Some p → p.(p_state) = ZOMBIE →
  ∃ j q, p.(p_parent) = Some j ∧ s.(procs) !! j = Some q ∧ active q.(p_state).
Proof.
  intros [HI _]%reachable_inv Hp%view_lookup Hz. pose proof (inv_family _ _ HI) as HF.
  destruct (inv_init _ _ HF) as (i0 & v0 & Hip & Hv0 & Ha0).
  destruct (p_parent p) as [j|] eqn:Hj.
  - destruct (inv_parent _ _ HF _ j _ Hp Hj) as (w & (q & Hq & ->)%lookup_views & Ha).
    exists j, q. done.
  - exfalso. apply (inv_orphan _ _ HF _ _ Hp); simpl; [congruence..| |done].
    intros E. simpl in Hip. rewrite -> Hip in E. injection E as ->.
    assert (v0 = view p) as -> by (simpl in *; congruence).
    simpl in Ha0. rewrite -> Hz in Ha0. by apply not_active in Ha0; [|auto].
Qed.


(** C12: two live processes never have the same pid, and pids are positive. *)
Theorem pids_distinct s pcs i j p q :
  reachable forkret_pc (s, pcs) →
  s.(procs) !! i = Some p → s.(procs) !! j = Some q →
  p.(p_state) ≠ UNUSED → q.(p_state) ≠ UNUSED →
  1 ≤ p.(p_pid) ∧ (p.(p_pid) = q.(p_pid) → i = j).
Proof.
  intros [HI _]%reachable_inv Hp%view_lookup Hq%view_lookup Hps Hqs. split.
  - by apply (inv_pid _ (inv_pids _ _ HI) i (view p)).
  - by apply (inv_pid_inj _ (inv_pids _ _ HI) i j (view p) (view q)).
Qed.

(** ** [kill(0)] and free slots *)

Lemma kill_body_skip s i q pid :
  s.(held) = [] → s.(procs) !! i = Some q → q.(p_pid) ≠ pid →
  (acquire (ProcLock i);;
    p ← getp i;
    if p.(p_pid) =? pid then
      updp i (set_p_killed 1);;
      (if bool_decide (p.(p_state) = SLEEPING)
       then updp i (set_p_state RUNNABLE) else mret tt);;
      release (ProcLock i);;
      mret (Some 0)
    else release (ProcLock i);; mret None) s = Ok (None, s).
Proof.
  intros Hh Hq Hne. destruct s; simpl in *; subst. wp_unfold.
  rw /acquire /getp /release. wp_unfold. rw Hq. zbool; [done|]. wp_unfold.
  rewrite -> bool_decide_true by set_solver. simpl. by rw filter_release; [|set_solver].
Qed.

(** [kill(0)] finds the first free slot, whose pid is 0. *)
Lemma kill_zero_run s i p :
  s.(held) = [] → (i < NPROC)%nat → s.(procs) !! i = Some p → p.(p_pid) = 0 → p.(p_state) = UNUSED →
  (∀ j, (j < i)%nat → ∃ q, s.(procs) !! j = Some q ∧ q.(p_pid) ≠ 0) →
  kill 0 s = Ok (0, set_procs (alter (set_p_killed 1) i) s).
Proof.
  intros Hh Hi Hp Hpid Hst Hbefore. rw /kill /all_procs (seq_split i NPROC Hi) /mbind /M_bind.
  rewrite (for_each_search _ _ i 0 _ s (set_procs (alter (set_p_killed 1) i) s)).
  - done.
  - intros j Hj%elem_of_seq. destruct (Hbefore j) as (q & Hq & Hne); [lia|].
    by eapply kill_body_skip.
  - destruct s; simpl in *; subst. wp_unfold. rw /acquire /getp /release /updp /getp. wp_unfold.
    rw Hp Hpid /= Hp /=. rewrite -> (bool_decide_false (p_state p = SLEEPING)) by congruence.
    wp_unfold. rewrite -> bool_decide_true by set_solver. simpl. by rw filter_release; [|set_solver].
Qed.

Lemma find_unused_first s i p :
  s.(held) = [] → (i < NPROC)%nat → s.(procs) !! i = Some p → p.(p_state) = UNUSED →
  (∀ j, (j < i)%nat → ∃ q, s.(procs) !! j = Some q ∧ q.(p_state) ≠ UNUSED) →
  find_unused s = Ok (Some i, set_held [ProcLock i] s).
Proof.
  intros Hh Hi Hp Hst Hbefore. rw /find_unused /all_procs (seq_split i NPROC Hi).
  apply for_each_search.
  - intros j Hj%elem_of_seq. destruct (Hbefore j) as (q & Hq & Hne); [lia|].
    destruct s; simpl in *; subst. wp_unfold. rw /acquire /getp /release. wp_unfold. rw Hq.
    rewrite -> bool_decide_false by done. wp_unfold.
    rewrite -> bool_decide_true by set_solver. simpl. by rw filter_release; [|set_solver].
  - destruct s; simpl in *; subst. wp_unfold. rw /acquire /getp. wp_unfold. rw Hp.
    by rewrite -> bool_decide_true.
Qed.

(** [allocproc] does not reset [p->killed]. *)
Lemma allocproc_keeps_killed s i p :
  find_unused s = Ok (Some i, set_held [ProcLock i] s) → s.(procs) !! i = Some p →
  wlp (allocproc forkret_pc) (λ r s', ∀ n, r = Some n →
    ∃ q, s'.(procs) !! n = Some q ∧ q.(p_killed) = p.(p_killed)) s.
Proof.
  intros Hf Hp. rw /allocproc. apply wlp_bind, wlp_of_run. intros r s1 Hr.
  rewrite -> Hf in Hr. injection Hr as <- <-.
  apply wlp_bind. eapply wlp_mono; [|apply allocpid_effect]. intros pid s1 [-> ->]. wlp_steps.
  destruct (_ =? 0).
  { apply wlp_bind. apply wlp_of_run. intros. wlp_steps. done. }
  wlp_steps. destruct (_ =? 0).
  { apply wlp_bind. apply wlp_of_run. intros. wlp_steps. done. }
  wlp_steps. intros n [= <-]. rw !list_lookup_alter_eq Hp /=. eauto.
Qed.

(** [kill(0)] succeeds on a free slot and marks it killed, and since
    [allocproc] does not clear [p->killed], the next process created there is
    born killed. *)
Theorem kill_zero_poisons_slot s i p s' :
  s.(held) = [] → (i < NPROC)%nat →
  s.(procs) !! i = Some p → p.(p_pid) = 0 → p.(p_state) = UNUSED →
  (∀ j, (j < i)%nat → ∃ q, s.(procs) !! j = Some q ∧ q.(p_pid) ≠ 0 ∧ q.(p_state) ≠ UNUSED) →
  kill 0 s = Ok (0, s') →
  ∀ n s'', allocproc forkret_pc s' = Ok (Some n, s'') →
    ∃ q, s''.(procs) !! n = Some q ∧ q.(p_killed) = 1.
Proof.
  intros Hh Hi Hp Hpid Hst Hbefore Hk n s'' Ha.
  rewrite (kill_zero_run s i p) in Hk; try done.
  { injection Hk as <-.
    assert (procs (set_procs (alter (set_p_killed 1) i) s) !! i = Some (set_p_killed 1 p)) as Hp'
      by (by rw /= list_lookup_alter_eq Hp).
    refine (wlp_run _ _ _ _ _ (allocproc_keeps_killed _ i _ _ Hp') Ha n eq_refl).
    eapply find_unused_first; try done.
    intros j Hj. destruct (Hbefore j Hj) as (q & Hq & _ & Hne). exists q.
    rw /= list_lookup_alter_ne //. lia. }
  intros j Hj. destruct (Hbefore j Hj) as (q & Hq & Hne & _). eauto.
Qed.

#[local] Arguments Nat.modulo : simpl never.

(** ** The scheduler finds work *)

(** [n] rounds of the scheduler's inner loop, stopping when one picks a
    process. *)
Fixpoint scheduler_rounds (n c : nat) : M (kern (F := F)) (option nat) :=
  match n with
  | O => mret None
  | S n =>
      r ← scheduler c;
      match r with
      | Some i => mret (Some i)
      | None => scheduler_rounds n c
      end
  end.

Lemma scheduler_skip s c cp p :
  s.(held) = [] → s.(cpus) !! c = Some cp → s.(procs) !! cp.(c_next) = Some p → p.(p_state) ≠ RUNNABLE →
  scheduler c s = Ok (None, set_cpus (alter (λ cp, MkCpu cp.(c_proc) (S cp.(c_next) mod NPROC)%nat) c) s).
Proof.
  intros Hh Hc Hp Hst.
  assert (wp (scheduler c) (λ r s', r = None) s) as Hw.
  { destruct s; simpl in *; subst. rw /scheduler /mycpu /acquire /getp /set_cpu /mycpu /release /deref.
    wp_unfold. rw Hc /= Hp. rewrite -> bool_decide_false by done. wp_unfold. rw Hc /=.
    by rewrite -> bool_decide_true by set_solver. }
  apply wp_run in Hw as (r & s' & Hrun & ->). rw Hrun.
  by rewrite (wlp_run _ _ _ _ _ (scheduler_effect _ _ _ Hc) Hrun).
Qed.

Lemma scheduler_hit s c cp p :
  s.(held) = [] → s.(cpus) !! c = Some cp → s.(procs) !! cp.(c_next) = Some p → p.(p_state) = RUNNABLE →
  ∃ s', scheduler c s = Ok (Some cp.(c_next), s') ∧ on_cpu s' c cp.(c_next).
Proof.
  intros Hh Hc Hp Hst.
  assert (wp (scheduler c) (λ r s', r = Some cp.(c_next) ∧ on_cpu s' c cp.(c_next)) s) as Hw.
  { destruct s; simpl in *; subst. rw /scheduler /mycpu /acquire /getp /set_cpu /mycpu /updp /getp /deref.
    wp_unfold. rw Hc /= Hp. rewrite -> bool_decide_true by done. wp_unfold. rw Hp /= Hc.
    split; [done|]. exists (MkCpu (Some cp.(c_next)) cp.(c_next)). by rw /= list_lookup_alter_eq Hc. }
  apply wp_run in Hw as (r & s' & Hrun & -> & ?). eauto.
Qed.

(** C14: liveness and fairness of the scheduler. If some process is RUNNABLE, an
    idle CPU picks one within one pass over the table, and it picks the first
    RUNNABLE one at or after the entry where its loop stands, cyclically. *)
Theorem scheduler_picks_next_runnable s c cp d p :
  s.(held) = [] → length s.(procs) = NPROC → s.(cpus) !! c = Some cp → (cp.(c_next) < NPROC)%nat →
  (d < NPROC)%nat → s.(procs) !! ((cp.(c_next) + d) mod NPROC)%nat = Some p → p.(p_state) = RUNNABLE →
  (∀ e q, (e < d)%nat → s.(procs) !! ((cp.(c_next) + e) mod NPROC)%nat = Some q →
     q.(p_state) ≠ RUNNABLE) →
  ∃ s', scheduler_rounds NPROC c s = Ok (Some ((cp.(c_next) + d) mod NPROC)%nat, s')
    ∧ on_cpu s' c ((cp.(c_next) + d) mod NPROC)%nat.
Proof.
  assert (∀ n s cp d, s.(held) = [] → length s.(procs) = NPROC → s.(cpus) !! c = Some cp →
    (cp.(c_next) < NPROC)%nat → (d < n)%nat →
    s.(procs) !! ((cp.(c_next) + d) mod NPROC)%nat = Some p → p.(p_state) = RUNNABLE →
    (∀ e q, (e < d)%nat → s.(procs) !! ((cp.(c_next) + e) mod NPROC)%nat = Some q →
       q.(p_state) ≠ RUNNABLE) →
    ∃ s', scheduler_rounds n c s = Ok (Some ((cp.(c_next) + d) mod NPROC)%nat, s')
      ∧ on_cpu s' c ((cp.(c_next) + d) mod NPROC)%nat) as Hgen; [|by eauto].
  clear s cp d. induction n as [|n IH]; intros s cp d Hh Hlen Hc Hx Hd Hp Hr Hfirst; [lia|].
  cbn [scheduler_rounds]. destruct d as [|d].
  - rewrite -> Nat.add_0_r, Nat.mod_small in * by done.
    destruct (scheduler_hit s c cp p) as (s' & Hrun & Hon); [done..|].
    exists s'. by rw /mbind /M_bind Hrun.
  - destruct (lookup_lt_is_Some_2 s.(procs) cp.(c_next)) as [q Hq]; [lia|].
    assert (q.(p_state) ≠ RUNNABLE) as Hqn.
    { apply (Hfirst 0%nat q); [lia|]. by rewrite -> Nat.add_0_r, Nat.mod_small. }
    rw /mbind /M_bind (scheduler_skip s c cp q) //.
    assert (∀ e, ((S cp.(c_next) mod NPROC + e) mod NPROC = (cp.(c_next) + S e) mod NPROC)%nat) as Hmod.
    { intros e. rw Nat.Div0.add_mod_idemp_l. f_equal. lia. }
    destruct (IH (set_cpus (alter (λ cp, MkCpu cp.(c_proc) (S cp.(c_next) mod NPROC)%nat) c) s)
      (MkCpu cp.(c_proc) (S cp.(c_next) mod NPROC)%nat) d) as (s' & Hrun & Hon); simpl; rw ?Hmod; try done.
    + by rw list_lookup_alter_eq Hc.
    + apply Nat.mod_upper_bound. done.
    + lia.
    + intros e r He. rw Hmod. apply Hfirst. lia.
    + simpl in *. rewrite -> Hmod in *. eauto.
Qed.

End props.

(** ** A concrete run: boot, fork, wait, exit *)
Module Demo.
#[local] Existing Instance pgtbl_image.

(** A file layer without files: every call succeeds and keeps its state. *)
#[local] Instance no_files : FileLayer unit := {|
  fl_filedup f := mret f; fl_fileclose _ := mret tt; fl_idup i := mret i; fl_iput _ := mret tt;
  fl_begin_op := mret tt; fl_end_op := mret tt; fl_namei _ := mret 1 |}.

Definition pc0 : Z := 0x80001000.
Definition out {S A} (r : res (A * S)) (d : S) : S := match r with Ok (_, s) => s | Err _ => d end.
Definition val {S A} (r : res (A * S)) : option A := match r with Ok (a, _) => Some a | Err _ => None end.
Lemma out_ok {S A} (r : res (A * S)) d a : val r = Some a → r = Ok (a, out r d).
Proof. destruct r as [[a' s]|]; simpl; [by intros [= ->]|done]. Qed.

Definition k0 : kst := out (freerange 0x80100000 0x80120000 (MkKst (λ _, 0) 0)) (MkKst (λ _, 0) 0).
Definition s0 : kern := boot_state k0 tt.
Definition s1 : kern := out ((procinit;; userinit pc0) s0) s0.
Definition s2 : kern := out (scheduler 0 s1) s1.
Definition s3 : kern := out (resume 0 KUser s2) s2.
Definition s4 : kern := out (fork_create pc0 0 s3) s3.
Definition s5 : kern := out (fork_set_parent 0 1 s4) s4.
Definition s6 : kern := out (fork_start 1 s5) s5.
Definition s7 : kern := out (wait_scan 0 0 s6) s6.
Definition s8 : kern := out (scheduler 0 s7) s7.
Definition s9 : kern := out (resume 1 KUser s8) s8.
Definition s10 : kern := out (exit 0 7 s9) s9.

Definition idle_pcs : nat → kpc := λ _, KUser.
Definition pcs3 : nat → kpc := upd idle_pcs 0 KUser.
Definition pcs4 : nat → kpc := upd (upd pcs3 1 KUser) 0 (KFork1 1).
Definition pcs5 : nat → kpc := upd pcs4 0 (KFork2 1).
Definition pcs6 : nat → kpc := upd pcs5 0 KUser.
Definition pcs6' : nat → kpc := upd pcs6 0 (KWait 0).
Definition pcs7 : nat → kpc := upd pcs6' 0 (KWaitSleep 0).
Definition pcs9 : nat → kpc := upd pcs7 1 KUser.

Definition pick (s : kern (F := unit)) (i : nat) : option (procstate * channel * Z * option nat) :=
  (λ p, (p.(p_state), p.(p_chan), p.(p_pid), p.(p_parent))) <$> s.(procs) !! i.

Example demo_wait : pick s7 0 = Some (SLEEPING, ChProc 0, 1, None)
  ∧ pick s7 1 = Some (RUNNABLE, ChNull, 2, Some 0%nat).
Proof. by vm_compute. Qed.
Example demo_exit : pick s10 0 = Some (RUNNABLE, ChProc 0, 1, None)
  ∧ pick s10 1 = Some (ZOMBIE, ChNull, 2, Some 0%nat).
Proof. by vm_compute. Qed.

Lemma run_s1 : initial pc0 (s1, idle_pcs).
Proof. apply (initial_boot _ k0 tt). apply out_ok. by vm_compute. Qed.
Lemma on_init s : nth_error s.(cpus) 0 = Some (MkCpu (Some 0%nat) 0) → on_cpu (F := unit) s 0 0.
Proof. intros H. exists (MkCpu (Some 0%nat) 0). by destruct (cpus s). Qed.

Lemma reach6 : reachable pc0 (s6, pcs6').
Proof.
  exists (s1, idle_pcs). split; [apply run_s1|].
  eapply rtc_l. { apply (step_sched_run _ 0 _ _ 0 s2 KUser s3).
    - exists (MkCpu None 0). by vm_compute.
    - apply out_ok. by vm_compute.
    - apply out_ok. by vm_compute. }
  eapply rtc_l. { apply (step_fork _ 0 0 _ _ 1 2 s4).
    - apply on_init. by vm_compute.
    - done.
    - apply out_ok. by vm_compute. }
  eapply rtc_l. { apply (step_fork_parent _ 0 0 _ _ 1 s5).
    - apply on_init. by vm_compute.
    - done.
    - apply out_ok. by vm_compute. }
  eapply rtc_l. { apply (step_fork_start _ 0 0 _ _ 1 s6).
    - apply on_init. by vm_compute.
    - done.
    - apply out_ok. by vm_compute. }
  apply rtc_once, (step_wait_call _ 0 0 s6 _ 0); [|done]. apply on_init. by vm_compute.
Qed.

Lemma step7 : step pc0 (s6, pcs6') (s7, pcs7).
Proof.
  apply (step_wait_sleep _ 0 0 _ _ 0 s7).
  - apply on_init. by vm_compute.
  - done.
  - apply out_ok. by vm_compute.
Qed.
Lemma reach7 : reachable pc0 (s7, pcs7).
Proof.
  destruct reach6 as (σ & ? & ?). exists σ. split; [done|]. eapply rtc_r; [done|apply step7].
Qed.

Lemma reach10 : reachable pc0 (s10, pcs9).
Proof.
  destruct reach7 as (σ & ? & ?). exists σ. split; [done|]. etrans; [done|].
  eapply rtc_l. { apply (step_sched_run _ 0 _ _ 1 s8 KUser s9).
    - exists (MkCpu None 1). by vm_compute.
    - apply out_ok. by vm_compute.
    - apply out_ok. by vm_compute. }
  apply rtc_once, (step_exit _ 0 1 _ _ 7 s10).
  - exists (MkCpu (Some 1%nat) 1). by vm_compute.
  - done.
  - apply out_ok. by vm_compute.
Qed.

Lemma lookup_of_pick s i st ch pid par : pick s i = Some (st, ch, pid, par) →
  ∃ p, s.(procs) !! i = Some p ∧ p.(p_state) = st ∧ p.(p_chan) = ch ∧ p.(p_pid) = pid ∧ p.(p_parent) = par.
Proof. rw /pick. intros (p & Hp & [= -> -> -> ->])%fmap_Some. eauto 10. Qed.

Definition the_proc (s : kern (F := unit)) (i : nat) : proc := nth i s.(procs) proc0.
Lemma the_proc_lookup s i : (i < length s.(procs))%nat → s.(procs) !! i = Some (the_proc s i).
Proof. intros. destruct (nth_lookup_or_length s.(procs) i proc0); [done|lia]. Qed.

#[local] Opaque s1 s2 s3 s4 s5 s6 s7 s8 s9 s10.

Lemma proc_refines_machine_witness :
  astep (initproc (fst (s6, pcs6'))) (abs (s6, pcs6')) (abs (s7, pcs7)).
Proof. exact (proc_refines_machine pc0 (s6, pcs6') (s7, pcs7) reach6 step7). Defined.

Lemma running_on_one_cpu_witness :
  s10.(procs) !! 1%nat = Some (the_proc s10 1)
  ∧ ((the_proc s10 1).(p_state) = RUNNING ↔ ∃ c, on_cpu s10 c 1)
  ∧ (∀ c1 c2, on_cpu s10 c1 1 → on_cpu s10 c2 1 → c1 = c2).
Proof.
  assert (s10.(procs) !! 1%nat = Some (the_proc s10 1)) as Hp by (apply the_proc_lookup; vm_compute; lia).
  split; [done|]. by apply (running_on_one_cpu pc0 s10 pcs9 1 (the_proc s10 1)); [apply reach10|].
Defined.

Lemma zombies_have_live_parents_witness :
  ∃ j q, (the_proc s10 1).(p_parent) = Some j ∧ s10.(procs) !! j = Some q ∧ active q.(p_state).
Proof.
  apply (zombies_have_live_parents pc0 s10 pcs9 1 (the_proc s10 1));
    [apply reach10|apply the_proc_lookup; vm_compute; lia|by vm_compute].
Defined.


Lemma pids_distinct_witness : 1 ≤ (the_proc s7 0).(p_pid)
  ∧ ((the_proc s7 0).(p_pid) = (the_proc s7 1).(p_pid) → 0%nat = 1%nat).
Proof.
  apply (pids_distinct pc0 s7 pcs7 0 1 (the_proc s7 0) (the_proc s7 1));
    [apply reach7|apply the_proc_lookup; vm_compute; lia|apply the_proc_lookup; vm_compute; lia
    |by vm_compute|by vm_compute].
Defined.

Definition s1k : kern := out (kill 0 s1) s1.
Definition s1a : kern := out (allocproc pc0 s1k) s1k.
Lemma kill_zero_poisons_slot_witness :
  allocproc pc0 s1k = Ok (Some 1%nat, s1a) ∧ ∃ q, s1a.(procs) !! 1%nat = Some q ∧ q.(p_killed) = 1.
Proof.
  assert (allocproc pc0 s1k = Ok (Some 1%nat, s1a)) as Ha by (apply out_ok; by vm_compute).
  split; [done|].
  apply (kill_zero_poisons_slot pc0 s1 1 (the_proc s1 1) s1k); [..|exact Ha].
  - by vm_compute.
  - vm_compute. lia.
  - apply the_proc_lookup; vm_compute; lia.
  - by vm_compute.
  - by vm_compute.
  - intros j Hj. assert (j = 0%nat) as -> by lia. exists (the_proc s1 0).
    split; [apply the_proc_lookup; vm_compute; lia|]. clear Ha. split; vm_compute; discriminate.
  - apply out_ok. by vm_compute.
Defined.

Definition s6r : kern := out (scheduler_rounds NPROC 1 s6) s6.
Lemma scheduler_picks_next_runnable_witness :
  ∃ s', scheduler_rounds NPROC 1 s6 = Ok (Some ((0 + 1) mod NPROC)%nat, s') ∧ on_cpu s' 1 ((0 + 1) mod NPROC)%nat.
Proof.
  apply (scheduler_picks_next_runnable s6 1 (MkCpu None 0) 1 (the_proc s6 1)).
  - by vm_compute.
  - by vm_compute.
  - by vm_compute.
  - vm_compute. lia.
  - vm_compute. lia.
  - change ((c_next (MkCpu None 0) + 1) mod NPROC)%nat with 1%nat.
    apply the_proc_lookup; vm_compute; lia.
  - by vm_compute.
  - intros e q He. assert (e = 0%nat) as -> by lia.
    change ((c_next (MkCpu None 0) + 0) mod NPROC)%nat with 0%nat.
    intros Hq. apply (nth_lookup_Some _ _ proc0) in Hq. rewrite <- Hq. clear Hq. vm_compute. discriminate.
Defined.

End Demo.
End ProcProps.
