(* ===== verification/Bio.v ===== *)
(** * The buffer cache (locks lab, [bio.c] and [buf.h])

    [NBUF] buffers spread over [NBUCKET] hash buckets, each with its own lock;
    a miss takes the global lock and steals the least recently used free
    buffer of all buckets.  A bucket's linked list is the list of the numbers
    of its buffers, first one first.  Spinlocks are tracked: acquiring a lock
    that is held, or releasing one that is not, is an error, so a run that
    succeeds respects the lock discipline.  Waiting for a sleep lock that
    another holder has is the error [Undef "acquiresleep"]: the theorems are
    about calls that do not have to wait. *)

From S2P Require Import Prelude.

(** ** The disk driver

    [virtio_disk_rw(b, 0)] fills the buffer from the disk and
    [virtio_disk_rw(b, 1)] writes it. *)
Class DiskDriver (D : Type) := {
  disk_block : D → Z → Z → list Z;
  virtio_disk_read : Z → Z → M D (list Z);
  virtio_disk_write : Z → Z → list Z → M D unit;
  virtio_read_ok d dev b : virtio_disk_read dev b d = Ok (disk_block d dev b, d);
  virtio_write_ok d dev b data : ∃ d', virtio_disk_write dev b data d = Ok (tt, d')
    ∧ ∀ dev' b', disk_block d' dev' b' =
        if (dev' =? dev) && (b' =? b) then data else disk_block d dev' b';
}.

Module Bio.

Definition NBUF : nat := 30.
Definition NBUCKET : nat := 13.
Definition BUCKET_HASH (dev blockno : Z) : nat := Z.to_nat (blockno mod Z.of_nat NBUCKET).

Record buf := MkBuf {
  b_valid : bool;
  b_dev : Z;
  b_blockno : Z;
  b_locked : bool;       (* the sleep lock *)
  b_refcnt : Z;
  b_data : list Z;
  b_lastuse : Z;
  b_owner : Z;
}.
Definition buf0 : buf := MkBuf false 0 0 false 0 [] 0 0.

Definition set_refcnt (n : Z) (b : buf) : buf :=
  MkBuf b.(b_valid) b.(b_dev) b.(b_blockno) b.(b_locked) n b.(b_data) b.(b_lastuse) b.(b_owner).
Definition set_locked (l : bool) (b : buf) : buf :=
  MkBuf b.(b_valid) b.(b_dev) b.(b_blockno) l b.(b_refcnt) b.(b_data) b.(b_lastuse) b.(b_owner).
Definition set_lastuse (t : Z) (b : buf) : buf :=
  MkBuf b.(b_valid) b.(b_dev) b.(b_blockno) b.(b_locked) b.(b_refcnt) b.(b_data) t b.(b_owner).
Definition set_filled (data : list Z) (b : buf) : buf :=
  MkBuf true b.(b_dev) b.(b_blockno) b.(b_locked) b.(b_refcnt) data b.(b_lastuse) b.(b_owner).
(** [ans->dev = dev; ... ans->owner = index]: the sleep lock, the old data and
    the time stamp stay. *)
Definition recycle (dev blockno index : Z) (b : buf) : buf :=
  MkBuf false dev blockno b.(b_locked) 1 b.(b_data) b.(b_lastuse) index.

Inductive lk := BigLock | BucketLock (i : nat).
#[export] Instance lk_eq_dec : EqDecision lk.
Proof. solve_decision. Defined.

Section bio.
Context {D : Type} {DD : DiskDriver D}.

Record bcache := MkCache {
  bufs : list buf;
  bucket : list (list nat);
  lks : list lk;
  ticks : Z;
  disk : D;
}.

Definition set_bufs (f : list buf → list buf) (s : bcache) : bcache :=
  MkCache (f s.(bufs)) s.(bucket) s.(lks) s.(ticks) s.(disk).
Definition set_bucket (f : list (list nat) → list (list nat)) (s : bcache) : bcache :=
  MkCache s.(bufs) (f s.(bucket)) s.(lks) s.(ticks) s.(disk).
Definition set_lks (l : list lk) (s : bcache) : bcache :=
  MkCache s.(bufs) s.(bucket) l s.(ticks) s.(disk).
Definition set_disk (d : D) (s : bcache) : bcache :=
  MkCache s.(bufs) s.(bucket) s.(lks) s.(ticks) d.

Definition acquire (l : lk) : M bcache unit :=
  h ← gets lks;
  if bool_decide (l ∈ h) then panic "acquire" else modify (set_lks (l :: h)).
Definition release (l : lk) : M bcache unit :=
  h ← gets lks;
  if bool_decide (l ∈ h) then modify (set_lks (filter (λ x, x ≠ l) h)) else panic "release".

Definition getb (i : nat) : M bcache buf := λ s,
  match s.(bufs) !! i with Some b => Ok (b, s) | None => Err (Undef "buf pointer") end.
Definition updb (i : nat) (f : buf → buf) : M bcache unit :=
  getb i;; modify (set_bufs (alter f i)).
Definition getbucket (i : nat) : M bcache (list nat) := λ s,
  match s.(bucket) !! i with Some l => Ok (l, s) | None => Err (Undef "bucket index") end.

Definition acquiresleep (i : nat) : M bcache unit :=
  b ← getb i;
  if b.(b_locked) then undef "acquiresleep" else updb i (set_locked true).
Definition releasesleep (i : nat) : M bcache unit := updb i (set_locked false).
Definition holdingsleep (i : nat) : M bcache bool := b ← getb i; mret b.(b_locked).

(** [binit] on the zeroed [bcache]: empty buckets, then every buffer to the
    front of bucket 0. *)
Definition binit : M bcache unit :=
  for_each (R := unit) (seq 0 NBUCKET) (λ i, modify (set_bucket (alter (λ _, []) i));; mret None);;
  for_each (R := unit) (seq 0 NBUF) (λ i,
    updb i (λ b, MkBuf b.(b_valid) b.(b_dev) b.(b_blockno) false 0 b.(b_data) 0 0);;
    modify (set_bucket (alter (cons i) 0%nat));;
    mret None);;
  mret tt.
(** The [bcache] of a fresh kernel: static storage, all zero. *)
Definition bcache0 (d : D) : bcache :=
  MkCache (replicate NBUF buf0) (replicate NBUCKET []) [] 0 d.

(** [while(b) if(b->dev == dev && b->blockno == blockno) ...]: the first
    buffer of the list for the block. *)
Fixpoint find_block (l : list nat) (dev blockno : Z) : M bcache (option nat) :=
  match l with
  | [] => mret None
  | i :: l =>
      b ← getb i;
      if (b.(b_dev) =? dev) && (b.(b_blockno) =? blockno) then mret (Some i)
      else find_block l dev blockno
  end.

(** The variables of the search for a victim: [before_ans->next] as its place
    in its bucket, [min_lastuse_time], and [owner] ([None] is -1). *)
Record search := MkSearch { before_ans : option (nat * nat); min_lastuse : Z; owner : option nat }.

(** [while(b->next)]: walks bucket [i] from position [k]; the flag tells
    whether a better victim was found in it. *)
Fixpoint scan_bucket (i k : nat) (l : list nat) (st : search) (flag : bool) : M bcache (search * bool) :=
  match l with
  | [] => mret (st, flag)
  | j :: l =>
      b ← getb j;
      if (b.(b_refcnt) =? 0) && bool_decide (st.(before_ans) = None) then
        scan_bucket i (S k) l (MkSearch (Some (i, k)) b.(b_lastuse) st.(owner)) true
      else if (b.(b_refcnt) =? 0) && (b.(b_lastuse) <? st.(min_lastuse)) then
        scan_bucket i (S k) l (MkSearch (Some (i, k)) b.(b_lastuse) st.(owner)) true
      else scan_bucket i (S k) l st flag
  end.

(** The loop over the buckets: it keeps the lock of the bucket that holds the
    best victim so far. *)
Definition find_victim : M bcache search :=
  x ← for_acc (R := Empty_set) (seq 0 NBUCKET) (MkSearch None 0xffffffff None) (λ i st,
    acquire (BucketLock i);;
    l ← getbucket i;
    '(st, flag) ← scan_bucket i 0 l st false;
    if (flag : bool) then
      (match st.(owner) with Some o => release (BucketLock o) | None => mret tt end);;
      mret (inl (MkSearch st.(before_ans) st.(min_lastuse) (Some i)))
    else
      release (BucketLock i);;
      mret (inl st));
  match x with inl st => mret st | inr r => match (r : Empty_set) with end end.

Definition bget (dev blockno : Z) : M bcache nat :=
  let index := BUCKET_HASH dev blockno in
  acquire (BucketLock index);;
  l ← getbucket index;
  r ← find_block l dev blockno;
  match r with
  | Some b =>
      updb b (λ b, set_refcnt (u32 (b.(b_refcnt) + 1)) b);;
      release (BucketLock index);;
      acquiresleep b;;
      mret b
  | None =>
      release (BucketLock index);;
      acquire BigLock;;
      l ← getbucket index;
      r ← find_block l dev blockno;
      match r with
      | Some b =>
          acquire (BucketLock index);;
          updb b (λ b, set_refcnt (u32 (b.(b_refcnt) + 1)) b);;
          release (BucketLock index);;
          release BigLock;;
          acquiresleep b;;
          mret b
      | None =>
          st ← find_victim;
          match st.(before_ans), st.(owner) with
          | Some (o, k), Some own =>
              lo ← getbucket o;
              match lo !! k with
              | None => undef "before_ans->next"
              | Some ans =>
                  (if bool_decide (own ≠ index) then
                     modify (set_bucket (alter (delete k) o));;
                     release (BucketLock own);;
                     acquire (BucketLock index);;
                     modify (set_bucket (alter (cons ans) index))
                   else mret tt);;
                  updb ans (recycle dev blockno (Z.of_nat index));;
                  release (BucketLock index);;
                  release BigLock;;
                  acquiresleep ans;;
                  mret ans
              end
          | _, _ => panic "bget: No buffer."
          end
      end
  end.

Definition bread (dev blockno : Z) : M bcache nat :=
  i ← bget dev blockno;
  b ← getb i;
  when (negb b.(b_valid))
    (data ← lift disk set_disk (virtio_disk_read b.(b_dev) b.(b_blockno));
     updb i (set_filled data));;
  mret i.

Definition bwrite (i : nat) : M bcache unit :=
  h ← holdingsleep i;
  if negb h then panic "bwrite" else
  b ← getb i;
  lift disk set_disk (virtio_disk_write b.(b_dev) b.(b_blockno) b.(b_data)).

Definition brelse (i : nat) : M bcache unit :=
  h ← holdingsleep i;
  if negb h then panic "brelse" else
  releasesleep i;;
  b ← getb i;
  let index := BUCKET_HASH b.(b_dev) b.(b_blockno) in
  acquire (BucketLock index);;
  updb i (λ b, set_refcnt (u32 (b.(b_refcnt) - 1)) b);;
  b ← getb i;
  when (b.(b_refcnt) =? 0) (t ← gets ticks; updb i (set_lastuse t));;
  release (BucketLock index).

Definition bpin (i : nat) : M bcache unit :=
  b ← getb i;
  let index := BUCKET_HASH b.(b_dev) b.(b_blockno) in
  acquire (BucketLock index);;
  updb i (λ b, set_refcnt (u32 (b.(b_refcnt) + 1)) b);;
  release (BucketLock index).

Definition bunpin (i : nat) : M bcache unit :=
  b ← getb i;
  let index := BUCKET_HASH b.(b_dev) b.(b_blockno) in
  acquire (BucketLock index);;
  updb i (λ b, set_refcnt (u32 (b.(b_refcnt) - 1)) b);;
  release (BucketLock index).

End bio.
End Bio.
