(* ===== verification/BioProps.v ===== *)
(** * The buffer cache: invariant and contract ([bio.c])

    The invariant says that the buckets partition the buffers by hash, that no
    block has two buffers, and that a free valid buffer agrees with the disk.
    Against it, [bget], [bread], [bwrite] and [brelse] implement an array of
    blocks: what [bread] returns is the current contents of the block, and
    recycling a buffer loses nothing. *)

From S2P Require Import Prelude Bio.
Import Bio.

Module BioProps.

Section props.
Context {D : Type} {DD : DiskDriver D}.
Implicit Types (s : bcache (D := D)).

Record BInv (s : bcache (D := D)) : Prop := {
  bi_nbuf : length s.(bufs) = NBUF;
  bi_nbucket : length s.(bucket) = NBUCKET;
  bi_in k l i : s.(bucket) !! k = Some l → i ∈ l → (i < NBUF)%nat;
  bi_cover i : (i < NBUF)%nat → ∃ k l, s.(bucket) !! k = Some l ∧ i ∈ l;
  bi_nodup k l : s.(bucket) !! k = Some l → NoDup l;
  bi_hash k l i b : s.(bucket) !! k = Some l → i ∈ l → s.(bufs) !! i = Some b →
    BUCKET_HASH b.(b_dev) b.(b_blockno) = k;
  bi_uniq i j b c : s.(bufs) !! i = Some b → s.(bufs) !! j = Some c →
    b.(b_dev) = c.(b_dev) → b.(b_blockno) = c.(b_blockno) → b.(b_dev) ≠ 0 → i = j;
  bi_locked i b : s.(bufs) !! i = Some b → b.(b_locked) = true → b.(b_refcnt) ≠ 0;
  bi_ref i b : s.(bufs) !! i = Some b → 0 ≤ b.(b_refcnt);
  bi_clean i b : s.(bufs) !! i = Some b → b.(b_refcnt) = 0 → b.(b_valid) = true →
    b.(b_data) = disk_block s.(disk) b.(b_dev) b.(b_blockno);
}.

(** The current contents of a block: those of its buffer if it has a valid one,
    else the disk's. *)
Definition caches (dev bno : Z) (b : buf) : bool :=
  b.(b_valid) && (b.(b_dev) =? dev) && (b.(b_blockno) =? bno).
Definition contents s (dev bno : Z) : list Z :=
  match filter (λ b, caches dev bno b = true) s.(bufs) with
  | b :: _ => b.(b_data)
  | [] => disk_block s.(disk) dev bno
  end.

(** ** Rules for the primitives *)
Lemma wp_acquire l (Q : unit → bcache → Prop) s :
  l ∉ s.(lks) → Q tt (set_lks (l :: s.(lks)) s) → wp (acquire l) Q s.
Proof. intros Hl HQ. rw /wp /acquire. wp_unfold. by rewrite -> bool_decide_false. Qed.
Lemma wp_release l (Q : unit → bcache → Prop) s :
  l ∈ s.(lks) → Q tt (set_lks (filter (λ x, x ≠ l) s.(lks)) s) → wp (release l) Q s.
Proof. intros Hl HQ. rw /wp /release. wp_unfold. by rewrite -> bool_decide_true. Qed.
Lemma wp_getb i b (Q : buf → bcache → Prop) s :
  s.(bufs) !! i = Some b → Q b s → wp (getb i) Q s.
Proof. intros Hb HQ. by rw /wp /getb Hb. Qed.
Lemma wp_updb i b f (Q : unit → bcache → Prop) s :
  s.(bufs) !! i = Some b → Q tt (set_bufs (alter f i) s) → wp (updb i f) Q s.
Proof. intros Hb HQ. apply wp_bind. by eapply wp_getb. Qed.
Lemma wp_getbucket k l (Q : list nat → bcache → Prop) s :
  s.(bucket) !! k = Some l → Q l s → wp (getbucket k) Q s.
Proof. intros Hb HQ. by rw /wp /getbucket Hb. Qed.

Lemma filter_lk (l : lk) h : l ∉ h → filter (λ x, x ≠ l) (l :: h) = h.
Proof.
  intros Hl. rw filter_cons_False; [|by intros []].
  induction h as [|x h IH]; [done|].
  rw filter_cons_True; [|set_solver]. rw IH; [done|set_solver].
Qed.

(** ** The searches *)
Lemma find_block_spec l dev bno s :
  (∀ i, i ∈ l → is_Some (s.(bufs) !! i)) →
  wp (find_block l dev bno) (λ r s', s' = s ∧ match r with
    | Some i => i ∈ l ∧ ∃ b, s.(bufs) !! i = Some b ∧ b.(b_dev) = dev ∧ b.(b_blockno) = bno
    | None => ∀ i b, i ∈ l → s.(bufs) !! i = Some b → ¬ (b.(b_dev) = dev ∧ b.(b_blockno) = bno)
    end) s.
Proof.
  induction l as [|i l IH]; intros Hl; simpl.
  - apply wp_ret. split; [done|]. set_solver.
  - destruct (Hl i) as [b Hb]; [set_solver|]. apply wp_bind. eapply wp_getb; [done|].
    destruct (Z.eqb_spec b.(b_dev) dev), (Z.eqb_spec b.(b_blockno) bno); simpl.
    { apply wp_ret. split; [done|]. split; [set_solver|]. eauto. }
    all: eapply wp_mono; [|apply IH; intros; apply Hl; set_solver].
    all: intros [j|] s' [-> H]; (split; [done|]);
      [destruct H as [? H]; split; [set_solver|done]|].
    all: intros j c [->|Hj]%elem_of_cons Hc; [|by eapply H].
    all: simplify_eq; tauto.
Qed.

(** The victim chosen so far, having seen the buffers [seen]. *)
Definition best s (seen : list nat) (st : search) : Prop :=
  match st.(before_ans) with
  | None => ∀ i b, i ∈ seen → s.(bufs) !! i = Some b → b.(b_refcnt) ≠ 0
  | Some (o, k) => ∃ l j b, s.(bucket) !! o = Some l ∧ l !! k = Some j ∧ s.(bufs) !! j = Some b
      ∧ b.(b_refcnt) = 0 ∧ b.(b_lastuse) = st.(min_lastuse)
      ∧ ∀ i c, i ∈ seen → s.(bufs) !! i = Some c → c.(b_refcnt) = 0 → st.(min_lastuse) ≤ c.(b_lastuse)
  end.

Lemma scan_bucket_spec i k l0 l seen st flag s :
  s.(bucket) !! i = Some (l0 ++ l) → k = length l0 →
  (∀ j, j ∈ l → is_Some (s.(bufs) !! j)) →
  best s seen st → (flag = true → ∃ k', st.(before_ans) = Some (i, k')) →
  wp (scan_bucket i k l st flag) (λ r s', s' = s ∧ best s (seen ++ l) (fst r)
    ∧ (fst r).(owner) = st.(owner)
    ∧ (snd r = true → ∃ k', (fst r).(before_ans) = Some (i, k'))
    ∧ (snd r = false → fst r = st ∧ flag = false)) s.
Proof.
  revert k l0 seen st flag. induction l as [|j l IH]; intros k l0 seen st flag Hb Hk Hl Hbest Hflag; simpl.
  - apply wp_ret. simpl. rw app_nil_r. naive_solver.
  - destruct (Hl j) as [b Hj]; [set_solver|]. apply wp_bind. eapply wp_getb; [done|].
    assert (∀ st' flag', best s (seen ++ [j]) st' → st'.(owner) = st.(owner) →
      (flag' = true → ∃ k', st'.(before_ans) = Some (i, k')) →
      (flag' = false → st' = st ∧ flag = false) →
      wp (scan_bucket i (S k) l st' flag') (λ r s', s' = s ∧ best s (seen ++ j :: l) (fst r)
        ∧ (fst r).(owner) = st.(owner)
        ∧ (snd r = true → ∃ k', (fst r).(before_ans) = Some (i, k'))
        ∧ (snd r = false → fst r = st ∧ flag = false)) s) as Hgo.
    { intros st' flag' Hb' Ho Hf Hf'. eapply wp_mono; [|apply (IH _ (l0 ++ [j]) (seen ++ [j]))].
      - intros [st'' fl] s' (-> & Hbest' & Ho' & Ht & Hfa). rw -app_assoc /= in Hbest'.
        simpl in *. split_and!; [done|done|congruence|done|].
        intros ->. destruct (Hfa eq_refl) as [-> Hx]. by apply Hf'.
      - by rw -app_assoc.
      - rw length_app /=. lia.
      - intros; apply Hl; set_solver.
      - done.
      - done. }
    assert (b.(b_refcnt) = 0 → (st.(before_ans) = None ∨ b.(b_lastuse) < st.(min_lastuse)) →
      best s (seen ++ [j]) (MkSearch (Some (i, k)) b.(b_lastuse) st.(owner))) as Hnew.
    { intros Hr Hor. exists (l0 ++ j :: l), j, b. split_and!; try done.
      { rewrite -> lookup_app_r by lia. by replace (k - length l0)%nat with 0%nat by lia. }
      intros i' c [Hi'|Hi'%list_elem_of_singleton]%elem_of_app Hc Hrc; simpl; [|simplify_eq; lia].
      rw /best in Hbest. destruct Hor as [E|Hlt].
      - rewrite -> E in Hbest. by destruct (Hbest i' c Hi' Hc).
      - destruct (before_ans st) as [[o k']|]; [|by destruct (Hbest i' c Hi' Hc)].
        destruct Hbest as (? & ? & ? & _ & _ & _ & _ & _ & Hmin). specialize (Hmin _ _ Hi' Hc Hrc). lia. }
    destruct (Z.eqb_spec b.(b_refcnt) 0) as [Hr|Hr]; simpl; [|].
    + case_bool_decide as Hn.
      { apply Hgo; [by apply Hnew; [|left]|done|by eauto|done]. }
      destruct (Z.ltb_spec b.(b_lastuse) st.(min_lastuse)) as [Hlt|Hge].
      { apply Hgo; [by apply Hnew; [|right]|done|by eauto|done]. }
      apply Hgo; [|done|done|done]. rw /best in Hbest *. destruct (before_ans st) as [[o k']|]; [|done].
      destruct Hbest as (lo & jo & bo & H1 & H2 & H3 & H4 & H5 & Hmin). exists lo, jo, bo.
      split_and!; try done. intros i' c [Hi'|Hi'%list_elem_of_singleton]%elem_of_app Hc Hrc; [by eauto|].
      simplify_eq. lia.
    + apply Hgo; [|done|done|done]. rw /best in Hbest *. destruct (before_ans st) as [[o k']|].
      * destruct Hbest as (lo & jo & bo & H1 & H2 & H3 & H4 & H5 & Hmin). exists lo, jo, bo.
        split_and!; try done. intros i' c [Hi'|Hi'%list_elem_of_singleton]%elem_of_app Hc Hrc; [by eauto|].
        simplify_eq.
      * intros i' c [Hi'|Hi'%list_elem_of_singleton]%elem_of_app Hc; [by eauto|]. by simplify_eq.
Qed.

Lemma best_lks s seen st l : best s seen st ↔ best (set_lks l s) seen st.
Proof. done. Qed.

(** The locks held while the search runs: the global one, and the lock of the
    best victim's bucket. *)
Definition search_locks (st : search) : list lk :=
  match st.(owner) with Some o => [BucketLock o; BigLock] | None => [BigLock] end.
Definition owner_ok (st : search) : Prop :=
  match st.(before_ans) with Some (o, _) => st.(owner) = Some o | None => st.(owner) = None end.

Lemma find_victim_spec s :
  BInv s → s.(lks) = [BigLock] →
  wp find_victim (λ st s', s' = set_lks (search_locks st) s ∧ owner_ok st
    ∧ best s (concat s.(bucket)) st) s.
Proof.
  intros HI Hl. apply wp_bind.
  eapply wp_mono; [|apply (wp_for_acc (λ dn st s', s' = set_lks (search_locks st) s ∧ owner_ok st
    ∧ (∀ o, st.(owner) = Some o → o ∈ dn)
    ∧ best s (concat (take (length dn) s.(bucket))) st) (λ _ _, False))].
  - intros [st|[]] s'. intros (-> & Ho & _ & Hb). apply wp_ret. split_and!; try done.
    rewrite -> length_seq, take_ge in Hb; [done|]. rw (bi_nbucket _ HI). done.
  - split_and!; try done; [rw /search_locks /= -Hl; by destruct s|].
    intros i b []%elem_of_nil.
  - intros dn i td st s' Heq (-> & Hown & Hin & Hbest).
    apply seq_prefix in Heq as (Hlt & Hi & Hdn).
    destruct (lookup_lt_is_Some_2 s.(bucket) i) as [l Hbk]; [by rw (bi_nbucket _ HI)|].
    assert (BucketLock i ∉ search_locks st) as Hni.
    { rw /search_locks. destruct (owner st) as [o|] eqn:E; [|set_solver].
      specialize (Hin o eq_refl). rw Hdn elem_of_seq in Hin. intros [?|?]%elem_of_cons; [simplify_eq; lia|set_solver]. }
    assert (concat (take (length (dn ++ [i])) (bucket s)) = concat (take (length dn) (bucket s)) ++ l) as Hcat.
    { rw length_app /= Nat.add_1_r (take_S_r _ _ l) -?Hi // concat_app /= app_nil_r //. }
    apply wp_bind, wp_acquire; [done|]. apply wp_bind. eapply wp_getbucket; [done|].
    apply wp_bind.
    eapply wp_mono; [|apply (scan_bucket_spec i 0 [] l (concat (take (length dn) (bucket s)))); try done].
    + intros [st' flag] s' (-> & Hbest' & Ho' & Ht & Hf). simpl in *.
      rw -best_lks in Hbest'. destruct flag.
      * destruct (Ht eq_refl) as [k' Hk']. apply wp_bind. rw Ho'.
        destruct (owner st) as [o|] eqn:E.
        -- apply wp_release; [rw /= /search_locks E; set_solver|]. apply wp_ret.
           rw Hcat. split_and!; [|by rw /owner_ok /= Hk'|set_solver|done].
           rw /search_locks /= E. rewrite -> filter_cons_True, filter_lk; [done|set_solver|].
           intros [= ->]. apply Hni. rw /search_locks E. set_solver.
        -- apply wp_ret, wp_ret. rw Hcat. split_and!; [|by rw /owner_ok /= Hk'|set_solver|done].
           by rw /search_locks /= E.
      * destruct (Hf eq_refl) as [-> _]. apply wp_bind, wp_release; [set_solver|]. apply wp_ret.
        rw Hcat. split_and!; [|done|set_solver|done]. rw /= filter_lk //.
    + intros j Hj. apply lookup_lt_is_Some. rw /= (bi_nbuf _ HI). by eapply (bi_in _ HI).
Qed.

(** ** How updates keep the invariant *)

Lemma binv_lks l s : BInv s → BInv (set_lks l s).
Proof. by intros []. Qed.

(** One buffer changes and keeps its block. *)
Lemma binv_alter s i f b :
  BInv s → s.(bufs) !! i = Some b →
  (f b).(b_dev) = b.(b_dev) → (f b).(b_blockno) = b.(b_blockno) → 0 ≤ (f b).(b_refcnt) →
  ((f b).(b_locked) = true → (f b).(b_refcnt) ≠ 0) →
  ((f b).(b_refcnt) = 0 → (f b).(b_valid) = true →
     (f b).(b_data) = disk_block s.(disk) b.(b_dev) b.(b_blockno)) →
  BInv (set_bufs (alter f i) s).
Proof.
  intros HI Hb Hd Hn Hr Hlk Hcl. destruct HI as [H1 H2 H3 H4 H5 H6 H7 H8 H9 H10].
  assert (∀ j c, alter f i (bufs s) !! j = Some c → ∃ c0, bufs s !! j = Some c0
    ∧ c.(b_dev) = c0.(b_dev) ∧ c.(b_blockno) = c0.(b_blockno)) as Hkey.
  { intros j c [(<- & y & Hy & ->)|[_ ?]]%lookup_alter_inv; [|by eauto].
    simplify_eq. eauto. }
  split; simpl; try done.
  - by rw length_alter.
  - intros k l j c Hk Hj (c0 & Hc0 & -> & ->)%Hkey. eauto.
  - intros j k c e (c0 & Hc0 & -> & ->)%Hkey (e0 & He0 & -> & ->)%Hkey. eauto.
  - intros j c [(<- & y & Hy & ->)|[_ ?]]%lookup_alter_inv; [simplify_eq; done|by eauto].
  - intros j c [(<- & y & Hy & ->)|[_ ?]]%lookup_alter_inv; [simplify_eq; done|by eauto].
  - intros j c [(<- & y & Hy & ->)|[_ ?]]%lookup_alter_inv; [|by eauto].
    simplify_eq. rw Hd Hn. done.
Qed.

Lemma elem_of_delete_nodup (l : list nat) k x i :
  NoDup l → l !! k = Some x → i ∈ delete k l ↔ i ∈ l ∧ i ≠ x.
Proof.
  intros Hnd Hk. apply delete_Permutation in Hk as Hp.
  rewrite -> Hp in Hnd. apply NoDup_cons in Hnd as [Hx Hnd].
  rewrite -> (elem_of_Permutation_proper i _ _ Hp), elem_of_cons. set_solver.
Qed.

(** The buckets after [x] moved from place [k] of bucket [o] to the front of
    bucket [n]. *)
Lemma moved_cases (B : list (list nat)) o k x n lo :
  B !! o = Some lo → o ≠ n →
  ∀ j l, alter (cons x) n (alter (delete k) o B) !! j = Some l →
    (j = n ∧ ∃ ln, B !! n = Some ln ∧ l = x :: ln) ∨ (j = o ∧ l = delete k lo)
    ∨ (j ≠ n ∧ j ≠ o ∧ B !! j = Some l).
Proof.
  intros Ho Hon j l [(<- & y & Hy & ->)|[Hnj Hl]]%lookup_alter_inv.
  - rw list_lookup_alter_ne // in Hy. left. eauto.
  - apply lookup_alter_inv in Hl as [(<- & y & Hy & ->)|[? ?]]; simplify_eq; auto.
Qed.

Lemma hash_lt dev bno : (BUCKET_HASH dev bno < NBUCKET)%nat.
Proof. rw /BUCKET_HASH /NBUCKET. lia. Qed.

Definition moved (s : bcache (D := D)) (o k x n : nat) : bcache :=
  if decide (o = n) then s else set_bucket (λ B, alter (cons x) n (alter (delete k) o B)) s.

(** The buckets still partition the buffers after a move. *)
Lemma moved_partition s o k lo x n :
  BInv s → s.(bucket) !! o = Some lo → lo !! k = Some x → (n < NBUCKET)%nat →
  let B := (moved s o k x n).(bucket) in
  length B = NBUCKET
  ∧ (∀ j l i, B !! j = Some l → i ∈ l → (i < NBUF)%nat ∧ (i = x → j = n)
       ∧ (i ≠ x → ∃ l0, s.(bucket) !! j = Some l0 ∧ i ∈ l0))
  ∧ (∀ i, (i < NBUF)%nat → ∃ j l, B !! j = Some l ∧ i ∈ l)
  ∧ (∀ j l, B !! j = Some l → NoDup l).
Proof.
  intros HI Ho Hk Hn. assert (x ∈ lo) as Hxlo by (by eapply list_elem_of_lookup_2).
  assert (x < NBUF)%nat as Hx by (by eapply (bi_in _ HI)).
  destruct (lookup_lt_is_Some_2 s.(bufs) x) as [b Hb]; [by rw (bi_nbuf _ HI)|].
  rw /moved. destruct (decide (o = n)) as [->|Hon]; simpl.
  { split_and!; [apply HI| | |apply HI].
    - intros j l i Hj Hi. split_and!; [by eapply (bi_in _ HI)| |by eauto].
      intros ->. by rw -(bi_hash _ HI _ _ _ _ Hj Hi Hb) -(bi_hash _ HI _ _ _ _ Ho Hxlo Hb).
    - apply HI. }
  pose proof (bi_nodup _ HI _ _ Ho) as Hndo.
  split_and!.
  - rw !length_alter. apply HI.
  - intros j l i Hj Hi. destruct (moved_cases _ _ _ _ _ _ Ho Hon _ _ Hj) as [(-> & ln & Hln & ->)|[[-> ->]|(? & ? & Hj')]].
    + apply elem_of_cons in Hi as [->|Hi]; [done|]. split_and!; [by eapply (bi_in _ HI)|done|by eauto].
    + apply (elem_of_delete_nodup lo k x) in Hi as [Hi Hix]; [|done..].
      split_and!; [by eapply (bi_in _ HI)|done|by eauto].
    + split_and!; [by eapply (bi_in _ HI)| |by eauto]. intros ->. exfalso.
      rewrite <- (bi_hash _ HI _ _ _ _ Hj' Hi Hb) in *.
      by rewrite (bi_hash _ HI _ _ _ _ Ho Hxlo Hb) in H0.
  - intros i Hi. destruct (decide (i = x)) as [->|Hix].
    + destruct (lookup_lt_is_Some_2 s.(bucket) n) as [ln Hln]; [by rw (bi_nbucket _ HI)|].
      exists n, (x :: ln). rw list_lookup_alter_eq list_lookup_alter_ne // Hln. set_solver.
    + destruct (bi_cover _ HI i Hi) as (j & l & Hj & Hil). exists j.
      destruct (decide (j = n)) as [->|Hjn]; [|destruct (decide (j = o)) as [->|Hjo]].
      * exists (x :: l). rw list_lookup_alter_eq list_lookup_alter_ne // Hj. set_solver.
      * simplify_eq. exists (delete k lo). rw list_lookup_alter_ne // list_lookup_alter_eq Ho.
        split; [done|]. by apply (elem_of_delete_nodup lo k x).
      * exists l. rw !list_lookup_alter_ne //.
  - intros j l Hj. destruct (moved_cases _ _ _ _ _ _ Ho Hon _ _ Hj) as [(-> & ln & Hln & ->)|[[-> ->]|(? & ? & Hj')]].
    + apply NoDup_cons. split; [|by eapply (bi_nodup _ HI)]. intros Hin. apply Hon.
      by rw -(bi_hash _ HI _ _ _ _ Hln Hin Hb) -(bi_hash _ HI _ _ _ _ Ho Hxlo Hb).
    + apply delete_Permutation in Hk. rewrite -> Hk in Hndo. by apply NoDup_cons in Hndo as [_ ?].
    + by eapply (bi_nodup _ HI).
Qed.

Lemma binv_recycle s o k lo x b dev bno :
  BInv s → s.(bucket) !! o = Some lo → lo !! k = Some x → s.(bufs) !! x = Some b →
  (∀ j c, s.(bufs) !! j = Some c → ¬ (c.(b_dev) = dev ∧ c.(b_blockno) = bno)) →
  BInv (set_bufs (alter (set_locked true ∘ recycle dev bno (Z.of_nat (BUCKET_HASH dev bno))) x)
         (moved s o k x (BUCKET_HASH dev bno))).
Proof.
  intros HI Ho Hk Hb Hno.
  destruct (moved_partition s o k lo x (BUCKET_HASH dev bno) HI Ho Hk (hash_lt _ _)) as (P1 & P2 & P3 & P4).
  assert (bufs (moved s o k x (BUCKET_HASH dev bno)) = bufs s
    ∧ disk (moved s o k x (BUCKET_HASH dev bno)) = disk s) as [E1 E2] by (rw /moved; by case_decide).
  destruct HI as [H1 H2 H3 H4 H5 H6 H7 H8 H9 H10].
  split; simpl; rw ?E1 ?E2; try done.
  - by rw length_alter.
  - intros j l i Hj Hi. by eapply P2.
  - intros j l i c Hj Hi [(<- & y & Hy & ->)|[Hne Hc]]%lookup_alter_inv; simpl.
    + symmetry. by apply (P2 j l x).
    + destruct (P2 j l i Hj Hi) as (_ & _ & Hl0). destruct Hl0 as (l0 & ? & ?); [done|]. eauto.
  - intros i j c e [(<- & y & Hy & ->)|[Hne Hc]]%lookup_alter_inv
      [(<- & z & Hz & ->)|[Hne' He]]%lookup_alter_inv; simpl; try done.
    + intros Hd Hn _. by destruct (Hno j e He).
    + intros Hd Hn _. by destruct (Hno i c Hc).
    + eauto.
  - intros i c [(<- & y & Hy & ->)|[Hne Hc]]%lookup_alter_inv; simpl; [done|by eauto].
  - intros i c [(<- & y & Hy & ->)|[Hne Hc]]%lookup_alter_inv; simpl; [lia|by eauto].
  - intros i c [(<- & y & Hy & ->)|[Hne Hc]]%lookup_alter_inv; simpl; [done|by eauto].
Qed.

(** ** [bget] *)

Definition has_block (dev bno : Z) (b : buf) : Prop := b.(b_dev) = dev ∧ b.(b_blockno) = bno.
Definition uncached s (dev bno : Z) : Prop := ∀ j c, s.(bufs) !! j = Some c → ¬ has_block dev bno c.

(** A call that need not wait: the block's buffer is not locked, or the block
    has no buffer and some buffer is free. *)
Definition ready s (dev bno : Z) : Prop :=
  (∃ i b, s.(bufs) !! i = Some b ∧ has_block dev bno b ∧ b.(b_locked) = false
     ∧ b.(b_refcnt) < 2 ^ 32 - 1)
  ∨ (uncached s dev bno ∧ ∃ i b, s.(bufs) !! i = Some b ∧ b.(b_refcnt) = 0).

(** The two ways [bget] gets its buffer. *)
Definition hit_update (b : buf) : buf := set_locked true (set_refcnt (b.(b_refcnt) + 1) b).
Definition miss_update (dev bno : Z) (b : buf) : buf :=
  set_locked true (recycle dev bno (Z.of_nat (BUCKET_HASH dev bno)) b).
Definition is_lru s (b : buf) : Prop :=
  b.(b_refcnt) = 0 ∧ ∀ j c, s.(bufs) !! j = Some c → c.(b_refcnt) = 0 → b.(b_lastuse) ≤ c.(b_lastuse).

Definition bget_post s (dev bno : Z) (i : nat) s' : Prop :=
  BInv s' ∧ s'.(lks) = [] ∧ s'.(ticks) = s.(ticks) ∧ s'.(disk) = s.(disk)
  ∧ ∃ b, s.(bufs) !! i = Some b
     ∧ ((has_block dev bno b ∧ (b.(b_locked) = false ∧ b.(b_refcnt) < 2 ^ 32 - 1)
           ∧ s'.(bufs) = alter hit_update i s.(bufs))
        ∨ (uncached s dev bno ∧ is_lru s b ∧ s'.(bufs) = alter (miss_update dev bno) i s.(bufs))).

Lemma alter_comp {A} (f g : A → A) (i : nat) (l : list A) : alter f i (alter g i l) = alter (f ∘ g) i l.
Proof.
  apply list_eq. intros j. destruct (decide (i = j)) as [->|].
  - rw !list_lookup_alter_eq. by destruct (l !! j).
  - by rw !list_lookup_alter_ne.
Qed.

Lemma elem_of_buckets s i : BInv s → (i < length s.(bufs))%nat → i ∈ concat s.(bucket).
Proof.
  intros HI Hi. rw (bi_nbuf _ HI) in Hi. destruct (bi_cover _ HI i Hi) as (k & l & Hk & Hil).
  apply list_elem_of_In, in_concat. exists l. split; apply list_elem_of_In; [|done].
  by eapply list_elem_of_lookup_2.
Qed.

Lemma hash_bucket s dev bno : BInv s → is_Some (s.(bucket) !! BUCKET_HASH dev bno).
Proof. intros HI. apply lookup_lt_is_Some. rw (bi_nbucket _ HI). apply hash_lt. Qed.

(** A search of the block's own bucket is a search of the whole cache. *)
Lemma bucket_complete s l dev bno :
  BInv s → s.(bucket) !! BUCKET_HASH dev bno = Some l →
  (∀ i b, i ∈ l → s.(bufs) !! i = Some b → ¬ has_block dev bno b) → uncached s dev bno.
Proof.
  intros HI Hl Hno i b Hb [Hd Hn]. assert (i < NBUF)%nat as Hi.
  { rw -(bi_nbuf _ HI). by eapply lookup_lt_Some. }
  destruct (bi_cover _ HI i Hi) as (k & l' & Hk & Hil).
  pose proof (bi_hash _ HI _ _ _ _ Hk Hil Hb) as Hh. rewrite -> Hd, Hn in Hh. simplify_eq.
  by apply (Hno i b Hil Hb).
Qed.

Lemma wp_acquiresleep i b (Q : unit → bcache → Prop) s :
  s.(bufs) !! i = Some b → b.(b_locked) = false → Q tt (set_bufs (alter (set_locked true) i) s) →
  wp (acquiresleep i) Q s.
Proof.
  intros Hb Hl HQ. apply wp_bind. eapply wp_getb; [done|]. rw Hl. by eapply wp_updb.
Qed.

(** The tail of both hits: count the reference and take the sleep lock. *)
Lemma hit_inv s i b :
  BInv s → s.(bufs) !! i = Some b → b.(b_locked) = false → b.(b_refcnt) < 2 ^ 32 - 1 →
  BInv (set_bufs (alter hit_update i) s).
Proof.
  intros HI Hb Hl Hr. pose proof (bi_ref _ HI _ _ Hb).
  eapply binv_alter; [done|done|..]; simpl; try done; try lia.
Qed.

Lemma binv_ext s s' :
  s'.(bufs) = s.(bufs) → s'.(bucket) = s.(bucket) → s'.(disk) = s.(disk) → BInv s → BInv s'.
Proof. intros E1 E2 E3 []. split; rw ?E1 ?E2 ?E3; done. Qed.

Lemma alter_ext_at {A} (f g : A → A) (i : nat) (l : list A) x :
  l !! i = Some x → f x = g x → alter f i l = alter g i l.
Proof.
  intros Hx Hfg. apply list_eq. intros j. destruct (decide (i = j)) as [->|].
  - rw !list_lookup_alter_eq Hx /=. by f_equal.
  - by rw !list_lookup_alter_ne.
Qed.

Lemma bget_spec s dev bno :
  BInv s → s.(lks) = [] → dev ≠ 0 → ready s dev bno →
  wp (bget dev bno) (λ i s', bget_post s dev bno i s') s.
Proof.
  intros HI Hl Hdev Hready.
  assert (∀ l, s.(bucket) !! BUCKET_HASH dev bno = Some l → ∀ i, i ∈ l → is_Some (s.(bufs) !! i)) as Hin.
  { intros l Hbk i Hi. apply lookup_lt_is_Some. rw (bi_nbuf _ HI). by eapply (bi_in _ HI). }
  destruct (hash_bucket s dev bno HI) as [l Hbk].
  apply wp_bind, wp_acquire; [rw Hl; set_solver|]. rw Hl.
  apply wp_bind. eapply wp_getbucket; [done|]. apply wp_bind.
  eapply wp_mono; [|apply find_block_spec; simpl; by eapply Hin].
  intros [i|] s1 [-> Hr].
  - destruct Hr as (Hil & b & Hb & Hd & Hn). simpl in Hb.
    assert (b.(b_locked) = false ∧ b.(b_refcnt) < 2 ^ 32 - 1) as [Hlk Hrc].
    { destruct Hready as [(j & c & Hc & [Hcd Hcn] & ? & ?)|[Hun _]]; [|by destruct (Hun i b)].
      assert (i = j) as -> by (eapply (bi_uniq _ HI); [done..|congruence|congruence|congruence]). naive_solver congruence. }
    pose proof (bi_ref _ HI _ _ Hb).
    apply wp_bind. eapply wp_updb; [done|]. apply wp_bind, wp_release; [set_solver|]. simpl.
    rw filter_lk; [|set_solver]. apply wp_bind.
    eapply wp_acquiresleep; [by rw /= list_lookup_alter_eq Hb|done|]. apply wp_ret.
    assert (alter (set_locked true) i (alter (λ b, set_refcnt (u32 (b.(b_refcnt) + 1)) b) i (bufs s))
      = alter hit_update i (bufs s)) as E.
    { rw alter_comp. eapply alter_ext_at; [done|]. rw /= /hit_update u32_small //. lia. }
    split_and!; simpl; try done.
    + eapply binv_ext; [..|by eapply (hit_inv s i b)]; simpl; try done.
    + exists b. split; [done|]. left. split_and!; done.
  - assert (uncached s dev bno) as Hun by (eapply bucket_complete; [done|done|exact Hr]).
    destruct Hready as [(j & c & Hc & Hcb & _)|[_ (fi & fb & Hfb & Hf0)]]; [by destruct (Hun j c)|].
    apply wp_bind, wp_release; [set_solver|]. simpl. rw filter_lk; [|set_solver].
    apply wp_bind, wp_acquire; [set_solver|]. simpl.
    apply wp_bind. eapply wp_getbucket; [done|]. apply wp_bind.
    eapply wp_mono; [|apply find_block_spec; simpl; by eapply Hin].
    intros [i|] s1 [-> Hr2]; [by destruct Hr2 as (_ & b & Hb & Hbd); destruct (Hun i b)|].
    apply wp_bind. eapply wp_mono; [|apply find_victim_spec; [by repeat apply binv_lks|done]].
    intros st s1 (-> & Hown & Hbest). simpl. rw /owner_ok in Hown. rw /best /= in Hbest.
    destruct (before_ans st) as [[o k]|]; last first.
    { exfalso. apply (Hbest fi fb); [|done|done].
      apply (elem_of_buckets s); [done|]. by eapply lookup_lt_Some. }
    rw /search_locks Hown. destruct Hbest as (lo & x & b & Ho & Hk & Hb & Hb0 & Hmin & Hall).
    apply wp_bind. eapply wp_getbucket; [done|]. rw Hk.
    assert (is_lru s b) as Hlru.
    { split; [done|]. intros j c Hc Hc0. rw Hmin. apply (Hall j c); [|done|done].
      apply (elem_of_buckets s); [done|]. by eapply lookup_lt_Some. }
    assert (b.(b_locked) = false) as Hbl.
    { destruct (b_locked b) eqn:E; [|done]. by destruct (bi_locked _ HI x b). }
    apply wp_bind.
    eapply (wp_mono _ (λ _ s', s' = set_lks [BucketLock (BUCKET_HASH dev bno); BigLock]
      (moved s o k x (BUCKET_HASH dev bno)))).
    + intros ? s1 ->.
      assert (bufs (moved s o k x (BUCKET_HASH dev bno)) = bufs s) as E1 by (rw /moved; by case_decide).
      assert (disk (moved s o k x (BUCKET_HASH dev bno)) = disk s
        ∧ ticks (moved s o k x (BUCKET_HASH dev bno)) = ticks s) as [E2 E3] by (rw /moved; by case_decide).
      apply wp_bind. eapply wp_updb; [by rw /= E1|].
      apply wp_bind, wp_release; [set_solver|]. simpl. rw filter_lk; [|set_solver].
      apply wp_bind, wp_release; [set_solver|]. simpl. rw filter_lk; [|set_solver].
      apply wp_bind. eapply wp_acquiresleep; [by rw /= E1 list_lookup_alter_eq Hb|done|]. apply wp_ret.
      assert (alter (set_locked true) x (alter (recycle dev bno (Z.of_nat (BUCKET_HASH dev bno))) x (bufs s))
        = alter (miss_update dev bno) x (bufs s)) as E by (by rw alter_comp).
      split_and!; simpl; try done.
      * eapply binv_ext; [..|by eapply (binv_recycle s o k lo x b dev bno)]; simpl; try done.
        rw E1. exact E.
      * exists b. split; [done|]. right. rw E1. split_and!; done.
    + rw /moved. case_bool_decide as Hoi.
      * rewrite -> decide_False by done.
        apply wp_modify_bind, wp_bind, wp_release; [set_solver|].
        apply wp_bind, wp_acquire; [rw /= filter_lk; set_solver|].
        rw /wp /modify /=. rewrite -> filter_lk by set_solver. done.
      * assert (o = BUCKET_HASH dev bno) as ->
          by (destruct (decide (o = BUCKET_HASH dev bno)); [done|by destruct Hoi]).
        apply wp_ret. by rewrite -> decide_True.
Qed.

(** ** Contents *)

(** The relation that [contents] computes. *)
Definition cont s (dev bno : Z) (d : list Z) : Prop :=
  (∃ i b, s.(bufs) !! i = Some b ∧ has_block dev bno b ∧ b.(b_valid) = true ∧ b.(b_data) = d)
  ∨ ((∀ i b, s.(bufs) !! i = Some b → has_block dev bno b → b.(b_valid) = false)
     ∧ d = disk_block s.(disk) dev bno).

Lemma caches_spec dev bno b : caches dev bno b = true ↔ b.(b_valid) = true ∧ has_block dev bno b.
Proof. rw /caches /has_block !andb_true_iff !Z.eqb_eq. tauto. Qed.

Lemma cont_contents s dev bno : cont s dev bno (contents s dev bno).
Proof.
  rw /contents. destruct (filter _ _) as [|b l] eqn:E.
  - right. split; [|done]. intros i b Hb Hk. destruct (b_valid b) eqn:Ev; [|done].
    assert (b ∈ filter (λ b, caches dev bno b = true) (bufs s)) as Hin.
    { apply list_elem_of_filter. split; [by apply caches_spec|by eapply list_elem_of_lookup_2]. }
    rw E in Hin. by apply elem_of_nil in Hin.
  - left. assert (b ∈ filter (λ b, caches dev bno b = true) (bufs s)) as Hin by (rw E; set_solver).
    apply list_elem_of_filter in Hin as [[Hv Hk]%caches_spec Hin].
    apply list_elem_of_lookup in Hin as [i Hi]. exists i, b. done.
Qed.

Lemma cont_eq s dev bno d : BInv s → dev ≠ 0 → cont s dev bno d → contents s dev bno = d.
Proof.
  intros HI Hdev Hd. pose proof (cont_contents s dev bno) as Hc.
  destruct Hd as [(i & b & Hb & [Hbd Hbn] & Hv & <-)|[Hn ->]], Hc as [(j & c & Hc & [Hcd Hcn] & Hcv & <-)|[Hn' ->]].
  - assert (i = j) as -> by (eapply (bi_uniq _ HI); [done..| | |]; congruence). congruence.
  - by rewrite (Hn' i b) in Hv.
  - by rewrite (Hn j c) in Hcv.
  - done.
Qed.

(** [bget] changes the contents of no block. *)
Lemma bget_contents s dev bno i s' dev' bno' :
  BInv s → bget_post s dev bno i s' → dev' ≠ 0 → contents s' dev' bno' = contents s dev' bno'.
Proof.
  intros HI (HI' & _ & _ & Hdisk & b & Hb & Hcase) Hdev. apply cont_eq; [done..|].
  pose proof (cont_contents s dev' bno') as Hc.
  destruct Hcase as [(Hk & _ & Hbufs)|(Hun & [Hr0 _] & Hbufs)].
  - destruct Hc as [(j & c & Hc & Hck & Hcv & <-)|[Hn ->]]; [left|right].
    + destruct (decide (j = i)) as [->|Hji].
      * simplify_eq. exists i, (hit_update b). by rw Hbufs list_lookup_alter_eq Hb.
      * exists j, c. by rw Hbufs list_lookup_alter_ne.
    + split; [|by rw Hdisk]. intros j c. rw Hbufs.
      intros [(<- & y & Hy & ->)|[_ Hc]]%lookup_alter_inv Hck; [by apply (Hn _ y Hy)|by eapply Hn].
  - destruct Hc as [(j & c & Hc & Hck & Hcv & Hcd)|[Hn Hd]].
    + destruct (decide (j = i)) as [->|Hji].
      * simplify_eq. right. destruct Hck as [Hck1 Hck2]. split.
        -- intros j c. rw Hbufs. intros [(<- & y & Hy & ->)|[Hne Hc']]%lookup_alter_inv [? ?]; [done|].
           exfalso. apply Hne. eapply (bi_uniq _ HI); [done..| | |]; congruence.
        -- rw -Hcd (bi_clean _ HI _ _ Hb Hr0 Hcv) Hck1 Hck2 Hdisk //.
      * left. exists j, c. by rw Hbufs list_lookup_alter_ne.
    + right. split; [|by rw Hdisk]. intros j c. rw Hbufs.
      intros [(<- & y & Hy & ->)|[_ Hc]]%lookup_alter_inv Hck; [done|by eapply Hn].
Qed.

Lemma bget_buffer s dev bno i s' : bget_post s dev bno i s' →
  ∃ b, s'.(bufs) !! i = Some b ∧ has_block dev bno b ∧ b.(b_locked) = true ∧ 0 < b.(b_refcnt) < 2 ^ 32 ∧ BInv s' ∧ s'.(lks) = [].
Proof.
  intros (HI' & Hl & _ & _ & b & Hb & [(Hk & [_ Hm] & Hbufs)|(_ & _ & Hbufs)]).
  - exists (hit_update b). assert (bufs s' !! i = Some (hit_update b)) as Hi by (by rw Hbufs list_lookup_alter_eq Hb).
    pose proof (bi_locked _ HI' i _ Hi eq_refl). pose proof (bi_ref _ HI' i _ Hi). simpl in *.
    split_and!; try done; simpl; lia.
  - exists (miss_update dev bno b). rw Hbufs list_lookup_alter_eq Hb. done.
Qed.

(** [bread]: the buffer returned is locked and holds the block's contents. *)
Definition bread_post s (dev bno : Z) (i : nat) s' : Prop :=
  BInv s' ∧ s'.(lks) = []
  ∧ (∃ b, s'.(bufs) !! i = Some b ∧ has_block dev bno b ∧ b.(b_locked) = true ∧ 0 < b.(b_refcnt) < 2 ^ 32
       ∧ b.(b_valid) = true ∧ b.(b_data) = contents s dev bno)
  ∧ ∀ dev' bno', dev' ≠ 0 → contents s' dev' bno' = contents s dev' bno'.

Lemma bread_spec s dev bno :
  BInv s → s.(lks) = [] → dev ≠ 0 → ready s dev bno →
  wp (bread dev bno) (λ i s', bread_post s dev bno i s') s.
Proof.
  intros HI Hl Hdev Hready. apply wp_bind. eapply wp_mono; [|by apply bget_spec].
  intros i s1 Hpost. destruct (bget_buffer _ _ _ _ _ Hpost) as (b & Hb & Hk & Hlk & Hr & HI1 & Hl1).
  assert (∀ dev' bno', dev' ≠ 0 → contents s1 dev' bno' = contents s dev' bno') as Hcont
    by (intros; by eapply bget_contents).
  apply wp_bind. eapply wp_getb; [done|]. apply wp_bind, wp_when; intros Hv.
  - destruct (b_valid b) eqn:Ev; [done|]. apply wp_bind. rw /wp /lift virtio_read_ok.
    destruct Hk as [Hkd Hkn]. rw Hkd Hkn.
    assert (set_disk (disk s1) s1 = s1) as -> by (by destruct s1).
    eapply (wp_updb i b); [done|]. apply wp_ret.
    assert (contents s dev bno = disk_block (disk s1) dev bno) as Hd.
    { rw -Hcont //. apply cont_eq; [done..|]. right. split; [|done].
      intros j c Hc [? ?]. assert (j = i) as -> by (eapply (bi_uniq _ HI1); [done..| | |]; congruence).
      congruence. }
    assert (BInv (set_bufs (alter (set_filled (disk_block (disk s1) dev bno)) i) s1)) as HI2.
    { eapply binv_alter; [done|done|..]; simpl; try done; lia. }
    split_and!; [done|done| |].
    + eexists. rw /= list_lookup_alter_eq Hb. split; [done|]. split_and!; try done; simpl; lia.
    + intros dev' bno' Hdev'. rw -Hcont //. apply cont_eq; [done..|].
      destruct (cont_contents s1 dev' bno') as [(j & c & Hc & Hck & Hcv & Hcd)|[Hn Hcd]].
      * left. exists j, c. rw /= list_lookup_alter_ne //. intros <-. congruence.
      * destruct (decide (dev' = dev ∧ bno' = bno)) as [[-> ->]|Hne].
        -- left. eexists i, _. rw /= list_lookup_alter_eq Hb. split; [done|]. by split_and!.
        -- right. split; [|done]. simpl.
           intros j c [(<- & y & Hy & ->)|[_ Hc]]%lookup_alter_inv Hck; [|by eapply Hn].
           simplify_eq. destruct Hne. destruct Hck. simpl in *. split; congruence.
  - apply wp_ret. split_and!; [done|done| |done]. exists b.
    destruct (b_valid b) eqn:Ev; [|done]. split_and!; try done; try lia.
    rw -Hcont //. symmetry. apply cont_eq; [done..|]. left. by exists i, b.
Qed.

(** ** Writing a block *)

Definition set_data (data : list Z) (b : buf) : buf :=
  MkBuf b.(b_valid) b.(b_dev) b.(b_blockno) b.(b_locked) b.(b_refcnt) data b.(b_lastuse) b.(b_owner).
(** The caller's use of a buffer: read the block, change [b->data], write it
    through and release it. *)
Definition write_block (dev bno : Z) (data : list Z) : M (bcache (D := D)) unit :=
  i ← bread dev bno;
  updb i (set_data data);;
  bwrite i;;
  brelse i.

(** The contents of every block but one stay when its only buffer changes. *)
Lemma contents_frame s s' i b f dev bno :
  BInv s → BInv s' → s.(bufs) !! i = Some b → has_block dev bno b → dev ≠ 0 →
  s'.(bufs) = alter f i s.(bufs) → (f b).(b_dev) = b.(b_dev) → (f b).(b_blockno) = b.(b_blockno) →
  (∀ dev' bno', (dev', bno') ≠ (dev, bno) → disk_block s'.(disk) dev' bno' = disk_block s.(disk) dev' bno') →
  ∀ dev' bno', dev' ≠ 0 → (dev', bno') ≠ (dev, bno) → contents s' dev' bno' = contents s dev' bno'.
Proof.
  intros HI HI' Hb Hk Hdev Hbufs Hfd Hfn Hdisk dev' bno' Hdev' Hne. apply cont_eq; [done..|].
  assert (∀ c, c.(b_dev) = b.(b_dev) → c.(b_blockno) = b.(b_blockno) → ¬ has_block dev' bno' c) as Hnb.
  { intros c E1 E2 [Hd Hn]. apply Hne. destruct Hk. f_equal; congruence. }
  destruct (cont_contents s dev' bno') as [(j & c & Hc & Hck & Hcv & Hcd)|[Hn Hcd]].
  - left. exists j, c. rw Hbufs list_lookup_alter_ne //. intros <-. simplify_eq. by apply (Hnb b).
  - right. split; [|by rw Hcd Hdisk]. intros j c. rw Hbufs.
    intros [(<- & y & Hy & ->)|[_ Hc]]%lookup_alter_inv Hck; [|by eapply Hn].
    simplify_eq. by destruct (Hnb (f b)).
Qed.

Lemma bwrite_spec s i b :
  BInv s → s.(bufs) !! i = Some b → b.(b_locked) = true → b.(b_dev) ≠ 0 →
  wp (bwrite i) (λ _ s', BInv s' ∧ s'.(bufs) = s.(bufs) ∧ s'.(lks) = s.(lks) ∧ s'.(ticks) = s.(ticks)
    ∧ ∀ dev' bno', disk_block s'.(disk) dev' bno' =
        if (dev' =? b.(b_dev)) && (bno' =? b.(b_blockno)) then b.(b_data)
        else disk_block s.(disk) dev' bno') s.
Proof.
  intros HI Hb Hlk Hdev. apply wp_bind, wp_bind. eapply wp_getb; [done|]. apply wp_ret.
  rw Hlk /=. apply wp_bind. eapply wp_getb; [done|]. rw /wp /lift.
  destruct (virtio_write_ok (disk s) b.(b_dev) b.(b_blockno) b.(b_data)) as (d' & -> & Hd').
  split_and!; try done. destruct HI as [H1 H2 H3 H4 H5 H6 H7 H8 H9 H10]. split; simpl; try done.
  intros j c Hc Hr Hv. rw Hd'.
  destruct (Z.eqb_spec (b_dev c) (b_dev b)) as [E1|], (Z.eqb_spec (b_blockno c) (b_blockno b)) as [E2|];
    simpl; [|by eauto..].
  exfalso. assert (j = i) as -> by (eapply H7; [done..|congruence]). simplify_eq. by apply (H8 i b).
Qed.

Lemma brelse_spec s i b :
  BInv s → s.(lks) = [] → s.(bufs) !! i = Some b → b.(b_locked) = true → b.(b_refcnt) < 2 ^ 32 →
  (b.(b_refcnt) = 1 → b.(b_valid) = true → b.(b_data) = disk_block s.(disk) b.(b_dev) b.(b_blockno)) →
  wp (brelse i) (λ _ s', BInv s' ∧ s'.(lks) = [] ∧ s'.(ticks) = s.(ticks) ∧ s'.(disk) = s.(disk)
    ∧ s'.(bufs) = alter (λ b, MkBuf b.(b_valid) b.(b_dev) b.(b_blockno) false (b.(b_refcnt) - 1) b.(b_data)
        (if b.(b_refcnt) =? 1 then s.(ticks) else b.(b_lastuse)) b.(b_owner)) i s.(bufs)) s.
Proof.
  intros HI Hl Hb Hlk Hmax Hcl.
  pose proof (bi_locked _ HI _ _ Hb Hlk). pose proof (bi_ref _ HI _ _ Hb).
  set (f := λ b : buf, MkBuf b.(b_valid) b.(b_dev) b.(b_blockno) false (b.(b_refcnt) - 1) b.(b_data)
        (if b.(b_refcnt) =? 1 then s.(ticks) else b.(b_lastuse)) b.(b_owner)).
  assert (BInv (set_bufs (alter f i) s)) as HI'.
  { eapply binv_alter; [done|done|..]; simpl; try done; [lia|].
    intros Hr Hv. apply Hcl; [lia|done]. }
  assert (u32 (b_refcnt b - 1) = b_refcnt b - 1) as Hu by (apply u32_small; lia).
  apply wp_bind, wp_bind. eapply wp_getb; [done|]. apply wp_ret. rw Hlk /=.
  apply wp_bind. eapply wp_updb; [done|]. apply wp_bind. eapply wp_getb; [by rw /= list_lookup_alter_eq Hb|].
  apply wp_bind, wp_acquire; [rw /= Hl; set_solver|].
  apply wp_bind. eapply wp_updb; [by rw /= list_lookup_alter_eq Hb|].
  apply wp_bind. eapply wp_getb; [by rw /= alter_comp list_lookup_alter_eq Hb|]. simpl.
  apply wp_bind, wp_when; intros Hz.
  - apply wp_bind. rw /wp /gets. eapply wp_updb; [by rw /= alter_comp list_lookup_alter_eq Hb|].
    apply wp_release; [set_solver|]. simpl. rw Hl filter_lk; [|set_solver].
    assert (alter (set_lastuse (ticks s)) i (alter (λ b0, set_refcnt (u32 (b_refcnt b0 - 1)) b0) i
      (alter (set_locked false) i (bufs s))) = alter f i (bufs s)) as E.
    { rw !alter_comp. eapply alter_ext_at; [done|]. rw /f /set_lastuse /= Hu. f_equal.
      rewrite -> Hu in Hz. zbool; lia. }
    split_and!; simpl; try done. eapply binv_ext; [..|exact HI']; done.
  - apply wp_release; [set_solver|]. simpl. rw Hl filter_lk; [|set_solver].
    assert (alter (λ b0, set_refcnt (u32 (b_refcnt b0 - 1)) b0) i
      (alter (set_locked false) i (bufs s)) = alter f i (bufs s)) as E.
    { rw !alter_comp. eapply alter_ext_at; [done|]. rw /f /set_refcnt /= Hu. f_equal.
      rewrite -> Hu in Hz. zbool; lia. }
    split_and!; simpl; try done. eapply binv_ext; [..|exact HI']; done.
Qed.

(** ** Theorems *)

(** C15: [bget] does not panic or wait when the block's buffer is free to take or,
    on a miss, some buffer is free; it holds no spinlock at the end, keeps the
    invariant, and returns the block's buffer locked: either the one that had
    it, with one more reference, or on a miss the least recently used free
    buffer, the only one to change. *)
Theorem bget_takes_lru s dev bno :
  BInv s → s.(lks) = [] → dev ≠ 0 → ready s dev bno →
  ∃ i s', bget dev bno s = Ok (i, s') ∧ bget_post s dev bno i s'.
Proof. intros. by apply wp_run, bget_spec. Qed.

(** C16: [bread] returns a locked buffer whose data are the current contents of
    the block, whether cached or read from disk, and neither the read nor the
    recycling of another block's buffer changes the contents of any block. *)
Theorem bread_returns_contents s dev bno :
  BInv s → s.(lks) = [] → dev ≠ 0 → ready s dev bno →
  ∃ i s', bread dev bno s = Ok (i, s') ∧ bread_post s dev bno i s'.
Proof. intros. by apply wp_run, bread_spec. Qed.

(** C17: a block that is read, changed, written and released has the new contents,
    in the cache and on the disk; every other block has the contents it had,
    and the invariant holds again. *)
Theorem write_block_updates s dev bno data :
  BInv s → s.(lks) = [] → dev ≠ 0 → ready s dev bno →
  ∃ s', write_block dev bno data s = Ok (tt, s') ∧ BInv s' ∧ s'.(lks) = []
    ∧ disk_block s'.(disk) dev bno = data
    ∧ ∀ dev' bno', dev' ≠ 0 →
        contents s' dev' bno' = if decide ((dev', bno') = (dev, bno)) then data else contents s dev' bno'.
Proof.
  intros HI Hl Hdev Hready.
  assert (wp (write_block dev bno data) (λ _ s', BInv s' ∧ s'.(lks) = []
    ∧ disk_block s'.(disk) dev bno = data
    ∧ ∀ dev' bno', dev' ≠ 0 →
        contents s' dev' bno' = if decide ((dev', bno') = (dev, bno)) then data else contents s dev' bno') s) as Hw.
  { apply wp_bind. eapply wp_mono; [|by apply bread_spec].
    intros i s1 (HI1 & Hl1 & (b & Hb & Hk & Hlk & Hr & Hv & Hd) & Hcont).
    apply wp_bind. eapply wp_updb; [done|].
    assert (BInv (set_bufs (alter (set_data data) i) s1)) as HI2
      by (eapply binv_alter; [done|done|..]; simpl; try done; lia).
    assert (bufs (set_bufs (alter (set_data data) i) s1) !! i = Some (set_data data b)) as Hb2
      by (by rw /= list_lookup_alter_eq Hb).
    apply wp_bind. eapply wp_mono; [|apply (bwrite_spec _ i (set_data data b))]; try done;
      [|by simpl; destruct Hk as [-> _]].
    intros ? s2 (HI3 & Hbufs3 & Hl3 & _ & Hdisk3). rewrite <- Hbufs3 in Hb2.
    assert (disk_block (disk s2) dev bno = data) as Hdd.
    { rw Hdisk3 /=. destruct Hk as [-> ->]. by rw !Z.eqb_refl. }
    eapply wp_mono; [|apply (brelse_spec _ i (set_data data b))]; try done; [|by rw Hl3|simpl; lia|].
    2: { intros _ _. simpl. destruct Hk as [-> ->]. done. }
    intros ? s3 (HI4 & Hl4 & _ & Hdisk4 & Hbufs4).
    split_and!; [done|done|by rw Hdisk4|]. intros dev' bno' Hdev'.
    destruct (decide ((dev', bno') = (dev, bno))) as [[= -> ->]|Hne].
    - apply cont_eq; [done..|]. left. eexists i, _. rw Hbufs4 list_lookup_alter_eq Hb2.
      split; [done|]. by split_and!.
    - rw -Hcont //.
      eapply (contents_frame s1 s3 i b); try done; simpl.
      + rw Hbufs4 Hbufs3 /= alter_comp. reflexivity.
      + done.
      + done.
      + intros dev2 bno2 Hne2. rw Hdisk4 Hdisk3 /=. destruct Hk as [-> ->].
        destruct (Z.eqb_spec dev2 dev), (Z.eqb_spec bno2 bno); simpl; [|done..]. by subst. }
  apply wp_run in Hw as ([] & s' & ? & ?). eauto.
Qed.

(** What [binit] leaves: every buffer free, in bucket 0. *)
Definition binit_state (d : D) : bcache :=
  MkCache (replicate NBUF buf0) (rev (seq 0 NBUF) :: replicate (NBUCKET - 1) []) [] 0 d.

Lemma binit_run d : binit (bcache0 d) = Ok (tt, binit_state d).
Proof. reflexivity. Qed.

Lemma binit_state_inv d : BInv (binit_state d).
Proof.
  assert (∀ i b, bufs (binit_state d) !! i = Some b → b = buf0) as Hb0.
  { by intros i b [-> _]%lookup_replicate. }
  assert (∀ k l, bucket (binit_state d) !! k = Some l → k = 0%nat ∧ l = rev (seq 0 NBUF) ∨ l = []) as Hbk.
  { intros [|k] l; simpl; [intros [= <-]; by left|]. intros [-> _]%(lookup_replicate 12). by right. }
  assert (∀ i, i ∈ rev (seq 0 NBUF) ↔ (i < NBUF)%nat) as Hin.
  { intros i. rw list_elem_of_In -in_rev -list_elem_of_In elem_of_seq. lia. }
  split.
  - done.
  - done.
  - intros k l i [[-> ->]| ->]%Hbk Hi; [by apply Hin|set_solver].
  - intros i Hi. exists 0%nat, (rev (seq 0 NBUF)). split; [done|]. by apply Hin.
  - intros k l [[-> ->]| ->]%Hbk; [|apply NoDup_nil_2]. apply NoDup_ListNoDup, NoDup_rev, seq_NoDup.
  - intros k l i b [[-> ->]| ->]%Hbk Hi ->%Hb0; [done|set_solver].
  - by intros i j b c ->%Hb0 ->%Hb0.
  - by intros i b ->%Hb0.
  - by intros i b ->%Hb0.
  - by intros i b ->%Hb0.
Qed.

(** [binit] turns the zeroed cache into one that satisfies the invariant,
    with all buffers free, so that every block can be read. *)
Theorem binit_establishes d :
  ∃ s, binit (bcache0 d) = Ok (tt, s) ∧ BInv s ∧ s.(lks) = []
    ∧ (∀ dev bno, dev ≠ 0 → ready s dev bno ∧ contents s dev bno = disk_block d dev bno).
Proof.
  exists (binit_state d). split_and!; [apply binit_run|apply binit_state_inv|done|].
  assert (∀ i b, bufs (binit_state d) !! i = Some b → b = buf0) as Hb0.
  { by intros i b [-> _]%lookup_replicate. }
  intros dev bno Hdev. split.
  - right. split; [|by exists 0%nat, buf0]. intros i b ->%Hb0 [? ?]. by apply Hdev.
  - apply cont_eq; [apply binit_state_inv|done|]. right. split; [|done]. by intros i b ->%Hb0.
Qed.

End props.

(** ** A concrete disk *)
Module Demo.

Definition mdisk : Type := Z → Z → list Z.
#[local] Instance mem_disk : DiskDriver mdisk.
Proof.
  refine {| disk_block := λ d : mdisk, d;
    virtio_disk_read := λ dev b d, Ok (d dev b, d);
    virtio_disk_write := λ dev b data d,
      Ok (tt, λ dev' b', if (dev' =? dev) && (b' =? b) then data else d dev' b') |}.
  - done.
  - intros d dev b data. eexists. split; [done|]. done.
Defined.

(** The boot-time cache over a disk whose block [b] holds the byte [b]. *)
Definition s0 : bcache (D := mdisk) := binit_state (λ _ b, [b]).
Lemma s0_ready : ready s0 1 33.
Proof.
  right. split; [|by exists 0%nat, buf0]. intros i b [-> _]%lookup_replicate [? ?]. done.
Qed.

Lemma bget_takes_lru_witness : ∃ i s', bget 1 33 s0 = Ok (i, s') ∧ bget_post s0 1 33 i s'.
Proof. apply (bget_takes_lru s0 1 33); [apply binit_state_inv|done|lia|apply s0_ready]. Defined.

Lemma bread_returns_contents_witness : ∃ i s', bread 1 33 s0 = Ok (i, s') ∧ bread_post s0 1 33 i s'.
Proof. apply (bread_returns_contents s0 1 33); [apply binit_state_inv|done|lia|apply s0_ready]. Defined.

Lemma write_block_updates_witness :
  ∃ s', write_block 1 33 [7] s0 = Ok (tt, s') ∧ BInv s' ∧ s'.(lks) = []
    ∧ disk_block s'.(disk) 1 33 = [7]
    ∧ ∀ dev' bno', dev' ≠ 0 →
        contents s' dev' bno' = if decide ((dev', bno') = (1, 33)) then [7] else contents s0 dev' bno'.
Proof. apply (write_block_updates s0 1 33 [7]); [apply binit_state_inv|done|lia|apply s0_ready]. Defined.

(** The buffer of block 33 sits in bucket 33 mod 13 = 7 after a read. *)
Example demo_bucket : ∃ s', bread 1 33 s0 = Ok (29%nat, s') ∧ s'.(bucket) !! 7%nat = Some [29%nat].
Proof. eexists. split; vm_compute; reflexivity. Qed.

End Demo.
End BioProps.
