(* ===== verification/KallocCpu.v ===== *)
(** * The per-CPU page allocator (locks lab, [kalloc.c])

    One free list and lock per CPU: [kfree] puts a page on the list of the CPU
    whose share of RAM it lies in, [kalloc] takes from the calling CPU's list
    and steals from another CPU's when it is empty.  Each locked section is one
    step.  The free lists are threaded through the pages as in [Kalloc.v]. *)

From S2P Require Import Prelude Machine Kalloc.

Module KallocCpu.

Definition NCPU : Z := 8.
Definition cpu_ids : list nat := seq 0 (Z.to_nat NCPU).

Record pst := MkPst { pm : mem; kmem : list Z }.
Definition set_pm (f : mem → mem) (s : pst) : pst := MkPst (f s.(pm)) s.(kmem).
Definition set_kmem (f : list Z → list Z) (s : pst) : pst := MkPst s.(pm) (f s.(kmem)).

Section kalloc_cpu.
Context `{KI : KernelImage}.

Definition getl (id : nat) : M pst Z := λ s,
  match s.(kmem) !! id with Some r => Ok (r, s) | None => Err (Undef "kmem index") end.

Definition chunk : Z := (PHYSTOP - kend) / NCPU.

(** The loop of [pa2cpuid]: [id], [p_start], [p_end]. *)
Definition pa2cpuid (pa : Z) : M pst Z :=
  loop (λ '(id, p_start, p_end),
    if (p_end <=? PHYSTOP) && (id <? NCPU) then
      if (pa <=? p_end) && (p_start <=? pa) then mret (inr id)
      else mret (inl (id + 1, p_start + chunk, p_end + chunk))
    else mret (inr (-1))) (0, kend, kend + chunk).

Definition find_freepage (sid : nat) : M pst Z :=
  x ← for_each cpu_ids (λ id,
    if bool_decide (id = sid) then mret None else
    r ← getl id;
    if negb (r =? 0) then
      nxt ← gets (λ s, ld64 s.(pm) r);
      modify (set_kmem (alter (λ _, nxt) id));;
      mret (Some r)
    else mret None);
  mret (default 0 x).

Definition steal_mem (sid : nat) : M pst Z := find_freepage sid.

Definition kfree (pa : Z) : M pst unit :=
  if negb (pa mod PGSIZE =? 0) || (pa <? kend) || (PHYSTOP <=? pa) then panic "kfree" else
  modify (set_pm (λ m, memset m pa 1 PGSIZE));;
  tid ← pa2cpuid pa;
  if tid <? 0 then panic "runout mem" else
  let r := pa in
  fl ← getl (Z.to_nat tid);
  modify (set_pm (λ m, st64 m r fl));;
  modify (set_kmem (alter (λ _, r) (Z.to_nat tid))).

Definition freerange (pa_start pa_end : Z) : M pst unit :=
  loop (λ p, if p + PGSIZE <=? pa_end then kfree p;; mret (inl (p + PGSIZE))
             else mret (inr tt)) (PGROUNDUP pa_start).

Definition kinit : M pst unit :=
  for_each (R := unit) cpu_ids (λ id,
    let start_offset := u64 (Z.of_nat id * chunk) in
    let end_offset := u64 ((NCPU - Z.of_nat id - 1) * chunk) in
    freerange (kend + start_offset) (PHYSTOP - end_offset);;
    mret None);;
  mret tt.

(** [cid] is the calling CPU. *)
Definition kalloc (cid : nat) : M pst Z :=
  r ← getl cid;
  r ← (if negb (r =? 0) then
         nxt ← gets (λ s, ld64 s.(pm) r);
         modify (set_kmem (alter (λ _, nxt) cid));;
         mret r
       else steal_mem cid);
  when (negb (r =? 0)) (modify (set_pm (λ m, memset m r 5 PGSIZE)));;
  mret r.

(** ** The free lists *)

Record free_lists (s : pst) (L : list (list Z)) : Prop := {
  fl_len : length L = Z.to_nat NCPU;
  fl_chains : Forall2 (chain s.(pm)) s.(kmem) L;
  fl_managed : ∀ l a, l ∈ L → a ∈ l → managed a;
  fl_nodup : NoDup (concat L);
}.

Lemma fl_lookup s L i l : free_lists s L → L !! i = Some l →
  ∃ r, s.(kmem) !! i = Some r ∧ chain s.(pm) r l ∧ Forall managed l.
Proof.
  intros [_ Hc Hm _] Hl. destruct (Forall2_lookup_r _ _ _ _ _ Hc Hl) as (r & ? & ?).
  exists r. split_and!; try done. apply Forall_forall. intros a Ha. eapply Hm; [|done].
  by eapply list_elem_of_lookup_2.
Qed.

(** [concat] of a list of lists with one entry changed. *)
Lemma concat_alter (L : list (list Z)) (i : nat) l f :
  L !! i = Some l → ∃ rest, concat L ≡ₚ l ++ rest ∧ concat (alter f i L) ≡ₚ f l ++ rest.
Proof.
  revert i. induction L as [|x L IH]; intros [|i] Hi; simpl in *; [done|done|..].
  - injection Hi as ->. by exists (concat L).
  - destruct (IH i Hi) as (rest & H1 & H2). exists (x ++ rest).
    change (alter f i L) with (alter f i L) in H2. split.
    + rw H1. by rw !app_assoc (Permutation_app_comm x l).
    + rw H2. by rw !app_assoc (Permutation_app_comm x (f l)).
Qed.

Lemma chunk_bounds : 0 ≤ chunk ∧ NCPU * chunk ≤ PHYSTOP - kend < NCPU * chunk + 8.
Proof. rw /chunk /NCPU. pose proof kend_lo. pose proof kend_hi. lia. Qed.

(** [pa2cpuid] succeeds on every page of RAM: the share of the CPU it returns
    contains the page's address. *)
Lemma pa2cpuid_spec pa s :
  managed pa →
  wp (pa2cpuid pa) (λ id s', s' = s ∧ 0 ≤ id < NCPU
    ∧ kend + id * chunk ≤ pa ≤ kend + (id + 1) * chunk) s.
Proof.
  intros Hpa. destruct (managed_bounds pa Hpa) as (_ & _ & Hhi). destruct Hpa as [_ [Hlo _]].
  pose proof chunk_bounds as [Hc0 Hc]. rw /pa2cpuid /NCPU. rw /NCPU in Hc.
  remember chunk as ch eqn:Ech. clear Ech.
  apply (wp_loop (λ '(id, p_start, p_end) s', s' = s ∧ 0 ≤ id ≤ 8 ∧ p_start = kend + id * ch
      ∧ p_end = kend + (id + 1) * ch ∧ p_start ≤ pa)
    (λ '(id, _, _), 8 - id)).
  - split_and!; try done; lia.
  - lia.
  - intros [[id ps] pe] s' (-> & Hid & -> & -> & Hps) _.
    destruct (Z.leb_spec (kend + (id + 1) * ch) PHYSTOP), (Z.ltb_spec id 8); simpl.
    + destruct (Z.leb_spec pa (kend + (id + 1) * ch)); simpl.
      * zdec. apply wp_ret. split_and!; try done; lia.
      * apply wp_ret. split_and!; try done; lia.
    + exfalso. assert (id = 8) as -> by lia. lia.
    + exfalso. nia.
    + exfalso. assert (id = 8) as -> by lia. lia.
Qed.

Lemma elem_of_concat_lookup (L : list (list Z)) a :
  a ∈ concat L ↔ ∃ i l, L !! i = Some l ∧ a ∈ l.
Proof.
  rw list_elem_of_In in_concat. split.
  - intros (l & Hl & Ha). apply list_elem_of_In, list_elem_of_lookup in Hl as [i Hi].
    exists i, l. split; [done|]. by apply list_elem_of_In.
  - intros (i & l & Hi & Ha). exists l. split; apply list_elem_of_In; [|done].
    by eapply list_elem_of_lookup_2.
Qed.

Lemma fl_managed' s L a : free_lists s L → a ∈ concat L → managed a.
Proof.
  intros HL (i & l & Hi & Ha)%elem_of_concat_lookup. eapply (fl_managed _ _ HL); [|done].
  by eapply list_elem_of_lookup_2.
Qed.

(** One entry of the per-CPU table changes, with its list; pages on the lists
    keep their link words. *)
Lemma free_lists_alter s L (i : nat) l r l' m' :
  free_lists s L → L !! i = Some l → chain m' r l' → (∀ a, a ∈ l' → managed a) →
  NoDup (concat (alter (λ _, l') i L)) →
  (∀ j lj a, j ≠ i → L !! j = Some lj → a ∈ lj → agree s.(pm) m' a (a + 8)) →
  free_lists (MkPst m' (alter (λ _, r) i s.(kmem))) (alter (λ _, l') i L).
Proof.
  intros HL Hi Hc Hm Hnd Hag. destruct HL as [Hlen Hch Hman _]. split; simpl; [by rw length_alter| | |done].
  - apply Forall2_same_length_lookup_2; [by rw !length_alter; eapply Forall2_length|].
    intros j rj lj. rw !list_lookup_alter. case_decide as Hij.
    + subst j. intros (? & ? & ->)%fmap_Some (? & ? & ->)%fmap_Some. done.
    + intros Hrj Hlj. eapply chain_agree; [|by eapply Forall2_lookup_lr].
      intros a Ha. eapply Hag; [|done..]. done.
  - intros lx a (j & Hj)%list_elem_of_lookup Ha. rw list_lookup_alter in Hj. case_decide.
    + apply fmap_Some in Hj as (? & ? & ->). by apply Hm.
    + eapply Hman; [|done]. by eapply list_elem_of_lookup_2.
Qed.

Lemma nth_list s L (i : nat) : free_lists s L → Z.of_nat i < NCPU → ∃ l, L !! i = Some l.
Proof.
  intros HL Hi. apply lookup_lt_is_Some. rw (fl_len _ _ HL). rw /NCPU in Hi *. lia.
Qed.

Lemma cpu_kfree_spec s L pa :
  free_lists s L → managed pa → pa ∉ concat L →
  wp (kfree pa) (λ _ s', ∃ id : nat, free_lists s' (alter (cons pa) id L)
    ∧ (id < length L)%nat
    ∧ kend + Z.of_nat id * chunk ≤ pa ≤ kend + (Z.of_nat id + 1) * chunk) s.
Proof.
  intros HL Hpa Hnin. pose proof Hpa as [Hal Hr].
  destruct (managed_bounds pa Hpa) as (_ & Hlo & Hhi). rw /page_aligned in Hal.
  rw /kfree. consts. zdec. apply wp_modify_bind, wp_bind.
  eapply wp_mono; [|by apply pa2cpuid_spec]. intros tid s' (-> & Htid & Hin). zdec.
  destruct (nth_list s L (Z.to_nat tid) HL) as [l Hl]; [lia|].
  destruct (fl_lookup _ _ _ _ HL Hl) as (r & Hrr & Hc & Hm).
  apply wp_bind. rw /wp /getl /= Hrr. wp_unfold.
  exists (Z.to_nat tid). rewrite -> !Z2Nat.id by lia. split_and!; [|by eapply lookup_lt_Some|lia..].
  assert (∀ b, b ∈ concat L → agree (pm s) (st64 (memset (pm s) pa 1 4096) pa r) b (b + 8)) as Hag.
  { intros b Hb. destruct (managed_bounds b (fl_managed' _ _ _ HL Hb)) as (Hbl & ? & ?).
    destruct (pages_disjoint b pa); [done..|set_solver| |];
      (eapply agree_trans; [|apply agree_sym, st64_agree; lia]); apply agree_sym, memset_agree; lia. }
  assert (alter (cons pa) (Z.to_nat tid) L = alter (λ _, pa :: l) (Z.to_nat tid) L) as ->.
  { apply list_eq. intros j. rw !list_lookup_alter. case_decide; [|done]. by rw Hl. }
  apply (free_lists_alter s L _ l pa (pa :: l)); [done|done|..].
  - simpl. split; [done|]. rw ld64_st64_eq; last first.
    { destruct l as [|a l]; simpl in Hc; [lia|]. destruct Hc as [-> _].
      inversion Hm as [|?? Ha _]; subst. destruct (managed_bounds a Ha). consts. lia. }
    eapply chain_agree; [|done]. intros b Hb. apply Hag, elem_of_concat_lookup. eauto.
  - intros a [->|Ha]%elem_of_cons; [done|]. by eapply Forall_forall in Hm.
  - destruct (concat_alter L (Z.to_nat tid) l (λ _, pa :: l) Hl) as (rest & P1 & P2).
    rw P2 /=. apply NoDup_cons. rw -P1. split; [done|]. apply HL.
  - intros j lj a _ Hj Ha. apply Hag, elem_of_concat_lookup. eauto.
Qed.

(** Taking the first page of list [i]. *)
Lemma pop_spec s L (i : nat) a l m' :
  free_lists s L → L !! i = Some (a :: l) →
  (∀ b, b ∈ concat L → b ≠ a → agree s.(pm) m' b (b + 8)) →
  s.(kmem) !! i = Some a ∧ a ≠ 0 ∧ managed a
  ∧ free_lists (MkPst m' (alter (λ _, ld64 s.(pm) a) i s.(kmem))) (alter (λ _, l) i L)
  ∧ concat L ≡ₚ a :: concat (alter (λ _, l) i L).
Proof.
  intros HL Hi Hag. destruct (fl_lookup _ _ _ _ HL Hi) as (r & Hr & [-> Hc] & Hm).
  inversion Hm as [|?? Ha Hl]; subst. destruct (managed_bounds _ Ha) as (_ & Hlo & _).
  destruct (concat_alter L i (a :: l) (λ _, l) Hi) as (rest & P1 & P2).
  assert (NoDup (a :: l ++ rest)) as Hnd by (change (NoDup ((a :: l) ++ rest)); rw -P1; apply HL).
  apply NoDup_cons in Hnd as [Hna Hnd].
  assert (∀ b, b ∈ l → b ≠ a) as Hne by (intros b Hb ->; set_solver).
  split_and!; [done|consts; lia|done| |].
  - eapply free_lists_alter; [done|done|..].
    + eapply chain_agree; [|done]. intros b Hb. apply Hag; [|by apply Hne].
      apply elem_of_concat_lookup. exists i, (a :: l). split; [done|set_solver].
    + intros b Hb. by eapply Forall_forall in Hl.
    + by rw P2.
    + intros j lj b Hj Hlj Hb. apply Hag; [apply elem_of_concat_lookup; eauto|].
      intros ->. assert (NoDup (concat L)) as Hnd' by apply HL.
      destruct (concat_alter L j lj (λ _, []) Hlj) as (rest' & P1' & P2').
      rewrite -> P1' in Hnd'. apply NoDup_app in Hnd' as (_ & Hdis & _). apply (Hdis a Hb).
      assert (a ∈ concat (alter (λ _ : list Z, []) j L)) as Hin.
      { apply elem_of_concat_lookup. exists i, (a :: l). rw list_lookup_alter_ne //. set_solver. }
      rewrite -> P2' in Hin. done.
  - rw P1 P2. done.
Qed.

Definition page_taken (s : pst) (L : list (list Z)) (i : nat) (r : Z) (s' : pst) : Prop :=
  ∃ l, L !! i = Some (r :: l) ∧ r ≠ 0 ∧ managed r ∧ s'.(pm) = s.(pm)
    ∧ s' = MkPst s.(pm) (alter (λ _, ld64 s.(pm) r) i s.(kmem)).

(** [steal_mem] takes the first page of the first other CPU that has one. *)
Lemma steal_spec s L (sid : nat) :
  free_lists s L →
  wp (steal_mem sid) (λ r s',
    (r = 0 ∧ s' = s ∧ ∀ i l, i ≠ sid → L !! i = Some l → l = [])
    ∨ ∃ i, i ≠ sid ∧ page_taken s L i r s') s.
Proof.
  intros HL. rw /steal_mem /find_freepage. apply wp_bind.
  assert (∀ ids, (∀ i, i ∈ ids → (i < length L)%nat) →
    wp (for_each ids (λ id,
      if bool_decide (id = sid) then mret None else
      r ← getl id;
      if negb (r =? 0) then
        nxt ← gets (λ s, ld64 s.(pm) r);
        modify (set_kmem (alter (λ _, nxt) id));;
        mret (Some r)
      else mret None)) (λ x s',
      match x with
      | None => s' = s ∧ ∀ i l, i ∈ ids → i ≠ sid → L !! i = Some l → l = []
      | Some r => ∃ i, i ≠ sid ∧ page_taken s L i r s'
      end) s) as Hgen.
  { induction ids as [|id ids IH]; intros Hids; [apply wp_ret; split; [done|set_solver]|].
    apply wp_bind. destruct (decide (id = sid)) as [->|Hne].
    - rewrite -> bool_decide_true by done. apply wp_ret.
      eapply wp_mono; [|apply IH; intros; apply Hids; set_solver].
      intros [r|] s'; [done|]. intros [-> Hno]. split; [done|]. set_solver.
    - rewrite -> bool_decide_false by done.
      destruct (lookup_lt_is_Some_2 L id) as [l Hl]; [apply Hids; set_solver|].
      destruct (fl_lookup _ _ _ _ HL Hl) as (r & Hr & Hc & Hm).
      apply wp_bind. rw /wp /getl Hr. destruct l as [|a l]; simpl in Hc.
      + subst r. simpl. wp_unfold. eapply wp_mono; [|apply IH; intros; apply Hids; set_solver].
        intros [r|] s'; [done|]. intros [-> Hno]. split; [done|].
        intros i l [->|Hi]%elem_of_cons Hi' Hl'; [congruence|by eapply Hno].
      + destruct (pop_spec s L id a l (pm s) HL Hl) as (Hr' & Hnz & Hma & _ & _); [done|].
        simplify_eq. zdec. wp_unfold. exists id. split; [done|]. exists l. done. }
  eapply wp_mono; [|apply (Hgen cpu_ids)].
  - intros [r|] s' H; apply wp_ret; [by right|]. left. destruct H as [-> Hno].
    split_and!; try done. intros i l Hi Hl. eapply Hno; [|done..].
    apply elem_of_seq. apply lookup_lt_Some in Hl. rw (fl_len _ _ HL) in Hl. lia.
  - intros i Hi%elem_of_seq. rw (fl_len _ _ HL). lia.
Qed.

Lemma cpu_kalloc_spec s L (cid : nat) :
  free_lists s L → (cid < length L)%nat →
  wp (kalloc cid) (λ r s',
    (r = 0 ∧ s' = s ∧ concat L = [])
    ∨ ∃ i l, L !! i = Some (r :: l) ∧ (i = cid ∨ L !! cid = Some []) ∧ managed r
        ∧ free_lists s' (alter (λ _, l) i L) ∧ concat L ≡ₚ r :: concat (alter (λ _, l) i L)) s.
Proof.
  intros HL Hcid. destruct (lookup_lt_is_Some_2 L cid) as [lc Hlc]; [done|].
  destruct (fl_lookup _ _ _ _ HL Hlc) as (r & Hr & Hc & Hm).
  rw /kalloc. apply wp_bind. rw /wp /getl Hr. apply wp_bind.
  assert (∀ i r s1, page_taken s L i r s1 → (i = cid ∨ L !! cid = Some []) →
    wp (when (negb (r =? 0)) (modify (set_pm (λ m, memset m r 5 PGSIZE)));; mret r) (λ r s',
      (r = 0 ∧ s' = s ∧ concat L = [])
      ∨ ∃ i l, L !! i = Some (r :: l) ∧ (i = cid ∨ L !! cid = Some []) ∧ managed r
        ∧ free_lists s' (alter (λ _, l) i L) ∧ concat L ≡ₚ r :: concat (alter (λ _, l) i L)) s1) as Hdone.
  { intros i r' s1 (l & Hl & Hnz & Hma & _ & ->) Hcase. zdec. wp_unfold. right. exists i, l.
    destruct (pop_spec s L i r' l (memset (pm s) r' 5 PGSIZE) HL Hl) as (_ & _ & _ & HL' & HP).
    { intros b Hb Hbr. destruct (managed_bounds b (fl_managed' _ _ _ HL Hb)) as (Hbl & ? & ?).
      destruct Hma as [Hral ?]. apply agree_sym, memset_agree. consts.
      destruct (pages_disjoint b r'); [done..|lia|lia]. }
    split_and!; done. }
  destruct lc as [|a l]; simpl in Hc.
  - subst r. simpl. eapply wp_mono; [|by apply steal_spec].
    intros r s1 [(-> & -> & Hno)|(i & Hi & Ht)]; [|by eapply Hdone; [|right]].
    wp_unfold. left. split_and!; try done.
    destruct (concat L) as [|a rest] eqn:E; [done|].
    assert (a ∈ concat L) as (i & l & Hi & Ha)%elem_of_concat_lookup by (rw E; set_solver).
    destruct (decide (i = cid)) as [->|Hne]; [simplify_eq; set_solver|].
    rewrite (Hno i l Hne Hi) in Ha. set_solver.
  - destruct (pop_spec s L cid a l (pm s) HL Hlc) as (Hr' & Hnz & Hma & _ & _); [done|].
    simplify_eq. zdec. wp_unfold. eapply Hdone; [|by left]. exists l. done.
Qed.

Lemma cpu_freerange_spec s L lo hi :
  free_lists s L → kend ≤ lo ≤ PHYSTOP → hi ≤ PHYSTOP →
  (∀ a, a ∈ concat L → a < PGROUNDUP lo ∨ hi ≤ a) →
  wp (freerange lo hi) (λ _ s', ∃ L', free_lists s' L'
    ∧ ∀ a, a ∈ concat L' ↔ a ∈ concat L ∨ a ∈ range_pages (PGROUNDUP lo) hi) s.
Proof.
  intros HL Hlo Hhi Hfresh. pose proof kend_lo. rw /freerange.
  assert (PGROUNDUP lo = lo + 4095 - (lo + 4095) mod 4096) as Hup
    by (apply PGROUNDUP_eq; consts; lia).
  set (lo' := PGROUNDUP lo) in *.
  apply (wp_loop (λ p s', ∃ L', free_lists s' L' ∧ page_aligned p ∧ lo' ≤ p ∧
            (∀ a, a ∈ concat L' ∨ a ∈ range_pages p hi ↔ a ∈ concat L ∨ a ∈ range_pages lo' hi) ∧
            (∀ a, a ∈ concat L' → a < p ∨ hi ≤ a))
          (λ p, Z.max 0 (hi - p))).
  - exists L. split_and!; try done. rw /page_aligned. lia.
  - consts. lia.
  - clear s HL. intros p s (L' & HL & Hal & Hp & Heq & Hl') _. consts. zbool.
    + apply wp_bind. eapply wp_mono; last first.
      { apply cpu_kfree_spec; [done| |].
        - split; [done|]. rw /page_aligned in Hal. consts. lia.
        - intros Hin. apply Hl' in Hin. lia. }
      intros _ s' (id & HL2 & Hid & _). apply wp_ret. split; [|lia].
      destruct (lookup_lt_is_Some_2 L' id) as [l Hl]; [done|].
      destruct (concat_alter L' id l (cons p) Hl) as (rest & P1 & P2).
      assert (∀ a, a ∈ concat (alter (cons p) id L') ↔ a = p ∨ a ∈ concat L') as Hin.
      { intros a. rw P1 P2 /= elem_of_cons. done. }
      exists (alter (cons p) id L'). split_and!; [done| |lia| |].
      * rw /page_aligned in Hal *. lia.
      * intros a. rw -Heq Hin (range_pages_cons p hi); [|lia]. rw elem_of_cons. tauto.
      * intros a [->|Ha]%Hin; [lia|]. apply Hl' in Ha. lia.
    + apply wp_ret. exists L'. split; [done|]. intros a. rw -Heq range_pages_nil; [|lia]. set_solver.
Qed.

(** Page [a] lies inside the share of CPU [id]. *)
Definition in_share (id : nat) (a : Z) : Prop :=
  kend + Z.of_nat id * chunk ≤ a ∧ a + PGSIZE ≤ PHYSTOP - (NCPU - Z.of_nat id - 1) * chunk.

Lemma cpu_kinit_spec s :
  s.(kmem) = replicate (Z.to_nat NCPU) 0 →
  wp kinit (λ _ s', ∃ L, free_lists s' L ∧
    ∀ a, a ∈ concat L ↔ page_aligned a ∧ ∃ id, (id < Z.to_nat NCPU)%nat ∧ in_share id a) s.
Proof.
  intros Hk. pose proof kend_lo. pose proof kend_hi. pose proof chunk_bounds as [Hc0 Hc].
  rw /kinit. apply wp_bind.
  eapply wp_mono; [|apply (wp_for_each (λ dn s', ∃ L, free_lists s' L ∧
    ∀ a, a ∈ concat L ↔ page_aligned a ∧ ∃ id, (id < length dn)%nat ∧ in_share id a) (λ _ _, False))].
  - intros [[]|] s' H'; [done|]. destruct H' as (L & HL & Hin). apply wp_ret. exists L. split; [done|]. exact Hin.
  - exists (replicate (Z.to_nat NCPU) []). split; [split|].
    + by rw length_replicate.
    + rw Hk. by repeat constructor.
    + intros l a [-> _]%elem_of_replicate. set_solver.
    + constructor.
    + intros a. change (concat (replicate (Z.to_nat NCPU) [])) with (@nil Z). simpl.
      split; [by intros ?%elem_of_nil|]. intros (_ & id & ? & _). lia.
  - intros dn id td s' Heq (L & HL & Hin). apply seq_prefix in Heq as (Hid & -> & _).
    rw /NCPU in Hid Hc *. remember (length dn) as k eqn:Ek.
    assert (Z.of_nat k * chunk ≤ 7 * chunk) by nia.
    assert (0 ≤ Z.of_nat k * chunk) by nia.
    assert ((8 - Z.of_nat k - 1) * chunk = 8 * chunk - Z.of_nat k * chunk - chunk) as Hend by ring.
    assert (PHYSTOP < 2 ^ 63 ∧ 0 ≤ kend) as [??] by (consts; lia).
    rewrite -> !u64_small by lia.
    assert (PGROUNDUP (kend + Z.of_nat k * chunk) = kend + Z.of_nat k * chunk + 4095
      - (kend + Z.of_nat k * chunk + 4095) mod 4096) as Hup by (apply PGROUNDUP_eq; consts; lia).
    apply wp_bind. eapply wp_mono; [|apply (cpu_freerange_spec _ L); [done|lia|lia|]].
    + intros [] s2 (L' & HL' & Hin'). apply wp_ret. exists L'. split; [done|]. intros a.
      rw Hin' Hin elem_of_range_pages length_app -Ek /=. rw /in_share /page_aligned /NCPU. consts. split.
      * intros [(Ha & id & Hidk & Hs)|(Ha1 & Ha2 & Ha3)].
        -- split; [done|]. exists id. split; [lia|done].
        -- split; [lia|]. exists k. split; [lia|]. lia.
      * intros (Ha & id & Hidk & Hs). destruct (decide (id = k)) as [->|Hne].
        -- right. lia.
        -- left. split; [done|]. exists id. split; [lia|done].
    + intros a (Ha & id & Hidk & Hs1 & Hs2)%Hin. left. rw /NCPU in Hs2. consts.
      assert ((8 - Z.of_nat k) * chunk ≤ (8 - Z.of_nat id - 1) * chunk)%Z by nia.
      assert ((8 - Z.of_nat k) * chunk = 8 * chunk - Z.of_nat k * chunk) as E by ring.
      lia.
Qed.

(** ** Theorems *)


(** [kfree] of a page of RAM that is not free never panics ([pa2cpuid]
    finds a CPU for every page) and adds exactly that page to the free lists. *)
Theorem kfree_adds_one s L pa :
  free_lists s L → managed pa → pa ∉ concat L →
  ∃ s' L', kfree pa s = Ok (tt, s') ∧ free_lists s' L' ∧ concat L' ≡ₚ pa :: concat L.
Proof.
  intros HL Hm Hn. destruct (wp_run _ _ _ (cpu_kfree_spec s L pa HL Hm Hn)) as ([] & s' & Hrun & id & HL' & Hid & _).
  exists s', (alter (cons pa) id L). split_and!; try done.
  destruct (lookup_lt_is_Some_2 L id Hid) as [l Hl].
  destruct (concat_alter L id l (cons pa) Hl) as (rest & P1 & P2). by rw P1 P2.
Qed.

(** [kinit] frees exactly the pages that lie inside one CPU's share of RAM;
    a page that straddles the boundary of two shares is on no list. *)
Theorem kinit_frees_shares m :
  ∃ s L, kinit (MkPst m (replicate (Z.to_nat NCPU) 0)) = Ok (tt, s) ∧ free_lists s L ∧
    ∀ a, a ∈ concat L ↔ page_aligned a ∧ ∃ id, (id < Z.to_nat NCPU)%nat ∧ in_share id a.
Proof.
  destruct (wp_run _ _ _ (cpu_kinit_spec (MkPst m (replicate (Z.to_nat NCPU) 0)) eq_refl))
    as ([] & s & Hrun & L & ? & ?). by exists s, L.
Qed.

End kalloc_cpu.

(** The page at 0x81021000 is whole, is RAM the kernel manages, and is in no
    CPU's share: [kinit] never frees it. *)
Lemma straddling_page : managed (KI := pgtbl_image) 0x81021000
  ∧ ¬ ∃ id, (id < Z.to_nat NCPU)%nat ∧ in_share (KI := pgtbl_image) id 0x81021000.
Proof.
  split; [by split; vm_compute|]. intros (id & Hid & H1 & H2).
  change (Z.to_nat NCPU) with 8%nat in Hid.
  do 8 (destruct id as [|id]; [exfalso; vm_compute in H1, H2; first [exact (H1 eq_refl)|exact (H2 eq_refl)]|]). lia.
Qed.

Definition demo_state : pst := MkPst (st64 (λ _, 0) 0x80030000 0) (<[2%nat := 0x80030000]> (replicate 8 0)).
Definition demo_lists : list (list Z) := <[2%nat := [0x80030000]]> (replicate 8 []).
Lemma cpu_demo_ok : free_lists (KI := pgtbl_image) demo_state demo_lists.
Proof.
  split.
  - done.
  - repeat constructor.
  - intros l a Hl Ha. assert (a ∈ concat demo_lists) as Hin.
    { apply list_elem_of_In, in_concat. exists l. split; by apply list_elem_of_In. }
    apply list_elem_of_singleton in Hin as ->. split; by vm_compute.
  - by apply (bool_decide_unpack _); vm_compute.
Qed.


Lemma kfree_adds_one_witness :
  ∃ s' L', kfree (KI := pgtbl_image) 0x80040000 demo_state = Ok (tt, s')
    ∧ free_lists (KI := pgtbl_image) s' L' ∧ concat L' ≡ₚ 0x80040000 :: concat demo_lists.
Proof.
  apply (kfree_adds_one (KI := pgtbl_image) demo_state demo_lists 0x80040000); [apply cpu_demo_ok|by split; vm_compute|].
  intros Hin. apply list_elem_of_singleton in Hin. discriminate.
Defined.
End KallocCpu.
