(* ===== verification/Cow.v ===== *)
(** * Copy-on-write fork (cow lab: [kalloc.c], [vm.c], [walkcowaddr] of [trap.c])

    Every physical page has an eight-bit reference count; [kfree] drops a
    reference and frees the page with the last one, [uvmcopy] shares the
    parent's pages read-only, and [walkcowaddr] gives a writer its own copy.
    The page-table code is that of [Vm.v] over the counting allocator. *)

From S2P Require Import Prelude Machine Kalloc Vm.

Module Cow.

(** Memory and free list as in [Kalloc.v], and [cows[].ref_cnt]. *)
Record cst := MkCst { ck : kst; cows : Z → Z }.
Definition set_ck (k : kst) (s : cst) : cst := MkCst k s.(cows).
Definition set_cows (f : (Z → Z) → Z → Z) (s : cst) : cst := MkCst s.(ck) (f s.(cows)).
Definition set_km (f : mem → mem) (s : cst) : cst := MkCst (Kalloc.set_km f s.(ck)) s.(cows).
Definition set_freelist (r : Z) (s : cst) : cst := MkCst (Kalloc.set_freelist r s.(ck)) s.(cows).
Definition cm (s : cst) : mem := s.(ck).(km).

Section cow.
Context `{KI : KernelImage}.

(** ** [kalloc.c] *)

Definition cow_index (pa : Z) : Z := Z.shiftr (pa - KERNBASE) 12.
Definition upd_cnt (i v : Z) (c : Z → Z) : Z → Z := λ j, if j =? i then v else c j.

Definition increfcnt (pa : Z) : M cst unit :=
  if pa <? KERNBASE then mret tt else
  let i := cow_index pa in
  modify (set_cows (λ c, upd_cnt i (u8 (c i + 1)) c)).

Definition decrefcnt (pa : Z) : M cst Z :=
  if pa <? KERNBASE then mret 0 else
  let i := cow_index pa in
  modify (set_cows (λ c, upd_cnt i (u8 (c i - 1)) c));;
  gets (λ s, s.(cows) i).

Definition kfree (pa : Z) : M cst unit :=
  if negb (pa mod PGSIZE =? 0) || (pa <? kend) || (PHYSTOP <=? pa) then panic "kfree"
  else
    c ← decrefcnt pa;
    if negb (c =? 0) then mret tt else
    modify (set_km (λ m, memset m pa 1 PGSIZE));;
    let r := pa in
    fl ← gets (λ s, freelist s.(ck));
    modify (set_km (λ m, st64 m r fl));;
    modify (set_freelist r).

Definition kalloc : M cst Z :=
  r ← gets (λ s, freelist s.(ck));
  when (negb (r =? 0))
    (nxt ← gets (λ s, ld64 (cm s) r); modify (set_freelist nxt));;
  increfcnt r;;
  when (negb (r =? 0)) (modify (set_km (λ m, memset m r 5 PGSIZE)));;
  mret r.

Definition freerange (pa_start pa_end : Z) : M cst unit :=
  loop (λ p, if p + PGSIZE <=? pa_end then increfcnt p;; kfree p;; mret (inl (p + PGSIZE))
             else mret (inr tt))
    (PGROUNDUP pa_start).

Definition kinit : M cst unit := freerange kend PHYSTOP.

(** ** [vm.c] *)

Definition walk (pagetable va : Z) (alloc : bool) : M cst Z :=
  if MAXVA <=? va then panic "walk" else
  loop (λ '(level, pagetable),
    if 0 <? level then
      let pte := pagetable + 8 * PX level va in
      v ← gets (λ s, ld64 (cm s) pte);
      if has v PTE_V then mret (inl (level - 1, PTE2PA v))
      else if negb alloc then mret (inr 0)
      else
        page ← kalloc;
        if page =? 0 then mret (inr 0)
        else
          modify (set_km (λ m, memset m page 0 PGSIZE));;
          modify (set_km (λ m, st64 m pte (Z.lor (PA2PTE page) PTE_V)));;
          mret (inl (level - 1, page))
    else mret (inr (pagetable + 8 * PX 0 va))) (2, pagetable).

Definition walkaddr (pagetable va : Z) : M cst Z :=
  if MAXVA <=? va then mret 0 else
  pte ← walk pagetable va false;
  if pte =? 0 then mret 0 else
  v ← gets (λ s, ld64 (cm s) pte);
  if negb (has v PTE_V) then mret 0
  else if negb (has v PTE_U) then mret 0
  else mret (PTE2PA v).

Definition mappages (pagetable va size pa perm : Z) : M cst Z :=
  if size =? 0 then panic "mappages: size" else
  let a := PGROUNDDOWN va in
  let last := PGROUNDDOWN (u64 (va + size - 1)) in
  loop (λ '(a, pa),
    pte ← walk pagetable a true;
    if pte =? 0 then mret (inr (-1)) else
    v ← gets (λ s, ld64 (cm s) pte);
    if has v PTE_V then panic "mappages: remap" else
    modify (set_km (λ m, st64 m pte (Z.lor (Z.lor (PA2PTE pa) perm) PTE_V)));;
    if a =? last then mret (inr 0)
    else mret (inl (u64 (a + PGSIZE), u64 (pa + PGSIZE)))) (a, pa).

Definition uvmunmap (pagetable va npages : Z) (do_free : bool) : M cst unit :=
  if negb (va mod PGSIZE =? 0) then panic "uvmunmap: not aligned" else
  loop (λ a,
    if a <? u64 (va + npages * PGSIZE) then
      pte ← walk pagetable a false;
      if pte =? 0 then panic "uvmunmap: walk" else
      v ← gets (λ s, ld64 (cm s) pte);
      if negb (has v PTE_V) then panic "uvmunmap: not mapped" else
      if PTE_FLAGS v =? PTE_V then panic "uvmunmap: not a leaf" else
      when do_free (kfree (PTE2PA v));;
      modify (set_km (λ m, st64 m pte 0));;
      mret (inl (u64 (a + PGSIZE)))
    else mret (inr tt)) va.

Definition kvmmap (kpgtbl va pa sz perm : Z) : M cst unit :=
  r ← mappages kpgtbl va sz pa perm;
  if negb (r =? 0) then panic "kvmmap" else mret tt.

Definition uvmcreate : M cst Z :=
  pagetable ← kalloc;
  if pagetable =? 0 then mret 0 else
  modify (set_km (λ m, memset m pagetable 0 PGSIZE));;
  mret pagetable.

Definition uvminit (pagetable : Z) (src : list Z) (sz : Z) : M cst unit :=
  if PGSIZE <=? sz then panic "inituvm: more than a page" else
  mem ← kalloc;
  modify (set_km (λ m, memset m mem 0 PGSIZE));;
  mappages pagetable 0 PGSIZE mem (Z.lor (Z.lor (Z.lor PTE_W PTE_R) PTE_X) PTE_U);;
  modify (set_km (λ m, mem_write m mem (take (Z.to_nat sz) src))).

Definition uvmdealloc (pagetable oldsz newsz : Z) : M cst Z :=
  if oldsz <=? newsz then mret oldsz else
  when (PGROUNDUP newsz <? PGROUNDUP oldsz)
    (let npages := s32 ((PGROUNDUP oldsz - PGROUNDUP newsz) / PGSIZE) in
     uvmunmap pagetable (PGROUNDUP newsz) npages true);;
  mret newsz.

Definition uvmalloc (pagetable oldsz newsz : Z) : M cst Z :=
  if newsz <? oldsz then mret oldsz else
  let oldsz := PGROUNDUP oldsz in
  loop (λ a,
    if a <? newsz then
      mem ← kalloc;
      if mem =? 0 then
        uvmdealloc pagetable a oldsz;; mret (inr 0)
      else
        modify (set_km (λ m, memset m mem 0 PGSIZE));;
        r ← mappages pagetable a PGSIZE mem (Z.lor (Z.lor (Z.lor PTE_W PTE_X) PTE_R) PTE_U);
        if negb (r =? 0) then
          kfree mem;; uvmdealloc pagetable a oldsz;; mret (inr 0)
        else mret (inl (u64 (a + PGSIZE)))
    else mret (inr newsz)) oldsz.

Fixpoint freewalk (depth : nat) (pagetable : Z) : M cst unit :=
  match depth with
  | O => out_of_fuel
  | S depth =>
      loop (λ i,
        if i <? 512 then
          pte ← gets (λ s, ld64 (cm s) (pagetable + 8 * i));
          if has pte PTE_V && (Z.land pte (Z.lor (Z.lor PTE_R PTE_W) PTE_X) =? 0) then
            freewalk depth (PTE2PA pte);;
            modify (set_km (λ m, st64 m (pagetable + 8 * i) 0));;
            mret (inl (i + 1))
          else if has pte PTE_V then panic "freewalk: leaf"
          else mret (inl (i + 1))
        else mret (inr tt)) 0;;
      kfree pagetable
  end.

Definition uvmfree (pagetable sz : Z) : M cst unit :=
  when (0 <? sz) (uvmunmap pagetable 0 (PGROUNDUP sz / PGSIZE) true);;
  freewalk 3 pagetable.

Definition uvmcopy (old new sz : Z) : M cst Z :=
  loop (λ i,
    let err := uvmunmap new 0 (i / PGSIZE) true;; mret (inr (-1)) in
    if i <? sz then
      pte ← walk old i false;
      if pte =? 0 then panic "uvmcopy: pte should exist" else
      v ← gets (λ s, ld64 (cm s) pte);
      if negb (has v PTE_V) then panic "uvmcopy: page not present" else
      let pa := PTE2PA v in
      let flags := Z.lor (Z.land (PTE_FLAGS v) (Z.lnot PTE_W)) PTE_COW in
      modify (set_km (λ m, st64 m pte (Z.lor (PA2PTE pa) flags)));;
      r ← mappages new i PGSIZE pa flags;
      if negb (r =? 0) then err
      else increfcnt pa;; mret (inl (u64 (i + PGSIZE)))
    else mret (inr 0)) 0.

Definition uvmclear (pagetable va : Z) : M cst unit :=
  pte ← walk pagetable va false;
  if pte =? 0 then panic "uvmclear" else
  modify (set_km (λ m, st64 m pte (Z.land (ld64 m pte) (Z.lnot PTE_U)))).

(** ** [walkcowaddr] of [trap.c], and [copyout] of [vm.c] that uses it *)

Definition walkcowaddr (pagetable va : Z) : M cst Z :=
  if MAXVA <=? va then mret 0 else
  pte ← walk pagetable va false;
  if pte =? 0 then mret 0 else
  v ← gets (λ s, ld64 (cm s) pte);
  if negb (has v PTE_V) then mret 0
  else if negb (has v PTE_U) then mret 0
  else
  let pa := PTE2PA v in
  if negb (has v PTE_W) then
    if negb (has v PTE_COW) then mret 0 else
    mem ← kalloc;
    if mem =? 0 then mret 0 else
    modify (set_km (λ m, memmove m mem pa PGSIZE));;
    v ← gets (λ s, ld64 (cm s) pte);
    let flags := Z.lor (Z.land (PTE_FLAGS v) (Z.lnot PTE_COW)) PTE_W in
    uvmunmap pagetable (PGROUNDDOWN va) 1 true;;
    r ← mappages pagetable (PGROUNDDOWN va) PGSIZE mem flags;
    if negb (r =? 0) then kfree mem;; mret 0
    else mret mem
  else mret pa.

Definition copyout (pagetable dstva : Z) (src : list Z) (len : Z) : M cst Z :=
  loop (λ '(dstva, src, len),
    if 0 <? len then
      let va0 := PGROUNDDOWN dstva in
      pa0 ← walkcowaddr pagetable va0;
      if pa0 =? 0 then mret (inr (-1)) else
      let n := PGSIZE - (dstva - va0) in
      let n := if len <? n then len else n in
      modify (set_km (λ m, mem_write m (pa0 + (dstva - va0)) (take (Z.to_nat n) src)));;
      mret (inl (u64 (va0 + PGSIZE), drop (Z.to_nat n) src, len - n))
    else mret (inr 0)) (dstva, src, len).

Definition copyin (pagetable srcva len : Z) : M cst (Z * list Z) :=
  loop (λ '(dst, srcva, len),
    if 0 <? len then
      let va0 := PGROUNDDOWN srcva in
      pa0 ← walkaddr pagetable va0;
      if pa0 =? 0 then mret (inr (-1, dst)) else
      let n := PGSIZE - (srcva - va0) in
      let n := if len <? n then len else n in
      bs ← gets (λ s, mem_read (cm s) (pa0 + (srcva - va0)) (Z.to_nat n));
      mret (inl (dst ++ bs, u64 (va0 + PGSIZE), len - n))
    else mret (inr (0, dst))) ([], srcva, len).

Definition copyinstr (pagetable srcva max : Z) : M cst (Z * list Z) :=
  loop (λ '(dst, srcva, max, got_null),
    if negb got_null && (0 <? max) then
      let va0 := PGROUNDDOWN srcva in
      pa0 ← walkaddr pagetable va0;
      if pa0 =? 0 then mret (inr (-1, dst)) else
      let n := PGSIZE - (srcva - va0) in
      let n := if max <? n then max else n in
      '(dst, max, got_null) ← loop (λ '(n, max, p, dst),
        if 0 <? n then
          c ← gets (λ s, ld8 (cm s) p);
          if c =? 0 then mret (inr (dst ++ [0], max, true))
          else mret (inl (n - 1, max - 1, p + 1, dst ++ [c]))
        else mret (inr (dst, max, false))) (n, max, pa0 + (srcva - va0), dst);
      mret (inl (dst, u64 (va0 + PGSIZE), max, got_null))
    else if (got_null : bool) then mret (inr (0, dst))
    else mret (inr (-1, dst))) ([], srcva, max, false).

End cow.
End Cow.
