(* ===== verification/CowProps.v ===== *)
(** * Copy-on-write: reference counts and isolation (cow lab) *)

From S2P Require Import Prelude Machine Kalloc Vm VmRep VmMap VmProps Cow.
Import Cow.

Module CowProps.

Section props.
Context `{KI : KernelImage}.
Implicit Types (s : cst) (t : gmap (list Z) Z).

Definition count s (a : Z) : Z := s.(cows) (cow_index a).

(** The free list is [l], and a page is free exactly when nobody refers to it. *)
Record cow_ok s (l : list Z) : Prop := {
  co_free : free_pages s.(ck) l;
  co_zero : ∀ a, managed a → a ∈ l ↔ count s a = 0;
  co_range : ∀ i, 0 ≤ s.(cows) i < 256;
}.

Lemma cow_index_eq a : managed a → cow_index a = (a - KERNBASE) / 4096.
Proof. intros _. rw /cow_index Z.shiftr_div_pow2; [done|lia]. Qed.
Lemma cow_index_inj a b : managed a → managed b → cow_index a = cow_index b → a = b.
Proof.
  intros Ha Hb. rw !cow_index_eq //. destruct (managed_bounds a Ha) as (H1 & H2 & _),
    (managed_bounds b Hb) as (H3 & H4 & _). rw /page_aligned in H1 H3. consts. lia.
Qed.

Lemma upd_cnt_eq i v c : upd_cnt i v c i = v.
Proof. by rw /upd_cnt Z.eqb_refl. Qed.

Lemma count_upd s a b v : managed a → managed b →
  upd_cnt (cow_index a) v s.(cows) (cow_index b) = if b =? a then v else count s b.
Proof.
  intros Ha Hb. rw /upd_cnt /count. zbool; try done.
  - exfalso. apply cow_index_inj in e; [congruence|done..].
  - subst. done.
Qed.

Lemma managed_lo a : managed a → KERNBASE ≤ a.
Proof. intros H. by destruct (managed_bounds a H) as (_ & ? & _). Qed.

Lemma cow_ok_upd s l a v :
  managed a → 0 < v < 256 → a ∉ l → cow_ok s l → cow_ok (MkCst s.(ck) (upd_cnt (cow_index a) v s.(cows))) l.
Proof.
  intros Ha Hv Hna [Hf Hz Hr]. split; simpl; [done|..].
  - intros b Hb. rw /count /= (count_upd s a b v) //. zbool; [|by apply Hz]. subst. split; [done|lia].
  - intros i. rw /upd_cnt. by zbool; [lia|].
Qed.

Lemma increfcnt_spec s l pa :
  cow_ok s l → managed pa → 1 ≤ count s pa < 255 →
  wp (increfcnt pa) (λ _ s', s' = MkCst s.(ck) (upd_cnt (cow_index pa) (count s pa + 1) s.(cows)) ∧ cow_ok s' l) s.
Proof.
  intros Hok Hpa Hc. rw /increfcnt. pose proof (managed_lo pa Hpa). zdec. wp_unfold.
  assert (u8 (cows s (cow_index pa) + 1) = count s pa + 1) as E by (rw u8_small; rw /count in Hc *; lia).
  rw /set_cows E. split; [done|]. apply cow_ok_upd; [done|lia| |done].
  intros Hin. apply (co_zero _ _ Hok) in Hin; [lia|done].
Qed.

(** Dropping one of several references. *)
Lemma kfree_shared s l pa :
  cow_ok s l → managed pa → 2 ≤ count s pa →
  wp (kfree pa) (λ _ s', s' = MkCst s.(ck) (upd_cnt (cow_index pa) (count s pa - 1) s.(cows)) ∧ cow_ok s' l) s.
Proof.
  intros Hok Hpa Hc. pose proof (managed_lo pa Hpa). pose proof Hpa as [Hal [Hk1 Hk2]].
  pose proof (co_range _ _ Hok (cow_index pa)) as Hr. rw /page_aligned in Hal.
  rw /kfree /decrefcnt. consts. zdec. wp_unfold.
  assert (u8 (cows s (cow_index pa) - 1) = count s pa - 1) as E by (rw u8_small; rw /count in Hc *; lia).
  rw -/(count s pa) in Hr. rw E upd_cnt_eq. zdec. rw /set_cows /= E. split; [done|].
  apply (cow_ok_upd s l pa); [done|lia| |done].
  intros Hin. apply (co_zero _ _ Hok) in Hin; [lia|done].
Qed.

(** Dropping the last reference frees the page, as the plain allocator does. *)
Lemma kfree_last s l pa :
  cow_ok s l → managed pa → count s pa = 1 →
  wp (kfree pa) (λ _ s', s'.(cows) = upd_cnt (cow_index pa) 0 s.(cows) ∧ cow_ok s' (pa :: l) ∧
    ∀ lo hi, hi ≤ pa ∨ pa + 4096 ≤ lo → agree (cm s') (cm s) lo hi) s.
Proof.
  intros Hok Hpa Hc. pose proof (managed_lo pa Hpa). pose proof Hpa as [Hal [Hk1 Hk2]].
  rw /page_aligned in Hal.
  assert (pa ∉ l) as Hnin by (intros Hin; apply (co_zero _ _ Hok) in Hin; [lia|done]).
  assert (kfree pa s = match Kalloc.kfree pa s.(ck) with
    | Ok (u, k') => Ok (u, MkCst k' (upd_cnt (cow_index pa) 0 s.(cows)))
    | Err f => Err f end) as Hrun.
  { rw /kfree /Kalloc.kfree /decrefcnt. consts. zdec. wp_unfold.
    rw /count in Hc. rw Hc upd_cnt_eq. wp_unfold. rw /set_cows /= ?Hc. done. }
  destruct (wp_run _ _ _ (Kalloc.kfree_spec _ _ _ (co_free _ _ Hok) Hpa Hnin)) as ([] & k' & Hk & Hfp & Hag).
  rw /wp Hrun Hk. split_and!; [done| |done]. split; simpl; [done|..].
  - intros b Hb. rw /count /= (count_upd s pa b 0) //. rw elem_of_cons (co_zero _ _ Hok) //.
    zbool; [naive_solver|]. naive_solver.
  - intros i. rw /upd_cnt. zbool; [lia|]. apply Hok.
Qed.

Lemma cow_kalloc_spec s l :
  cow_ok s l →
  wp kalloc (λ r s', match l with
    | [] => r = 0 ∧ s' = s
    | a :: l' => r = a ∧ managed a ∧ count s a = 0 ∧ s'.(cows) = upd_cnt (cow_index a) 1 s.(cows) ∧ cow_ok s' l' ∧
        ∀ lo hi, hi ≤ a ∨ a + 4096 ≤ lo → agree (cm s') (cm s) lo hi
    end) s.
Proof.
  intros Hok. pose proof (co_free _ _ Hok) as Hfp. destruct l as [|a l].
  - pose proof (fp_chain _ _ Hfp) as Hc. simpl in Hc. rw /kalloc /increfcnt. wp_unfold. rw Hc /=.
    by wp_unfold.
  - pose proof (fp_managed _ _ Hfp) as Hm. inversion Hm as [|?? Ha Hl]; subst.
    pose proof (fp_nodup _ _ Hfp) as [Hna _]%NoDup_cons.
    pose proof (managed_lo a Ha).
    assert (count s a = 0) as H0 by (apply (co_zero _ _ Hok); [done|set_solver]).
    assert (kalloc s = match Kalloc.kalloc s.(ck) with
      | Ok (r, k') => Ok (r, MkCst k' (upd_cnt (cow_index a) 1 s.(cows)))
      | Err f => Err f end) as Hrun.
    { destruct (fp_chain _ _ Hfp) as [Hfl _]. rw /kalloc /Kalloc.kalloc /increfcnt. wp_unfold. rw Hfl.
      assert (a ≠ 0) by (consts; lia). zdec. wp_unfold. rw /set_cows /=. do 3 f_equal.
      rw /count in H0. by rw H0. }
    destruct (wp_run _ _ _ (Kalloc.kalloc_spec _ _ Hfp)) as (r & k' & Hk & -> & Hfp' & Hag).
    rw /wp Hrun Hk. split_and!; try done. split; simpl; [done|..].
    + intros b Hb. rw /count /= (count_upd s a b 1) //. zbool.
      * subst. split; [done|lia].
      * rw -(co_zero _ _ Hok b Hb) elem_of_cons. naive_solver.
    + intros i. rw /upd_cnt. zbool; [lia|]. apply Hok.
Qed.

(** ** The allocator as abstract reference counting *)

Inductive cop := CAlloc | CShare (pa : Z) | CDrop (pa : Z).
Fixpoint run_cow (ops : list cop) : M cst (list Z) :=
  match ops with
  | [] => mret []
  | CAlloc :: ops => r ← kalloc; rs ← run_cow ops; mret (r :: rs)
  | CShare pa :: ops => increfcnt pa;; run_cow ops
  | CDrop pa :: ops => kfree pa;; run_cow ops
  end.

(** The specification: a stack of free pages and a count for each page.  [None]
    when the client shares or drops a page it has no reference to, or takes
    more than 255 references to one. *)
Fixpoint ref_ops (ops : list cop) (l : list Z) (c : Z → Z) : option (list Z * list Z * (Z → Z)) :=
  match ops with
  | [] => Some ([], l, c)
  | CAlloc :: ops =>
      match l with
      | [] => '(rs, l', c') ← ref_ops ops [] c; Some (0 :: rs, l', c')
      | a :: l => '(rs, l', c') ← ref_ops ops l (upd_cnt a 1 c); Some (a :: rs, l', c')
      end
  | CShare pa :: ops =>
      if bool_decide (pa mod 4096 = 0 ∧ kend ≤ pa < PHYSTOP ∧ 1 ≤ c pa < 255)
      then ref_ops ops l (upd_cnt pa (c pa + 1) c) else None
  | CDrop pa :: ops =>
      if bool_decide (pa mod 4096 = 0 ∧ kend ≤ pa < PHYSTOP ∧ 1 ≤ c pa)
      then ref_ops ops (if c pa =? 1 then pa :: l else l) (upd_cnt pa (c pa - 1) c) else None
  end.

Definition counts_are s (c : Z → Z) : Prop := ∀ a, managed a → count s a = c a.

Lemma counts_are_upd s s' c a v :
  managed a → counts_are s c → s'.(cows) = upd_cnt (cow_index a) v s.(cows) → counts_are s' (upd_cnt a v c).
Proof.
  intros Ha Hc E b Hb. rw /count E (count_upd s a b v) //. rw /upd_cnt. zbool; [done|]. by apply Hc.
Qed.

(** C22: the counting allocator implements reference counting: for every
    sequence of [kalloc], [increfcnt] and [kfree] in which the client only
    shares and drops pages it refers to, the code returns what the
    specification returns, a page goes back to the free list exactly when its
    last reference is dropped, and nothing panics. *)
Theorem cow_alloc_refines s l c ops rs l' c' :
  cow_ok s l → counts_are s c → ref_ops ops l c = Some (rs, l', c') →
  ∃ s', run_cow ops s = Ok (rs, s') ∧ cow_ok s' l' ∧ counts_are s' c'.
Proof.
  revert s l c rs. induction ops as [|[|pa|pa] ops IH]; simpl; intros s l c rs Hok Hc Hops.
  - injection Hops as <- <- <-. by exists s.
  - destruct (wp_run _ _ _ (cow_kalloc_spec s l Hok)) as (r & s1 & Hrun & Hpost).
    destruct l as [|a l].
    + destruct Hpost as [-> ->]. destruct (ref_ops ops [] c) as [[[rs0 l0] c0]|] eqn:E; simplify_eq/=.
      destruct (IH s [] c rs0 Hok Hc E) as (s2 & H1 & H2 & H3).
      exists s2. split; [|done]. by rw /mbind /M_bind Hrun /= H1.
    + destruct Hpost as (-> & Ha & _ & Hcows & Hok1 & _).
      destruct (ref_ops ops l _) as [[[rs0 l0] c0]|] eqn:E; simplify_eq/=.
      destruct (IH s1 l _ rs0 Hok1 (counts_are_upd _ _ _ _ _ Ha Hc Hcows) E) as (s2 & H1 & H2 & H3).
      exists s2. split; [|done]. by rw /mbind /M_bind Hrun /= H1.
  - case_bool_decide as Hpa; [|done]. destruct Hpa as (Hal & Hr & Hcnt).
    assert (managed pa) as Hm by done. rewrite <- (Hc pa Hm) in Hcnt, Hops.
    destruct (wp_run _ _ _ (increfcnt_spec s l pa Hok Hm Hcnt)) as ([] & s1 & Hrun & Hs1 & Hok1).
    destruct (IH _ l _ rs Hok1 (counts_are_upd s s1 _ pa (count s pa + 1) Hm Hc (f_equal cows Hs1)) Hops) as (s2 & H1 & H2 & H3).
    exists s2. split; [|done]. by rw /mbind /M_bind Hrun.
  - case_bool_decide as Hpa; [|done]. destruct Hpa as (Hal & Hr & Hcnt).
    assert (managed pa) as Hm by done. rewrite <- (Hc pa Hm) in Hcnt, Hops.
    destruct (Z.eqb_spec (count s pa) 1) as [H1|H1].
    + destruct (wp_run _ _ _ (kfree_last s l pa Hok Hm H1)) as ([] & s1 & Hrun & Hcows & Hok1 & _).
      rewrite -> H1 in Hops.
      destruct (IH s1 _ _ rs Hok1 (counts_are_upd s s1 _ pa 0 Hm Hc Hcows) Hops) as (s2 & E1 & E2 & E3).
      exists s2. split; [|done]. by rw /mbind /M_bind Hrun.
    + destruct (wp_run _ _ _ (kfree_shared s l pa Hok Hm ltac:(lia))) as ([] & s1 & Hrun & Hs1 & Hok1).
      destruct (IH _ _ _ rs Hok1 (counts_are_upd s s1 _ pa (count s pa - 1) Hm Hc (f_equal cows Hs1)) Hops) as (s2 & E1 & E2 & E3).
      exists s2. split; [|done]. by rw /mbind /M_bind Hrun.
Qed.

(** ** Page tables over the counting allocator *)

Lemma walk_run s t root va (alloc : bool) :
  pt_rep (cm s) t root → 0 ≤ va < MAXVA → alloc = false ∨ leaf_addr t va ≠ 0 →
  walk root va alloc s = Ok (leaf_addr t va, s).
Proof.
  intros Hr Hva Hnz. apply wp_eq_run. rw /walk. zdec.
  apply (wp_loop (λ '(level, pt) s', s' = s ∧ 0 ≤ level ≤ 2 ∧ t !! path_at va level = Some pt)
           (λ '(level, _), level)).
  - split_and!; [done|lia|lia|apply Hr].
  - lia.
  - intros [level pt] s' (-> & Hl & Hp) _.
    destruct (Z.ltb_spec 0 level).
    + destruct (path_at_next va level) as [Hnext Hlen]; [lia|].
      apply wp_gets_bind. rw (pt_node _ _ _ Hr _ _ _ Hp Hlen); [|by apply PX_range; lia].
      rw -Hnext. destruct (t !! path_at va (level - 1)) as [b|] eqn:Hb.
      * destruct (child_pte b) as [-> ->]; [by eapply pt_page|].
        apply wp_ret. split; [|lia]. split_and!; [done|lia|lia|done].
      * assert (leaf_addr t va = 0) as E by (apply (leaf_addr_missing _ _ _ _ _ Hr) in Hb; [done|lia]).
        destruct Hnz as [->|]; [|done]. by apply wp_ret.
    + assert (level = 0) as -> by lia. apply wp_ret. split; [|done].
      by destruct (leaf_addr_nz _ _ _ va pt Hr Hp) as [-> _].
Qed.

Lemma walk_existing s t root va alloc :
  pt_rep (cm s) t root → 0 ≤ va < MAXVA → leaf_addr t va ≠ 0 → walk root va alloc s = Ok (leaf_addr t va, s).
Proof. intros. apply walk_run; auto. Qed.

(** Mapping one page whose leaf table exists is one store. *)
Lemma mappages_one s t root va pa perm :
  pt_rep (cm s) t root → 0 ≤ va < MAXVA → page_aligned va → leaf_addr t va ≠ 0 →
  has (pte_of (cm s) t va) PTE_V = false →
  mappages root va PGSIZE pa perm s =
    Ok (0, set_km (λ m, st64 m (leaf_addr t va) (Z.lor (Z.lor (PA2PTE pa) perm) PTE_V)) s).
Proof.
  intros Hr Hva Hal Hnz Hv. apply wp_eq_run. rw /mappages. consts. zdec. rw /page_aligned in Hal.
  assert (PGROUNDDOWN va = va) as E1 by (rw PGROUNDDOWN_eq; lia).
  assert (PGROUNDDOWN (u64 (va + 4096 - 1)) = va) as E2 by (rw u64_small; [rw PGROUNDDOWN_eq|]; lia).
  rw E1 E2.
  apply (wp_loop (λ '(a, pa') s', a = va ∧ pa' = pa ∧ s' = s) (λ _, 0)); [done|lia|].
  intros [a pa'] s' (-> & -> & ->) _. apply wp_bind.
  eapply wp_of_run; [by apply walk_existing; consts|]. zdec.
  apply wp_gets_bind. rw (pte_of_leaf_addr (cm s) t va Hnz) Hv.
  apply wp_modify_bind. by apply wp_ret.
Qed.

(** Unmapping one page with [do_free] drops its reference and clears the PTE. *)
Lemma uvmunmap_one s t root va (Q : unit → cst → Prop) :
  pt_rep (cm s) t root → 0 ≤ va → va + 4096 ≤ MAXVA → page_aligned va → leaf_addr t va ≠ 0 →
  has (pte_of (cm s) t va) PTE_V = true → PTE_FLAGS (pte_of (cm s) t va) ≠ PTE_V →
  wp (kfree (PTE2PA (pte_of (cm s) t va)))
    (λ _ s', Q tt (set_km (λ m, st64 m (leaf_addr t va) 0) s')) s →
  wp (uvmunmap root va 1 true) Q s.
Proof.
  intros Hr Hva Hmax Hal Hnz Hv Hf Hk. rw /uvmunmap. rw /page_aligned in Hal. consts. zdec.
  rw (u64_small (va + 1 * 4096)); [|lia].
  apply (wp_loop (λ a s', (a = va ∧ s' = s) ∨ (a = va + 4096 ∧ Q tt s')) (λ a, va + 4096 - a)); [by left|lia|].
  intros a s' [[-> ->]|[-> HQ]] _; [|zdec; by apply wp_ret]. zdec. apply wp_bind.
  eapply wp_of_run; [by apply walk_existing; consts; try lia|]. zdec.
  apply wp_gets_bind. rw (pte_of_leaf_addr (cm s) t va Hnz) Hv. zdec.
  apply wp_bind. eapply wp_mono; [|exact Hk]. intros [] s' HQ. apply wp_modify_bind, wp_ret.
  rw u64_small; [|lia]. split; [right; by split|lia].
Qed.

(** ** [walkcowaddr] *)

Lemma leaf_addr_page t va : 0 ≤ va < MAXVA → leaf_addr t (PGROUNDDOWN va) = leaf_addr t va.
Proof.
  intros Hva. assert (0 ≤ PGROUNDDOWN va < MAXVA) as Hd by (rw PGROUNDDOWN_eq; lia).
  pose proof (PX_page va Hva) as E. pose proof (PX_page _ Hd) as E'.
  assert (PGROUNDDOWN va / 4096 = va / 4096) as Eq by (rw PGROUNDDOWN_eq; lia).
  pose proof (PX_range 0 va ltac:(lia)). pose proof (PX_range 0 (PGROUNDDOWN va) ltac:(lia)).
  pose proof (PX_range 1 va ltac:(lia)). pose proof (PX_range 1 (PGROUNDDOWN va) ltac:(lia)).
  pose proof (PX_range 2 va ltac:(lia)). pose proof (PX_range 2 (PGROUNDDOWN va) ltac:(lia)).
  rw /leaf_addr /leaf_path. assert (PX 2 (PGROUNDDOWN va) = PX 2 va ∧ PX 1 (PGROUNDDOWN va) = PX 1 va
    ∧ PX 0 (PGROUNDDOWN va) = PX 0 va) as (-> & -> & ->) by lia. done.
Qed.

Lemma cow_ok_mem s l m' :
  cow_ok s l → (∀ a, a ∈ l → agree (cm s) m' a (a + 4096)) → cow_ok (MkCst (MkKst m' (freelist s.(ck))) s.(cows)) l.
Proof.
  intros [Hf Hz Hr] Hag. split; [|done..]. by eapply free_pages_agree; [..|exact Hf].
Qed.

(** The state in which a process faults on a shared page: its table [t], the
    free list [l], and the copy-on-write PTE of [va]. *)
Record cow_fault s t (root : Z) (l : list Z) (va : Z) : Prop := {
  cf_ok : cow_ok s l;
  cf_rep : pt_rep (cm s) t root;
  cf_free : pt_free t l;
  cf_va : 0 ≤ va < MAXVA;
  cf_flags : has (pte_of (cm s) t va) PTE_V = true ∧ has (pte_of (cm s) t va) PTE_U = true
    ∧ has (pte_of (cm s) t va) PTE_W = false ∧ has (pte_of (cm s) t va) PTE_COW = true;
  cf_frame : managed (PTE2PA (pte_of (cm s) t va));
  cf_count : 1 ≤ count s (PTE2PA (pte_of (cm s) t va));
  cf_notable : ∀ p, t !! p ≠ Some (PTE2PA (pte_of (cm s) t va));
}.

(** The flags of the private copy: writable, no longer copy-on-write. *)
Definition cow_flags (v : Z) : Z := Z.lor (Z.land (PTE_FLAGS v) (Z.lnot PTE_COW)) PTE_W.
Definition cow_pte (v b : Z) : Z := Z.lor (Z.lor (PA2PTE b) (cow_flags v)) PTE_V.

Lemma cow_flags_range v : 0 ≤ cow_flags v < 1024.
Proof.
  assert (0 ≤ cow_flags v) as H0.
  { rw /cow_flags. apply Z.lor_nonneg. split; [|done]. apply Z.land_nonneg. left.
    rw PTE_FLAGS_mod. lia. }
  split; [done|]. change 1024 with (2 ^ 10). apply Z.bounded_iff_bits_nonneg; [lia|done|].
  intros k Hk. rw /cow_flags Z.lor_spec Z.land_spec.
  rw (testbit_high (PTE_FLAGS v) 10 k); [|rw PTE_FLAGS_mod; change (2 ^ 10) with 1024; lia|done].
  rw (testbit_high PTE_W 10 k); [done|by vm_compute|done].
Qed.

(** The private copy is writable by the process and holds the page [b]. *)
Lemma cow_pte_props v b : managed b → has v PTE_U = true →
  PTE2PA (cow_pte v b) = b ∧ has (cow_pte v b) PTE_V = true ∧ has (cow_pte v b) PTE_W = true
  ∧ has (cow_pte v b) PTE_COW = false ∧ has (cow_pte v b) PTE_U = true.
Proof.
  intros Hb HU. destruct (managed_bounds b Hb) as (Hal & Hlo & Hhi). consts.
  pose proof (cow_flags_range v) as Hf.
  assert (0 ≤ Z.lor (cow_flags v) PTE_V < 1024) as Hf1.
  { split; [apply Z.lor_nonneg; split; [lia|done]|]. change 1024 with (2 ^ 10).
    apply Z.bounded_iff_bits_nonneg; [lia|apply Z.lor_nonneg; split; [lia|done]|]. intros k Hk.
    rw Z.lor_spec (testbit_high (cow_flags v) 10 k); [|done|done].
    by rw (testbit_high PTE_V 10 k); [|by vm_compute|]. }
  rw /cow_pte -Z.lor_assoc. split; [by apply PTE2PA_mk; [|lia|]|].
  assert (∀ k, 0 ≤ k < 10 → Z.testbit (Z.lor (PA2PTE b) (Z.lor (cow_flags v) PTE_V)) k
    = ((Z.testbit v k && negb (k =? 8)) || (k =? 2) || (k =? 0))) as Hbit.
  { intros k Hk. rw testbit_mk; [|lia..]. rw /cow_flags !Z.lor_spec Z.land_spec Z.lnot_spec; [|lia].
    rw PTE_FLAGS_mod. change 1024 with (2 ^ 10). rw Z.mod_pow2_bits_low; [|lia].
    change PTE_COW with (2 ^ 8). change PTE_W with (2 ^ 2). change PTE_V with (2 ^ 0).
    rw !Z.pow2_bits_eqb; [|lia..]. rw (Z.eqb_sym 8) (Z.eqb_sym 2) (Z.eqb_sym 0). done. }
  rw /PTE_U (has_testbit _ 4) in HU; [|lia].
  rw /PTE_V /PTE_W /PTE_COW /PTE_U !has_testbit; [|lia..].
  rw -/PTE_V !Hbit; [|lia..]. rw HU. simpl. rw andb_false_r. split_and!; try done; by rw orb_true_r.
Qed.

(** A store to a leaf PTE touches no page outside the tables. *)
Lemma leaf_store_agree m m0 t root va v c :
  pt_rep m t root → leaf_addr t va ≠ 0 → page_aligned c → (∀ p, t !! p ≠ Some c) →
  agree (st64 m0 (leaf_addr t va) v) m0 c (c + 4096).
Proof.
  intros Hr Hnz Hc Hnt. rw /leaf_addr in Hnz *. destruct (t !! leaf_path va) as [q|] eqn:Hq; [|done].
  pose proof (PX_range 0 va ltac:(lia)). destruct (pt_page _ _ _ Hr _ _ Hq) as [Hqal _].
  apply st64_agree. destruct (pages_disjoint c q); [done..| |lia|lia]. intros ->. by apply (Hnt (leaf_path va)).
Qed.

(** Memory, counts and address space after the fault is handled with page [b]. *)
Record cow_done s t (root : Z) (l : list Z) (va b : Z) s' : Prop := {
  cd_rep : pt_rep (cm s') t root;
  cd_space : ∀ va', 0 ≤ va' < MAXVA → pte_of (cm s') t va' =
    if va' / 4096 =? va / 4096 then cow_pte (pte_of (cm s) t va) b else pte_of (cm s) t va';
  cd_copy : page_copy (cm s') b (cm s) (PTE2PA (pte_of (cm s) t va));
  cd_other : ∀ c, page_aligned c → c ≠ b → (∀ p, t !! p ≠ Some c) →
    c ≠ PTE2PA (pte_of (cm s) t va) ∨ 2 ≤ count s c → agree (cm s') (cm s) c (c + 4096);
  cd_ok : cow_ok s' (if count s (PTE2PA (pte_of (cm s) t va)) =? 1
                     then PTE2PA (pte_of (cm s) t va) :: l else l);
  cd_counts : ∀ c, managed c → count s' c =
    if c =? b then 1 else if c =? PTE2PA (pte_of (cm s) t va) then count s c - 1 else count s c;
}.

(** The two stores that replace the PTE, after the old reference was dropped. *)
Lemma cow_remap s t root va v b l :
  pt_rep (cm s) t root → cow_ok s l → pt_free t l → 0 ≤ va < MAXVA → leaf_addr t va ≠ 0 → managed b →
  let s1 := set_km (λ m, st64 m (leaf_addr t va) 0) s in
  wp (r ← mappages root (PGROUNDDOWN va) PGSIZE b (cow_flags v);
      if negb (r =? 0) then kfree b;; mret 0 else mret b)
    (λ r s', r = b ∧ s'.(cows) = s.(cows) ∧ cow_ok s' l ∧ pt_rep (cm s') t root
      ∧ (∀ va', 0 ≤ va' < MAXVA → pte_of (cm s') t va' =
           if va' / 4096 =? va / 4096 then cow_pte v b else pte_of (cm s) t va')
      ∧ (∀ c, page_aligned c → (∀ p, t !! p ≠ Some c) → agree (cm s') (cm s) c (c + 4096))) s1.
Proof.
  intros Hr Hok Hfree Hva Hnz Hb s1.
  assert (page_aligned (PGROUNDDOWN va) ∧ 0 ≤ PGROUNDDOWN va < MAXVA) as [Hal Hd]
    by (rw /page_aligned PGROUNDDOWN_eq; lia).
  assert (PGROUNDDOWN va / 4096 = va / 4096) as Hpg by (rw PGROUNDDOWN_eq; lia).
  destruct (pt_rep_store (cm s) t root va 0 Hr Hva Hnz ltac:(lia)) as [Hr1 Hsp1].
  assert (0 ≤ cow_pte v b < 2 ^ 64) as Hpr.
  { apply map_pte_range; [|apply cow_flags_range]. destruct (managed_bounds b Hb). consts. lia. }
  destruct (pt_rep_store (cm s1) t root va (cow_pte v b) Hr1 Hva Hnz Hpr) as [Hr2 Hsp2].
  apply wp_bind. eapply wp_of_run.
  { apply (mappages_one s1 t); [done|done|done|by rw leaf_addr_page|].
    change (has (pte_of (cm s1) t (PGROUNDDOWN va)) PTE_V = false).
    rw /s1 /cm /= Hsp1 // Hpg Z.eqb_refl. done. }
  rw leaf_addr_page // -/(cow_pte v b). simpl. apply wp_ret.
  assert (∀ c, page_aligned c → (∀ p, t !! p ≠ Some c) →
    agree (st64 (st64 (cm s) (leaf_addr t va) 0) (leaf_addr t va) (cow_pte v b)) (cm s) c (c + 4096)) as Hag.
  { intros c Hc Hnt. eapply agree_trans; by eapply leaf_store_agree. }
  split_and!; [done|done| |done| |done].
  - apply (cow_ok_mem s l); [done|]. intros a Ha. apply agree_sym, Hag.
    + pose proof (fp_managed _ _ (co_free _ _ Hok)) as Hm. rw Forall_forall in Hm. by apply Hm.
    + intros p Hp. by apply (Hfree p a).
  - intros va' Hva'. etrans; [by apply Hsp2|]. zbool; [done|]. etrans; [by apply Hsp1|]. by zdec.
Qed.

(** Copying the page into the fresh page [b]. *)
Lemma cow_copy s t root l b s1 va :
  pt_rep (cm s) t root → pt_free t (b :: l) → managed b → cow_ok s1 l →
  managed (PTE2PA (pte_of (cm s) t va)) → PTE2PA (pte_of (cm s) t va) ≠ b → b ∉ l →
  (∀ lo hi, hi ≤ b ∨ b + 4096 ≤ lo → agree (cm s1) (cm s) lo hi) →
  let s2 := set_km (λ m, memmove m b (PTE2PA (pte_of (cm s) t va)) PGSIZE) s1 in
  pt_rep (cm s2) t root ∧ (∀ va', pte_of (cm s2) t va' = pte_of (cm s) t va') ∧ cow_ok s2 l
  ∧ page_copy (cm s2) b (cm s) (PTE2PA (pte_of (cm s) t va))
  ∧ (∀ c, page_aligned c → c ≠ b → agree (cm s2) (cm s) c (c + 4096)).
Proof.
  intros Hr Hfree Hb Hok Hpa Hne Hnin Hag s2.
  destruct Hb as [Hbal Hbr], (managed_bounds _ Hpa) as (Hpal & _). set (pa := PTE2PA _) in *.
  assert (∀ c, page_aligned c → c ≠ b → agree (cm s2) (cm s) c (c + 4096)) as Hpages.
  { intros c Hc Hcb. destruct (pages_disjoint c b); [done..| |];
      (eapply agree_trans; [apply memmove_agree; consts; lia|apply Hag; lia]). }
  assert (∀ p a, t !! p = Some a → agree (cm s2) (cm s) a (a + 4096)) as Htab.
  { intros p a Hp. apply Hpages; [by destruct (pt_page _ _ _ Hr _ _ Hp)|].
    intros ->. apply (Hfree p b Hp). set_solver. }
  split_and!; [| | | |done].
  - eapply pt_rep_agree; [|done]. intros p a Hp _. apply agree_sym. by eapply Htab.
  - apply same_space_agree. exact Htab.
  - apply (cow_ok_mem s1 l); [done|]. intros a Ha.
    assert (managed a) as [Haal _].
    { pose proof (fp_managed _ _ (co_free _ _ Hok)) as Hm. rw Forall_forall in Hm. by apply Hm. }
    apply agree_sym. destruct (pages_disjoint a b); [done..| | |];
      [intros ->; done|apply memmove_agree; consts; lia..].
  - intros x Hx. rw /s2 /cm /= /memmove. consts. zdec. replace (b + x - b) with x by lia.
    destruct (pages_disjoint pa b); [done..| |]; apply (Hag pa (pa + 4096)); lia.
Qed.

(** Dropping the reference to [pa], the last one or not. *)
Lemma cow_drop s t root l pa :
  pt_rep (cm s) t root → cow_ok s l → pt_free t l → managed pa → 1 ≤ count s pa → (∀ p, t !! p ≠ Some pa) →
  let L := if count s pa =? 1 then pa :: l else l in
  wp (kfree pa) (λ _ s', cow_ok s' L ∧ pt_free t L ∧ pt_rep (cm s') t root
    ∧ (∀ va, pte_of (cm s') t va = pte_of (cm s) t va)
    ∧ s'.(cows) = upd_cnt (cow_index pa) (count s pa - 1) s.(cows)
    ∧ ∀ c, page_aligned c → c ≠ pa ∨ 2 ≤ count s pa → agree (cm s') (cm s) c (c + 4096)) s.
Proof.
  intros Hr Hok Hfree Hpa Hc Hnt. simpl. destruct (Z.eqb_spec (count s pa) 1) as [H1|H1].
  - eapply wp_mono; [|by apply kfree_last]. intros _ s' (Hcows & Hok' & Hag).
    assert (∀ c, page_aligned c → c ≠ pa → agree (cm s') (cm s) c (c + 4096)) as Hpg.
    { intros c Hcal Hne. destruct Hpa as [Hpal _]. destruct (pages_disjoint c pa); [done..| |]; apply Hag; lia. }
    assert (∀ p a, t !! p = Some a → agree (cm s') (cm s) a (a + 4096)) as Htab.
    { intros p a Hp. apply Hpg; [by destruct (pt_page _ _ _ Hr _ _ Hp)|]. intros ->. by apply (Hnt p). }
    split_and!; [done| | | | |].
    + intros p a Hp. apply not_elem_of_cons. split; [|by eapply Hfree]. intros ->. by apply (Hnt p).
    + eapply pt_rep_agree; [|done]. intros p a Hp _. apply agree_sym. by eapply Htab.
    + apply same_space_agree. exact Htab.
    + by rw Hcows H1.
    + intros c Hcal [Hne|?]; [by apply Hpg|lia].
  - eapply wp_mono; [|apply (kfree_shared s l pa); [done|done|lia]]. intros _ s' [-> Hok']. done.
Qed.

(** Copy-on-write isolation. When a process writes to a page it shares,
    [walkcowaddr] gives it a private copy: the PTE now maps the fresh page,
    writable, with the old contents; its other PTEs, the shared page and every
    other page keep their contents; the count of the shared page drops by one
    and the page is freed exactly if that was the last reference. *)
Lemma walkcowaddr_spec s t root b l va :
  cow_fault s t root (b :: l) va →
  ∃ s', walkcowaddr root va s = Ok (b, s') ∧ cow_done s t root l va b s'.
Proof.
  intros [Hok Hr Hfree Hva (HV & HU & HW & HC) Hpa Hcnt Hnt].
  set (v := pte_of (cm s) t va) in *. set (pa := PTE2PA v) in *.
  assert (leaf_addr t va ≠ 0) as Hnz.
  { intros E. rw /leaf_addr in E. rw /v /pte_of in HV. destruct (t !! leaf_path va) as [q|] eqn:Hq.
    - destruct (leaf_addr_nz _ _ _ va q Hr Hq) as [H1 H2]. congruence.
    - by rw has_0 in HV. }
  pose proof (fp_managed _ _ (co_free _ _ Hok)) as Hm. inversion Hm as [|?? Hb Hl]; subst.
  pose proof (fp_nodup _ _ (co_free _ _ Hok)) as [Hbl Hnd]%NoDup_cons.
  assert (pa ≠ b) as Hpab.
  { intros E. assert (pa ∈ b :: l) as Hin by (rw E; set_solver). apply (co_zero _ _ Hok) in Hin; [lia|done]. }
  assert (wp (walkcowaddr root va) (λ r s', r = b ∧ cow_done s t root l va b s') s) as Hwp; last first.
  { apply wp_run in Hwp as (r & s' & Hrun & -> & Hd). eauto. }
  rw /walkcowaddr. zdec. apply wp_bind. eapply wp_of_run; [by apply walk_existing|]. zdec.
  apply wp_gets_bind. rw (pte_of_leaf_addr (cm s) t va Hnz) -/v HV HU HW HC /=.
  apply wp_bind. eapply wp_mono; [|by apply (cow_kalloc_spec s (b :: l))].
  intros r s1 (-> & _ & Hb0 & Hcows & Hok1 & Hag).
  assert (b ≠ 0) by (pose proof (managed_nz b Hb); lia). zdec. apply wp_modify_bind, wp_gets_bind.
  destruct (cow_copy s t root l b s1 va) as (Hr2 & Hsp2 & Hok2 & Hcp2 & Hpg2); [done..|].
  set (s2 := set_km (λ m, memmove m b pa PGSIZE) s1) in *.
  rw (pte_of_leaf_addr (cm s2) t va Hnz) Hsp2 -/v -/(cow_flags v).
  assert (page_aligned (PGROUNDDOWN va) ∧ 0 ≤ PGROUNDDOWN va ∧ PGROUNDDOWN va + 4096 ≤ MAXVA) as (Hal & Hd & Hd')
    by (rw /page_aligned PGROUNDDOWN_eq; consts; lia).
  assert (pte_of (cm s2) t (PGROUNDDOWN va) = v) as Hv2.
  { rw -(pte_of_leaf_addr _ _ _); [|by rw leaf_addr_page].
    rw leaf_addr_page // pte_of_leaf_addr //. }
  assert (∀ c, managed c → count s2 c = if c =? b then 1 else count s c) as Hcnt2.
  { intros c Hc. change (count s2 c) with (s1.(cows) (cow_index c)). rw Hcows (count_upd s b c 1) //. }
  assert (count s2 pa = count s pa) as Hcp by (rw Hcnt2 //; by zdec).
  assert (pt_free t l) as Hfl by (intros p a Hp Ha; apply (Hfree p a Hp); set_solver).
  apply wp_bind. apply (uvmunmap_one s2 t); [done|done|done|done|by rw leaf_addr_page|..]; rw Hv2; [done| |].
  { intros E. assert (has (PTE_FLAGS v) PTE_U = false) as Hx by (by rw E).
    rw /PTE_U (has_testbit _ 4) in Hx; [|lia]. rw /PTE_U (has_testbit _ 4) in HU; [|lia].
    rw PTE_FLAGS_mod in Hx. change 1024 with (2 ^ 10) in Hx.
    rewrite -> Z.mod_pow2_bits_low in Hx by lia. congruence. }
  rw leaf_addr_page //. fold pa.
  eapply wp_mono; [|by apply (cow_drop s2 t root l pa); [..|lia|]].
  intros [] s3 (Hok3 & Hfree3 & Hr3 & Hsp3 & Hcows3 & Hpg3). rewrite -> Hcp in *.
  eapply wp_mono; [|by apply (cow_remap s3 t root va v b)].
  intros r s4 (-> & Hc4 & Hok4 & Hr4 & Hsp4 & Hpg4). split; [done|].
  assert (∀ c, page_aligned c → (∀ p, t !! p ≠ Some c) → c ≠ pa ∨ 2 ≤ count s pa →
    agree (cm s4) (cm s2) c (c + 4096)) as Hpg.
  { intros c Hc Hct Hcase. eapply agree_trans; [by apply Hpg4|by apply Hpg3]. }
  destruct (managed_bounds b Hb) as (Hbal & _).
  split; fold v; fold pa; [done| | | |done|].
  - intros va' Hva'. rw Hsp4 // Hsp3 Hsp2. done.
  - intros x Hx. rw -Hcp2 //. apply (Hpg b); [done| |by left|lia].
    intros p Hp. apply (Hfree p b Hp). set_solver.
  - intros c Hc Hcb Hct Hcase. eapply agree_trans; [apply Hpg; [done..|]|by apply Hpg2].
    destruct (decide (c = pa)) as [->|]; [|by left]. destruct Hcase; [done|by right].
  - intros c Hc. rw /count Hc4 Hcows3 (count_upd s2 pa c) // Hcnt2 //.
    by zbool; subst.
Qed.

End props.
End CowProps.

Module CowDemo.
Import CowProps.
Import VmProps.Demo.
#[local] Existing Instance pgtbl_image.

(** The demo memory of the page tables, with counts that are zero for the five
    free pages alone. *)
Lemma demo_cow_ok f : (∀ i, f i = 0 ↔ 0x100 ≤ i < 0x105) → (∀ i, 0 ≤ f i < 256) → cow_ok (MkCst s_demo f) l_demo.
Proof.
  intros Hz Hr. split; [exact demo_free| |exact Hr].
  intros a Ha. rw /count cow_index_eq //. destruct (managed_bounds a Ha) as (Hal & Hlo & Hhi).
  rw /page_aligned in Hal. change (cows _) with f. rw Hz /l_demo !elem_of_cons elem_of_nil.
  change (F 0) with 0x80100000. change (F 1) with 0x80101000.
  change (F 2) with 0x80102000. change (F 3) with 0x80103000. change (F 4) with 0x80104000.
  consts. split; intros; lia.
Qed.

(** [D] has two references. *)
Definition cows_demo (i : Z) : Z := if (0x100 <=? i) && (i <? 0x105) then 0 else if i =? 0x203 then 2 else 1.
Definition s_cow : cst := MkCst s_demo cows_demo.

Lemma cow_demo_ok : cow_ok s_cow l_demo.
Proof. apply demo_cow_ok; intros i; rw /cows_demo; zbool; simpl; zbool; lia. Qed.

(** Drop one reference to [D], take it again, drop both: [D] is then free
    and is the page the next [kalloc] returns. *)
Lemma cow_alloc_refines_witness : ∃ s',
  run_cow [CDrop D; CShare D; CDrop D; CDrop D; CAlloc; CAlloc] s_cow = Ok ([D; F 0], s') ∧
  cow_ok s' [F 1; F 2; F 3; F 4].
Proof.
  set (ops := [CDrop D; CShare D; CDrop D; CDrop D; CAlloc; CAlloc]).
  assert (fst <$> ref_ops ops l_demo (count s_cow) = Some ([D; F 0], [F 1; F 2; F 3; F 4])) as H
    by (vm_compute; reflexivity).
  destruct (ref_ops ops l_demo (count s_cow)) as [[[rs l'] c']|] eqn:Hops; [|discriminate].
  injection H as -> ->.
  destruct (cow_alloc_refines s_cow l_demo (count s_cow) ops [D; F 0] [F 1; F 2; F 3; F 4] c') as (s' & H1 & H2 & _).
  - exact cow_demo_ok.
  - by intros a Ha.
  - exact Hops.
  - exists s'. by split.
Defined.
End CowDemo.
