(* ===== verification/CowFork.v ===== *)
(** * Copy-on-write fork (cow lab)

    [uvmcopy] shares the parent's pages with the child instead of copying them.
    Both page tables then map the same frames read-only with [PTE_COW], every
    shared frame has one more reference, and no user page has changed; when a
    table for the child cannot be allocated, the child is emptied again and the
    counts are what they were.  A write by either process then goes to a copy
    of its own. *)

From S2P Require Import Prelude Machine Kalloc Vm VmRep VmMap VmProps Cow CowProps.
Import Cow CowProps.

Module CowFork.
Section fork.
Context `{KI : KernelImage}.
Implicit Types (s : cst) (t : gmap (list Z) Z) (l : list Z).

(** ** Shared entries *)

Definition shared_flags (v : Z) : Z := Z.lor (Z.land (PTE_FLAGS v) (Z.lnot PTE_W)) PTE_COW.
Definition shared (v : Z) : Z := Z.lor (PA2PTE (PTE2PA v)) (shared_flags v).

Lemma shared_flags_bits v k : 0 ≤ k < 10 →
  Z.testbit (shared_flags v) k = (Z.testbit v k && negb (k =? 2)) || (k =? 8).
Proof.
  intros Hk. rw /shared_flags Z.lor_spec Z.land_spec Z.lnot_spec; [|lia].
  rw PTE_FLAGS_mod. change 1024 with (2 ^ 10). rw Z.mod_pow2_bits_low; [|lia].
  change PTE_COW with (2 ^ 8). change PTE_W with (2 ^ 2). rw !Z.pow2_bits_eqb; [|lia..].
  by rw (Z.eqb_sym 8) (Z.eqb_sym 2).
Qed.

Lemma shared_flags_range v : 0 ≤ shared_flags v < 1024.
Proof.
  rw /shared_flags. apply lor_range_1024; [|by vm_compute]. rw PTE_FLAGS_mod.
  assert (0 ≤ Z.land (v mod 1024) (Z.lnot PTE_W)) as Hn by (apply Z.land_nonneg; lia). split; [done|].
  change 1024 with (2 ^ 10). apply Z.bounded_iff_bits_nonneg; [lia|done|]. intros k Hk.
  rw Z.land_spec (testbit_high (v mod 2 ^ 10) 10 k) //. change (2 ^ 10) with 1024. lia.
Qed.

(** [mappages] sets [PTE_V], which is set already. *)
Lemma shared_V v : has v PTE_V = true → Z.lor (shared_flags v) PTE_V = shared_flags v.
Proof.
  intros HV. change PTE_V with (Z.shiftl 1 0) in HV. rw has_testbit in HV; [|lia].
  apply Z.bits_inj'. intros k Hk. rw Z.lor_spec. change PTE_V with (2 ^ 0). rw Z.pow2_bits_eqb; [|lia].
  destruct (Z.eqb_spec 0 k) as [<-|]; [|by rw orb_false_r]. by rw shared_flags_bits // HV.
Qed.

Lemma shared_props v : managed (PTE2PA v) → has v PTE_V = true →
  0 ≤ shared v < 2 ^ 64 ∧ PTE2PA (shared v) = PTE2PA v ∧ has (shared v) PTE_V = true ∧
  has (shared v) PTE_W = false ∧ has (shared v) PTE_COW = true ∧ has (shared v) PTE_U = has v PTE_U ∧
  PTE_FLAGS (shared v) ≠ PTE_V.
Proof.
  intros Hm HV. destruct (managed_bounds _ Hm) as (Hal & Hlo & Hhi). consts.
  pose proof (shared_flags_range v) as Hf.
  assert (∀ k, 0 ≤ k < 10 → Z.testbit (shared v) k = (Z.testbit v k && negb (k =? 2)) || (k =? 8)) as Hb.
  { intros k Hk. rw /shared testbit_mk; [|lia..]. by apply shared_flags_bits. }
  change PTE_V with (Z.shiftl 1 0) in *. change PTE_W with (Z.shiftl 1 2). change PTE_COW with (Z.shiftl 1 8).
  change PTE_U with (Z.shiftl 1 4). rw has_testbit in HV; [|lia]. rw !has_testbit; [|lia..]. rw !Hb; [|lia..]. rw HV.
  split; [rw /shared pte_sum; [|lia..]; lia|]. split; [rw /shared PTE2PA_mk //; lia|].
  split_and!; [done|by rw andb_false_r|by rw orb_true_r|by rw andb_true_r orb_false_r|].
  intros E. assert (Z.testbit (PTE_FLAGS (shared v)) 8 = true) as H8; [|by rw E in H8].
  rw PTE_FLAGS_mod. change 1024 with (2 ^ 10). rw Z.mod_pow2_bits_low; [|lia]. rw Hb; [|lia]. by rw orb_true_r.
Qed.

(** ** Page tables that grow from the counting allocator *)

Lemma cow_ok_ck s k l : cow_ok s l → free_pages k l → cow_ok (MkCst k s.(cows)) l.
Proof. intros [_ Hz Hr] Hfp. by split. Qed.

(** What a table operation of one process leaves alone: the counts of pages
    that were in use. *)
Definition counts_kept l s s' : Prop := ∀ c, managed c → c ∉ l → count s' c = count s c.

Record grown s t l s' t' l' (root : Z) (sp : Z → Z) : Prop := {
  gr_ev : evolves s.(ck) t l s'.(ck) t' l' root sp;
  gr_ok : cow_ok s' l';
  gr_counts : counts_kept l s s';
  gr_used : ∃ u, l = u ++ l';
}.

Lemma cow_walk_alloc s t l root va :
  cow_ok s l → pt_rep (cm s) t root → pt_free t l → 0 ≤ va < MAXVA →
  wp (walk root va true) (λ r s', ∃ t' l', grown s t l s' t' l' root (pte_of (cm s) t) ∧
    (r = 0 ∧ l' = [] ∨ r = leaf_addr t' va ∧ r ≠ 0)) s.
Proof.
  intros Hok0 Hr0 Hf0 Hva. rw /walk. zdec.
  apply (wp_loop (λ '(level, pt) s', 0 ≤ level ≤ 2 ∧ ∃ t' l', grown s t l s' t' l' root (pte_of (cm s) t) ∧
      t' !! path_at va level = Some pt) (λ '(level, _), level)).
  - split; [lia|]. exists t, l. split; [|apply Hr0]. split; [|done|done|by exists []].
    by apply evolves_refl; [..|apply Hok0|].
  - lia.
  - intros [level pt] s2 (Hl & t2 & l2 & Hg & Hp) _. pose proof (gr_ev _ _ _ _ _ _ _ _ Hg) as Hev.
    pose proof (g_rep _ _ _ _ _ _ _ _ Hev) as Hr.
    destruct (Z.ltb_spec 0 level).
    + destruct (path_at_next va level) as [Hnext Hlen]; [lia|].
      apply wp_gets_bind. rw (pt_node _ _ _ Hr _ _ _ Hp Hlen); [|by apply PX_range; lia].
      rw -Hnext. destruct (t2 !! path_at va (level - 1)) as [b|] eqn:Hb.
      * destruct (child_pte b) as [-> ->]; [by eapply pt_page|].
        apply wp_ret. split; [|lia]. split; [lia|]. eauto.
      * simpl. apply wp_bind. eapply wp_mono; [|apply cow_kalloc_spec, Hg].
        intros r s3 Hk. destruct l2 as [|b l2].
        { destruct Hk as [-> ->]. apply wp_ret. exists t2, []. split; [done|by left]. }
        destruct Hk as (-> & Hbm & _ & Hcows & Hok3 & Hag). pose proof (managed_nz b Hbm). zdec.
        destruct Hg as [_ _ Hcnt [u Hu]].
        apply wp_modify_bind, wp_modify_bind, wp_ret. split; [|lia]. split; [lia|].
        assert (t2 !! (PX level va :: path_at va level) = None) as Hnone by (by rw -Hnext).
        pose proof (evolves_step _ _ _ _ _ _ _ _ _ _ _ b (ck s3) Hev Hp Hlen (PX_range level va ltac:(lia)) Hnone
          (co_free _ _ Hok3) Hag) as Hev'.
        exists (<[path_at va (level - 1) := b]> t2), l2. split; [|apply lookup_insert_eq]. rw Hnext. split.
        -- exact Hev'.
        -- apply (cow_ok_ck s3); [done|]. apply Hev'.
        -- intros c Hc Hnl. change (s3.(cows) (cow_index c) = count s c). rw Hcows (count_upd s2 b c 1) //.
           assert (c ≠ b) by set_solver. zdec. by apply Hcnt.
        -- exists (u ++ [b]). by rw Hu -app_assoc.
    + assert (level = 0) as -> by lia. apply wp_ret. exists t2, l2. split; [done|].
      right. by destruct (leaf_addr_nz _ _ _ va pt Hr Hp) as [-> ?].
Qed.

(** Mapping one page: the entry is written, or no page was left for a table. *)
Lemma cow_mappages s t l root va pa perm :
  cow_ok s l → pt_rep (cm s) t root → pt_free t l → 0 ≤ va → va + 4096 ≤ MAXVA → page_aligned va →
  0 ≤ pa < 2 ^ 56 → 0 ≤ perm < 1024 → has (pte_of (cm s) t va) PTE_V = false →
  wp (mappages root va PGSIZE pa perm) (λ r s', ∃ t' l',
    r = 0 ∧ grown s t l s' t' l' root (λ va', if va' / 4096 =? va / 4096
      then Z.lor (Z.lor (PA2PTE pa) perm) PTE_V else pte_of (cm s) t va') ∨
    r = -1 ∧ l' = [] ∧ grown s t l s' t' l' root (pte_of (cm s) t)) s.
Proof.
  intros Hok Hr Hf Hva Hmax Hal Hpa Hperm Hv. rw /mappages. consts. zdec. rw /page_aligned in Hal.
  assert (PGROUNDDOWN va = va) as E1 by (rw PGROUNDDOWN_eq; lia).
  assert (PGROUNDDOWN (u64 (va + 4096 - 1)) = va) as E2 by (rw u64_small; [rw PGROUNDDOWN_eq|]; lia).
  rw E1 E2.
  apply (wp_loop (λ '(a, pa') s', a = va ∧ pa' = pa ∧ s' = s) (λ _, 0)); [done|lia|].
  intros [a pa'] s' (-> & -> & ->) _. apply wp_bind.
  eapply wp_mono; [|apply (cow_walk_alloc s t l root va); try done; consts; lia].
  intros r s1 (t1 & l1 & Hg & [[-> ->]|[-> Hnz]]).
  { apply wp_ret. exists t1, []. by right. }
  destruct Hg as [Hev Hok1 Hcnt Hu]. zdec. apply wp_gets_bind.
  rw (pte_of_leaf_addr (cm s1) t1 va Hnz) (g_space _ _ _ _ _ _ _ _ Hev); [|consts; lia]. rw Hv.
  apply wp_modify_bind. zdec. apply wp_ret. exists t1, l1. left. split; [done|].
  pose proof (evolves_store _ _ _ _ _ _ _ _ va _ Hev ltac:(consts; lia) Hnz (map_pte_range pa perm Hpa Hperm)) as Hev'.
  split; [exact Hev'| |done|done]. apply (cow_ok_ck s1); [done|]. apply Hev'.
Qed.

(** All addresses of a page have the same entry. *)
Lemma pte_of_same_page m t va va' : 0 ≤ va < MAXVA → 0 ≤ va' < MAXVA → va / 4096 = va' / 4096 →
  pte_of m t va = pte_of m t va'.
Proof.
  intros Hva Hva' E. pose proof (PX_page va Hva). pose proof (PX_page va' Hva').
  pose proof (PX_range 0 va ltac:(lia)). pose proof (PX_range 0 va' ltac:(lia)).
  pose proof (PX_range 1 va ltac:(lia)). pose proof (PX_range 1 va' ltac:(lia)).
  pose proof (PX_range 2 va ltac:(lia)). pose proof (PX_range 2 va' ltac:(lia)).
  rw /pte_of /leaf_path. assert (PX 2 va = PX 2 va' ∧ PX 1 va = PX 1 va' ∧ PX 0 va = PX 0 va') as (-> & -> & ->) by lia.
  done.
Qed.

(** A store to a leaf of one table leaves another table alone. *)
Lemma other_table m t t' root root' va v : pt_rep m t root → pt_rep m t' root' → leaf_addr t va ≠ 0 →
  (∀ p q a, t !! p = Some a → t' !! q ≠ Some a) →
  pt_rep (st64 m (leaf_addr t va) v) t' root' ∧
  ∀ va', pte_of (st64 m (leaf_addr t va) v) t' va' = pte_of m t' va'.
Proof.
  intros Hr Hr' Hnz Hd.
  assert (∀ p a, t' !! p = Some a → agree (st64 m (leaf_addr t va) v) m a (a + 4096)) as Hag.
  { intros p a Hp. eapply leaf_store_agree; [done..| |].
    - by destruct (pt_page _ _ _ Hr' _ _ Hp).
    - intros q Hq. by eapply Hd. }
  split; [|by apply same_space_agree]. eapply pt_rep_agree; [|done]. intros p a Hp _. apply agree_sym. by eapply Hag.
Qed.

(** ** The loop of [uvmcopy] *)

(** A parent whose pages can be shared with an empty child. *)
Record forkable s (to tn : gmap (list Z) Z) (old new sz : Z) l : Prop := {
  fk_ok : cow_ok s l;
  fk_old : pt_rep (cm s) to old;
  fk_new : pt_rep (cm s) tn new;
  fk_old_free : pt_free to l;
  fk_new_free : pt_free tn l;
  fk_tab : ∀ p q a, to !! p = Some a → tn !! q ≠ Some a;
  fk_sz : 0 ≤ sz ≤ MAXVA;
  fk_page : ∀ i, 0 ≤ i → 4096 * i < sz → let v := pte_of (cm s) to (4096 * i) in
    has v PTE_V = true ∧ managed (PTE2PA v) ∧ 1 ≤ count s (PTE2PA v) < 255 ∧
    (∀ p, to !! p ≠ Some (PTE2PA v)) ∧ (∀ p, tn !! p ≠ Some (PTE2PA v));
  fk_inj : ∀ i j, 0 ≤ i → 4096 * i < sz → 0 ≤ j → 4096 * j < sz →
    PTE2PA (pte_of (cm s) to (4096 * i)) = PTE2PA (pte_of (cm s) to (4096 * j)) → i = j;
  fk_empty : ∀ va, 0 ≤ va < PGROUNDUP sz → pte_of (cm s) tn va = 0;
}.

Section copy.
Context s (to tn : gmap (list Z) Z) (old new sz : Z) l (F : forkable s to tn old new sz l).

Notation vp va := (pte_of (cm s) to va).
Notation fr i := (PTE2PA (pte_of (cm s) to (4096 * i))).

(** The parent's pages below [ko] are marked, the child maps those from [lo] to
    [k], and those from [lo] to [kc] are counted. *)
Record sharing (ko lo k kc : Z) s1 (t1 : gmap (list Z) Z) (l1 : list Z) : Prop := {
  sh_ok : cow_ok s1 l1;
  sh_old : pt_rep (cm s1) to old;
  sh_new : pt_rep (cm s1) t1 new;
  sh_new_free : pt_free t1 l1;
  sh_sub : l1 ⊆ l;
  sh_tabs : ∀ p a, t1 !! p = Some a → tn !! p = Some a ∨ a ∈ l;
  sh_old_space : ∀ va, 0 ≤ va < MAXVA →
    pte_of (cm s1) to va = if va <? 4096 * ko then shared (vp va) else vp va;
  sh_new_space : ∀ va, 0 ≤ va < MAXVA →
    pte_of (cm s1) t1 va = if (4096 * lo <=? va) && (va <? 4096 * k) then shared (vp va) else pte_of (cm s) tn va;
  sh_counted : ∀ i, lo ≤ i < kc → count s1 (fr i) = count s (fr i) + 1;
  sh_uncounted : ∀ c, managed c → c ∉ l → (∀ i, lo ≤ i < kc → c ≠ fr i) → count s1 c = count s c;
  sh_mem : ∀ c, page_aligned c → c ∉ l → (∀ p, to !! p ≠ Some c) → (∀ p, tn !! p ≠ Some c) →
    agree (cm s1) (cm s) c (c + 4096);
}.

Lemma sharing_start : sharing 0 0 0 0 s tn l.
Proof.
  destruct F. split; try done; [set_solver|auto|..].
  - intros va Hva. by zdec.
  - intros va Hva. by zdec.
  - lia.
Qed.

(** The parent's and the child's tables stay apart. *)
Lemma sharing_apart ko lo k kc s1 t1 l1 : sharing ko lo k kc s1 t1 l1 →
  (∀ p q a, to !! p = Some a → t1 !! q ≠ Some a) ∧ pt_free to l1 ∧
  (∀ c, c ∉ l → (∀ p, tn !! p ≠ Some c) → ∀ p, t1 !! p ≠ Some c).
Proof.
  intros [? ? ? ? Hsub Htabs ? ? ? ? ?]. destruct F. split_and!.
  - intros p q a Hp Hq. destruct (Htabs q a Hq) as [H|H]; [by eapply fk_tab0|by eapply fk_old_free0].
  - intros p a Hp Ha. eapply fk_old_free0; [done|]. by apply Hsub.
  - intros c Hc Hct p Hp. destruct (Htabs p c Hp) as [H|H]; [by eapply Hct|done].
Qed.

(** A frame of the parent is in use. *)
Lemma frame_used i : 0 ≤ i → 4096 * i < sz → fr i ∉ l.
Proof.
  intros Hi Hs Hin. destruct (fk_page _ _ _ _ _ _ _ F i Hi Hs) as (_ & Hm & Hc & _).
  apply (co_zero _ _ (fk_ok _ _ _ _ _ _ _ F)) in Hin; [lia|done].
Qed.

Lemma leaf_of_valid m t root va : pt_rep m t root → has (pte_of m t va) PTE_V = true → leaf_addr t va ≠ 0.
Proof. apply mapped_leaf_addr. Qed.

(** The parent's entry loses its write permission. *)
Lemma sharing_mark lo k kc s1 t1 l1 : sharing k lo k kc s1 t1 l1 → 0 ≤ k → 4096 * k < sz →
  leaf_addr to (4096 * k) ≠ 0 ∧
  sharing (k + 1) lo k kc (set_km (λ m, st64 m (leaf_addr to (4096 * k)) (shared (vp (4096 * k)))) s1) t1 l1.
Proof.
  intros Hs Hk Hks. destruct (sharing_apart _ _ _ _ _ _ _ Hs) as (Hap & Hfo & _).
  destruct Hs as [Hok Hro Hrn Hfn Hsub Htabs Hos Hns Hc Hu Hm]. pose proof (fk_sz _ _ _ _ _ _ _ F) as Hsz.
  destruct (fk_page _ _ _ _ _ _ _ F k Hk Hks) as (HV & Hman & _).
  assert (0 ≤ 4096 * k < MAXVA) as Hva by lia.
  assert (leaf_addr to (4096 * k) ≠ 0) as Hnz by (eapply leaf_of_valid; [done|]; rw Hos //; by zdec).
  destruct (shared_props _ Hman HV) as (Hr & _).
  destruct (pt_rep_store (cm s1) to old (4096 * k) _ Hro Hva Hnz Hr) as [Hro' Hos'].
  destruct (other_table (cm s1) to t1 old new (4096 * k) (shared (vp (4096 * k))) Hro Hrn Hnz Hap) as [Hrn' Hns'].
  split; [done|]. split; try done.
  - apply (cow_ok_mem s1); [done|]. intros a Ha. apply agree_sym. eapply leaf_store_agree; [done..| |].
    + pose proof (fp_managed _ _ (co_free _ _ Hok)) as HF. rw Forall_forall in HF. by apply HF.
    + intros p Hp. by eapply Hfo.
  - intros va Hv. etrans; [by apply Hos'|]. rw Hos //. destruct (Z.eqb_spec (va / 4096) (4096 * k / 4096)) as [E|E].
    + zdec. by rw (pte_of_same_page (cm s) to va (4096 * k)).
    + zbool; (done || lia).
  - intros va Hv. etrans; [by apply Hns'|]. by apply Hns.
  - intros c Hal Hnl Hto Htn. eapply agree_trans; [|by apply Hm]. by eapply leaf_store_agree.
Qed.

(** The child maps the same frame, or there is no page for a table. *)
Lemma sharing_map k kc s1 t1 l1 : sharing (k + 1) 0 k kc s1 t1 l1 → 0 ≤ k → 4096 * k < sz → kc ≤ k →
  wp (mappages new (4096 * k) PGSIZE (fr k) (shared_flags (vp (4096 * k)))) (λ r s2, ∃ t2 l2,
    r = 0 ∧ sharing (k + 1) 0 (k + 1) kc s2 t2 l2 ∨
    r = -1 ∧ l2 = [] ∧ sharing (k + 1) 0 k kc s2 t2 l2) s1.
Proof.
  intros Hs Hk Hks Hkc. destruct (sharing_apart _ _ _ _ _ _ _ Hs) as (Hap & Hfo & _).
  destruct Hs as [Hok Hro Hrn Hfn Hsub Htabs Hos Hns Hc Hu Hm]. pose proof (fk_sz _ _ _ _ _ _ _ F) as Hsz.
  destruct (fk_page _ _ _ _ _ _ _ F k Hk Hks) as (HV & Hman & _).
  destruct (managed_bounds _ Hman) as (_ & Hlo & Hhi).
  assert (PGROUNDUP sz = sz + 4095 - (sz + 4095) mod 4096) as Hup by (apply PGROUNDUP_eq; consts; lia).
  assert (has (pte_of (cm s1) t1 (4096 * k)) PTE_V = false) as Hun.
  { rw Hns; [|consts; lia]. zdec. rw (fk_empty _ _ _ _ _ _ _ F); [apply has_0|lia]. }
  eapply wp_mono; [|apply (cow_mappages s1 t1 l1 new (4096 * k)); try done; consts; rewrite /page_aligned; try lia;
    apply shared_flags_range].
  assert (∀ s2 t2 l2 k2 sp2, grown s1 t1 l1 s2 t2 l2 new sp2 →
    (∀ va, 0 ≤ va < MAXVA → sp2 va = if (4096 * 0 <=? va) && (va <? 4096 * k2) then shared (vp va) else pte_of (cm s) tn va) →
    sharing (k + 1) 0 k2 kc s2 t2 l2) as Hfin.
  { intros s2 t2 l2 k2 sp2 [Hev Hok2 Hcnt [u Hul]] Hsp.
    assert (∀ c, page_aligned c → c ∉ l1 → (∀ p, t1 !! p ≠ Some c) → agree (cm s2) (cm s1) c (c + 4096)) as Hfr
      by apply (g_frame _ _ _ _ _ _ _ _ Hev).
    assert (∀ p a, to !! p = Some a → agree (cm s2) (cm s1) a (a + 4096)) as Hag.
    { intros p a Hp. apply Hfr; [by destruct (pt_page _ _ _ Hro _ _ Hp)|by eapply Hfo|intros q; by eapply Hap]. }
    split; try apply Hev; try done.
    - eapply pt_rep_agree; [|done]. intros p a Hp _. apply agree_sym. by eapply Hag.
    - subst l1. set_solver.
    - intros p a Hp. destruct (g_new _ _ _ _ _ _ _ _ Hev p a Hp) as [H|H]; [by apply Htabs|right; by apply Hsub].
    - intros va Hva. rw -Hos //. by apply same_space_agree.
    - intros va Hva. etrans; [by apply (g_space _ _ _ _ _ _ _ _ Hev)|]. by apply Hsp.
    - intros i Hi. rw Hcnt; [by apply Hc|apply (fk_page _ _ _ _ _ _ _ F); lia|].
      intros Hin. apply (frame_used i); [lia..|]. by apply Hsub.
    - intros c Hcm Hcl Hi. rw Hcnt //; [|set_solver]. by apply Hu.
    - intros c Hal Hcl Hto Htn. eapply agree_trans; [|by apply Hm]. apply Hfr; [done|set_solver|].
      intros p Hp. destruct (Htabs p c Hp) as [H|H]; [by eapply Htn|done]. }
  intros r s2 (t2 & l2 & [[-> Hg]|(-> & Hl & Hg)]); exists t2, l2; [left|right]; (split; [done|]); [|split; [done|]];
    eapply Hfin; try exact Hg.
  - intros va Hva. simpl. rw -Z.lor_assoc shared_V // Hns //.
    destruct (Z.eqb_spec (va / 4096) (4096 * k / 4096)) as [E|E]; [|zbool; (done || lia)].
    zdec. by rw (pte_of_same_page (cm s) to va (4096 * k)); [|done|consts; lia|].
  - intros va Hva. by apply Hns.
Qed.

(** The frame has one more user. *)
Lemma sharing_count k s1 t1 l1 : sharing (k + 1) 0 (k + 1) k s1 t1 l1 → 0 ≤ k → 4096 * k < sz →
  wp (increfcnt (fr k)) (λ _ s2, sharing (k + 1) 0 (k + 1) (k + 1) s2 t1 l1) s1.
Proof.
  intros Hs Hk Hks. destruct Hs as [Hok Hro Hrn Hfn Hsub Htabs Hos Hns Hc Hu Hm].
  destruct (fk_page _ _ _ _ _ _ _ F k Hk Hks) as (HV & Hman & Hcnt & _).
  assert (∀ i, 0 ≤ i < k → fr k ≠ fr i) as Hne.
  { intros i Hi E. apply (fk_inj _ _ _ _ _ _ _ F) in E; lia. }
  assert (count s1 (fr k) = count s (fr k)) as Ek by (apply Hu; [done|by apply frame_used|done]).
  eapply wp_mono; [|apply (increfcnt_spec s1 l1); [done|done|lia]]. intros _ s2 [-> Hok2].
  assert (∀ c, managed c → upd_cnt (cow_index (fr k)) (count s1 (fr k) + 1) (cows s1) (cow_index c) =
    if c =? fr k then count s1 (fr k) + 1 else count s1 c) as Hupd by (intros c Hcm; by apply count_upd).
  split; try done.
  - intros i Hi. change (upd_cnt (cow_index (fr k)) (count s1 (fr k) + 1) (cows s1) (cow_index (fr i)) = count s (fr i) + 1).
    rw Hupd; [|apply (fk_page _ _ _ _ _ _ _ F); lia]. destruct (decide (i = k)) as [->|Hik]; [rw Z.eqb_refl; lia|].
    assert (fr i ≠ fr k) by (intros E; apply (Hne i); [lia|done]). zdec. apply Hc. lia.
  - intros c Hcm Hcl Hi. change (upd_cnt (cow_index (fr k)) (count s1 (fr k) + 1) (cows s1) (cow_index c) = count s c).
    rw Hupd //. assert (c ≠ fr k) by (apply Hi; lia). zdec. apply Hu; [done..|]. intros i Hir. apply Hi. lia.
Qed.

(** Undoing: a page leaves the child and its frame loses the reference. *)
Lemma sharing_unmap ko lo k s1 t1 l1 : sharing ko lo k k s1 t1 l1 → 0 ≤ lo < k → 4096 * (k - 1) < sz →
  leaf_addr t1 (4096 * lo) ≠ 0 ∧ pte_of (cm s1) t1 (4096 * lo) = shared (vp (4096 * lo)) ∧
  wp (kfree (fr lo)) (λ _ s2, sharing ko (lo + 1) k k
    (set_km (λ m, st64 m (leaf_addr t1 (4096 * lo)) 0) s2) t1 l1) s1.
Proof.
  intros Hs Hlo Hks. destruct (sharing_apart _ _ _ _ _ _ _ Hs) as (Hap & Hfo & Hnt).
  destruct Hs as [Hok Hro Hrn Hfn Hsub Htabs Hos Hns Hc Hu Hm]. pose proof (fk_sz _ _ _ _ _ _ _ F) as Hsz.
  destruct (fk_page _ _ _ _ _ _ _ F lo ltac:(lia) ltac:(lia)) as (HV & Hman & Hcnt & _).
  assert (PGROUNDUP sz = sz + 4095 - (sz + 4095) mod 4096) as Hup by (apply PGROUNDUP_eq; consts; lia).
  assert (0 ≤ 4096 * lo < MAXVA) as Hva by lia.
  assert (pte_of (cm s1) t1 (4096 * lo) = shared (vp (4096 * lo))) as Hpte by (rw Hns //; by zdec).
  destruct (shared_props _ Hman HV) as (_ & _ & HsV & _).
  assert (leaf_addr t1 (4096 * lo) ≠ 0) as Hnz by (eapply leaf_of_valid; [done|]; by rw Hpte).
  split; [done|]. split; [done|].
  assert (count s1 (fr lo) = count s (fr lo) + 1) as Ec by (apply Hc; lia).
  eapply wp_mono; [|apply (kfree_shared s1 l1); [done|done|lia]]. intros _ s2 [-> Hok2].
  destruct (pt_rep_store (cm s1) t1 new (4096 * lo) 0 Hrn Hva Hnz ltac:(lia)) as [Hrn' Hns'].
  destruct (other_table (cm s1) t1 to new old (4096 * lo) 0 Hrn Hro Hnz) as [Hro' Hos'].
  { intros p q a Hp Hq. by eapply Hap. }
  assert (∀ c, managed c → upd_cnt (cow_index (fr lo)) (count s1 (fr lo) - 1) (cows s1) (cow_index c) =
    if c =? fr lo then count s1 (fr lo) - 1 else count s1 c) as Hupd by (intros c Hcm; by apply count_upd).
  split; try done.
  - apply (cow_ok_mem _ _ _ Hok2). intros a Ha. apply agree_sym. eapply leaf_store_agree; [done..| |].
    + pose proof (fp_managed _ _ (co_free _ _ Hok)) as HF. rw Forall_forall in HF. by apply HF.
    + intros p Hp. by eapply Hfn.
  - intros va Hv. etrans; [by apply Hos'|]. by apply Hos.
  - intros va Hv. etrans; [by apply Hns'|]. rw Hns //. destruct (Z.eqb_spec (va / 4096) (4096 * lo / 4096)) as [E|E].
    + zdec. symmetry. apply (fk_empty _ _ _ _ _ _ _ F). lia.
    + zbool; (done || lia).
  - intros i Hi. change (upd_cnt (cow_index (fr lo)) (count s1 (fr lo) - 1) (cows s1) (cow_index (fr i)) = count s (fr i) + 1).
    rw Hupd; [|apply (fk_page _ _ _ _ _ _ _ F); lia].
    assert (fr i ≠ fr lo) by (intros E; apply (fk_inj _ _ _ _ _ _ _ F) in E; lia). zdec. apply Hc. lia.
  - intros c Hcm Hcl Hi. change (upd_cnt (cow_index (fr lo)) (count s1 (fr lo) - 1) (cows s1) (cow_index c) = count s c).
    rw Hupd //. destruct (Z.eqb_spec c (fr lo)) as [->|Hne]; [lia|]. apply Hu; [done..|].
    intros i Hir. destruct (decide (i = lo)) as [->|]; [done|]. apply Hi. lia.
  - intros c Hal Hcl Hto Htn. eapply agree_trans; [|by apply Hm]. eapply leaf_store_agree; [done..|]. by apply Hnt.
Qed.

Lemma unmap_all ko k s1 t1 l1 : sharing ko 0 k k s1 t1 l1 → 0 ≤ k → (0 < k → 4096 * (k - 1) < sz) →
  wp (uvmunmap new 0 k true) (λ _ s2, sharing ko k k k s2 t1 l1) s1.
Proof.
  intros Hs Hk Hks. pose proof (fk_sz _ _ _ _ _ _ _ F) as Hsz. rw /uvmunmap. consts. zdec.
  assert (k * 4096 < 2 ^ 64) by lia. rw u64_small; [|lia].
  apply (wp_loop (λ a s', ∃ lo, 0 ≤ lo ≤ k ∧ a = 4096 * lo ∧ sharing ko lo k k s' t1 l1) (λ a, k * 4096 - a)).
  - by exists 0.
  - lia.
  - intros a s2 (lo & Hlo & -> & Hs2) _. destruct (Z.ltb_spec (4096 * lo) (0 + k * 4096)).
    + destruct (sharing_unmap _ _ _ _ _ _ Hs2 ltac:(lia) ltac:(lia)) as (Hnz & Hpte & Hwp).
      destruct (fk_page _ _ _ _ _ _ _ F lo ltac:(lia) ltac:(lia)) as (HV & Hman & _).
      destruct (shared_props _ Hman HV) as (_ & Hpa & HsV & _ & _ & _ & Hfl).
      apply wp_bind. eapply wp_of_run; [apply walk_existing; [apply Hs2|consts; lia|done]|]. zdec.
      apply wp_gets_bind. rw (pte_of_leaf_addr (cm s2) t1 _ Hnz) Hpte HsV (proj2 (Z.eqb_neq _ _) Hfl) Hpa. simpl.
      apply wp_bind. eapply wp_mono; [|exact Hwp]. intros ? s3 Hs3. apply wp_modify_bind, wp_ret.
      rw u64_small; [|lia]. split; [|lia]. exists (lo + 1). split_and!; [lia..|done].
    + apply wp_ret. by assert (lo = k) as -> by lia.
Qed.

(** [uvmcopy] ends with every page shared, or with the child empty again. *)
Lemma uvmcopy_sharing : wp (uvmcopy old new sz) (λ r s1, ∃ t1 l1 k, 0 ≤ k ∧ (0 < k → 4096 * (k - 1) < sz) ∧
    (r = 0 ∧ sz ≤ 4096 * k ∧ sharing k 0 k k s1 t1 l1 ∨
     r = -1 ∧ l1 = [] ∧ sharing (k + 1) k k k s1 t1 l1)) s.
Proof.
  pose proof (fk_sz _ _ _ _ _ _ _ F) as Hsz. rw /uvmcopy.
  apply (wp_loop (λ i s', ∃ k t1 l1, 0 ≤ k ∧ i = 4096 * k ∧ (0 < k → 4096 * (k - 1) < sz) ∧ sharing k 0 k k s' t1 l1)
    (λ i, Z.max 0 (sz - i))).
  - exists 0, tn, l. split_and!; try lia. apply sharing_start.
  - consts. lia.
  - intros i s1 (k & t1 & l1 & Hk & -> & Hks & Hs) _. cbv zeta. destruct (Z.ltb_spec (4096 * k) sz) as [Hlt|]; last first.
    { apply wp_ret. exists t1, l1, k. split_and!; try done. left. split_and!; [done|lia|done]. }
    destruct (sharing_mark _ _ _ _ _ _ Hs Hk) as [Hnz Hs2]; [done|].
    destruct (fk_page _ _ _ _ _ _ _ F k Hk) as (HV & Hman & _); [done|].
    apply wp_bind. eapply wp_of_run; [apply walk_existing; [apply Hs|consts; lia|done]|]. zdec.
    apply wp_gets_bind. rw (pte_of_leaf_addr (cm s1) to _ Hnz) (sh_old_space _ _ _ _ _ _ _ Hs); [|consts; lia].
    zdec. rw HV. apply wp_modify_bind. apply wp_bind. eapply wp_mono; [|exact (sharing_map k k _ t1 l1 Hs2 Hk Hlt ltac:(lia))].
    intros r s2 (t2 & l2 & [[-> Hs3]|(-> & Hl2 & Hs3)]).
    + apply wp_bind. eapply wp_mono; [|exact (sharing_count k _ t2 l2 Hs3 Hk Hlt)]. intros ? s3 Hs4. apply wp_ret. consts.
      rw u64_small; [|lia]. split; [|lia]. exists (k + 1), t2, l2. split_and!; [lia..|done].
    + replace (4096 * k / PGSIZE) with k by (consts; lia).
      apply wp_bind. eapply wp_mono; [|exact (unmap_all (k + 1) k _ t2 l2 Hs3 Hk Hks)]. intros ? s3 Hs4. apply wp_ret.
      exists t2, l2, k. split_and!; [lia..|]. by right.
Qed.
End copy.

(** ** Writing after the fork *)

(** The byte a process with page table [root] reads at [va]. *)
Definition peek (root va : Z) : M cst (option Z) :=
  pa ← walkaddr root va;
  if pa =? 0 then mret None else gets (λ s, Some (ld8 (cm s) (pa + va mod 4096))).

Lemma peek_ok s t root va : pt_rep (cm s) t root → 0 ≤ va < MAXVA →
  has (pte_of (cm s) t va) PTE_V = true → has (pte_of (cm s) t va) PTE_U = true → managed (PTE2PA (pte_of (cm s) t va)) →
  peek root va s = Ok (Some (ld8 (cm s) (PTE2PA (pte_of (cm s) t va) + va mod 4096)), s).
Proof.
  intros Hr Hva HV HU Hm. pose proof (managed_nz _ Hm).
  assert (leaf_addr t va ≠ 0) as Hnz by (by eapply leaf_of_valid).
  rw /peek /walkaddr. zdec. rw /mbind /M_bind (walk_existing s t root va) //. zdec.
  rw /gets (pte_of_leaf_addr (cm s) t va Hnz) HV HU. wp_unfold. by zdec.
Qed.

(** A fault of one process and the tables of another. *)
Lemma fault_apart s ta ra tb rb b l va :
  cow_fault s ta ra (b :: l) va → pt_rep (cm s) tb rb → pt_free tb (b :: l) →
  (∀ p q a, ta !! p = Some a → tb !! q ≠ Some a) →
  (∀ p, tb !! p ≠ Some (PTE2PA (pte_of (cm s) ta va))) →
  ∃ s', walkcowaddr ra va s = Ok (b, s') ∧ cow_done s ta ra l va b s' ∧
    pt_rep (cm s') tb rb ∧ ∀ va', pte_of (cm s') tb va' = pte_of (cm s) tb va'.
Proof.
  intros Hcf Hr Hf Hd Hnt. destruct (walkcowaddr_spec _ _ _ _ _ _ Hcf) as (s' & Hrun & Hdone).
  exists s'. split; [done|]. split; [done|].
  assert (∀ p a, tb !! p = Some a → agree (cm s') (cm s) a (a + 4096)) as Hag.
  { intros p a Hp. apply (cd_other _ _ _ _ _ _ _ Hdone).
    - by destruct (pt_page _ _ _ Hr _ _ Hp).
    - intros ->. eapply Hf; [done|by left].
    - intros q Hq. by eapply Hd.
    - left. intros ->. by eapply Hnt. }
  split; [|by apply same_space_agree]. eapply pt_rep_agree; [|done]. intros p a Hp _. apply agree_sym. by eapply Hag.
Qed.

(** A change of one page that was free leaves the tables alone. *)
Lemma tables_keep m m' t root b l : pt_rep m t root → pt_free t (b :: l) →
  (∀ c, page_aligned c → c ≠ b → agree m' m c (c + 4096)) →
  pt_rep m' t root ∧ ∀ va, pte_of m' t va = pte_of m t va.
Proof.
  intros Hr Hf Hw. assert (∀ p a, t !! p = Some a → agree m' m a (a + 4096)) as Hag.
  { intros p a Hp. apply Hw; [by destruct (pt_page _ _ _ Hr _ _ Hp)|]. intros ->. eapply Hf; [done|by left]. }
  split; [|by apply same_space_agree]. eapply pt_rep_agree; [|done]. intros p a Hp _. apply agree_sym. by eapply Hag.
Qed.

(** [copyout] of one byte to a copy-on-write page. *)
Lemma copyout_byte s root va x b s' : 0 ≤ va < MAXVA → b ≠ 0 →
  walkcowaddr root (PGROUNDDOWN va) s = Ok (b, s') →
  copyout root va [x] 1 s = Ok (0, set_km (λ m, mem_write m (b + va mod 4096) [x]) s').
Proof.
  intros Hva Hb Hrun. apply wp_eq_run. rw /copyout.
  assert (va - PGROUNDDOWN va = va mod 4096) as Eo by (rw PGROUNDDOWN_eq; lia).
  apply (wp_loop (λ '(dst, src, len) s1, (dst = va ∧ src = [x] ∧ len = 1 ∧ s1 = s) ∨
    (len = 0 ∧ s1 = set_km (λ m, mem_write m (b + va mod 4096) [x]) s')) (λ '(_, _, len), len)); [by left|lia|].
  intros [[dst src] len] s1 [(-> & -> & -> & ->)|[-> ->]] _; [|by apply wp_ret].
  change (0 <? 1) with true. cbv iota zeta. apply wp_bind, (wp_of_run _ _ _ _ _ Hrun).
  rw (proj2 (Z.eqb_neq _ _) Hb) Eo. consts.
  assert ((if 1 <? 4096 - va mod 4096 then 1 else 4096 - va mod 4096) = 1) as -> by (zbool; lia).
  apply wp_modify_bind, wp_ret. split; [by right|lia].
Qed.

Section twins.
Context s (to tn : gmap (list Z) Z) (old new sz : Z) l (F : forkable s to tn old new sz l).
Notation vp va := (pte_of (cm s) to va).
Notation fr i := (PTE2PA (pte_of (cm s) to (4096 * i))).

(** A process that sees the parent's pages shared. *)
Record twin s1 t (root : Z) l1 : Prop := {
  tw_rep : pt_rep (cm s1) t root;
  tw_free : pt_free t l1;
  tw_space : ∀ va, 0 ≤ va < sz → pte_of (cm s1) t va = shared (vp va);
  tw_frames : ∀ i, 0 ≤ i → 4096 * i < sz → ∀ p, t !! p ≠ Some (fr i);
}.

(** What the parent read at [va] before the fork. *)
Definition before (va : Z) : Z := ld8 (cm s) (PTE2PA (vp va) + va mod 4096).

Lemma frame_at va : 0 ≤ va < sz → let i := va / 4096 in
  0 ≤ i ∧ 4096 * i < sz ∧ vp va = vp (4096 * i) ∧ has (vp va) PTE_V = true ∧ managed (PTE2PA (vp va)) ∧ PTE2PA (vp va) = fr i.
Proof.
  intros Hva i. pose proof (fk_sz _ _ _ _ _ _ _ F). assert (0 ≤ i ∧ 4096 * i < sz) as [Hi His] by lia.
  assert (vp va = vp (4096 * i)) as E by (apply pte_of_same_page; lia).
  destruct (fk_page _ _ _ _ _ _ _ F i Hi His) as (HV & Hm & _). rw E. done.
Qed.

Lemma twin_peek s1 t root l1 va : twin s1 t root l1 → 0 ≤ va < sz → has (vp va) PTE_U = true →
  agree (cm s1) (cm s) (PTE2PA (vp va)) (PTE2PA (vp va) + 4096) → peek root va s1 = Ok (Some (before va), s1).
Proof.
  intros [Hr _ Hsp _] Hva HU Hag. pose proof (fk_sz _ _ _ _ _ _ _ F).
  destruct (frame_at va Hva) as (_ & _ & _ & HV & Hm & _).
  destruct (shared_props _ Hm HV) as (_ & Hpa & HsV & _ & _ & HsU & _).
  rw (peek_ok s1 t) //; rewrite ?Hsp ?Hpa ?HsV ?HsU //; [|lia].
  do 3 f_equal. rw /before /ld8 Hag //. lia.
Qed.

(** The fault of a twin is a copy-on-write fault. *)
Lemma twin_fault s1 t root l1 va : twin s1 t root l1 → cow_ok s1 l1 → 0 ≤ va < sz → has (vp va) PTE_U = true →
  1 ≤ count s1 (PTE2PA (vp va)) → cow_fault s1 t root l1 va ∧ PTE2PA (pte_of (cm s1) t va) = PTE2PA (vp va).
Proof.
  intros [Hr Hf Hsp Hfr] Hok Hva HU Hc. pose proof (fk_sz _ _ _ _ _ _ _ F).
  destruct (frame_at va Hva) as (Hi & His & _ & HV & Hm & Ef).
  destruct (shared_props _ Hm HV) as (_ & Hpa & HsV & HsW & HsC & HsU & _).
  split; [|by rw Hsp]. split; rewrite ?Hsp ?Hpa //; [lia|by rw HsU|]. intros p. rw Ef. by apply Hfr.
Qed.

(** One of two twins writes: it gets a copy, and neither the other's tables nor
    the shared frames change. *)
Lemma twin_write s1 ta ra tb rb b l1 va x :
  twin s1 ta ra (b :: l1) → twin s1 tb rb (b :: l1) → cow_ok s1 (b :: l1) →
  (∀ p q a, ta !! p = Some a → tb !! q ≠ Some a) →
  (∀ i, 0 ≤ i → 4096 * i < sz → 2 ≤ count s1 (fr i) ∧ agree (cm s1) (cm s) (fr i) (fr i + 4096)) →
  0 ≤ va < sz → has (vp va) PTE_U = true →
  ∃ s2, copyout ra va [x] 1 s1 = Ok (0, s2) ∧ ∀ va', 0 ≤ va' < sz → has (vp va') PTE_U = true →
    peek rb va' s2 = Ok (Some (before va'), s2) ∧
    peek ra va' s2 = Ok (Some (if va' =? va then u8 x else before va'), s2).
Proof.
  intros Ha Hb Hok Hap Hfr Hva HU. pose proof (fk_sz _ _ _ _ _ _ _ F) as Hsz.
  set (va0 := PGROUNDDOWN va). assert (0 ≤ va0 < sz ∧ va0 / 4096 = va / 4096) as [Hva0 E0] by (rw /va0 PGROUNDDOWN_eq; lia).
  assert (vp va0 = vp va) as Ev by (apply pte_of_same_page; lia).
  destruct (frame_at va Hva) as (Hi & His & _ & HV & Hm & Ef). destruct (Hfr _ Hi His) as [Hcnt _]. rw -Ef in Hcnt.
  destruct (twin_fault s1 ta ra (b :: l1) va0 Ha Hok Hva0) as [Hcf Hpa]; [by rw Ev|rw Ev; lia|]. rw Ev in Hpa.
  destruct (fault_apart s1 ta ra tb rb b l1 va0 Hcf (tw_rep _ _ _ _ Hb) (tw_free _ _ _ _ Hb) Hap) as (s2 & Hrun & Hd & Hrb & Hsb).
  { rw Hpa Ef. by apply (tw_frames _ _ _ _ Hb). }
  pose proof (fp_managed _ _ (co_free _ _ Hok)) as [Hbm _]%Forall_cons. pose proof (managed_nz b Hbm).
  rw (copyout_byte s1 ra va x b s2) //; [|lia|lia]. eexists. split; [done|].
  set (s3 := set_km _ s2).
  assert (∀ c, page_aligned c → c ≠ b → agree (cm s3) (cm s2) c (c + 4096)) as Hw.
  { intros c Hc Hcb. apply mem_write_agree. destruct Hbm as [Hbal _]. destruct (pages_disjoint c b); try done; simpl; lia. }
  assert (∀ i, 0 ≤ i → 4096 * i < sz → fr i ≠ b ∧ agree (cm s3) (cm s) (fr i) (fr i + 4096)) as Hframes.
  { intros i Hi' His'. destruct (Hfr i Hi' His') as [Hc Hag].
    assert (fr i ≠ b) as Hne by (intros E; pose proof (proj1 (co_zero _ _ Hok b Hbm) ltac:(by left)); rw E in Hc; lia).
    split; [done|]. eapply agree_trans; [apply Hw; [apply PTE2PA_aligned|done]|].
    eapply agree_trans; [|exact Hag]. apply (cd_other _ _ _ _ _ _ _ Hd); [apply PTE2PA_aligned|done| |by right].
    by apply (tw_frames _ _ _ _ Ha). }
  destruct (tables_keep _ _ _ _ _ _ Hrb (tw_free _ _ _ _ Hb) Hw) as [Hrb3 Hsb3].
  destruct (tables_keep _ _ _ _ _ _ (cd_rep _ _ _ _ _ _ _ Hd) (tw_free _ _ _ _ Ha) Hw) as [Hra3 Hsa3].
  intros va' Hva' HU'. destruct (frame_at va' Hva') as (Hi' & His' & _ & HV' & Hm' & Ef').
  destruct (Hframes _ Hi' His') as [_ Hag']. rw -Ef' in Hag'. split.
  - apply (twin_peek s3 tb rb []); [|done..]. split; [done|intros ???; apply not_elem_of_nil| |apply Hb].
    intros va'' ?. by rw Hsb3 Hsb (tw_space _ _ _ _ Hb).
  - destruct (Z.eq_dec (va' / 4096) (va / 4096)) as [E|E].
    + assert (vp va' = vp va) as Ev' by (apply pte_of_same_page; lia).
      destruct (shared_props _ Hm HV) as (_ & Hps & HsV & _ & _ & HsU & _).
      assert (pte_of (cm s3) ta va' = cow_pte (shared (vp va)) b) as Hpte.
      { rw Hsa3 (cd_space _ _ _ _ _ _ _ Hd); [|lia]. rw E0 (proj2 (Z.eqb_eq _ _) E).
        by rw (tw_space _ _ _ _ Ha va0 Hva0) Ev. }
      destruct (cow_pte_props (shared (vp va)) b Hbm) as (Hb2 & HbV & _ & _ & HbU); [by rw HsU|].
      rw (peek_ok s3 ta) //; rewrite ?Hpte ?Hb2 ?HbV ?HbU //; [|lia]. do 3 f_equal.
      change (cm s3) with (mem_write (cm s2) (b + va mod 4096) [x]). rw ld8_mem_write /=.
      destruct (Z.eqb_spec va' va) as [->|Hne].
      * zdec. by replace (Z.to_nat (b + va mod 4096 - (b + va mod 4096))) with 0%nat by lia.
      * assert (va' mod 4096 ≠ va mod 4096) by lia. zbool; try lia.
        all: rw /before /ld8 Ev' (cd_copy _ _ _ _ _ _ _ Hd); [|lia]; rw Hpa; f_equal.
        all: destruct (Hfr _ Hi His) as [_ Hag1]; rw -Ef in Hag1; apply Hag1; lia.
    + assert (va' ≠ va) as Hne by congruence. rw (proj2 (Z.eqb_neq _ _) Hne).
      assert (pte_of (cm s3) ta va' = shared (vp va')) as Hpte.
      { rw Hsa3 (cd_space _ _ _ _ _ _ _ Hd); [|lia]. rw E0 (proj2 (Z.eqb_neq _ _) E). by apply Ha. }
      destruct (shared_props _ Hm' HV') as (_ & Hps & HsV & _ & _ & HsU & _).
      rw (peek_ok s3 ta) //; rewrite ?Hpte ?Hps ?HsV ?HsU //; [|lia]. do 3 f_equal. rw /before /ld8 Hag' //. lia.
Qed.

(** After a fork that succeeded, parent and child are twins. *)
Lemma sharing_twins k s1 t1 l1 : sharing s to tn old new l k 0 k k s1 t1 l1 → sz ≤ 4096 * k → 0 ≤ k →
  (0 < k → 4096 * (k - 1) < sz) →
  twin s1 to old l1 ∧ twin s1 t1 new l1 ∧ (∀ p q a, to !! p = Some a → t1 !! q ≠ Some a) ∧
  ∀ i, 0 ≤ i → 4096 * i < sz → 2 ≤ count s1 (fr i) ∧ agree (cm s1) (cm s) (fr i) (fr i + 4096).
Proof.
  intros Hs Hk Hk0 Hk1. pose proof (fk_sz _ _ _ _ _ _ _ F) as Hsz.
  destruct (sharing_apart _ _ _ _ _ _ _ F _ _ _ _ _ _ _ Hs) as (Hap & Hfo & Hnt).
  assert (∀ i, 0 ≤ i → 4096 * i < sz → fr i ∉ l) as Hnl by (intros; by eapply frame_used).
  split_and!; [split|split|done|]; try apply Hs; try done.
  - intros va Hva. rw (sh_old_space _ _ _ _ _ _ _ _ _ _ _ _ _ Hs); [|lia]. by zdec.
  - intros i Hi His. by apply (fk_page _ _ _ _ _ _ _ F).
  - intros va Hva. rw (sh_new_space _ _ _ _ _ _ _ _ _ _ _ _ _ Hs); [|lia]. by zdec.
  - intros i Hi His. apply Hnt; [by apply Hnl|]. by apply (fk_page _ _ _ _ _ _ _ F).
  - intros i Hi His. destruct (fk_page _ _ _ _ _ _ _ F i Hi His) as (_ & Hm & Hc & Hto & Htn). split.
    + rw (sh_counted _ _ _ _ _ _ _ _ _ _ _ _ _ Hs); lia.
    + apply (sh_mem _ _ _ _ _ _ _ _ _ _ _ _ _ Hs); [apply PTE2PA_aligned|by apply Hnl|done|done].
Qed.
End twins.

(** What a fork leaves: the pages of both processes, their contents and their
    reference counts. *)
Theorem cow_uvmcopy_shares s to tn old new sz l : forkable s to tn old new sz l →
  ∃ r s' t' l', uvmcopy old new sz s = Ok (r, s') ∧ cow_ok s' l' ∧ pt_rep (cm s') to old ∧ pt_rep (cm s') t' new ∧
    (∀ i, 0 ≤ i → 4096 * i < sz → let pa := PTE2PA (pte_of (cm s) to (4096 * i)) in
       agree (cm s') (cm s) pa (pa + 4096) ∧ count s' pa = count s pa + (if r =? 0 then 1 else 0)) ∧
    (∀ va, 0 ≤ va < sz →
       if r =? 0 then pte_of (cm s') to va = shared (pte_of (cm s) to va) ∧ pte_of (cm s') t' va = shared (pte_of (cm s) to va)
       else pte_of (cm s') t' va = 0 ∧
         (pte_of (cm s') to va = pte_of (cm s) to va ∨ pte_of (cm s') to va = shared (pte_of (cm s) to va))).
Proof.
  intros F. pose proof (fk_sz _ _ _ _ _ _ _ F) as Hsz.
  assert (PGROUNDUP sz = sz + 4095 - (sz + 4095) mod 4096) as Hup by (apply PGROUNDUP_eq; consts; lia).
  destruct (wp_run _ _ _ (uvmcopy_sharing s to tn old new sz l F)) as (r & s' & Hrun & t' & l' & k & Hk & Hk1 & Hcase).
  exists r, s', t', l'. split; [done|].
  destruct Hcase as [(-> & Hks & Hs)|(-> & _ & Hs)].
  - destruct (sharing_twins s to tn old new sz l F k s' t' l' Hs Hks Hk Hk1) as (Ha & Hb & _ & Hfr).
    split_and!; try apply Hs.
    + intros i Hi His. split; [by apply Hfr|]. apply (sh_counted _ _ _ _ _ _ _ _ _ _ _ _ _ Hs). lia.
    + intros va Hva. split; [by apply Ha|by apply Hb].
  - split_and!; try apply Hs.
    + intros i Hi His. destruct (fk_page _ _ _ _ _ _ _ F i Hi His) as (_ & Hm & Hc & Hto & Htn).
      assert (PTE2PA (pte_of (cm s) to (4096 * i)) ∉ l) as Hnl by (by eapply frame_used). split.
      * apply (sh_mem _ _ _ _ _ _ _ _ _ _ _ _ _ Hs); [apply PTE2PA_aligned|done..].
      * rw Z.add_0_r. apply (sh_uncounted _ _ _ _ _ _ _ _ _ _ _ _ _ Hs); [done..|lia].
    + intros va Hva. rw (sh_new_space _ _ _ _ _ _ _ _ _ _ _ _ _ Hs); [|lia].
      rw (sh_old_space _ _ _ _ _ _ _ _ _ _ _ _ _ Hs); [|lia]. split.
      * replace ((4096 * k <=? va) && (va <? 4096 * k)) with false by (zbool; (done || lia)).
        apply (fk_empty _ _ _ _ _ _ _ F). lia.
      * destruct (_ <? _); auto.
Qed.

(** C23: copy-on-write fork isolates parent and child.  [uvmcopy] returns 0, or
    -1 when no page is left for a page table; after 0, while a page is free, a
    byte written through [copyout] by either process at any of its user
    addresses is seen by that process alone: the other process reads at every
    user address what the parent read before the fork, and so does the writer
    at every other address. *)
Theorem cow_fork_isolates s to tn old new sz l va x :
  forkable s to tn old new sz l → 0 ≤ va < sz → has (pte_of (cm s) to va) PTE_U = true →
  ∃ r s1 l1, uvmcopy old new sz s = Ok (r, s1) ∧ cow_ok s1 l1 ∧ (r = 0 ∨ r = -1 ∧ l1 = []) ∧
    (r = 0 → l1 ≠ [] → ∀ writer other, (writer = new ∧ other = old) ∨ (writer = old ∧ other = new) →
       ∃ s2, copyout writer va [x] 1 s1 = Ok (0, s2) ∧
         ∀ va', 0 ≤ va' < sz → has (pte_of (cm s) to va') PTE_U = true →
           ∃ c, peek old va' s = Ok (Some c, s) ∧ peek other va' s2 = Ok (Some c, s2) ∧
             peek writer va' s2 = Ok (Some (if va' =? va then u8 x else c), s2)).
Proof.
  intros F Hva HU. pose proof (fk_sz _ _ _ _ _ _ _ F) as Hsz.
  destruct (wp_run _ _ _ (uvmcopy_sharing s to tn old new sz l F)) as (r & s1 & Hrun & t1 & l1 & k & Hk & Hk1 & Hcase).
  exists r, s1, l1. split; [done|].
  destruct Hcase as [(-> & Hks & Hs)|(-> & Hl & Hs)]; (split; [apply Hs|]); [|by split; [right|]].
  split; [by left|]. intros _ Hl w o Hwo. destruct l1 as [|b l1]; [done|].
  destruct (sharing_twins s to tn old new sz l F k s1 t1 (b :: l1) Hs Hks Hk Hk1) as (Ha & Hb & Hap & Hfr).
  assert (∃ s2, copyout w va [x] 1 s1 = Ok (0, s2) ∧ ∀ va', 0 ≤ va' < sz → has (pte_of (cm s) to va') PTE_U = true →
    peek o va' s2 = Ok (Some (before s to va'), s2) ∧
    peek w va' s2 = Ok (Some (if va' =? va then u8 x else before s to va'), s2)) as (s2 & Hc & Hp).
  { destruct Hwo as [[-> ->]|[-> ->]].
    - eapply (twin_write s to tn old new sz l F s1 t1 new to old); try done; [apply Hs|].
      intros p q a Hp Hq. by eapply Hap.
    - eapply (twin_write s to tn old new sz l F s1 to old t1 new); try done. apply Hs. }
  exists s2. split; [done|]. intros va' Hva' HU'. exists (before s to va'). destruct (Hp va' Hva' HU') as [Ho Hw].
  split_and!; [|done|done]. destruct (frame_at s to tn old new sz l F va' Hva') as (_ & _ & _ & HV & Hm & _).
  apply peek_ok; [apply F|lia|done..].
Qed.
End fork.
End CowFork.

(** ** The hypotheses hold: a process of one page that forks *)

Module CowForkDemo.
Import CowFork VmProps.Demo CowDemo.
#[local] Existing Instance pgtbl_image.

Definition cows_one (i : Z) : Z := if (0x100 <=? i) && (i <? 0x105) then 0 else 1.
Definition s_fork : cst := MkCst s_demo cows_one.

Lemma fork_demo_ok : cow_ok s_fork l_demo.
Proof. apply demo_cow_ok; intros i; rw /cows_one; zbool; simpl; lia. Qed.

Lemma child_lookup p a : t_child !! p = Some a → p = [] ∧ a = R2.
Proof. rw /t_child lookup_singleton. case_decide; naive_solver. Qed.

Lemma fork_demo : forkable s_fork t_demo t_child R R2 4096 l_demo.
Proof.
  split.
  - exact fork_demo_ok.
  - exact demo_rep.
  - exact child_rep.
  - apply demo_ok.
  - intros p a [-> ->]%child_lookup. by apply (bool_decide_unpack _); vm_compute.
  - intros p q a Hp [-> ->]%child_lookup. apply demo_lookup in Hp.
    by destruct Hp as [[_ H]|[[_ H]|[_ H]]]; vm_compute in H.
  - by vm_compute.
  - intros i Hi His. assert (i = 0) as -> by lia. change (PTE2PA _) with D. split; [done|].
    split; [apply managed_demo; set_solver|]. split; [by vm_compute|]. split.
    + intros p Hp. apply demo_lookup in Hp. by destruct Hp as [[_ H]|[[_ H]|[_ H]]]; vm_compute in H.
    + intros p [_ H]%child_lookup. by vm_compute in H.
  - intros i j ? ? ? ?. lia.
  - intros va Hva. change (PGROUNDUP 4096) with 4096 in Hva. rw /pte_of /leaf_path.
    assert (PX 1 va = 0 ∧ PX 2 va = 0) as [-> ->] by (rw !PX_eq; lia). done.
Qed.

(** The child (and the parent) writes the byte 7 at address 16. *)
Lemma cow_fork_isolates_witness : ∃ r s1 l1, uvmcopy R R2 4096 s_fork = Ok (r, s1) ∧ cow_ok s1 l1 ∧
  (r = 0 ∨ r = -1 ∧ l1 = []) ∧
  (r = 0 → l1 ≠ [] → ∀ writer other, (writer = R2 ∧ other = R) ∨ (writer = R ∧ other = R2) →
     ∃ s2, copyout writer 16 [7] 1 s1 = Ok (0, s2) ∧
       ∀ va', 0 ≤ va' < 4096 → has (pte_of (cm s_fork) t_demo va') PTE_U = true →
         ∃ c, peek R va' s_fork = Ok (Some c, s_fork) ∧ peek other va' s2 = Ok (Some c, s2) ∧
           peek writer va' s2 = Ok (Some (if va' =? 16 then u8 7 else c), s2)).
Proof. apply (cow_fork_isolates s_fork t_demo t_child R R2 4096 l_demo 16 7 fork_demo); by vm_compute. Defined.
End CowForkDemo.
