(* ===== verification/Fs.v ===== *)
(** * The file system (filesystem lab, [fs.c] and [fs.h])

    Block allocator, inodes with direct, indirect and doubly indirect blocks,
    directories and path names, over two interfaces: [BufLayer], the buffer
    cache under the log ([bread], [log_write], [brelse]), and [CopyLayer],
    [either_copyout] and [either_copyin] of [proc.c].  A block is a function
    from byte offsets to bytes.  A buffer is locked from [bread] to [brelse],
    so [bp->data] is a local variable of the caller, handed back to
    [log_write] and [brelse].  Inode pointers are indices of the inode table;
    waiting for a sleep lock that is held is the error [Undef]. *)

From S2P Require Import Prelude Machine.

Definition ROOTINO : Z := 1.
Definition ROOTDEV : Z := 1.
Definition BSIZE : Z := 1024.
Definition NINODE : nat := 50.
Definition NBUF : Z := 30.
Definition FSMAGIC : Z := 0x10203040.
Definition NDIRECT : Z := 11.
Definition NINDIRECT : Z := BSIZE / 4.
Definition NINDIRECT2 : Z := NINDIRECT * NINDIRECT.
Definition MAXFILE : Z := NDIRECT + NINDIRECT + NINDIRECT2.
Definition DIRSIZ : Z := 14.
Definition T_DIR : Z := 1.
Definition T_FILE : Z := 2.
Definition T_DEVICE : Z := 3.
Definition T_SYMLINK : Z := 4.

Record superblock := MkSb {
  sb_magic : Z; sb_size : Z; sb_nblocks : Z; sb_ninodes : Z;
  sb_nlog : Z; sb_logstart : Z; sb_inodestart : Z; sb_bmapstart : Z;
}.

(** [sizeof(struct dinode)] and [sizeof(struct dirent)]. *)
Definition DINODE_size : Z := 2 + 2 + 2 + 2 + 4 + 4 * (NDIRECT + 2).
Definition DIRENT_size : Z := 2 + DIRSIZ.
Definition IPB : Z := BSIZE / DINODE_size.
Definition IBLOCK (i : Z) (sb : superblock) : Z := u32 (i / IPB + sb.(sb_inodestart)).
Definition BPB : Z := BSIZE * 8.
Definition BBLOCK (b : Z) (sb : superblock) : Z := u32 (b / BPB + sb.(sb_bmapstart)).

(** ** The buffer cache and log, as [fs.c] uses them

    [blk b dev n] is the current contents of a block, [held b] the blocks whose
    buffers are locked, [log_room b] how many more calls of [log_write] the
    current transaction has room for, [logged b dev n] that the block is in the
    log already: logging it again costs nothing.  A block is lost to [bread] while its
    buffer is held; [brelse] of a buffer whose changes were not logged leaves
    the contents unspecified. *)
Class BufLayer (B : Type) := {
  blk : B → Z → Z → mem;
  held : B → list (Z * Z);
  log_room : B → Z;
  logged : B → Z → Z → bool;
  bread : Z → Z → M B mem;
  log_write : Z → Z → mem → M B unit;
  brelse : Z → Z → mem → M B unit;
  initlog : Z → superblock → M B unit;
  bread_ok b dev n : (dev, n) ∉ held b → Z.of_nat (length (held b)) < NBUF →
    ∃ b', bread dev n b = Ok (blk b dev n, b') ∧ blk b' = blk b
      ∧ held b' = (dev, n) :: held b ∧ log_room b' = log_room b;
  log_write_ok b dev n d : (dev, n) ∈ held b → 0 < log_room b →
    ∃ b', log_write dev n d b = Ok (tt, b') ∧ held b' = held b ∧ log_room b - 1 ≤ log_room b' ≤ log_room b
      ∧ blk b' dev n = d ∧ ∀ dev' n', (dev', n') ≠ (dev, n) → blk b' dev' n' = blk b dev' n';
  brelse_ok b dev n l : held b = (dev, n) :: l →
    ∃ b', brelse dev n (blk b dev n) b = Ok (tt, b') ∧ blk b' = blk b
      ∧ held b' = l ∧ log_room b' = log_room b;
  bread_log b dev n d b' : bread dev n b = Ok (d, b') → logged b' = logged b ∧ log_room b' = log_room b;
  brelse_log b dev n d b' : brelse dev n d b = Ok (tt, b') → logged b' = logged b ∧ log_room b' = log_room b;
  log_write_log b dev n d b' : log_write dev n d b = Ok (tt, b') →
    (∀ dev' n', logged b' dev' n' = logged b dev' n' || (dev' =? dev) && (n' =? n)) ∧
    (logged b dev n = true → log_room b' = log_room b);
}.

(** ** Copies to and from user or kernel memory

    [byte_at x u a] is the byte at address [a] of the memory of the current
    process ([u = true]) or of the kernel. *)
Class CopyLayer (X : Type) := {
  byte_at : X → bool → Z → Z;
  either_copyout : bool → Z → list Z → M X Z;
  either_copyin : bool → Z → Z → M X (Z * list Z);
  copyout_ok x u dst src : ∃ r x', either_copyout u dst src x = Ok (r, x')
    ∧ (r = 0 ∨ r = -1) ∧ (u = false → r = 0)
    ∧ (r = 0 → ∀ a, byte_at x' u a =
        if (dst <=? a) && (a <? dst + Z.of_nat (length src)) then nth (Z.to_nat (a - dst)) src 0
        else byte_at x u a);
  copyin_ok x u src n : 0 ≤ n → ∃ r bs, either_copyin u src n x = Ok ((r, bs), x)
    ∧ (r = 0 ∨ r = -1) ∧ (u = false → r = 0)
    ∧ (r = 0 → bs = (λ i, byte_at x u (src + i)) <$> seqZ 0 n);
}.

Module Fs.

Record inode := MkInode {
  i_dev : Z; i_inum : Z; i_ref : Z; i_locked : bool; i_valid : bool;
  i_type : Z; i_major : Z; i_minor : Z; i_nlink : Z; i_size : Z; i_addrs : list Z;
}.
Definition inode0 : inode := MkInode 0 0 0 false false 0 0 0 0 0 (replicate (Z.to_nat (NDIRECT + 2)) 0).

Definition set_ref (n : Z) (i : inode) : inode :=
  MkInode i.(i_dev) i.(i_inum) n i.(i_locked) i.(i_valid) i.(i_type) i.(i_major) i.(i_minor) i.(i_nlink) i.(i_size) i.(i_addrs).
Definition set_locked (l : bool) (i : inode) : inode :=
  MkInode i.(i_dev) i.(i_inum) i.(i_ref) l i.(i_valid) i.(i_type) i.(i_major) i.(i_minor) i.(i_nlink) i.(i_size) i.(i_addrs).
Definition set_valid (v : bool) (i : inode) : inode :=
  MkInode i.(i_dev) i.(i_inum) i.(i_ref) i.(i_locked) v i.(i_type) i.(i_major) i.(i_minor) i.(i_nlink) i.(i_size) i.(i_addrs).
Definition set_type (t : Z) (i : inode) : inode :=
  MkInode i.(i_dev) i.(i_inum) i.(i_ref) i.(i_locked) i.(i_valid) t i.(i_major) i.(i_minor) i.(i_nlink) i.(i_size) i.(i_addrs).
Definition set_nlink (n : Z) (i : inode) : inode :=
  MkInode i.(i_dev) i.(i_inum) i.(i_ref) i.(i_locked) i.(i_valid) i.(i_type) i.(i_major) i.(i_minor) n i.(i_size) i.(i_addrs).
Definition set_size (n : Z) (i : inode) : inode :=
  MkInode i.(i_dev) i.(i_inum) i.(i_ref) i.(i_locked) i.(i_valid) i.(i_type) i.(i_major) i.(i_minor) i.(i_nlink) n i.(i_addrs).
Definition set_addr (k v : Z) (i : inode) : inode :=
  MkInode i.(i_dev) i.(i_inum) i.(i_ref) i.(i_locked) i.(i_valid) i.(i_type) i.(i_major) i.(i_minor) i.(i_nlink) i.(i_size)
    (<[Z.to_nat k := v]> i.(i_addrs)).
Definition addr_at (i : inode) (k : Z) : Z := nth (Z.to_nat k) i.(i_addrs) 0.

(** Fields of the on-disk inode at offset [o] of its block. *)
Definition put_dinode (d : mem) (o : Z) (i : inode) : mem :=
  let d := st16 d o i.(i_type) in
  let d := st16 d (o + 2) i.(i_major) in
  let d := st16 d (o + 4) i.(i_minor) in
  let d := st16 d (o + 6) i.(i_nlink) in
  let d := st32 d (o + 8) i.(i_size) in
  mem_write d (o + 12) (i.(i_addrs) ≫= le_bytes 4).
Definition get_dinode (d : mem) (o : Z) (i : inode) : inode :=
  MkInode i.(i_dev) i.(i_inum) i.(i_ref) i.(i_locked) i.(i_valid)
    (s16 (ld16 d o)) (s16 (ld16 d (o + 2))) (s16 (ld16 d (o + 4))) (s16 (ld16 d (o + 6))) (ld32 d (o + 8))
    ((λ k, ld32 d (o + 12 + 4 * k)) <$> seqZ 0 (NDIRECT + 2)).

Record stat := MkStat { st_dev : Z; st_ino : Z; st_type : Z; st_nlink : Z; st_size : Z }.

(** [strncmp] and [strncpy] on byte strings; a string ends at its list's end
    or at a 0 byte. *)
Fixpoint strncmp (n : nat) (p q : list Z) : Z :=
  match n with
  | O => 0
  | S n =>
      let a := hd 0 p in let b := hd 0 q in
      if negb (a =? 0) && (a =? b) then strncmp n (tl p) (tl q) else a - b
  end.
Fixpoint strncpy (n : nat) (src : list Z) : list Z :=
  match n with
  | O => []
  | S n => let c := hd 0 src in c :: strncpy n (if c =? 0 then [] else tl src)
  end.
Definition namecmp (s t : list Z) : Z := strncmp (Z.to_nat DIRSIZ) s t.

Definition slash : Z := 47.
Fixpoint skip_slashes (path : list Z) : list Z :=
  match path with
  | c :: rest => if c =? slash then skip_slashes rest else path
  | [] => []
  end.
(** The element before the next slash, and the rest. *)
Fixpoint take_elem (path : list Z) : list Z * list Z :=
  match path with
  | c :: rest => if c =? slash then ([], path) else let '(e, r) := take_elem rest in (c :: e, r)
  | [] => ([], [])
  end.
(** [skipelem path name]: the rest of the path and the name buffer. *)
Definition skipelem (path name : list Z) : option (list Z * list Z) :=
  let path := skip_slashes path in
  match path with
  | [] => None
  | _ =>
      let '(s, path) := take_elem path in
      let len := Z.of_nat (length s) in
      let name :=
        if DIRSIZ <=? len then take (Z.to_nat DIRSIZ) s
        else s ++ 0 :: drop (S (length s)) name in
      Some (skip_slashes path, name)
  end.

Section fs.
Context {B X : Type} {BL : BufLayer B} {CL : CopyLayer X}.

Record fst := MkFst {
  sb : superblock;
  itab : list inode;
  itlock : bool;          (* itable.lock *)
  bl : B;
  xl : X;
}.
Definition set_sb (v : superblock) (s : fst) : fst := MkFst v s.(itab) s.(itlock) s.(bl) s.(xl).
Definition set_itab (f : list inode → list inode) (s : fst) : fst := MkFst s.(sb) (f s.(itab)) s.(itlock) s.(bl) s.(xl).
Definition set_itlock (l : bool) (s : fst) : fst := MkFst s.(sb) s.(itab) l s.(bl) s.(xl).
Definition set_bl (b : B) (s : fst) : fst := MkFst s.(sb) s.(itab) s.(itlock) b s.(xl).
Definition set_xl (x : X) (s : fst) : fst := MkFst s.(sb) s.(itab) s.(itlock) s.(bl) x.

Definition Bl {A} : M B A → M fst A := lift bl set_bl.
Definition Xl {A} : M X A → M fst A := lift xl set_xl.

Definition geti (i : nat) : M fst inode := λ s,
  match s.(itab) !! i with Some ip => Ok (ip, s) | None => Err (Undef "inode pointer") end.
Definition updi (i : nat) (f : inode → inode) : M fst unit := geti i;; modify (set_itab (alter f i)).

Definition acquire_itable : M fst unit :=
  l ← gets itlock; if (l : bool) then panic "acquire" else modify (set_itlock true).
Definition release_itable : M fst unit :=
  l ← gets itlock; if (l : bool) then modify (set_itlock false) else panic "release".
Definition acquiresleep (i : nat) : M fst unit :=
  ip ← geti i; if ip.(i_locked) then undef "acquiresleep" else updi i (set_locked true).
Definition releasesleep (i : nat) : M fst unit := updi i (set_locked false).
Definition holdingsleep (i : nat) : M fst bool := ip ← geti i; mret ip.(i_locked).

(** ** Superblock *)

Definition readsb (dev : Z) : M fst superblock :=
  d ← Bl (bread dev 1);
  let f := λ k, ld32 d (4 * k) in
  let v := MkSb (f 0) (f 1) (f 2) (f 3) (f 4) (f 5) (f 6) (f 7) in
  Bl (brelse dev 1 d);;
  mret v.

Definition fsinit (dev : Z) : M fst unit :=
  v ← readsb dev;
  modify (set_sb v);;
  if negb (v.(sb_magic) =? FSMAGIC) then panic "invalid file system"
  else Bl (initlog dev v).

(** ** Blocks *)

Definition bzero (dev bno : Z) : M fst unit :=
  d ← Bl (bread dev bno);
  let d := memset d 0 0 BSIZE in
  Bl (log_write dev bno d);;
  Bl (brelse dev bno d).

Definition balloc (dev : Z) : M fst Z :=
  sb ← gets sb;
  loop (λ b : Z,
    if u32 b <? sb.(sb_size) then
      d ← Bl (bread dev (BBLOCK b sb));
      r ← loop (λ bi : Z,
        if (bi <? BPB) && (u32 (b + bi) <? sb.(sb_size)) then
          let m := Z.shiftl 1 (bi mod 8) in
          if Z.land (ld8 d (bi / 8)) m =? 0 then
            let d := st8 d (bi / 8) (Z.lor (ld8 d (bi / 8)) m) in
            Bl (log_write dev (BBLOCK b sb) d);;
            Bl (brelse dev (BBLOCK b sb) d);;
            bzero dev (b + bi);;
            mret (inr (Some (u32 (b + bi))))
          else mret (inl (bi + 1))
        else mret (inr None)) 0;
      match r with
      | Some a => mret (inr a)
      | None => Bl (brelse dev (BBLOCK b sb) d);; mret (inl (s32 (b + BPB)))
      end
    else panic "balloc: out of blocks") 0.

Definition bfree (dev b : Z) : M fst unit :=
  sb ← gets sb;
  d ← Bl (bread dev (BBLOCK b sb));
  let bi := b mod BPB in
  let m := Z.shiftl 1 (bi mod 8) in
  if Z.land (ld8 d (bi / 8)) m =? 0 then panic "freeing free block"
  else
    let d := st8 d (bi / 8) (Z.land (ld8 d (bi / 8)) (Z.lnot m)) in
    Bl (log_write dev (BBLOCK b sb) d);;
    Bl (brelse dev (BBLOCK b sb) d).

(** ** Inodes *)

Definition iinit : M fst unit :=
  modify (set_itlock false);;
  for_each (R := unit) (seq 0 NINODE) (λ i, updi i (set_locked false);; mret None);;
  mret tt.

(** [iget]: the entry of the inode if it has one, else the first free entry. *)
Definition iget (dev inum : Z) : M fst nat :=
  acquire_itable;;
  r ← for_acc (seq 0 NINODE) None (λ i (empty : option nat),
    ip ← geti i;
    if (0 <? ip.(i_ref)) && (ip.(i_dev) =? dev) && (ip.(i_inum) =? inum) then
      updi i (set_ref (s32 (ip.(i_ref) + 1)));;
      release_itable;;
      mret (inr i)
    else if bool_decide (empty = None) && (ip.(i_ref) =? 0) then mret (inl (Some i))
    else mret (inl empty));
  match r with
  | inr i => mret i
  | inl None => panic "iget: no inodes"
  | inl (Some i) =>
      updi i (λ ip, MkInode dev inum 1 ip.(i_locked) false ip.(i_type) ip.(i_major) ip.(i_minor)
                      ip.(i_nlink) ip.(i_size) ip.(i_addrs));;
      release_itable;;
      mret i
  end.

Definition ialloc (dev type : Z) : M fst nat :=
  sb ← gets sb;
  loop (λ inum : Z,
    if u32 inum <? sb.(sb_ninodes) then
      d ← Bl (bread dev (IBLOCK inum sb));
      let o := (inum mod IPB) * DINODE_size in
      if s16 (ld16 d o) =? 0 then
        let d := memset d o 0 DINODE_size in
        let d := st16 d o type in
        Bl (log_write dev (IBLOCK inum sb) d);;
        Bl (brelse dev (IBLOCK inum sb) d);;
        i ← iget dev inum;
        mret (inr i)
      else
        Bl (brelse dev (IBLOCK inum sb) d);;
        mret (inl (s32 (inum + 1)))
    else panic "ialloc: no inodes") 1.

Definition iupdate (i : nat) : M fst unit :=
  ip ← geti i;
  sb ← gets sb;
  d ← Bl (bread ip.(i_dev) (IBLOCK ip.(i_inum) sb));
  let d := put_dinode d ((ip.(i_inum) mod IPB) * DINODE_size) ip in
  Bl (log_write ip.(i_dev) (IBLOCK ip.(i_inum) sb) d);;
  Bl (brelse ip.(i_dev) (IBLOCK ip.(i_inum) sb) d).

Definition idup (i : nat) : M fst nat :=
  acquire_itable;;
  ip ← geti i;
  updi i (set_ref (s32 (ip.(i_ref) + 1)));;
  release_itable;;
  mret i.

Definition ilock (p : option nat) : M fst unit :=
  match p with
  | None => panic "ilock"
  | Some i =>
      ip ← geti i;
      if ip.(i_ref) <? 1 then panic "ilock"
      else
        acquiresleep i;;
        ip ← geti i;
        if negb ip.(i_valid) then
          sb ← gets sb;
          d ← Bl (bread ip.(i_dev) (IBLOCK ip.(i_inum) sb));
          updi i (get_dinode d ((ip.(i_inum) mod IPB) * DINODE_size));;
          Bl (brelse ip.(i_dev) (IBLOCK ip.(i_inum) sb) d);;
          updi i (set_valid true);;
          ip ← geti i;
          if ip.(i_type) =? 0 then panic "ilock: no type" else mret tt
        else mret tt
  end.

Definition iunlock (p : option nat) : M fst unit :=
  match p with
  | None => panic "iunlock"
  | Some i =>
      h ← holdingsleep i;
      ip ← geti i;
      if negb h || (ip.(i_ref) <? 1) then panic "iunlock" else releasesleep i
  end.

(** ** Inode content *)

(** [if((addr = a[k]) == 0){ a[k] = addr = balloc(dev); log_write(bp); }] on
    the block [addr], between its [bread] and its [brelse]. *)
Definition indirect (dev addr k : Z) : M fst Z :=
  d ← Bl (bread dev addr);
  if ld32 d (4 * k) =? 0 then
    a ← balloc dev;
    let d := st32 d (4 * k) a in
    Bl (log_write dev addr d);;
    Bl (brelse dev addr d);;
    mret a
  else
    Bl (brelse dev addr d);;
    mret (ld32 d (4 * k)).

(** [if((addr = ip->addrs[k]) == 0) ip->addrs[k] = addr = balloc(ip->dev);] *)
Definition direct (i : nat) (k : Z) : M fst Z :=
  ip ← geti i;
  if addr_at ip k =? 0 then
    a ← balloc ip.(i_dev);
    updi i (set_addr k a);;
    mret a
  else mret (addr_at ip k).

Definition bmap (i : nat) (bn : Z) : M fst Z :=
  ip ← geti i;
  if bn <? NDIRECT then direct i bn
  else
    let bn := bn - NDIRECT in
    if bn <? NINDIRECT then
      addr ← direct i NDIRECT;
      indirect ip.(i_dev) addr bn
    else
      let bn := bn - NINDIRECT in
      if bn <? NINDIRECT2 then
        addr ← direct i (NDIRECT + 1);
        let in_ := bn / NINDIRECT in
        let bn := bn mod NINDIRECT in
        addr ← indirect ip.(i_dev) addr in_;
        indirect ip.(i_dev) addr bn
      else panic "bmap: out of range".

(** [buf->data] of a buffer pointer that may be null. *)
Definition buf_data (b : option mem) : M fst mem :=
  match b with Some d => mret d | None => undef "null buf" end.

Definition itrunc (i : nat) : M fst unit :=
  ip ← geti i;
  let dev := ip.(i_dev) in
  for_each (R := unit) (seqZ 0 NDIRECT) (λ k,
    ip ← geti i;
    when (negb (addr_at ip k =? 0)) (bfree dev (addr_at ip k);; updi i (set_addr k 0));;
    mret None);;
  ip ← geti i;
  when (negb (addr_at ip NDIRECT =? 0)) (
    bp ← Bl (bread dev (addr_at ip NDIRECT));
    for_each (R := unit) (seqZ 0 NINDIRECT) (λ j,
      when (negb (ld32 bp (4 * j) =? 0)) (bfree dev (ld32 bp (4 * j)));;
      mret None);;
    Bl (brelse dev (addr_at ip NDIRECT) bp);;
    bfree dev (addr_at ip NDIRECT);;
    updi i (set_addr NDIRECT 0));;
  ip ← geti i;
  when (negb (addr_at ip (NDIRECT + 1) =? 0)) (
    let bi := None in
    bp ← Bl (bread dev (addr_at ip (NDIRECT + 1)));
    a ← buf_data bi;
    for_each (R := unit) (seqZ 0 NINDIRECT) (λ j,
      when (negb (ld32 a (4 * j) =? 0)) (
        bi ← Bl (bread dev (ld32 a (4 * j)));
        let a2 := bp in
        for_each (R := unit) (seqZ 0 NINDIRECT) (λ k,
          when (negb (ld32 a2 (4 * k) =? 0)) (bfree dev (ld32 a2 (4 * k)));;
          mret None);;
        Bl (brelse dev (ld32 a (4 * j)) bi);;
        bfree dev (ld32 a (4 * j)));;
      mret None);;
    Bl (brelse dev (addr_at ip (NDIRECT + 1)) bp);;
    bfree dev (addr_at ip (NDIRECT + 1));;
    updi i (set_addr (NDIRECT + 1) 0));;
  updi i (set_size 0);;
  iupdate i.

Definition iput (i : nat) : M fst unit :=
  acquire_itable;;
  ip ← geti i;
  when ((ip.(i_ref) =? 1) && ip.(i_valid) && (ip.(i_nlink) =? 0)) (
    acquiresleep i;;
    release_itable;;
    itrunc i;;
    updi i (set_type 0);;
    iupdate i;;
    updi i (set_valid false);;
    releasesleep i;;
    acquire_itable);;
  ip ← geti i;
  updi i (set_ref (s32 (ip.(i_ref) - 1)));;
  release_itable.

Definition iunlockput (i : nat) : M fst unit := iunlock (Some i);; iput i.

Definition stati (i : nat) : M fst stat :=
  ip ← geti i;
  mret (MkStat ip.(i_dev) ip.(i_inum) ip.(i_type) ip.(i_nlink) ip.(i_size)).

Definition readi (i : nat) (user_dst : bool) (dst off n : Z) : M fst Z :=
  ip ← geti i;
  if (ip.(i_size) <? off) || (u32 (off + n) <? off) then mret 0
  else
    let n := if ip.(i_size) <? u32 (off + n) then ip.(i_size) - off else n in
    tot ← loop (λ '(tot, off, dst),
      if tot <? n then
        bno ← bmap i (off / BSIZE);
        d ← Bl (bread ip.(i_dev) bno);
        let m := Z.min (n - tot) (BSIZE - off mod BSIZE) in
        r ← Xl (either_copyout user_dst dst (mem_read d (off mod BSIZE) (Z.to_nat m)));
        if r =? -1 then
          Bl (brelse ip.(i_dev) bno d);;
          mret (inr (u32 (-1)))
        else
          Bl (brelse ip.(i_dev) bno d);;
          mret (inl (u32 (tot + m), u32 (off + m), u64 (dst + m)))
      else mret (inr tot)) (0, off, dst);
    mret (s32 tot).

Definition writei (i : nat) (user_src : bool) (src off n : Z) : M fst Z :=
  ip ← geti i;
  if (ip.(i_size) <? off) || (u32 (off + n) <? off) then mret (-1)
  else if MAXFILE * BSIZE <? u32 (off + n) then mret (-1)
  else
    '(tot, off) ← loop (λ '(tot, off, src),
      if tot <? n then
        bno ← bmap i (off / BSIZE);
        d ← Bl (bread ip.(i_dev) bno);
        let m := Z.min (n - tot) (BSIZE - off mod BSIZE) in
        '(r, bs) ← Xl (either_copyin user_src src m);
        let d := mem_write d (off mod BSIZE) bs in
        if r =? -1 then
          Bl (brelse ip.(i_dev) bno d);;
          mret (inr (tot, off))
        else
          Bl (log_write ip.(i_dev) bno d);;
          Bl (brelse ip.(i_dev) bno d);;
          mret (inl (u32 (tot + m), u32 (off + m), u64 (src + m)))
      else mret (inr (tot, off))) (0, off, src);
    ip ← geti i;
    when (ip.(i_size) <? off) (updi i (set_size off));;
    iupdate i;;
    mret (s32 tot).

(** ** Directories

    [DE] is the address of the local variable [de]; its fields are read from
    kernel memory after [readi] filled it. *)
Variable DE : Z.

Definition kernel_bytes (x : X) (a n : Z) : list Z := (λ i, byte_at x false (a + i)) <$> seqZ 0 n.
Definition de_inum : M fst Z := gets (λ s, byte_at s.(xl) false DE + byte_at s.(xl) false (DE + 1) * 2 ^ 8).
Definition de_name : M fst (list Z) := gets (λ s, kernel_bytes s.(xl) (DE + 2) DIRSIZ).
(** Stores to the fields of [de]. *)
Definition set_de (a : Z) (bs : list Z) : M fst unit := Xl (either_copyout false a bs);; mret tt.

(** The entry found: its inode and its offset, which [*poff] receives. *)
Definition dirlookup (dp : nat) (name : list Z) : M fst (option (nat * Z)) :=
  d ← geti dp;
  if negb (d.(i_type) =? T_DIR) then panic "dirlookup not DIR"
  else loop (λ off : Z,
    d ← geti dp;
    if off <? d.(i_size) then
      r ← readi dp false DE off DIRENT_size;
      if negb (r =? DIRENT_size) then panic "dirlookup read"
      else
        inum ← de_inum;
        if inum =? 0 then mret (inl (u32 (off + DIRENT_size)))
        else
          nm ← de_name;
          if namecmp name nm =? 0 then
            i ← iget d.(i_dev) inum;
            mret (inr (Some (i, off)))
          else mret (inl (u32 (off + DIRENT_size)))
    else mret (inr None)) 0.

Definition dirlink (dp : nat) (name : list Z) (inum : Z) : M fst Z :=
  r ← dirlookup dp name;
  match r with
  | Some (i, _) => iput i;; mret (-1)
  | None =>
      off ← loop (λ off : Z,
        d ← geti dp;
        if u32 off <? d.(i_size) then
          r ← readi dp false DE (u32 off) DIRENT_size;
          if negb (r =? DIRENT_size) then panic "dirlink read"
          else
            ino ← de_inum;
            if ino =? 0 then mret (inr off) else mret (inl (s32 (off + DIRENT_size)))
        else mret (inr off)) 0;
      set_de (DE + 2) (strncpy (Z.to_nat DIRSIZ) name);;
      set_de DE (le_bytes 2 inum);;
      r ← writei dp false DE (u32 off) DIRENT_size;
      if negb (r =? DIRENT_size) then panic "dirlink" else mret 0
  end.

(** ** Paths *)

(** [cwd] is [myproc()->cwd].  The name buffer is returned too: it is an
    output of [nameiparent]. *)
Definition namex (cwd : nat) (path : list Z) (nameiparent : bool) (name : list Z) : M fst (option nat * list Z) :=
  ip ← (if hd 0 path =? slash then iget ROOTDEV ROOTINO else idup cwd);
  loop (λ '(ip, path, name),
    match skipelem path name with
    | Some (path, name) =>
        ilock (Some ip);;
        d ← geti ip;
        if negb (d.(i_type) =? T_DIR) then
          iunlockput ip;;
          mret (inr (None, name))
        else if nameiparent && bool_decide (path = []) then
          iunlock (Some ip);;
          mret (inr (Some ip, name))
        else
          next ← dirlookup ip name;
          match next with
          | None => iunlockput ip;; mret (inr (None, name))
          | Some (next, _) => iunlockput ip;; mret (inl (next, path, name))
          end
    | None =>
        if nameiparent then iput ip;; mret (inr (None, name))
        else mret (inr (Some ip, name))
    end) (ip, path, name).

Definition namei (cwd : nat) (path : list Z) : M fst (option nat) :=
  r ← namex cwd path false (replicate (Z.to_nat DIRSIZ) 0);
  mret r.1.
Definition nameiparent (cwd : nat) (path name : list Z) : M fst (option nat * list Z) :=
  namex cwd path true name.

End fs.
Arguments fst : clear implicits.
End Fs.
