(* ===== verification/FsBlocks.v ===== *)
(** * The block layer of the file system: contents, bitmap and allocator

    Rules for [bread], [log_write] and [brelse] inside the file-system state,
    the bitmap as a set of used blocks, and the specifications of [bzero],
    [balloc] and [bfree]. *)

From S2P Require Import Prelude Machine Fs.
Import Fs.

Module FsBlocks.

(** Contents of all blocks, by device and number. *)
Definition disk := Z → Z → mem.
Definition upd_blk (dev n : Z) (d : mem) (w : disk) : disk :=
  λ dev' n', if (dev' =? dev) && (n' =? n) then d else w dev' n'.

Lemma upd_blk_eq dev n d w : upd_blk dev n d w dev n = d.
Proof. by rw /upd_blk !Z.eqb_refl. Qed.
Lemma upd_blk_ne dev n d w dev' n' : dev' ≠ dev ∨ n' ≠ n → upd_blk dev n d w dev' n' = w dev' n'.
Proof. intros H. rw /upd_blk. zbool; try done. by destruct H. Qed.

(** ** Layout *)

(** The first data block, as [mkfs] computes it. *)
Definition dstart (sb : superblock) : Z := sb.(sb_bmapstart) + sb.(sb_size) / BPB + 1.
Record layout_ok (sb : superblock) : Prop := {
  lay_inodes : 1 < sb.(sb_inodestart) ∧ 0 ≤ sb.(sb_ninodes);
  lay_bmap : sb.(sb_inodestart) + sb.(sb_ninodes) / IPB + 1 ≤ sb.(sb_bmapstart);
  lay_data : dstart sb ≤ sb.(sb_size);
  lay_size : sb.(sb_size) < 2 ^ 31 - BPB;
}.

Lemma BBLOCK_eq sb b : layout_ok sb → 0 ≤ b < sb.(sb_size) → BBLOCK b sb = b / 8192 + sb.(sb_bmapstart).
Proof.
  intros [[Hi Hn] Hb Hd Hs] Hr. rw /BBLOCK u32_small //. rw /dstart /IPB /BPB /BSIZE in Hb Hd Hs *.
  change (1024 * 8) with 8192 in *. change (1024 / DINODE_size) with 16 in *. lia.
Qed.

Lemma BBLOCK_range sb b : layout_ok sb → 0 ≤ b < sb.(sb_size) →
  sb.(sb_bmapstart) ≤ BBLOCK b sb < dstart sb.
Proof.
  intros Hl Hr. rw (BBLOCK_eq sb b) //. destruct Hl as [_ _ _ Hs]. rw /dstart /BPB /BSIZE in Hs *.
  change (1024 * 8) with 8192 in *. lia.
Qed.

Lemma IBLOCK_range sb i : layout_ok sb → 0 ≤ i < sb.(sb_ninodes) →
  IBLOCK i sb = i / 16 + sb.(sb_inodestart) ∧ sb.(sb_inodestart) ≤ IBLOCK i sb < sb.(sb_bmapstart).
Proof.
  intros [[Hi Hn] Hb Hd Hs] Hr. rw /IBLOCK. rw /dstart /IPB /BPB /BSIZE in Hb Hd Hs *.
  change (1024 * 8) with 8192 in *. change (1024 / DINODE_size) with 16 in *. rw u32_small; lia.
Qed.

Lemma dstart_pos sb : layout_ok sb → 2 < sb.(sb_bmapstart) < dstart sb.
Proof.
  intros [[Hi Hn] Hb Hd Hs]. rw /dstart /IPB /BPB /BSIZE in Hb Hd Hs *.
  change (1024 * 8) with 8192 in *. change (1024 / DINODE_size) with 16 in *. lia.
Qed.

(** ** The bitmap *)

Definition used (w : disk) (sb : superblock) (dev b : Z) : bool :=
  Z.testbit (ld8 (w dev (BBLOCK b sb)) (b mod BPB / 8)) (b mod BPB mod 8).
Definition free_blocks (w : disk) (sb : superblock) (dev : Z) : list Z :=
  filter (λ b, used w sb dev b = false) (seqZ 0 sb.(sb_size)).

(** The C test of bit [k] of a byte. *)
Lemma land_shiftl_test x k : 0 ≤ k → (Z.land x (Z.shiftl 1 k) =? 0) = negb (Z.testbit x k).
Proof.
  intros Hk. rw Z.shiftl_1_l land_pow2 //. destruct (Z.testbit x k); [|done].
  apply Z.eqb_neq. pose proof (Z.pow_pos_nonneg 2 k). lia.
Qed.

Lemma testbit_u8 x k : 0 ≤ k < 8 → Z.testbit (u8 x) k = Z.testbit x k.
Proof. intros Hk. by rw /u8 Z.mod_pow2_bits_low; [|lia]. Qed.

Lemma filter_cons_inv {A} (P : A → Prop) `{∀ x, Decision (P x)} (l : list A) f fs :
  filter P l = f :: fs →
  ∃ l1 l2, l = l1 ++ f :: l2 ∧ Forall (λ x, ¬ P x) l1 ∧ P f ∧ filter P l2 = fs.
Proof.
  induction l as [|a l IH]; [done|]. rw filter_cons. destruct (decide (P a)) as [Ha|Ha].
  - intros [= <- <-]. by exists [], l.
  - intros (l1 & l2 & -> & H1 & H2 & H3)%IH. exists (a :: l1), l2. split_and!; try done. by constructor.
Qed.

Lemma filter_ext_in {A} (P Q : A → Prop) `{∀ x, Decision (P x), ∀ x, Decision (Q x)} (l : list A) :
  (∀ x, x ∈ l → P x ↔ Q x) → filter P l = filter Q l.
Proof.
  induction l as [|a l IH]; intros HPQ; [done|]. rw !filter_cons IH; [|intros x Hx; apply HPQ; set_solver].
  destruct (HPQ a ltac:(set_solver)). repeat case_decide; naive_solver.
Qed.

Lemma filter_take_head {A} (P Q : A → Prop) `{∀ x, Decision (P x), ∀ x, Decision (Q x)} (l : list A) f fs :
  NoDup l → filter P l = f :: fs → (∀ x, x ∈ l → Q x ↔ P x ∧ x ≠ f) → filter Q l = fs.
Proof.
  induction l as [|a l IH]; [done|]. intros [Ha Hnd]%NoDup_cons. rw !filter_cons. intros E HQ.
  pose proof (HQ a ltac:(set_solver)) as Hqa. destruct (decide (P a)).
  - injection E as <- <-. rewrite decide_False; [|naive_solver].
    apply filter_ext_in. intros x Hx. rw HQ; [|set_solver]. set_solver.
  - rewrite decide_False; [|naive_solver]. apply IH; [done..|]. intros x Hx. apply HQ. set_solver.
Qed.

Lemma seqZ_split n l1 f l2 : seqZ 0 n = l1 ++ f :: l2 →
  0 ≤ f < n ∧ (∀ x, 0 ≤ x < f → x ∈ l1) ∧ (∀ x, x ∈ l1 → x < f) ∧ (∀ x, x ∈ l2 → f < x).
Proof.
  intros E. assert (seqZ 0 n !! length l1 = Some f) as Hf by (rw E list_lookup_middle //).
  apply lookup_seqZ in Hf as [-> Hlt].
  assert (∀ i x, seqZ 0 n !! i = Some x → x = Z.of_nat i) as Hx by (intros i x [-> _]%lookup_seqZ; lia).
  split; [lia|]. split_and!.
  - intros x Hr. apply list_elem_of_lookup. exists (Z.to_nat x).
    assert (seqZ 0 n !! Z.to_nat x = Some x) as H by (apply lookup_seqZ; lia).
    rewrite -> E, lookup_app_l in H by lia. done.
  - intros x [i Hi]%list_elem_of_lookup. pose proof (lookup_lt_Some _ _ _ Hi) as Hlt1.
    assert (seqZ 0 n !! i = Some x) as H by (rw E; by apply lookup_app_l_Some). apply Hx in H. lia.
  - intros x [i Hi]%list_elem_of_lookup.
    assert (seqZ 0 n !! (length l1 + S i)%nat = Some x) as H.
    { rw E lookup_app_r; [|lia]. by replace (length l1 + S i - length l1)%nat with (S i) by lia. }
    apply Hx in H. lia.
Qed.

(** The first free block and what is left when it is taken. *)
Lemma free_blocks_head w sb dev f fs : free_blocks w sb dev = f :: fs →
  0 ≤ f < sb.(sb_size) ∧ used w sb dev f = false ∧ (∀ b, 0 ≤ b < f → used w sb dev b = true).
Proof.
  intros (l1 & l2 & E & H1 & Hf & _)%filter_cons_inv. apply seqZ_split in E as (Hr & Hlt & _).
  split_and!; [lia..|done|]. intros b Hb. apply Hlt in Hb. rw Forall_forall in H1.
  destruct (used w sb dev b) eqn:E; [done|]. by destruct (H1 b Hb).
Qed.

Lemma free_blocks_take w w' sb dev f fs : free_blocks w sb dev = f :: fs →
  (∀ b, 0 ≤ b < sb.(sb_size) → used w' sb dev b = (b =? f) || used w sb dev b) →
  free_blocks w' sb dev = fs.
Proof.
  intros Hf Hu. eapply filter_take_head; [apply NoDup_seqZ|exact Hf|]. intros x Hx%elem_of_seqZ. simpl.
  rw Hu; [|lia]. zbool; naive_solver.
Qed.

(** Storing the byte that holds the bit of [f]. *)
Lemma used_st8 w sb dev f v b : layout_ok sb → 0 ≤ f < sb.(sb_size) → 0 ≤ b < sb.(sb_size) →
  used (upd_blk dev (BBLOCK f sb) (st8 (w dev (BBLOCK f sb)) (f mod BPB / 8) v) w) sb dev b =
    if b / 8 =? f / 8 then Z.testbit v (b mod BPB mod 8) else used w sb dev b.
Proof.
  intros Hl Hf Hb. rw /used /upd_blk Z.eqb_refl /=.
  assert (BBLOCK b sb =? BBLOCK f sb = (b / 8192 =? f / 8192)) as -> by (rw !BBLOCK_eq //; zbool; lia).
  change BPB with 8192. destruct (Z.eqb_spec (b / 8192) (f / 8192)) as [E|E]; simpl.
  - rw /st8 {1}/ld8. destruct (Z.eqb_spec (b / 8) (f / 8)) as [E'|E']; zdec.
    + rw !testbit_u8 //; lia.
    + assert (BBLOCK f sb = BBLOCK b sb) as -> by (rw !BBLOCK_eq //; lia). done.
  - zdec. done.
Qed.

Lemma used_mark w sb dev f b : layout_ok sb → 0 ≤ f < sb.(sb_size) → 0 ≤ b < sb.(sb_size) →
  let d := w dev (BBLOCK f sb) in
  used (upd_blk dev (BBLOCK f sb) (st8 d (f mod BPB / 8)
    (Z.lor (ld8 d (f mod BPB / 8)) (Z.shiftl 1 (f mod BPB mod 8)))) w) sb dev b = (b =? f) || used w sb dev b.
Proof.
  intros Hl Hf Hb d. rw used_st8 //. change BPB with 8192. rw Z.shiftl_1_l.
  destruct (Z.eqb_spec (b / 8) (f / 8)) as [E|E]; zbool; subst; try done; try lia.
  - rw Z.lor_spec Z.pow2_bits_true; [|lia]. by rw orb_true_r.
  - rw Z.lor_spec Z.pow2_bits_eqb; [|lia]. zdec. rw orb_false_r /used /d.
    assert (BBLOCK b sb = BBLOCK f sb) as -> by (rw !BBLOCK_eq //; lia). change BPB with 8192. do 2 f_equal; lia.
Qed.

Lemma used_clear w sb dev f b : layout_ok sb → 0 ≤ f < sb.(sb_size) → 0 ≤ b < sb.(sb_size) →
  let d := w dev (BBLOCK f sb) in
  used (upd_blk dev (BBLOCK f sb) (st8 d (f mod BPB / 8)
    (Z.land (ld8 d (f mod BPB / 8)) (Z.lnot (Z.shiftl 1 (f mod BPB mod 8))))) w) sb dev b
  = negb (b =? f) && used w sb dev b.
Proof.
  intros Hl Hf Hb d. rw used_st8 //. change BPB with 8192. rw Z.shiftl_1_l.
  destruct (Z.eqb_spec (b / 8) (f / 8)) as [E|E]; zbool; subst; try done; try lia.
  - rw Z.land_spec Z.lnot_spec; [|lia]. rw Z.pow2_bits_true; [|lia]. by rw andb_false_r.
  - rw Z.land_spec Z.lnot_spec; [|lia]. rw Z.pow2_bits_eqb; [|lia]. zdec. rw andb_true_r /used /d.
    assert (BBLOCK b sb = BBLOCK f sb) as -> by (rw !BBLOCK_eq //; lia). change BPB with 8192. do 2 f_equal; lia.
Qed.

(** ** Rules for the buffer operations *)

Section rules.
Context {B X : Type} {BL : BufLayer B} {CL : CopyLayer X}.
Notation fst := (fst B X).
Implicit Types s : fst.

Definition blks s : disk := blk s.(bl).
Definition locked s : list (Z * Z) := held s.(bl).
Definition room s : Z := log_room s.(bl).

(** [s'] differs from [s] at most in the blocks, which are now [w]; the same
    buffers are locked and at most [c] entries of the log were used. *)
Record eff s s' (w : disk) (c : Z) : Prop := {
  eff_rest : s' = set_bl s'.(bl) s;
  eff_held : locked s' = locked s;
  eff_room : room s - c ≤ room s' ≤ room s;
  eff_blk : ∀ dev n, blks s' dev n = w dev n;
}.

Lemma eff_refl s c : 0 ≤ c → eff s s (blks s) c.
Proof. intros. split; [by destruct s|done|lia|done]. Qed.
Lemma eff_trans s s1 s2 w1 w2 c1 c2 : eff s s1 w1 c1 → eff s1 s2 w2 c2 → eff s s2 w2 (c1 + c2).
Proof.
  intros [E1 H1 R1 _] [E2 H2 R2 B2]. split; [by rw E2 E1|by rw H2|lia|done].
Qed.
Lemma eff_here s s' w c : eff s s' w c → eff s s' (blks s') c.
Proof. intros [? ? ? _]. by split. Qed.
(** The state between a [bread] and its [brelse]. *)
Lemma eff_sb s s' w c : eff s s' w c → s'.(sb) = s.(sb).
Proof. by intros [-> _ _ _]. Qed.

Definition can_lock s (dev n : Z) : Prop := (dev, n) ∉ locked s ∧ Z.of_nat (length (locked s)) < NBUF.

Lemma wp_bread dev n (Q : mem → fst → Prop) s :
  can_lock s dev n →
  (∀ s', s' = set_bl s'.(bl) s → blks s' = blks s → locked s' = (dev, n) :: locked s → room s' = room s →
    Q (blks s dev n) s') →
  wp (Bl (bread dev n)) Q s.
Proof.
  intros [Hn Hl] HQ. destruct (bread_ok s.(bl) dev n Hn Hl) as (b' & Hr & Hb & Hh & Hg).
  rw /wp /Bl /lift Hr. by apply HQ.
Qed.

Lemma wp_log_write dev n d (Q : unit → fst → Prop) s :
  (dev, n) ∈ locked s → 0 < room s →
  (∀ s', s' = set_bl s'.(bl) s → (∀ dev' n', blks s' dev' n' = upd_blk dev n d (blks s) dev' n') →
     locked s' = locked s → room s - 1 ≤ room s' ≤ room s → Q tt s') →
  wp (Bl (log_write dev n d)) Q s.
Proof.
  intros Hn Hl HQ. destruct (log_write_ok s.(bl) dev n d Hn Hl) as (b' & Hr & Hh & Hg & Hb & Hb').
  rw /wp /Bl /lift Hr. apply HQ; try done. intros dev' n'. rw /upd_blk. zbool; subst; try done;
    apply Hb'; congruence.
Qed.

Lemma wp_brelse dev n d l (Q : unit → fst → Prop) s :
  locked s = (dev, n) :: l → d = blks s dev n →
  (∀ s', s' = set_bl s'.(bl) s → blks s' = blks s → locked s' = l → room s' = room s → Q tt s') →
  wp (Bl (brelse dev n d)) Q s.
Proof.
  intros Hn -> HQ. destruct (brelse_ok s.(bl) dev n l Hn) as (b' & Hr & Hb & Hh & Hg).
  rw /wp /Bl /lift Hr. by apply HQ.
Qed.

(** Reading a block: [bread], then [brelse] of the same data. *)
Lemma wp_read_block {A} dev n (k : mem → M fst A) (Q : A → fst → Prop) s :
  can_lock s dev n →
  (∀ s', s' = set_bl s'.(bl) s → blks s' = blks s → locked s' = (dev, n) :: locked s → room s' = room s →
    wp (k (blks s dev n)) Q s') →
  wp (d ← Bl (bread dev n); k d) Q s.
Proof. intros H HQ. apply wp_bind. by apply wp_bread. Qed.

(** Replacing the contents of a locked block and unlocking it. *)
Lemma wp_write_release dev n d l (Q : unit → fst → Prop) s :
  locked s = (dev, n) :: l → 0 < room s →
  (∀ s', s' = set_bl s'.(bl) s → (∀ dev' n', blks s' dev' n' = upd_blk dev n d (blks s) dev' n') →
     locked s' = l → room s - 1 ≤ room s' ≤ room s → Q tt s') →
  wp (Bl (log_write dev n d);; Bl (brelse dev n d)) Q s.
Proof.
  intros Hn Hr HQ. apply wp_bind. apply wp_log_write; [rw Hn; set_solver|done|].
  intros s1 E1 Hb1 Hh1 Hr1. apply (wp_brelse _ _ _ l); [by rw Hh1|by rw Hb1 upd_blk_eq|].
  intros s2 E2 Hb2 Hh2 Hr2. apply HQ; [by rw E2 E1|by rw Hb2|done|by rw Hr2].
Qed.

Lemma wp_write_release_k {A} (k : M fst A) dev n d l (Q : A → fst → Prop) s :
  locked s = (dev, n) :: l → 0 < room s →
  (∀ s', s' = set_bl s'.(bl) s → (∀ dev' n', blks s' dev' n' = upd_blk dev n d (blks s) dev' n') →
     locked s' = l → room s - 1 ≤ room s' ≤ room s → wp k Q s') →
  wp (Bl (log_write dev n d);; Bl (brelse dev n d);; k) Q s.
Proof.
  intros Hn Hr HQ. apply wp_bind. apply wp_log_write; [rw Hn; set_solver|done|].
  intros s1 E1 Hb1 Hh1 Hr1. apply wp_bind. apply (wp_brelse _ _ _ l); [by rw Hh1|by rw Hb1 upd_blk_eq|].
  intros s2 E2 Hb2 Hh2 Hr2. apply HQ; [by rw E2 E1|by rw Hb2|done|by rw Hr2].
Qed.

(** A read-modify-write of one block. *)
Lemma wp_modify_block dev n (f : mem → mem) (Q : unit → fst → Prop) s :
  can_lock s dev n → 0 < room s →
  (∀ s', eff s s' (upd_blk dev n (f (blks s dev n)) (blks s)) 1 → Q tt s') →
  wp (d ← Bl (bread dev n); Bl (log_write dev n (f d));; Bl (brelse dev n (f d))) Q s.
Proof.
  intros Hc Hr HQ. apply wp_read_block; [done|]. intros s1 E1 Hb1 Hh1 Hr1.
  apply (wp_write_release _ _ _ (locked s)); [done|by rw Hr1|]. intros s2 E2 Hb2 Hh2 Hr2.
  apply HQ. split; [by rw E2 E1|done|lia|]. intros dev' n'. rw Hb2 /upd_blk Hb1. done.
Qed.

(** ** The allocator *)

Lemma bzero_spec dev n (Q : unit → fst → Prop) s :
  can_lock s dev n → 0 < room s →
  (∀ s', eff s s' (upd_blk dev n (memset (blks s dev n) 0 0 BSIZE) (blks s)) 1 → Q tt s') →
  wp (bzero dev n) Q s.
Proof. apply (wp_modify_block dev n (λ d, memset d 0 0 BSIZE)). Qed.

(** The metadata blocks are marked in use. *)
Record fs_ok (w : disk) (sb : superblock) (dev : Z) : Prop := {
  fs_layout : layout_ok sb;
  fs_meta : ∀ b, 0 ≤ b < dstart sb → used w sb dev b = true;
}.

(** Block [f] was taken from the free blocks and zeroed. *)
Record alloc_step (sb : superblock) (dev : Z) (w w' : disk) (f : Z) : Prop := {
  as_range : dstart sb ≤ f < sb.(sb_size);
  as_fresh : used w sb dev f = false;
  as_free : free_blocks w sb dev = f :: free_blocks w' sb dev;
  as_used : ∀ b, 0 ≤ b < sb.(sb_size) → used w' sb dev b = (b =? f) || used w sb dev b;
  as_zero : ∀ x, 0 ≤ x < BSIZE → w' dev f x = 0;
  as_other : ∀ d n, d ≠ dev ∨ (n ≠ f ∧ ¬ (sb.(sb_bmapstart) ≤ n < dstart sb)) → w' d n = w d n;
}.

Lemma used_other w w' sb dev b : (∀ n, sb.(sb_bmapstart) ≤ n < dstart sb → w' dev n = w dev n) →
  layout_ok sb → 0 ≤ b < sb.(sb_size) → used w' sb dev b = used w sb dev b.
Proof. intros H Hl Hb. rw /used H //. by apply BBLOCK_range. Qed.

Lemma free_head_data w sb dev f fs : fs_ok w sb dev → free_blocks w sb dev = f :: fs → dstart sb ≤ f.
Proof.
  intros [_ Hm] (Hr & Hf & _)%free_blocks_head. destruct (Z.lt_ge_cases f (dstart sb)); [|done].
  rw Hm // in Hf. lia.
Qed.

(** The contents after block [f] is marked and zeroed. *)
Lemma mark_zero_alloc sb dev w f fs : fs_ok w sb dev → free_blocks w sb dev = f :: fs →
  let d := w dev (BBLOCK f sb) in
  let w1 := upd_blk dev (BBLOCK f sb) (st8 d (f mod BPB / 8)
    (Z.lor (ld8 d (f mod BPB / 8)) (Z.shiftl 1 (f mod BPB mod 8)))) w in
  alloc_step sb dev w (upd_blk dev f (memset (w1 dev f) 0 0 BSIZE) w1) f.
Proof.
  intros Hok Hfree d w1. pose proof (free_head_data _ _ _ _ _ Hok Hfree) as Hdf. destruct Hok as [Hl Hm].
  destruct (free_blocks_head _ _ _ _ _ Hfree) as (Hr & Hu & _).
  pose proof (BBLOCK_range sb f Hl Hr) as HB.
  assert (∀ b, 0 ≤ b < sb.(sb_size) → used (upd_blk dev f (memset (w1 dev f) 0 0 BSIZE) w1) sb dev b
    = (b =? f) || used w sb dev b) as Hused.
  { intros b Hb. rw (used_other w1) //; [|by intros n Hn; apply upd_blk_ne; lia]. by apply used_mark. }
  split; [lia|done| |done|..].
  - by rw (free_blocks_take w (upd_blk dev f (memset (w1 dev f) 0 0 BSIZE) w1) sb dev f fs).
  - intros x Hx. rw upd_blk_eq /memset. by zdec.
  - intros d' n Hn. etrans; apply upd_blk_ne; destruct Hn as [?|[? Hn]]; auto. right. intros ->. by apply Hn.
Qed.

Lemma alloc_step_ext sb dev w w1 w2 f : (∀ d n, w2 d n = w1 d n) → alloc_step sb dev w w1 f → alloc_step sb dev w w2 f.
Proof.
  intros E [H1 H2 H3 H4 H5 H6].
  assert (∀ b, used w2 sb dev b = used w1 sb dev b) as Hu by (intros b; by rw /used E).
  split; [done..| | | |].
  - rw H3. f_equal. apply filter_ext_in. intros x _. by rw Hu.
  - intros b Hb. by rw Hu H4.
  - intros x Hx. by rw E H5.
  - intros d n Hn. by rw E H6.
Qed.

Definition locks_data s (dev : Z) : Prop :=
  Z.of_nat (length (locked s)) < NBUF ∧
  ∀ n, (dev, n) ∈ locked s → dstart s.(sb) ≤ n < s.(sb).(sb_size) ∧ used (blks s) s.(sb) dev n = true.

Lemma balloc_spec s dev f fs :
  fs_ok (blks s) s.(sb) dev → free_blocks (blks s) s.(sb) dev = f :: fs → locks_data s dev → 2 ≤ room s →
  wp (balloc dev) (λ r s', r = f ∧ alloc_step s.(sb) dev (blks s) (blks s') f ∧ eff s s' (blks s') 2) s.
Proof.
  intros Hok Hfree [Hlen Hlk] Hroom. pose proof Hok as [Hl Hm].
  destruct (free_blocks_head _ _ _ _ _ Hfree) as (Hr & Hu & Hlow).
  pose proof (lay_size _ Hl) as Hsz. change BPB with 8192 in Hsz.
  rw /balloc. apply wp_gets_bind. set (SB := sb s) in *.
  apply (wp_loop (λ b s', b mod 8192 = 0 ∧ 0 ≤ b ≤ f ∧ eff s s' (blks s) 0) (λ b, f - b)).
  { split_and!; [done|lia|lia|by apply eff_refl]. }
  { lia. }
  intros b s0 (Hbm & Hb & Heff) _. rewrite -> u32_small by lia. zdec.
  apply wp_bind. apply wp_bread.
  { split; [|by rw (eff_held _ _ _ _ Heff)]. rw (eff_held _ _ _ _ Heff). intros Hin.
    apply Hlk in Hin as [Hd _]. pose proof (BBLOCK_range SB b Hl ltac:(lia)). fold SB in Hd. lia. }
  intros s1 E1 Hb1 Hh1 Hr1. apply wp_bind.
  assert (∀ dev' n, blks s0 dev' n = blks s dev' n) as Hb0 by apply Heff.
  assert (∀ bi, 0 ≤ bi < 8192 → b + bi < sb_size SB →
    Z.testbit (ld8 (blks s0 dev (BBLOCK b SB)) (bi / 8)) (bi mod 8) = used (blks s) SB dev (b + bi)) as Hbit.
  { intros bi Hbi Hlt. rw Hb0 /used. change BPB with 8192. replace ((b + bi) mod 8192) with bi by lia.
    assert (BBLOCK (b + bi) SB = BBLOCK b SB) as -> by (rw !BBLOCK_eq //; lia). done. }
  apply (wp_loop (λ bi s', s' = s1 ∧ 0 ≤ bi ≤ 8192 ∧ b + bi ≤ f) (λ bi, 8192 - bi)); [split_and!; try done; lia|lia|].
  intros bi s' (-> & Hbi & Hle) _. change BPB with 8192. rewrite -> u32_small by lia.
  destruct (Z.ltb_spec bi 8192) as [Hlt|Hge]; simpl; last first.
  { (* end of this bitmap block *)
    apply wp_ret. apply wp_bind. apply (wp_brelse _ _ _ (locked s0)); [done|by rw Hb1|].
    intros s2 E2 Hb2 Hh2 Hr2. apply wp_ret. rewrite -> s32_small by lia. split; [|lia].
    split_and!; [lia..|]. destruct Heff as [E0 H0 R0 _].
    split; [by rw E2 E1 E0|by rw Hh2|lia|]. intros dev' n. by rw Hb2 Hb1 Hb0. }
  zdec. rw land_shiftl_test; [|lia]. rw Hbit; [|lia..].
  destruct (Z.eq_dec (b + bi) f) as [Ef|Ef]; last first.
  { rw Hlow; [|lia]. simpl. apply wp_ret. split; [split_and!; try done; lia|lia]. }
  rw Ef Hu. simpl. replace bi with (f mod 8192) by lia.
  assert (BBLOCK b SB = BBLOCK f SB) as EB by (rw !BBLOCK_eq //; lia). rw EB.
  rw Hb0. pose proof (BBLOCK_range SB f Hl Hr) as HB.
  pose proof (free_head_data _ _ _ _ _ Hok Hfree) as Hdf.
  destruct Heff as [E0 H0 R0 _]. set (d := st8 _ _ _).
  apply (wp_write_release_k _ _ _ _ (locked s0)); [by rw Hh1 EB|lia|].
  intros s2 E2 Hb2 Hh2 Hr2. apply wp_bind. apply bzero_spec.
  { split; rw Hh2 H0; [|done]. intros Hin. apply Hlk in Hin as [_ Hx]. congruence. }
  { lia. }
  intros s3 [E3 H3 R3 B3]. apply wp_ret.
  assert (∀ dev' n, blks s2 dev' n = upd_blk dev (BBLOCK f SB) d (blks s) dev' n) as Hw.
  { intros dev' n. rw Hb2 /upd_blk Hb1 Hb0. done. }
  split; [done|]. split; [|split; [by rw E3 E2 E1 E0|by rw H3 Hh2|lia|done]].
  eapply alloc_step_ext; [|exact (mark_zero_alloc SB dev (blks s) f fs Hok Hfree)].
  intros dev' n. rw B3 /upd_blk !Hw /upd_blk. done.
Qed.

(** [bfree] clears the bit of the block and changes nothing else. *)
Lemma bfree_spec s dev f :
  fs_ok (blks s) s.(sb) dev → dstart s.(sb) ≤ f < s.(sb).(sb_size) → used (blks s) s.(sb) dev f = true →
  locks_data s dev → 1 ≤ room s →
  wp (bfree dev f) (λ _ s', eff s s' (blks s') 1
    ∧ (∀ b, 0 ≤ b < s.(sb).(sb_size) → used (blks s') s.(sb) dev b = negb (b =? f) && used (blks s) s.(sb) dev b)
    ∧ ∀ d n, d ≠ dev ∨ ¬ (s.(sb).(sb_bmapstart) ≤ n < dstart s.(sb)) → blks s' d n = blks s d n) s.
Proof.
  intros [Hl Hm] Hr Hu [Hlen Hlk] Hroom. rw /bfree. apply wp_gets_bind. set (SB := sb s) in *.
  pose proof (dstart_pos SB Hl) as Hd0.
  pose proof (BBLOCK_range SB f Hl ltac:(lia)) as HB.
  apply wp_read_block; [split; [|done]; intros Hin; apply Hlk in Hin as [Hd _]; fold SB in Hd; lia|].
  intros s1 E1 Hb1 Hh1 Hr1. change BPB with 8192. rw land_shiftl_test; [|lia].
  rw /used in Hu. change BPB with 8192 in Hu. rw Hu /=.
  apply (wp_write_release _ _ _ (locked s)); [done|lia|]. intros s2 E2 Hb2 Hh2 Hr2.
  split; [split; [by rw E2 E1|done|lia|done]|]. split.
  - intros b Hb. rw -(used_clear (blks s) SB dev f b Hl ltac:(lia) Hb) /used Hb2 /upd_blk Hb1. done.
  - intros d n Hn. rw Hb2 /upd_blk Hb1. zbool; subst; try done. exfalso. destruct Hn as [?|Hn]; [done|by apply Hn].
Qed.

(** Freeing twice is caught. *)
Lemma bfree_free_panics s dev f :
  layout_ok s.(sb) → 0 ≤ f < s.(sb).(sb_size) → used (blks s) s.(sb) dev f = false → can_lock s dev (BBLOCK f s.(sb)) →
  bfree dev f s = Err (Panic "freeing free block").
Proof.
  intros Hl Hr Hu [Hn Hlen]. destruct (bread_ok s.(bl) dev (BBLOCK f s.(sb)) Hn Hlen) as (b' & Hb & _).
  rw /bfree /mbind /M_bind /gets /= /Bl /lift Hb. change BPB with 8192. rw land_shiftl_test; [|lia].
  rw /used in Hu. change BPB with 8192 in Hu. rw /blks in Hu. by rw Hu.
Qed.

End rules.
End FsBlocks.
