(* ===== verification/FsTree.v ===== *)
(** * The block tree of an inode

    The blocks of a file form a tree: [addrs] points to [NDIRECT] data blocks,
    to an indirect block and to a doubly indirect block.  A path names a
    pointer of the tree, last index first: [[k]] is [addrs[k]], [j :: p] the
    [j]-th entry of the block at [p].  The file is well formed when no block
    is used twice and every block is an allocated data block. *)

From S2P Require Import Prelude Machine Fs FsBlocks.
Import Fs FsBlocks.

Module FsTree.

#[local] Arguments le_bytes : simpl never.
#[local] Arguments nth : simpl never.

(** ** Paths *)

Definition vpath (p : list Z) : Prop :=
  match p with
  | [k] => 0 ≤ k < 13
  | [j; k] => 0 ≤ j < 256 ∧ (k = 11 ∨ k = 12)
  | [l; j; k] => 0 ≤ l < 256 ∧ 0 ≤ j < 256 ∧ k = 12
  | _ => False
  end.

(** The path of the [bn]-th data block. *)
Definition leaf (bn : Z) : list Z :=
  if bn <? 11 then [bn] else if bn <? 267 then [bn - 11; 11]
  else [(bn - 267) mod 256; (bn - 267) / 256; 12].

(** Paths of blocks that hold pointers. *)
Definition inner (p : list Z) : Prop :=
  match p with [k] => k = 11 ∨ k = 12 | [j; k] => 0 ≤ j < 256 ∧ k = 12 | _ => False end.

Lemma vpath_tail j p : vpath (j :: p) → p ≠ [] → inner p ∧ vpath p ∧ 0 ≤ j < 256.
Proof. destruct p as [|a [|b [|c p]]]; simpl; intros H Hp; try done; naive_solver lia. Qed.

Lemma vpath_leaf bn : 0 ≤ bn < MAXFILE → vpath (leaf bn) ∧ ¬ inner (leaf bn).
Proof.
  change MAXFILE with 65803. rw /leaf. intros Hbn.
  destruct (Z.ltb_spec bn 11); [simpl; lia|]. destruct (Z.ltb_spec bn 267); simpl; lia.
Qed.

Lemma leaf_inj bn bn' : 0 ≤ bn < MAXFILE → 0 ≤ bn' < MAXFILE → leaf bn = leaf bn' → bn = bn'.
Proof.
  change MAXFILE with 65803. rw /leaf. intros Hbn Hbn'.
  destruct (Z.ltb_spec bn 11), (Z.ltb_spec bn' 11); try destruct (Z.ltb_spec bn 267); try destruct (Z.ltb_spec bn' 267);
    intros E; simplify_eq; lia.
Qed.

(** ** Pointers *)

Section tree.
Variables (sb : superblock) (dev : Z).
Implicit Types (w : disk) (a : Z → Z).

Fixpoint nptr w a (p : list Z) : Z :=
  match p with
  | [] => 0
  | j :: p' =>
      match p' with
      | [] => a j
      | _ => if nptr w a p' =? 0 then 0 else ld32 (w dev (nptr w a p')) (4 * j)
      end
  end.

Lemma nptr_cons w a j p : p ≠ [] →
  nptr w a (j :: p) = if nptr w a p =? 0 then 0 else ld32 (w dev (nptr w a p)) (4 * j).
Proof. by destruct p. Qed.

Record tree_ok w a : Prop := {
  t_range p : vpath p → nptr w a p ≠ 0 → dstart sb ≤ nptr w a p < sb.(sb_size) ∧ used w sb dev (nptr w a p) = true;
  t_inj p q : vpath p → vpath q → nptr w a p ≠ 0 → nptr w a p = nptr w a q → p = q;
}.

(** The byte at offset [o] of the file. *)
Definition fbyte w a (o : Z) : Z :=
  let b := nptr w a (leaf (o / BSIZE)) in
  if b =? 0 then 0 else ld8 (w dev b) (o mod BSIZE).

(** Taking block [f] and storing its number in the empty slot [p]. *)
Record slot_set w a w' a' (p : list Z) (f : Z) : Prop := {
  ss_addr k : 0 ≤ k < 13 → a' k = if decide ([k] = p) then f else a k;
  ss_inner j q : vpath (j :: q) → q ≠ [] → nptr w a q ≠ 0 →
    ld32 (w' dev (nptr w a q)) (4 * j) = if decide (j :: q = p) then f else ld32 (w dev (nptr w a q)) (4 * j);
  ss_parent j q : p = j :: q → q ≠ [] → nptr w a q ≠ 0;
  ss_zero j : 0 ≤ j < 256 → ld32 (w' dev f) (4 * j) = 0;
}.

Lemma nptr_slot_set w a w' a' p f :
  slot_set w a w' a' p f → f ≠ 0 → nptr w a p = 0 →
  ∀ q, vpath q → nptr w' a' q = if decide (q = p) then f else nptr w a q.
Proof.
  intros [Ha Hi Hpar Hz] Hf Hp q. induction q as [|j q IH]; [done|]. intros Hv. destruct (decide (q = [])) as [->|Hq].
  - simpl. by apply Ha.
  - destruct (vpath_tail _ _ Hv Hq) as (Hin & Hvq & Hj). rw !nptr_cons // IH //.
    destruct (decide (q = p)) as [->|Hne].
    + zdec. rw Hz //. rewrite decide_False; [done|].
      intros E. apply (f_equal length) in E. simpl in E. lia.
    + destruct (Z.eqb_spec (nptr w a q) 0) as [E0|E0]; [|by apply Hi].
      rewrite decide_False; [done|]. intros <-. by apply (Hpar j q).
Qed.

(** What every operation on the file keeps: no pointer changes, new blocks
    were free and belong to the file, no block outside the file and the bitmap changes. *)
Record keeps w a w' a' : Prop := {
  k_ptr q : vpath q → nptr w' a' q = nptr w a q ∨ (nptr w a q = 0 ∧ used w sb dev (nptr w' a' q) = false);
  k_used n : 0 ≤ n < sb.(sb_size) → used w sb dev n = true → used w' sb dev n = true;
  k_frame n : dstart sb ≤ n < sb.(sb_size) → used w sb dev n = true →
    (∀ q, vpath q → nptr w a q ≠ n) → w' dev n = w dev n;
  k_meta n : 0 ≤ n < sb.(sb_bmapstart) → w' dev n = w dev n;
  k_dev d n : d ≠ dev → w' d n = w d n;
  k_new n : dstart sb ≤ n < sb.(sb_size) → used w' sb dev n = true →
    used w sb dev n = true ∨ ∃ q, vpath q ∧ nptr w' a' q = n;
}.

(** An operation that only adds blocks to the file: the file reads the same. *)
Record grows w a w' a' (c : Z) : Prop := {
  g_keeps : keeps w a w' a';
  g_byte o : 0 ≤ o < MAXFILE * BSIZE → fbyte w' a' o = fbyte w a o;
  g_free : Z.of_nat (length (free_blocks w sb dev)) - c ≤ Z.of_nat (length (free_blocks w' sb dev));
}.

Lemma keeps_refl w a : keeps w a w a.
Proof. split; auto. Qed.
Lemma grows_refl w a c : 0 ≤ c → grows w a w a c.
Proof. intros Hc. split; [apply keeps_refl|done|lia]. Qed.

Lemma keeps_trans w a w1 a1 w2 a2 :
  keeps w a w1 a1 → keeps w1 a1 w2 a2 → tree_ok w2 a2 → layout_ok sb → keeps w a w2 a2.
Proof.
  intros [P1 U1 F1 M1 D1 N1] [P2 U2 F2 M2 D2 N2] Ht2 Hl. pose proof (dstart_pos sb Hl) as Hdp. split.
  - intros q Hq. destruct (P2 q Hq) as [->|[E2 H2]]; [by apply P1|].
    destruct (Z.eq_dec (nptr w2 a2 q) 0) as [Z2|Z2]; [left; destruct (P1 q Hq) as [|[]]; congruence|].
    assert (nptr w a q = 0) as E by (destruct (P1 q Hq) as [|[]]; congruence). right. split; [done|].
    destruct (used w sb dev (nptr w2 a2 q)) eqn:Hu; [|done]. rw (U1 _ _ Hu) // in H2.
    destruct (t_range _ _ Ht2 q Hq Z2). lia.
  - intros n Hn Hu. apply U2; [done|]. by apply U1.
  - intros n Hn Hu Hq. assert (0 ≤ n < sb_size sb) as Hn' by lia. rw F2; [by apply F1|done|by apply U1|].
    intros q Hvq E. destruct (P1 q Hvq) as [E1|[_ H1]]; [by apply (Hq q Hvq); rw -E1|].
    rewrite -> E in H1. congruence.
  - intros n Hn. by rw M2 // M1.
  - intros d n Hd. by rw D2 // D1.
  - intros n Hn Hu. destruct (N2 n Hn Hu) as [Hu1|Hq]; [|by right]. destruct (N1 n Hn Hu1) as [|(q & Hq & E)]; [by left|].
    right. exists q. split; [done|]. destruct (P2 q Hq) as [->|[E0 _]]; [done|lia].
Qed.

Lemma grows_trans w a w1 a1 w2 a2 c1 c2 :
  grows w a w1 a1 c1 → grows w1 a1 w2 a2 c2 → tree_ok w2 a2 → layout_ok sb →
  grows w a w2 a2 (c1 + c2).
Proof.
  intros [K1 B1 N1] [K2 B2 N2] Ht2 Hl. split; [by eapply keeps_trans| |lia]. intros o Ho. by rw B2 // B1.
Qed.

Lemma slot_set_grows w a w1 w' a' p f :
  tree_ok w a → fs_ok w sb dev → alloc_step sb dev w w1 f → vpath p → nptr w a p = 0 →
  slot_set w a w' a' p f →
  (∀ d n, d ≠ dev ∨ (∀ q, inner q → vpath q → nptr w a q ≠ 0 → n ≠ nptr w a q) → w' d n = w1 d n) →
  grows w a w' a' 1 ∧ tree_ok w' a' ∧ fs_ok w' sb dev ∧ nptr w' a' p = f.
Proof.
  intros Ht [Hl Hm] Has Hp Hp0 Hss Hw. destruct Has as [Hfr Hfu Hff Hus Hz Ho].
  pose proof (dstart_pos sb Hl) as Hdp.
  assert (∀ q, vpath q → nptr w' a' q = if decide (q = p) then f else nptr w a q) as Hn.
  { apply nptr_slot_set; [done|lia|done]. }
  assert (∀ q, vpath q → nptr w a q ≠ f) as Hnf.
  { intros q Hq E. destruct (t_range _ _ Ht q Hq) as [_ Hu]; [lia|]. congruence. }
  assert (∀ d n, n < dstart sb → w' d n = w1 d n) as Hlow.
  { intros d n Hlt. apply Hw. right. intros q _ Hvq Hq ->. destruct (t_range _ _ Ht q Hvq Hq). lia. }
  assert (∀ b, 0 ≤ b < sb_size sb → used w' sb dev b = (b =? f) || used w sb dev b) as Hused.
  { intros b Hb. rw -Hus //. apply used_other; [|done..]. intros n Hnn. apply Hlow. lia. }
  assert (∀ q, vpath q → nptr w a q ≠ 0 → ¬ inner q → w' dev (nptr w a q) = w dev (nptr w a q)) as Hleaf.
  { intros q Hq Hq0 Hnin. destruct (t_range _ _ Ht q Hq Hq0). rw Hw.
    - apply Ho. right. split; [by apply Hnf|lia].
    - right. intros q' Hin Hq' Hq0' E. apply (t_inj _ _ Ht) in E; [|done..]. by subst. }
  assert (used w' sb dev f = true) as Huf by (rw Hused; [by rw Z.eqb_refl|lia]).
  split_and!; [|split| |].
  - split; [split| |].
    + intros q Hq. rw Hn //. destruct (decide (q = p)) as [->|]; [by right|by left].
    + intros n Hnn Hu. rw Hused // Hu. by rw orb_true_r.
    + intros n Hnn Hu Hq. rw Hw; [|by right; intros q _ Hvq _ ->; apply (Hq q Hvq)].
      apply Ho. right. split; [intros ->; congruence|lia].
    + intros n Hnn. rw Hlow; [|lia]. apply Ho. right. lia.
    + intros d n Hd. rw Hw; [|by left]. apply Ho. by left.
    + intros n Hnn. rw Hused; [|lia]. intros [->%Z.eqb_eq|?]%orb_true_iff; [|by left].
      right. exists p. split; [done|]. rw Hn //. by rewrite decide_True.
    + intros o Hoo. rw /fbyte. assert (0 ≤ o / BSIZE < MAXFILE) as Hbn.
      { change BSIZE with 1024 in *. change MAXFILE with 65803 in *. lia. }
      destruct (vpath_leaf _ Hbn) as [Hv Hni]. rw Hn //. destruct (decide _) as [E|E].
      * rw E Hp0. zdec. rw Hw; [|right; intros q _ Hvq Hq0 Ef; by apply (Hnf q Hvq)].
        rw /ld8 Hz //. change BSIZE with 1024. lia.
      * destruct (Z.eqb_spec (nptr w a (leaf (o / BSIZE))) 0); [done|]. by rw Hleaf.
    + rw Hff. assert (free_blocks w' sb dev = free_blocks w1 sb dev) as ->; [|simpl; lia].
      apply filter_ext_in. intros x Hx%elem_of_seqZ. rw Hused; [|lia]. by rw Hus; [|lia].
  - intros q Hq. rw Hn //. destruct (decide (q = p)) as [->|]; intros Hq0; [split; [lia|done]|].
    destruct (t_range _ _ Ht q Hq Hq0). split; [done|]. rw Hused; [|lia]. by apply orb_true_iff; right.
  - intros q q' Hq Hq'. rw !Hn //. destruct (decide (q = p)) as [->|], (decide (q' = p)) as [->|]; try done.
    + intros _ E. by destruct (Hnf q' Hq').
    + intros _ E. by destruct (Hnf q Hq).
    + by apply (t_inj _ _ Ht).
  - split; [done|]. intros b Hb. rw Hused; [|pose proof (lay_data sb Hl); lia]. rw Hm //. by rw orb_true_r.
  - rw Hn //. by rewrite decide_True.
Qed.

(** Writing the contents of a data block. *)
Lemma leaf_write w a bn d :
  tree_ok w a → fs_ok w sb dev → 0 ≤ bn < MAXFILE → nptr w a (leaf bn) ≠ 0 →
  let w' := upd_blk dev (nptr w a (leaf bn)) d w in
  (∀ q, vpath q → nptr w' a q = nptr w a q) ∧ tree_ok w' a ∧ fs_ok w' sb dev ∧ keeps w a w' a
  ∧ free_blocks w' sb dev = free_blocks w sb dev
  ∧ ∀ o, 0 ≤ o < MAXFILE * BSIZE →
      fbyte w' a o = if o / BSIZE =? bn then ld8 d (o mod BSIZE) else fbyte w a o.
Proof.
  intros Ht [Hl Hm] Hbn Hb w'. destruct (vpath_leaf bn Hbn) as [Hv Hni]. set (b := nptr w a (leaf bn)) in *.
  destruct (t_range _ _ Ht _ Hv Hb) as [Hbr Hbu]. fold b in Hbr, Hbu.
  assert (∀ q, vpath q → nptr w' a q = nptr w a q) as Hn.
  { intros q. induction q as [|j q IH]; [done|]. intros Hvq. destruct (decide (q = [])) as [->|Hq]; [done|].
    destruct (vpath_tail _ _ Hvq Hq) as (Hin & Hvq' & Hj). rw !nptr_cons // IH //.
    destruct (Z.eqb_spec (nptr w a q) 0) as [|Hq0]; [done|]. rw /w' upd_blk_ne //. right. intros E.
    apply (t_inj _ _ Ht) in E; [|done..]. by subst. }
  assert (∀ x, 0 ≤ x < sb_size sb → used w' sb dev x = used w sb dev x) as Hu.
  { intros x Hx. apply used_other; [|done..]. intros n Hnn. apply upd_blk_ne. lia. }
  pose proof (dstart_pos sb Hl) as Hdp. pose proof (lay_data sb Hl).
  split_and!; [done|split|split; [done|]|split| |].
  - intros q Hq. rw Hn //. intros Hq0. destruct (t_range _ _ Ht q Hq Hq0). split; [done|]. by rw Hu; [|lia].
  - intros p q Hp Hq. rw !Hn //. by apply (t_inj _ _ Ht).
  - intros x Hx. rw Hu; [|lia]. by apply Hm.
  - intros q Hq. left. by apply Hn.
  - intros n Hnn Hun. by rw Hu.
  - intros n Hnn _ Hq. apply upd_blk_ne. right. intros ->. by apply (Hq (leaf bn)).
  - intros n Hnn. apply upd_blk_ne. lia.
  - intros d' n Hd. apply upd_blk_ne. by left.
  - intros n Hnn. rw Hu; [|lia]. by left.
  - apply filter_ext_in. intros x Hx%elem_of_seqZ. by rw Hu; [|lia].
  - intros o Ho. assert (0 ≤ o / BSIZE < MAXFILE) as Ho'.
    { change BSIZE with 1024 in *. change MAXFILE with 65803 in *. lia. }
    destruct (vpath_leaf _ Ho') as [Hvo _]. rw /fbyte Hn //. destruct (Z.eqb_spec (o / BSIZE) bn) as [->|Hne].
    + fold b. zdec. by rw /w' upd_blk_eq.
    + destruct (Z.eqb_spec (nptr w a (leaf (o / BSIZE))) 0) as [|Hq0]; [done|]. rw /w' upd_blk_ne //. right.
      intros E. apply Hne. apply leaf_inj; [done..|]. by apply (t_inj _ _ Ht).
Qed.

(** The file depends only on its own blocks and the bitmap. *)
Lemma tree_frame w w' a :
  tree_ok w a → layout_ok sb →
  (∀ q, vpath q → nptr w a q ≠ 0 → w' dev (nptr w a q) = w dev (nptr w a q)) →
  (∀ b, 0 ≤ b < sb.(sb_size) → used w sb dev b = true → used w' sb dev b = true) →
  (∀ q, vpath q → nptr w' a q = nptr w a q) ∧ tree_ok w' a
  ∧ ∀ o, 0 ≤ o < MAXFILE * BSIZE → fbyte w' a o = fbyte w a o.
Proof.
  intros Ht Hl Hsame Hu. pose proof (dstart_pos sb Hl) as Hdp.
  assert (∀ q, vpath q → nptr w' a q = nptr w a q) as Hn.
  { intros q. induction q as [|j q IH]; [done|]. intros Hvq. destruct (decide (q = [])) as [->|Hq]; [done|].
    destruct (vpath_tail _ _ Hvq Hq) as (_ & Hvq' & _). rw !nptr_cons // IH //.
    destruct (Z.eqb_spec (nptr w a q) 0) as [|Hq0]; [done|]. by rw Hsame. }
  split_and!; [done|split|].
  - intros q Hq. rw Hn //. intros Hq0. destruct (t_range _ _ Ht q Hq Hq0). split; [done|]. apply Hu; [lia|done].
  - intros p q Hp Hq. rw !Hn //. by apply (t_inj _ _ Ht).
  - intros o Ho. assert (0 ≤ o / BSIZE < MAXFILE) as Ho'.
    { change BSIZE with 1024 in *. change MAXFILE with 65803 in *. lia. }
    destruct (vpath_leaf _ Ho') as [Hvo _]. rw /fbyte Hn //.
    destruct (Z.eqb_spec (nptr w a (leaf (o / BSIZE))) 0) as [|Hq0]; [done|]. by rw Hsame.
Qed.

Lemma tree_low w w' a :
  tree_ok w a → fs_ok w sb dev → (∀ n, sb.(sb_bmapstart) ≤ n < sb.(sb_size) → w' dev n = w dev n) →
  (∀ q, vpath q → nptr w' a q = nptr w a q) ∧ tree_ok w' a ∧ fs_ok w' sb dev
  ∧ free_blocks w' sb dev = free_blocks w sb dev
  ∧ (∀ b, 0 ≤ b < sb.(sb_size) → used w' sb dev b = used w sb dev b)
  ∧ ∀ o, 0 ≤ o < MAXFILE * BSIZE → fbyte w' a o = fbyte w a o.
Proof.
  intros Ht [Hl Hm] Hw. pose proof (dstart_pos sb Hl) as Hdp. pose proof (lay_data sb Hl) as Hld.
  assert (∀ b, 0 ≤ b < sb_size sb → used w' sb dev b = used w sb dev b) as Hu.
  { intros x Hx. apply used_other; [|done..]. intros n Hnn. apply Hw. lia. }
  destruct (tree_frame w w' a Ht Hl) as (Hn & Ht' & Hb).
  { intros q Hq Hq0. destruct (t_range _ _ Ht q Hq Hq0). apply Hw. lia. }
  { intros b Hb. by rw Hu. }
  split_and!; [done..|split; [done|]| |done|done].
  - intros x Hx. rw Hu; [|lia]. by apply Hm.
  - apply filter_ext_in. intros x Hx%elem_of_seqZ. by rw Hu; [|lia].
Qed.

Lemma keeps_ext w a w1 w2 a' : (∀ d n, w2 d n = w1 d n) → keeps w a w1 a' →
  (∀ q, vpath q → nptr w2 a' q = nptr w1 a' q) → keeps w a w2 a'.
Proof.
  intros E [P U F M D N] Hn. assert (∀ n, used w2 sb dev n = used w1 sb dev n) as Hu by (intros n; by rw /used E).
  split; intros; rw ?Hn ?E ?Hu; eauto. rw Hu in H0. destruct (N n H H0) as [|(q & Hq & <-)]; [by left|].
  right. exists q. by rw Hn.
Qed.
End tree.
End FsTree.
