(* ===== verification/FsData.v ===== *)
(** * Inode content: [bmap], [readi], [writei] *)

From S2P Require Import Prelude Machine Fs FsBlocks FsTree.
Import Fs FsBlocks FsTree.

Module FsData.

#[local] Arguments le_bytes : simpl never.

Section data.
Context {B X : Type} {BL : BufLayer B} {CL : CopyLayer X}.
Notation fst := (fst B X).
Implicit Types (s : fst) (ip : inode).

Lemma wp_geti i ip (Q : inode → fst → Prop) s : s.(itab) !! i = Some ip → Q ip s → wp (geti i) Q s.
Proof. intros H HQ. by rw /wp /geti H. Qed.
Lemma wp_geti_bind {A} i ip (k : inode → M fst A) (Q : A → fst → Prop) s :
  s.(itab) !! i = Some ip → wp (k ip) Q s → wp (geti i ≫= k) Q s.
Proof. intros H HQ. apply wp_bind. by eapply wp_geti. Qed.
Lemma wp_updi i f ip (Q : unit → fst → Prop) s :
  s.(itab) !! i = Some ip → Q tt (set_itab (alter f i) s) → wp (updi i f) Q s.
Proof. intros H HQ. rw /updi. by eapply wp_geti_bind. Qed.

Definition with_addrs (l : list Z) ip : inode :=
  MkInode ip.(i_dev) ip.(i_inum) ip.(i_ref) ip.(i_locked) ip.(i_valid) ip.(i_type) ip.(i_major) ip.(i_minor)
    ip.(i_nlink) ip.(i_size) l.

(** [s'] is [s] with inode [i] now [ip'], new block contents, the same buffers
    locked and at most [c] log entries used. *)
Record feff s s' (i : nat) ip' (c : Z) : Prop := {
  fe_sb : s'.(sb) = s.(sb);
  fe_itlock : s'.(itlock) = s.(itlock);
  fe_xl : s'.(xl) = s.(xl);
  fe_itab : s'.(itab) = <[i := ip']> s.(itab);
  fe_held : locked s' = locked s;
  fe_room : room s - c ≤ room s' ≤ room s;
}.

Lemma feff_of_eff s s' w c i ip : s.(itab) !! i = Some ip → eff s s' w c → feff s s' i ip c.
Proof.
  intros Hi [E Hh Hr _]. rw E. split; simpl; try done; [by rw list_insert_id|by rw -E..].
Qed.
Lemma feff_updi s s1 w c i ip g : s.(itab) !! i = Some ip → eff s s1 w c →
  feff s (set_itab (alter g i) s1) i (g ip) c.
Proof.
  intros Hi [E Hh Hr _]. split; [by rw E..| |exact Hh|exact Hr]. simpl. rw E /=. by apply alter_as_insert.
Qed.
Lemma feff_trans s s1 s2 i ip1 ip2 c1 c2 : feff s s1 i ip1 c1 → feff s1 s2 i ip2 c2 → feff s s2 i ip2 (c1 + c2).
Proof.
  intros [] []. split; [congruence..| |congruence|lia]. rw fe_itab1 fe_itab0. by rw list_insert_insert_eq.
Qed.

(** Inode [i] is the well-formed file [ip]. *)
Record file_ok s (i : nat) ip : Prop := {
  fo_inode : s.(itab) !! i = Some ip;
  fo_addrs : length ip.(i_addrs) = 13%nat;
  fo_fs : fs_ok (blks s) s.(sb) ip.(i_dev);
  fo_tree : tree_ok s.(sb) ip.(i_dev) (blks s) (addr_at ip);
}.

(** The file's pointers and bytes in state [s]. *)
Definition ptr s ip (p : list Z) : Z := nptr ip.(i_dev) (blks s) (addr_at ip) p.
Definition byte s ip (o : Z) : Z := fbyte ip.(i_dev) (blks s) (addr_at ip) o.
Definition nfree s (dev : Z) : Z := Z.of_nat (length (free_blocks (blks s) s.(sb) dev)).
Definition grown s ip s' ip' (c : Z) : Prop :=
  ip' = with_addrs ip'.(i_addrs) ip ∧
  grows s.(sb) ip.(i_dev) (blks s) (addr_at ip) (blks s') (addr_at ip') c.

(** [s'] differs from [s] only in the state of the buffer cache. *)
Record same s s' : Prop := {
  sm_rest : s' = set_bl s'.(bl) s;
  sm_blks : blks s' = blks s;
  sm_held : locked s' = locked s;
  sm_room : room s' = room s;
}.
Lemma same_refl s : same s s.
Proof. split; by destruct s. Qed.
Lemma same_trans s s1 s2 : same s s1 → same s1 s2 → same s s2.
Proof. intros [E1 B1 H1 R1] [E2 B2 H2 R2]. split; [by rw E2 E1|congruence..]. Qed.
Lemma same_feff s s' i ip : s.(itab) !! i = Some ip → same s s' → feff s s' i ip 0.
Proof. intros Hi [E B1 H R]. rw E. split; simpl; try done; [by rw list_insert_id|rw -E; lia]. Qed.
Lemma same_file s s' i ip : same s s' → file_ok s i ip → file_ok s' i ip.
Proof. intros [E HB _ _] [Hi Ha Hf Ht]. split; [by rw E|done|rw HB E //..]. Qed.
Lemma same_grown s s' ip c : 0 ≤ c → same s s' → grown s ip s' ip c.
Proof. intros Hc [_ HB _ _]. split; [by destruct ip|]. rw HB. by apply grows_refl. Qed.

(** A slot that is filled is only read. *)
Lemma direct_hit s i ip k : s.(itab) !! i = Some ip → addr_at ip k ≠ 0 →
  direct i k s = Ok (addr_at ip k, s).
Proof. intros Hi Hk. rw /direct /mbind /M_bind /geti Hi. by zdec. Qed.

Lemma indirect_hit s dev addr k (Q : Z → fst → Prop) :
  can_lock s dev addr → ld32 (blks s dev addr) (4 * k) ≠ 0 →
  (∀ s', same s s' → Q (ld32 (blks s dev addr) (4 * k)) s') → wp (indirect dev addr k) Q s.
Proof.
  intros Hc Hk HQ. rw /indirect. apply wp_read_block; [done|]. intros s1 E1 B1 H1 R1. zdec.
  apply wp_bind. apply (wp_brelse _ _ _ (locked s)); [done|by rw B1|]. intros s2 E2 B2 H2 R2.
  apply wp_ret, HQ. split; [by rw E2 E1|congruence..].
Qed.

Lemma addr_set ip k v j : length ip.(i_addrs) = 13%nat → 0 ≤ k < 13 → 0 ≤ j < 13 →
  addr_at (set_addr k v ip) j = if decide ([j] = [k]) then v else addr_at ip j.
Proof.
  intros Hl Hk Hj. rw /addr_at /set_addr /= !nth_lookup. destruct (decide ([j] = [k])) as [E|E].
  - injection E as ->. rw list_lookup_insert_eq //. lia.
  - rw list_lookup_insert_ne //. intros E'. apply E. f_equal. lia.
Qed.

(** An empty slot of the inode gets a fresh block. *)
Lemma direct_miss s i ip k :
  file_ok s i ip → 0 ≤ k < 13 → addr_at ip k = 0 → locks_data s ip.(i_dev) → 1 ≤ nfree s ip.(i_dev) → 2 ≤ room s →
  wp (direct i k) (λ r s', ∃ ip', feff s s' i ip' 2 ∧ file_ok s' i ip' ∧ grown s ip s' ip' 1
    ∧ r = ptr s' ip' [k] ∧ r ≠ 0) s.
Proof.
  intros [Hi Ha Hf Ht] Hk H0 Hlk Hnf Hr. rw /direct. eapply wp_geti_bind; [done|]. zdec.
  rw /nfree in Hnf. destruct (free_blocks _ _ _) as [|f fs] eqn:Hfree; [simpl in Hnf; lia|].
  apply wp_bind. eapply wp_mono; [|by eapply balloc_spec].
  intros r s1 (-> & Has & Heff). pose proof (dstart_pos _ (fs_layout _ _ _ Hf)) as Hdp.
  pose proof (as_range _ _ _ _ _ Has) as Hfr.
  assert (s1.(itab) = s.(itab)) as Hit by (by destruct Heff as [-> _ _ _]).
  apply wp_bind. eapply wp_updi; [by rw Hit|]. apply wp_ret.
  set (s2 := set_itab _ s1). set (ip' := set_addr k f ip).
  destruct (slot_set_grows s.(sb) ip.(i_dev) (blks s) (addr_at ip) (blks s1) (blks s1) (addr_at ip') [k] f)
    as (Hg & Ht' & Hf' & Hp'); try done.
  { split.
    - intros j Hj. by apply addr_set.
    - intros j q Hv Hq Hq0. rewrite decide_False; [|by intros [= _ ->]].
      f_equal. apply Has. right. destruct (vpath_tail _ _ Hv Hq) as (_ & Hvq & _).
      destruct (t_range _ _ _ _ Ht q Hvq Hq0) as [Hqr Hqu]. split; [|lia]. intros E.
      pose proof (as_fresh _ _ _ _ _ Has). congruence.
    - intros j q [= _ <-]. done.
    - intros j Hj. apply ld32_zero. intros x Hx. apply Has. change BSIZE with 1024. lia. }
  exists ip'. pose proof (eff_sb _ _ _ _ Heff) as Esb.
  split_and!; [| | |by rw -Hp'|lia].
  - by eapply feff_updi.
  - split.
    + rw /s2 /= Hit list_lookup_alter_eq Hi. done.
    + by rw /ip' /= length_insert.
    + change (sb s2) with (sb s1). rw Esb. done.
    + change (sb s2) with (sb s1). rw Esb. done.
  - split; done.
Qed.

(** An empty entry of an indirect block gets a fresh block. *)
Lemma indirect_miss s i ip j p :
  file_ok s i ip → vpath (j :: p) → p ≠ [] → ptr s ip p ≠ 0 → ptr s ip (j :: p) = 0 →
  locked s = [] → 1 ≤ nfree s ip.(i_dev) → 3 ≤ room s →
  wp (indirect ip.(i_dev) (ptr s ip p) j) (λ r s', feff s s' i ip 3 ∧ file_ok s' i ip ∧ grown s ip s' ip 1
    ∧ r = ptr s' ip (j :: p) ∧ r ≠ 0) s.
Proof.
  intros [Hi Ha Hf Ht] Hv Hp Hpp Hz Hlk Hnf Hr. set (dev := i_dev ip) in *. set (addr := ptr s ip p) in *.
  destruct (vpath_tail _ _ Hv Hp) as (Hin & Hvp & Hj).
  destruct (t_range _ _ _ _ Ht p Hvp Hpp) as [Har Hau]. fold (ptr s ip p) in Har, Hau. fold addr in Har, Hau.
  assert (ld32 (blks s dev addr) (4 * j) = 0) as Hld.
  { rw /ptr nptr_cons // in Hz. fold (ptr s ip p) addr in Hz. by destruct (Z.eqb_spec addr 0). }
  rw /indirect. apply wp_read_block.
  { split; rw Hlk; [set_solver|done]. }
  intros s1 E1 B1 H1 R1. zdec. apply wp_bind.
  rw /nfree in Hnf. destruct (free_blocks _ _ _) as [|f fs] eqn:Hfree; [simpl in Hnf; lia|].
  assert (s1.(sb) = s.(sb)) as Esb by (by rw E1).
  eapply wp_mono; [|eapply (balloc_spec s1 dev f fs)]; rw ?B1 ?Esb; try done; [| |lia]; last first.
  { split; [by rw H1 Hlk|]. intros n Hn. rw H1 Hlk in Hn. apply list_elem_of_singleton in Hn. injection Hn as ->.
    by rw B1 Esb. }
  intros r s2 (-> & Has & Heff).
  pose proof (dstart_pos _ (fs_layout _ _ _ Hf)) as Hdp. pose proof (as_range _ _ _ _ _ Has) as Hfr.
  apply (wp_write_release_k _ _ _ _ (locked s)).
  { by rw (eff_held _ _ _ _ Heff). }
  { pose proof (eff_room _ _ _ _ Heff). lia. }
  intros s3 E3 B3 H3 R3. apply wp_ret.
  assert (addr ≠ f) as Haf.
  { intros E. pose proof (as_fresh _ _ _ _ _ Has) as Hfu. rewrite <- E in Hfu. by rw Hau in Hfu. }
  destruct (slot_set_grows s.(sb) dev (blks s) (addr_at ip) (blks s2) (blks s3) (addr_at ip) (j :: p) f)
    as (Hg & Ht' & Hf' & Hp'); try done.
  { split.
    - intros k Hk. rewrite decide_False; [done|]. intros [= _ E]. by destruct Hp.
    - intros j' q Hv' Hq Hq0. destruct (vpath_tail _ _ Hv' Hq) as (_ & Hvq & Hj').
      rw B3. destruct (decide (q = p)) as [->|Hqp].
      + change (nptr dev (blks s) (addr_at ip) p) with addr. rw upd_blk_eq.
        destruct (decide (j' :: p = j :: p)) as [[= ->]|Hne].
        * rw ld32_st32_eq //. pose proof (lay_size _ (fs_layout _ _ _ Hf)) as Hsz. change BPB with 8192 in Hsz. lia.
        * rw ld32_st32_ne //. assert (j' ≠ j) by (intros ->; by apply Hne). lia.
      + rw upd_blk_ne; [|right; intros E; apply Hqp; by apply (t_inj _ _ _ _ Ht)].
        rewrite decide_False; [|congruence]. f_equal. apply Has. right.
        destruct (t_range _ _ _ _ Ht q Hvq Hq0) as [Hqr Hqu]. split; [|lia]. intros E.
        pose proof (as_fresh _ _ _ _ _ Has). congruence.
    - by intros j' q [= <- <-] _.
    - intros k Hk. rw B3 upd_blk_ne; [|auto]. apply ld32_zero. intros x Hx. apply Has.
      change BSIZE with 1024. lia. }
  { intros d n Hn. rw B3. apply upd_blk_ne. destruct Hn as [?|Hn]; [auto|]. right. by apply (Hn p). }
  assert (s3.(sb) = s.(sb)) as Esb3 by (rw E3 /= (eff_sb _ _ _ _ Heff) //).
  split_and!; [| | |by rw -Hp'|lia].
  - destruct Heff as [E2 H2 R2 _]. apply (feff_of_eff s s3 (blks s3)); [done|].
    split; [by rw E3 E2 E1|done|lia|done].
  - split; [|done|by rw Esb3..]. destruct Heff as [E2 _ _ _]. by rw E3 E2 E1.
  - split; [by destruct ip|done].
Qed.

(** ** [bmap] *)

(** The slot [p] of the file is now filled, with [r]: at most [n] blocks were
    taken and [c] log entries used, and the file reads as before. *)
Definition filled s (i : nat) ip (c n : Z) (p : list Z) (r : Z) s' ip' : Prop :=
  feff s s' i ip' c ∧ file_ok s' i ip' ∧ grown s ip s' ip' n ∧ r = ptr s' ip' p ∧ r ≠ 0.

Lemma grown_trans s ip s1 ip1 s2 ip2 i c1 c2 :
  grown s ip s1 ip1 c1 → grown s1 ip1 s2 ip2 c2 → file_ok s1 i ip1 → file_ok s2 i ip2 →
  s1.(sb) = s.(sb) → s2.(sb) = s.(sb) → grown s ip s2 ip2 (c1 + c2).
Proof.
  intros [E1 G1] [E2 G2] F1 F2 S1 S2. split; [by rw E2 E1|].
  assert (i_dev ip1 = i_dev ip) as D1 by (by rw E1). assert (i_dev ip2 = i_dev ip) as D2 by (by rw E2 /= D1).
  destruct F1 as [_ _ L1 T1], F2 as [_ _ _ T2]. rewrite -> S1, D1 in *. rewrite -> S2, D2 in *.
  eapply grows_trans; [done..|]. apply L1.
Qed.

Lemma filled_nfree s i ip c n p r s' ip' : filled s i ip c n p r s' ip' →
  nfree s ip.(i_dev) - n ≤ nfree s' ip'.(i_dev) ∧ ip'.(i_dev) = ip.(i_dev) ∧ locked s' = locked s ∧ room s - c ≤ room s'.
Proof.
  intros ([Hsb _ _ _ Hh Hr] & _ & [E G] & _). assert (i_dev ip' = i_dev ip) as D by (by rw E).
  rw /nfree Hsb D. split_and!; [apply G|done|done|lia].
Qed.

Lemma filled_trans s i ip c1 n1 p1 r1 s1 ip1 c2 n2 p r s2 ip2 :
  filled s i ip c1 n1 p1 r1 s1 ip1 → filled s1 i ip1 c2 n2 p r s2 ip2 →
  filled s i ip (c1 + c2) (n1 + n2) p r s2 ip2.
Proof.
  intros (Fe1 & Fo1 & G1 & _ & _) (Fe2 & Fo2 & G2 & Hr & Hr0). split_and!; try done.
  - by eapply feff_trans.
  - eapply grown_trans; [done..| |]; [apply Fe1|]. rw (fe_sb _ _ _ _ _ Fe2). apply Fe1.
Qed.

Lemma direct_spec s i ip k :
  file_ok s i ip → 0 ≤ k < 13 → locked s = [] → 1 ≤ nfree s ip.(i_dev) → 2 ≤ room s →
  wp (direct i k) (λ r s', ∃ ip', filled s i ip 2 1 [k] r s' ip') s.
Proof.
  intros Hf Hk Hlk Hn Hr. destruct (Z.eq_dec (addr_at ip k) 0) as [E|E].
  - apply direct_miss; try done. split; rw Hlk; [done|]. intros n Hin. by apply not_elem_of_nil in Hin.
  - eapply wp_of_run; [by apply direct_hit; [apply Hf|]|]. exists ip. split_and!; try done.
    + split; [done..|by rw list_insert_id; [|apply Hf]|done|lia].
    + by apply same_grown; [|apply same_refl].
Qed.

Lemma indirect_spec s i ip j p :
  file_ok s i ip → vpath (j :: p) → p ≠ [] → ptr s ip p ≠ 0 → locked s = [] →
  1 ≤ nfree s ip.(i_dev) → 3 ≤ room s →
  wp (indirect ip.(i_dev) (ptr s ip p) j) (λ r s', ∃ ip', filled s i ip 3 1 (j :: p) r s' ip') s.
Proof.
  intros Hf Hv Hp Hpp Hlk Hn Hr. destruct (Z.eq_dec (ptr s ip (j :: p)) 0) as [E|E].
  - eapply wp_mono; [|by eapply indirect_miss]. intros r s' H. by exists ip.
  - assert (ptr s ip (j :: p) = ld32 (blks s ip.(i_dev) (ptr s ip p)) (4 * j)) as Ep.
    { rw /ptr nptr_cons //. fold (ptr s ip p). by zdec. }
    apply indirect_hit; [by split; rw Hlk; [set_solver|]|by rw -Ep|].
    intros s' Hs. exists ip. split_and!; [| |by apply same_grown| |by rw -Ep].
    + destruct (same_feff s s' i ip (fo_inode _ _ _ Hf) Hs). split; try done. lia.
    + by eapply same_file.
    + rw -Ep /ptr. by destruct Hs as [_ -> _ _].
Qed.

Theorem bmap_spec s i ip bn :
  file_ok s i ip → 0 ≤ bn < MAXFILE → locked s = [] → 3 ≤ nfree s ip.(i_dev) → 8 ≤ room s →
  wp (bmap i bn) (λ r s', ∃ ip', filled s i ip 8 3 (leaf bn) r s' ip') s.
Proof.
  intros Hf Hbn Hlk Hn Hr. rw /bmap. eapply wp_geti_bind; [apply Hf|].
  change NDIRECT with 11. change NINDIRECT2 with 65536. change NINDIRECT with 256. change MAXFILE with 65803 in Hbn.
  assert (∀ c n p r s' ip', c ≤ 8 → n ≤ 3 → filled s i ip c n p r s' ip' → filled s i ip 8 3 p r s' ip') as Hweak.
  { intros c n p r s' ip' Hc Hn' (Fe & Fo & [E G] & Hr0). split_and!; try apply Hr0; try done.
    - destruct Fe. split; try done. lia.
    - split; [done|]. destruct G. split; try done. lia. }
  rw /leaf. destruct (Z.ltb_spec bn 11) as [Hb|Hb].
  - eapply wp_mono; [|apply (direct_spec s i ip bn); [done|lia|done|lia|lia]].
    intros r s' [ip' H']. exists ip'. by eapply Hweak; [..|exact H'].
  - destruct (Z.ltb_spec (bn - 11) 256) as [Hb1|Hb1]; [|destruct (Z.ltb_spec (bn - 11 - 256) 65536) as [Hb2|Hb2]; [|lia]]; zdec.
    + apply wp_bind. eapply wp_mono; [|apply (direct_spec s i ip 11); [done|lia|done|lia|lia]].
      intros r s1 [ip1 H1]. destruct (filled_nfree _ _ _ _ _ _ _ _ _ H1) as (N1 & D1 & L1 & R1).
      pose proof H1 as (_ & F1 & _ & -> & Hr1). rw -D1.
      eapply wp_mono; [|apply indirect_spec; [done|simpl; lia|done|done|by rw L1|lia|lia]].
      intros r s2 [ip2 H2]. exists ip2. eapply Hweak; [..|by eapply filled_trans]; lia.
    + apply wp_bind. eapply wp_mono; [|apply (direct_spec s i ip (11 + 1)); [done|lia|done|lia|lia]].
      intros r s1 [ip1 H1]. destruct (filled_nfree _ _ _ _ _ _ _ _ _ H1) as (N1 & D1 & L1 & R1).
      pose proof H1 as (_ & F1 & _ & -> & Hr1). rw -D1. apply wp_bind.
      eapply wp_mono; [|apply indirect_spec; [done|simpl; lia|done|done|by rw L1|lia|lia]].
      intros r s2 [ip2 H2]. destruct (filled_nfree _ _ _ _ _ _ _ _ _ H2) as (N2 & D2 & L2 & R2).
      pose proof H2 as (_ & F2 & _ & -> & Hr2). rw -D2.
      eapply wp_mono; [|apply indirect_spec; [done|simpl; lia|done|done|by rw L2 L1|lia|lia]].
      intros r s3 [ip3 H3]. exists ip3. replace (bn - 267) with (bn - 11 - 256) by lia. change 12 with (11 + 1).
      eapply Hweak; [..|eapply filled_trans; [exact H1|by eapply filled_trans]]; lia.
Qed.
End data.
End FsData.
