(* ===== verification/FsRw.v ===== *)
(** * Reading and writing files

    [readi] returns the bytes of the file and changes nothing on disk;
    [writei] updates exactly the bytes of its range, extends the size, writes
    the inode back and leaves every other file alone. *)

From S2P Require Import Prelude Machine Fs FsBlocks FsTree FsData.
Import Fs FsBlocks FsTree FsData.

Module FsRw.

Section rw.
Context {B X : Type} {BL : BufLayer B} {CL : CopyLayer X}.
Notation fst := (fst B X).
Implicit Types (s : fst) (ip : inode).

(** Every byte below the size has a block, and the size fits. *)
Record sized s ip : Prop := {
  sz_range : 0 ≤ ip.(i_size) ≤ MAXFILE * BSIZE;
  sz_mapped bn : 0 ≤ bn → bn * BSIZE < ip.(i_size) → ptr s ip (leaf bn) ≠ 0;
}.

Lemma ptr_parent s ip j p : p ≠ [] → ptr s ip (j :: p) ≠ 0 →
  ptr s ip p ≠ 0 ∧ ptr s ip (j :: p) = ld32 (blks s ip.(i_dev) (ptr s ip p)) (4 * j).
Proof.
  rw /ptr. intros Hp. rw nptr_cons //. by destruct (Z.eqb_spec (nptr (i_dev ip) (blks s) (addr_at ip) p) 0).
Qed.

(** Looking up a mapped block changes nothing. *)
Lemma bmap_mapped s i ip bn :
  s.(itab) !! i = Some ip → 0 ≤ bn < MAXFILE → locked s = [] → ptr s ip (leaf bn) ≠ 0 →
  wp (bmap i bn) (λ r s', r = ptr s ip (leaf bn) ∧ same s s') s.
Proof.
  intros Hi Hbn Hlk. rw /bmap. change MAXFILE with 65803 in Hbn. intros Hp. eapply wp_geti_bind; [done|].
  change NDIRECT with 11. change NINDIRECT2 with 65536. change NINDIRECT with 256.
  rw /leaf in Hp *. destruct (Z.ltb_spec bn 11) as [Hb|Hb].
  - eapply wp_of_run; [exact (direct_hit s i ip bn Hi Hp)|]. split; [done|apply same_refl].
  - destruct (Z.ltb_spec bn 267) as [Hb1|Hb1]; zdec.
    + destruct (ptr_parent s ip (bn - 11) [11]) as [Hp1 E1]; [done..|].
      apply wp_bind. eapply wp_of_run; [exact (direct_hit s i ip 11 Hi Hp1)|]. rewrite -> E1 in Hp |- *.
      apply indirect_hit; [split; rw Hlk; [set_solver|done]|done|]. done.
    + replace (bn - 11 - 256) with (bn - 267) by lia.
      destruct (ptr_parent s ip ((bn - 267) mod 256) [(bn - 267) / 256; 12]) as [Hp2 E2]; [done..|].
      destruct (ptr_parent s ip ((bn - 267) / 256) [12]) as [Hp1 E1]; [done..|].
      apply wp_bind. eapply wp_of_run; [exact (direct_hit s i ip 12 Hi Hp1)|]. apply wp_bind.
      rewrite -> E1 in Hp2. apply indirect_hit; [split; rw Hlk; [set_solver|done]|done|].
      intros s1 S1. pose proof S1 as [_ EB EH _]. rewrite -> E2 in Hp |- *. rewrite -> E1 in Hp |- *. change (11 + 1) with 12.
      apply indirect_hit; [split; rw EH Hlk; [set_solver|done]|by rw EB|]. intros s2 S2. rw EB.
      split; [done|]. by eapply same_trans.
Qed.

(** [s'] differs from [s] only in the buffer cache and in the memories. *)
Record seen s s' : Prop := {
  sn_rest : s' = set_xl s'.(xl) (set_bl s'.(bl) s);
  sn_blks : blks s' = blks s;
  sn_held : locked s' = locked s;
  sn_room : room s' = room s;
}.

Lemma same_seen s s1 s2 : seen s s1 → same s1 s2 → seen s s2.
Proof. intros [E1 B1 H1 R1] [E2 B2 H2 R2]. split; [by rw E2 E1|congruence..]. Qed.

(** The bytes of a chunk of the block at [off]. *)
Lemma chunk_byte s ip off m k :
  0 ≤ off → 0 ≤ k < m → m ≤ 1024 - off mod 1024 → ptr s ip (leaf (off / 1024)) ≠ 0 →
  nth (Z.to_nat k) (mem_read (blks s ip.(i_dev) (ptr s ip (leaf (off / 1024)))) (off mod 1024) (Z.to_nat m)) 0
    = byte s ip (off + k).
Proof.
  intros Ho Hk Hm Hp. rw /byte /fbyte. change BSIZE with 1024.
  replace ((off + k) / 1024) with (off / 1024) by lia. fold (ptr s ip (leaf (off / 1024))). zdec.
  apply nth_lookup_Some. rw /mem_read list_lookup_fmap. rewrite -> lookup_seq_lt by lia. simpl. do 2 f_equal. lia.
Qed.

Lemma readi_spec s i ip (u : bool) dst off n :
  file_ok s i ip → sized s ip → locked s = [] → 0 ≤ off < 2 ^ 32 → 0 ≤ n → off + n < 2 ^ 32 → 0 ≤ dst → dst + n < 2 ^ 64 →
  let m := Z.max 0 (Z.min n (ip.(i_size) - off)) in
  wp (readi i u dst off n) (λ r s', seen s s' ∧
    ((r = m ∧ ∀ a, byte_at s'.(xl) u a =
        if (dst <=? a) && (a <? dst + m) then byte s ip (off + (a - dst)) else byte_at s.(xl) u a)
     ∨ (u = true ∧ r = -1))) s.
Proof.
  intros Hf Hsz Hlk Ho Hn Hon Hd Hdn m. pose proof (sz_range _ _ Hsz) as Hs. change (MAXFILE * BSIZE) with 67382272 in Hs.
  rw /readi. eapply wp_geti_bind; [apply Hf|]. rw (u32_small (off + n)); [|lia].
  destruct (Z.ltb_spec ip.(i_size) off) as [Hlt|Hge]; simpl.
  { apply wp_ret. split; [split; by destruct s|]. left. split; [lia|]. intros a. by zbool; try lia. }
  zdec. set (n' := if i_size ip <? off + n then i_size ip - off else n).
  assert (n' = m) as -> by (rw /n' /m; zbool; lia). assert (0 ≤ m ≤ n ∧ off + m ≤ ip.(i_size)) as Hm by lia.
  clearbody m. apply wp_bind. change BSIZE with 1024.
  apply (wp_loop (λ '(tot, o, d) st, 0 ≤ tot ≤ m ∧ o = off + tot ∧ d = dst + tot ∧ seen s st ∧
      ∀ a, byte_at st.(xl) u a = if (dst <=? a) && (a <? dst + tot) then byte s ip (off + (a - dst)) else byte_at s.(xl) u a)
    (λ '(tot, _, _), m - tot)).
  { split_and!; try lia; [split; by destruct s|]. intros a. by zbool; try lia. }
  { lia. }
  intros [[tot o] d] st (Ht & -> & -> & Hst & Hby) _.
  destruct (Z.ltb_spec tot m) as [Hlt|Hge']; last first.
  { apply wp_ret. apply wp_ret. split; [done|]. left. assert (tot = m) as -> by lia. rw s32_small; [|lia]. done. }
  pose proof Hst as [Ex Eb Eh _]. assert (ptr s ip (leaf ((off + tot) / 1024)) ≠ 0) as Hp.
  { apply (sz_mapped _ _ Hsz); change BSIZE with 1024; lia. }
  assert (ptr st ip (leaf ((off + tot) / 1024)) = ptr s ip (leaf ((off + tot) / 1024))) as Ep by (by rw /ptr Eb).
  apply wp_bind. eapply wp_mono; [|apply (bmap_mapped st i ip)]; [|by rw Ex; apply Hf|change MAXFILE with 65803; lia|by rw Eh|by rw Ep].
  intros r s1 [-> S1]. pose proof (same_seen _ _ _ Hst S1) as [Ex1 Eb1 Eh1 _]. rw Ep. set (b := ptr s ip _) in *.
  apply wp_read_block; [split; rw Eh1 Hlk; [set_solver|done]|]. intros s2 E2 B2 H2 R2.
  set (k := Z.min (m - tot) (1024 - (off + tot) mod 1024)). assert (0 < k ≤ m - tot ∧ k ≤ 1024 - (off + tot) mod 1024) as Hk by lia.
  set (src := mem_read _ _ _). assert (Z.of_nat (length src) = k) as Hlen by (rw /src /mem_read length_fmap length_seq; lia).
  destruct (copyout_ok s2.(xl) u (dst + tot) src) as (r & x' & Hrun & Hr & Hr0 & Hbytes).
  apply wp_bind. rw /wp /Xl /lift Hrun. cbv beta iota.
  assert (wp (Bl (brelse (i_dev ip) b (blks s1 (i_dev ip) b))) (λ _ s3, seen s s3 ∧ s3.(xl) = x') (set_xl x' s2)) as Hrel.
  { apply (wp_brelse _ _ _ []); [by change (locked s2 = [(i_dev ip, b)]); rw H2 Eh1 Hlk|by change (blks s1 (i_dev ip) b = blks s2 (i_dev ip) b); rw B2|].
    intros s3 E3 B3 H3 R3. split; [|by rw E3]. destruct (same_seen _ _ _ Hst S1) as [F1 F2 F3 F4].
    split; [by rw E3 E2 F1|by rw B3; change (blks s2 = blks s); rw B2|by rw H3 Hlk|].
    rw R3. change (room s2 = room s). by rw R2. }
  destruct (Z.eqb_spec r (-1)) as [->|Hne].
  - apply wp_bind. eapply wp_mono; [|exact Hrel]. intros _ s3 [Hs3 _]. apply wp_ret, wp_ret. split; [done|]. right.
    split; [|done]. destruct u; [done|]. by specialize (Hr0 eq_refl).
  - apply wp_bind. eapply wp_mono; [|exact Hrel]. intros _ s3 [Hs3 Hx3]. apply wp_ret.
    rewrite -> !u32_small, u64_small by lia. split; [|lia]. split_and!; [lia..|done|].
    intros a. rw Hx3 Hbytes; [|by destruct Hr]. rw Hlen.
    assert (s2.(xl) = st.(xl)) as -> by (destruct S1 as [F1 _ _ _]; by rw E2 F1).
    zbool; rw ?Hby; zbool; try lia; try done. replace (off + (a - dst)) with (off + tot + (a - (dst + tot))) by lia.
    rw -(chunk_byte s ip (off + tot) k) //; [|lia..]. rw /src Eb1. done.
Qed.

(** ** Writing *)

(** The state after the first [tot] bytes of a write at [off] are in place:
    [g] gives the bytes. *)
Record wrote s (i : nat) ip (off : Z) (g : Z → Z) (tot : Z) st ipt : Prop := {
  wr_file : file_ok st i ipt;
  wr_rest : ipt = with_addrs ipt.(i_addrs) ip;
  wr_eff : feff s st i ipt (room s);
  wr_keeps : keeps s.(sb) ip.(i_dev) (blks s) (addr_at ip) (blks st) (addr_at ipt);
  wr_mapped o : off ≤ o < off + tot → ptr st ipt (leaf (o / 1024)) ≠ 0;
  wr_bytes o : 0 ≤ o < MAXFILE * BSIZE →
    byte st ipt o = if (off <=? o) && (o <? off + tot) then u8 (g (o - off)) else byte s ip o;
}.

Lemma keeps_ptr sb dev w a w' a' q : keeps sb dev w a w' a' → vpath q →
  nptr dev w a q ≠ 0 → nptr dev w' a' q = nptr dev w a q.
Proof. intros K Hq H0. destruct (k_ptr _ _ _ _ _ _ K q Hq) as [|[]]; congruence. Qed.

Lemma vpath_off o : 0 ≤ o < MAXFILE * BSIZE → vpath (leaf (o / 1024)) ∧ 0 ≤ o / 1024 < MAXFILE.
Proof.
  change (MAXFILE * BSIZE) with 67382272. intros Ho. assert (0 ≤ o / 1024 < MAXFILE) as H by (change MAXFILE with 65803; lia).
  split; [|done]. by apply vpath_leaf.
Qed.

Lemma wrote_0 s i ip off g : file_ok s i ip → 0 ≤ room s → wrote s i ip off g 0 s ip.
Proof.
  intros Hf Hr. split; [done|by destruct ip| |apply keeps_refl|lia|].
  - split; [done..|by rw list_insert_id; [|apply Hf]|done|lia].
  - intros o Ho. by zbool; try lia.
Qed.

Lemma wrote_grow s i ip off g tot st ipt c n p r st1 ip1 :
  wrote s i ip off g tot st ipt → filled st i ipt c n p r st1 ip1 →
  0 ≤ off → off + tot ≤ MAXFILE * BSIZE → c ≤ room st →
  wrote s i ip off g tot st1 ip1.
Proof.
  intros [F R E K M HB] (E1 & F1 & [R1 G1] & _ & _) Ho Hot Hc.
  assert (i_dev ipt = i_dev ip) as Di by (by rw R). assert (i_dev ip1 = i_dev ipt) as D1 by (by rw R1).
  assert (st.(sb) = s.(sb)) as Sb by apply E. rewrite -> Sb, Di in G1. destruct G1 as [K1 B1 _].
  assert (layout_ok s.(sb)) as Hl by (rw -Sb; apply F).
  split; [done|by rw R1 R| | | |].
  - destruct (feff_trans _ _ _ _ _ _ _ _ E E1). split; try done. destruct E1, E. lia.
  - eapply keeps_trans; [done..| |done]. destruct F1 as [_ _ _ T1]. by rw (fe_sb _ _ _ _ _ E1) Sb D1 Di in T1.
  - intros o Hoo. destruct (vpath_off o ltac:(lia)) as [Hv _]. specialize (M o Hoo). rw /ptr Di in M.
    rw /ptr D1 Di (keeps_ptr _ _ _ _ _ _ _ K1) //.
  - intros o Hoo. rw -HB // /byte D1 Di. by apply B1.
Qed.

Lemma wrote_chunk s i ip off g tot st ipt st' w c m bs :
  wrote s i ip off g tot st ipt → 0 ≤ off → 0 ≤ tot → 0 < m → m ≤ 1024 - (off + tot) mod 1024 →
  off + tot + m ≤ MAXFILE * BSIZE → let b := ptr st ipt (leaf ((off + tot) / 1024)) in b ≠ 0 →
  Z.of_nat (length bs) = m → (∀ k, 0 ≤ k < m → nth (Z.to_nat k) bs 0 = g (tot + k)) →
  eff st st' w c → c ≤ room st →
  (∀ d n, w d n = upd_blk ip.(i_dev) b (mem_write (blks st ip.(i_dev) b) ((off + tot) mod 1024) bs) (blks st) d n) →
  wrote s i ip off g (tot + m) st' ipt.
Proof.
  intros [F R E K M HB] Ho Ht Hm Hm' Hmax b Hb Hlen Hbs Heff Hc Hw.
  assert (i_dev ipt = i_dev ip) as Di by (by rw R). assert (st.(sb) = s.(sb)) as Sb by apply E.
  destruct (vpath_off (off + tot) ltac:(lia)) as [Hv Hbn]. pose proof F as [Fi Fa Ff Ft]. rewrite -> Sb, Di in Ff, Ft.
  assert (b = nptr (i_dev ip) (blks st) (addr_at ipt) (leaf ((off + tot) / 1024))) as Eb by (rw /b /ptr Di //).
  clearbody b. rewrite -> Eb in Hb.
  set (d := mem_write _ _ _) in Hw.
  destruct (leaf_write s.(sb) ip.(i_dev) (blks st) (addr_at ipt) _ d Ft Ff Hbn Hb) as (N1 & T1 & F1 & K1 & _ & B1).
  rewrite <- Eb in N1, T1, F1, K1, B1.
  assert (∀ d' n, blks st' d' n = upd_blk (i_dev ip) b d (blks st) d' n) as Hw'.
  { intros d' n. by rw (eff_blk _ _ _ _ Heff) Hw. }
  destruct (tree_low s.(sb) ip.(i_dev) _ (blks st') _ T1 F1) as (N2 & T2 & F2 & _ & _ & B2); [done|].
  pose proof (eff_sb _ _ _ _ Heff) as Sb'.
  split; [| done | | | |].
  - split; [|done|by rw Sb' Sb Di..]. destruct Heff as [-> _ _ _]. done.
  - destruct (feff_trans _ _ _ _ _ _ _ _ E (feff_of_eff _ _ _ _ _ _ Fi Heff)). split; try done.
    pose proof (eff_room _ _ _ _ Heff). destruct E. lia.
  - eapply keeps_trans; [exact K| |done|apply Ff]. by eapply keeps_ext.
  - intros o Hoo. destruct (vpath_off o ltac:(lia)) as [Hvo _]. rw /ptr Di N2 // N1 //.
    destruct (Z.lt_ge_cases o (off + tot)); [specialize (M o ltac:(lia)); by rw /ptr Di in M|].
    by replace (o / 1024) with ((off + tot) / 1024) by lia.
  - intros o Hoo. rw /byte Di B2 // B1 //. change BSIZE with 1024.
    specialize (HB o Hoo). rw /byte Di in HB. destruct (Z.eqb_spec (o / 1024) ((off + tot) / 1024)) as [Eo|Eo].
    + rw /d ld8_mem_write Hlen. assert (fbyte (i_dev ip) (blks st) (addr_at ipt) o = ld8 (blks st (i_dev ip) b) (o mod 1024)) as Hold.
      { rw /fbyte. change BSIZE with 1024. rw Eo -Eb. rewrite <- Eb in Hb. by zdec. }
      destruct (decide (off + tot ≤ o < off + tot + m)) as [Hin|Hin].
      * zdec. replace (o mod 1024 - (off + tot) mod 1024) with (o - (off + tot)) by lia. rw Hbs; [|lia]. do 2 f_equal. lia.
      * assert (((off + tot) mod 1024 <=? o mod 1024) && (o mod 1024 <? (off + tot) mod 1024 + m) = false) as -> by (zbool; lia).
        rw -Hold HB. assert ((off <=? o) && (o <? off + tot) = (off <=? o) && (o <? off + (tot + m))) as Ec by (zbool; lia).
        by rw Ec.
    + rw HB. assert ((off <=? o) && (o <? off + tot) = (off <=? o) && (o <? off + (tot + m))) as Ec by (zbool; lia).
      by rw Ec.
Qed.

Lemma iupdate_spec s i ip (Q : unit → fst → Prop) :
  s.(itab) !! i = Some ip → can_lock s ip.(i_dev) (IBLOCK ip.(i_inum) s.(sb)) → 0 < room s →
  (∀ s', eff s s' (upd_blk ip.(i_dev) (IBLOCK ip.(i_inum) s.(sb))
     (put_dinode (blks s ip.(i_dev) (IBLOCK ip.(i_inum) s.(sb))) (ip.(i_inum) mod IPB * DINODE_size) ip) (blks s)) 1 → Q tt s') →
  wp (iupdate i) Q s.
Proof.
  intros Hi Hc Hr HQ. rw /iupdate. eapply wp_geti_bind; [done|]. apply wp_gets_bind.
  by apply (wp_modify_block _ _ (λ d, put_dinode d (ip.(i_inum) mod IPB * DINODE_size) ip)).
Qed.

(** The effect of a whole write: the bytes, the size, the inode on disk, and
    everything that stays. *)
Record written s (i : nat) ip (off n : Z) (g : Z → Z) s' ip' : Prop := {
  wn_file : file_ok s' i ip';
  wn_rest : ip' = set_size (Z.max ip.(i_size) (off + n)) (with_addrs ip'.(i_addrs) ip);
  wn_sized : sized s' ip';
  wn_eff : feff s s' i ip' (room s);
  wn_bytes o : 0 ≤ o < MAXFILE * BSIZE →
    byte s' ip' o = if (off <=? o) && (o <? off + n) then u8 (g (o - off)) else byte s ip o;
  wn_disk : let b := IBLOCK ip.(i_inum) s.(sb) in
    blks s' ip.(i_dev) b = put_dinode (blks s ip.(i_dev) b) (ip.(i_inum) mod IPB * DINODE_size) ip';
  wn_used b : 0 ≤ b < s.(sb).(sb_size) → used (blks s) s.(sb) ip.(i_dev) b = true → used (blks s') s.(sb) ip.(i_dev) b = true;
  wn_frame b : dstart s.(sb) ≤ b < s.(sb).(sb_size) → used (blks s) s.(sb) ip.(i_dev) b = true →
    (∀ q, vpath q → ptr s ip q ≠ b) → blks s' ip.(i_dev) b = blks s ip.(i_dev) b;
  wn_meta b : 0 ≤ b < s.(sb).(sb_bmapstart) → b ≠ IBLOCK ip.(i_inum) s.(sb) → blks s' ip.(i_dev) b = blks s ip.(i_dev) b;
  wn_dev d b : d ≠ ip.(i_dev) → blks s' d b = blks s d b;
  wn_new b : dstart s.(sb) ≤ b < s.(sb).(sb_size) → used (blks s') s.(sb) ip.(i_dev) b = true →
    used (blks s) s.(sb) ip.(i_dev) b = true ∨ ∃ q, vpath q ∧ ptr s' ip' q = b;
  wn_fresh q : vpath q → ptr s' ip' q = ptr s ip q ∨
    ptr s ip q = 0 ∧ used (blks s) s.(sb) ip.(i_dev) (ptr s' ip' q) = false;
}.

(** After the last chunk: the new size and the inode on disk. *)
Lemma write_finish (r : Z) s i ip off n g st ipt :
  wrote s i ip off g n st ipt → sized s ip → 0 ≤ ip.(i_inum) < s.(sb).(sb_ninodes) → locked s = [] →
  0 ≤ off ≤ ip.(i_size) → 0 ≤ n → off + n ≤ MAXFILE * BSIZE → 1 ≤ room st →
  wp (ip ← geti i; when (ip.(i_size) <? off + n) (updi i (set_size (off + n)));; iupdate i;; mret r)
    (λ r' s', r' = r ∧ ∃ ip', written s i ip off n g s' ip') st.
Proof.
  intros [F R E K M HB] Hsz Hin Hlk Ho Hn Hmax Hr. pose proof F as [Fi Fa Ff Ft].
  assert (i_size ipt = i_size ip) as Es by (by rw R). assert (i_dev ipt = i_dev ip) as Ed by (by rw R).
  assert (st.(sb) = s.(sb)) as Sb by apply E. rewrite -> Sb, Ed in Ff, Ft.
  set (ip' := set_size (Z.max (i_size ip) (off + n)) ipt).
  eapply wp_geti_bind; [done|]. apply wp_bind.
  assert (∀ s1, s1 = set_itab (insert i ip') st → wp (iupdate i;; mret r) (λ r' s', r' = r ∧ ∃ ip', written s i ip off n g s' ip') s1) as Hup.
  { intros s1 ->. set (s1 := set_itab _ st).
    assert (s1.(itab) !! i = Some ip') as Hi1 by (apply list_lookup_insert_eq; by eapply lookup_lt_Some).
    assert (locked s1 = []) as Hl1 by (by change (locked st = []); rw (fe_held _ _ _ _ _ E)).
    assert (i_inum ip' = i_inum ip) as En by (by rw /ip' R). assert (i_dev ip' = i_dev ip) as Ed' by (by rw /ip' R).
    assert (s1.(sb) = s.(sb)) as Sb1 by done. pose proof (fs_layout _ _ _ Ff) as Hl.
    destruct (IBLOCK_range s.(sb) ip.(i_inum) Hl Hin) as [_ HI].
    apply wp_bind. apply (iupdate_spec s1 i ip'); [done|split; rw Hl1; [set_solver|done]|change (0 < room st); lia|].
    intros s2 Heff. rewrite -> En, Ed', Sb1 in Heff. set (I := IBLOCK (i_inum ip) (sb s)) in *.
    change (blks s1) with (blks st) in Heff.
    assert (∀ b, b ≠ I → blks s2 (i_dev ip) b = blks st (i_dev ip) b) as Hb2.
    { intros b Hb. rw (eff_blk _ _ _ _ Heff). apply upd_blk_ne. by right. }
    destruct (tree_low s.(sb) ip.(i_dev) (blks st) (blks s2) (addr_at ipt) Ft Ff) as (N2 & T2 & F2 & _ & U2 & B2).
    { intros b Hb. apply Hb2. lia. }
    pose proof (eff_sb _ _ _ _ Heff) as Sb2. pose proof (dstart_pos _ Hl).
    assert (file_ok s2 i ip') as Fo2.
    { split; [by rw (eff_rest _ _ _ _ Heff)|done|by rw Sb2 Sb1 Ed'..]. }
    apply wp_ret. split; [done|]. exists ip'. split; [done|by rw /ip' R| | | | | | | | | |].
    - split; [rw /ip' /=; pose proof (sz_range _ _ Hsz); lia|]. rw /ip' /=. intros bn Hbn Hlt. change BSIZE with 1024 in Hlt.
      pose proof (sz_range _ _ Hsz) as Hs. change (MAXFILE * BSIZE) with 67382272 in *.
      assert (0 ≤ bn < MAXFILE) as Hbn' by (change MAXFILE with 65803; lia). destruct (vpath_leaf _ Hbn') as [Hv _].
      rw /ptr Ed' N2 //. destruct (Z.lt_ge_cases (bn * 1024) (i_size ip)) as [Hlo|Hhi].
      + pose proof (sz_mapped _ _ Hsz bn Hbn Hlo) as Hp. rw (keeps_ptr _ _ _ _ _ _ _ K) //.
      + specialize (M (bn * 1024) ltac:(lia)). rw Z.div_mul // in M. by rw /ptr Ed in M.
    - destruct (feff_trans s st s2 i ipt ip' (room s) 1 E) as [? ? ? ? ? ?]; last first.
      { split; try done. pose proof (eff_room _ _ _ _ Heff). change (room s1) with (room st) in *. destruct E. lia. }
      pose proof (eff_rest _ _ _ _ Heff) as Hrest. split; [by rw Hrest..|by rw Hrest|by rw (eff_held _ _ _ _ Heff)|apply Heff].
    - intros o Hoo. rw -HB // /byte Ed' Ed B2 //.
    - cbv zeta. fold I. rw (eff_blk _ _ _ _ Heff) upd_blk_eq (k_meta _ _ _ _ _ _ K I); [done|].
      pose proof (lay_inodes _ Hl). lia.
    - intros b Hb Hu. rw U2 //. by apply K.
    - intros b Hb Hu Hq. rw Hb2; [|lia]. by apply (k_frame _ _ _ _ _ _ K).
    - intros b Hb Hne. rw Hb2 //. by apply (k_meta _ _ _ _ _ _ K).
    - intros d b Hd. rw (eff_blk _ _ _ _ Heff) upd_blk_ne; [|by left]. by apply (k_dev _ _ _ _ _ _ K).
    - intros b Hb. rw U2; [|lia]. intros [?|(q & Hq & E')]%(k_new _ _ _ _ _ _ K); [by left| |done].
      right. exists q. split; [done|]. by rw /ptr Ed' N2.
    - intros q Hq. rw /ptr Ed' N2 //. by apply K. }
  rw Es. apply wp_when.
  - intros Hlt%Z.ltb_lt. eapply wp_updi; [done|]. apply Hup. rw /ip'. rewrite -> Z.max_r by lia.
    rw /set_itab. f_equal. by apply alter_as_insert.
  - intros Hge%Z.ltb_ge. apply Hup. rw /ip'. rewrite -> Z.max_l by lia. rw -Es.
    rw /set_itab list_insert_id; [by destruct st|]. rw Fi. by destruct ipt.
Qed.

(** The number of blocks a range touches. *)
Definition nblocks (off n : Z) : Z := if n =? 0 then 0 else (off + n - 1) / 1024 - off / 1024 + 1.

(** The source range can be read. *)
Definition readable (x : X) (u : bool) (src n : Z) : Prop :=
  ∀ a k, src ≤ a → 0 ≤ k → a + k ≤ src + n → ∃ bs, either_copyin u a k x = Ok ((0, bs), x).

Lemma readable_bytes x u src n a k : readable x u src n → src ≤ a → 0 ≤ k → a + k ≤ src + n →
  either_copyin u a k x = Ok ((0, (λ i, byte_at x u (a + i)) <$> seqZ 0 k), x).
Proof.
  intros Hr H1 H2 H3. destruct (Hr a k H1 H2 H3) as [bs Hb]. destruct (copyin_ok x u a k H2) as (r & bs' & Hb' & _ & _ & Hbs).
  rw Hb in Hb'. injection Hb' as <- <-. rw Hb. by rw Hbs.
Qed.

Lemma readable_kernel x src n : readable x false src n.
Proof.
  intros a k _ Hk _. destruct (copyin_ok x false a k Hk) as (r & bs & Hb & _ & Hr & _). rw Hb Hr //. eauto.
Qed.

Lemma writei_spec s i ip (u : bool) src off n :
  file_ok s i ip → sized s ip → 0 ≤ ip.(i_inum) < s.(sb).(sb_ninodes) → locked s = [] →
  0 ≤ off ≤ ip.(i_size) → 0 ≤ n → off + n ≤ MAXFILE * BSIZE → 0 ≤ src → src + n < 2 ^ 64 →
  readable s.(xl) u src n →
  3 * nblocks off n ≤ nfree s ip.(i_dev) → 9 * nblocks off n + 1 ≤ room s →
  wp (writei i u src off n) (λ r s', r = n ∧
    ∃ ip', written s i ip off n (λ k, byte_at s.(xl) u (src + k)) s' ip') s.
Proof.
  intros Hf Hsz Hin Hlk Ho Hn Hmax Hsrc Hsn Hrd Hnf Hrm. set (g := λ k, byte_at (xl s) u (src + k)).
  pose proof Hmax as Hmax'. change (MAXFILE * BSIZE) with 67382272 in Hmax'.
  rw /writei. eapply wp_geti_bind; [apply Hf|]. rw (u32_small (off + n)); [|lia]. zdec.
  change (MAXFILE * BSIZE) with 67382272. zdec. change BSIZE with 1024.
  apply wp_bind.
  apply (wp_loop (λ '(tot, o, a) st, 0 ≤ tot ≤ n ∧ o = off + tot ∧ a = src + tot ∧ 1 ≤ room st ∧
      ∃ ipt, wrote s i ip off g tot st ipt ∧
        (tot < n → 3 * nblocks o (n - tot) ≤ nfree st ip.(i_dev) ∧ 9 * nblocks o (n - tot) + 1 ≤ room st))
    (λ '(tot, _, _), n - tot)).
  { split_and!; try lia; [rw /nblocks in Hrm; zbool; lia|]. exists ip. split; [|by rw Z.sub_0_r].
    apply wrote_0; [done|]. rw /nblocks in Hrm. zbool; lia. }
  { lia. }
  intros [[tot o] a] st (Ht & -> & -> & Hr1 & ipt & Hw & Hbud) _.
  destruct (Z.ltb_spec tot n) as [Hlt|Hge]; last first.
  { apply wp_ret. assert (tot = n) as -> by lia. rw s32_small; [|lia]. by eapply write_finish. }
  destruct (Hbud Hlt) as [Hnf1 Hrm1]. pose proof (wr_file _ _ _ _ _ _ _ _ Hw) as F.
  assert (i_dev ipt = i_dev ip) as Ed by (by rw (wr_rest _ _ _ _ _ _ _ _ Hw)).
  assert (1 ≤ nblocks (off + tot) (n - tot)) as Hnb by (rw /nblocks; zdec; lia).
  destruct (vpath_off (off + tot)) as [Hv Hbn]; [change (MAXFILE * BSIZE) with 67382272; lia|].
  assert (locked st = []) as Hlk1 by (by rw (fe_held _ _ _ _ _ (wr_eff _ _ _ _ _ _ _ _ Hw))).
  apply wp_bind. eapply wp_mono; [|apply (bmap_spec st i ipt); [done|done|done|rw Ed; lia|lia]].
  intros r s1 [ip1 Hfill]. destruct (filled_nfree _ _ _ _ _ _ _ _ _ Hfill) as (N1 & D1 & L1 & R1).
  pose proof (wrote_grow _ _ _ _ _ _ _ _ _ _ _ _ _ _ Hw Hfill ltac:(lia) ltac:(change (MAXFILE * BSIZE) with 67382272; lia) ltac:(lia)) as Hw1.
  destruct Hfill as (_ & _ & _ & -> & Hp1). rewrite -> Ed in D1.
  apply wp_read_block; [split; rw L1 Hlk1; [set_solver|done]|]. intros s2 E2 B2 H2 R2.
  set (m := Z.min (n - tot) (1024 - (off + tot) mod 1024)).
  assert (0 < m ≤ n - tot ∧ m ≤ 1024 - (off + tot) mod 1024) as Hm by lia.
  assert (s2.(xl) = s.(xl)) as Hx2.
  { rw E2. exact (fe_xl _ _ _ _ _ (wr_eff _ _ _ _ _ _ _ _ Hw1)). }
  apply wp_bind. rw /wp /Xl /lift Hx2 (readable_bytes _ _ src n) //; [|lia..]. cbv beta iota zeta. rw -Hx2.
  set (bs := _ <$> seqZ 0 m). replace (set_xl (xl s2) s2) with s2 by (by destruct s2).
  set (b := ptr s1 ip1 _) in *. set (d := mem_write _ _ _). change (0 =? -1) with false. cbv iota.
  apply (wp_write_release_k _ _ _ _ []); [by rw H2 L1 Hlk1|lia|]. intros s3 E3 B3 H3 R3. apply wp_ret.
  rewrite -> !u32_small, u64_small by lia.
  assert (eff s1 s3 (blks s3) 1) as Heff by (split; [by rw E3 E2|by rw H3 L1|lia|done]).
  assert (Z.of_nat (length bs) = m) as Hlen by (rw /bs length_fmap length_seqZ; lia).
  assert (wrote s i ip off g (tot + m) s3 ip1) as Hw3.
  { eapply (wrote_chunk s i ip off g tot s1 ip1 s3 (blks s3) 1 m bs); try done; try lia.
    - intros k Hk. apply nth_lookup_Some. rw /bs list_lookup_fmap. rewrite -> lookup_seqZ_lt by lia. simpl.
      rw /g Hx2. do 2 f_equal. lia.
    - intros d' n'. rw B3 /upd_blk B2 /d. done. }
  split; [|lia]. split_and!; [lia..|]. exists ip1. split; [done|]. intros Hlt2.
  assert (nblocks (off + tot + m) (n - (tot + m)) = nblocks (off + tot) (n - tot) - 1) as ->.
  { rw /nblocks. zdec. lia. }
  assert (nfree s3 (i_dev ip) = nfree s1 (i_dev ip)) as Hnf3.
  { rw /nfree. f_equal. f_equal. pose proof (wr_file _ _ _ _ _ _ _ _ Hw1) as [_ _ Ff Ft].
    pose proof (eff_sb _ _ _ _ Heff) as ->. rewrite -> D1 in Ff, Ft.
    assert (b = nptr (i_dev ip) (blks s1) (addr_at ip1) (leaf ((off + tot) / 1024))) as Eb by (rw /b /ptr D1 //).
    destruct (leaf_write _ _ _ _ ((off + tot) / 1024) d Ft Ff Hbn) as (_ & T1 & F1 & _ & <- & _); [by rw -Eb|].
    rewrite <- Eb in T1, F1. rw -Eb.
    destruct (tree_low _ _ _ (blks s3) _ T1 F1) as (_ & _ & _ & -> & _); [|done].
    intros n' _. by rw B3 /upd_blk B2. }
  rw Hnf3. rewrite -> D1, Ed in N1. lia.
Qed.
End rw.
End FsRw.
