(* ===== verification/FsInode.v ===== *)
(** * Inodes on disk and in the inode table

    [iupdate] and [ilock] are inverse through the on-disk format; [iget] and
    [iput] keep the inode table a set of reference-counted entries. *)

From S2P Require Import Prelude Machine Fs FsBlocks FsTree FsData FsRw.
Import Fs FsBlocks FsTree FsData FsRw.

Module FsInode.

#[local] Arguments le_bytes : simpl never.
#[local] Arguments nth : simpl never.

(** ** The on-disk format *)

Lemma u8_div_small v k : 0 ≤ k → u8 (v / 2 ^ k) = v / 2 ^ k mod 256.
Proof. done. Qed.

Lemma ld16_st16_eq m a v : ld16 (st16 m a v) a = v mod 2 ^ 16.
Proof.
  rw /ld16 /st16 !ld8_mem_write length_le_bytes. change (Z.of_nat 2) with 2. zdec. rw !nth_le_bytes; [|lia..].
  replace (Z.to_nat (a - a)) with 0%nat by lia. replace (Z.to_nat (a + 1 - a)) with 1%nat by lia.
  rw !u8_u8 /u8. change (2 ^ (8 * Z.of_nat 0)) with 1. change (2 ^ (8 * Z.of_nat 1)) with 256. lia.
Qed.

Lemma ld8_st16_ne m a v x : x < a ∨ a + 2 ≤ x → ld8 (st16 m a v) x = ld8 m x.
Proof.
  intros H. rw /st16 ld8_mem_write length_le_bytes. change (Z.of_nat 2) with 2.
  by assert ((a <=? x) && (x <? a + 2) = false) as -> by (zbool; lia).
Qed.
Lemma ld8_st32_ne m a v x : x < a ∨ a + 4 ≤ x → ld8 (st32 m a v) x = ld8 m x.
Proof.
  intros H. rw /st32 ld8_mem_write length_le_bytes. change (Z.of_nat 4) with 4.
  by assert ((a <=? x) && (x <? a + 4) = false) as -> by (zbool; lia).
Qed.
Lemma ld16_ld8 m m' a : (∀ x, a ≤ x < a + 2 → ld8 m x = ld8 m' x) → ld16 m a = ld16 m' a.
Proof. intros H. rw /ld16 !H //; lia. Qed.
Lemma ld32_ld8 m m' a : (∀ x, a ≤ x < a + 4 → ld8 m x = ld8 m' x) → ld32 m a = ld32 m' a.
Proof. intros H. rw /ld32 !H //; lia. Qed.

Lemma s16_mod v : - 2 ^ 15 ≤ v < 2 ^ 15 → s16 (v mod 2 ^ 16) = v.
Proof. intros H. rw /s16. lia. Qed.

(** The bytes of an array of 32-bit words. *)
Lemma length_words l : length (l ≫= le_bytes 4) = (4 * length l)%nat.
Proof. induction l as [|a l IH]; [done|]. rw bind_cons length_app length_le_bytes IH /=. lia. Qed.

Lemma ld32_words l m a k v : l !! k = Some v → 0 ≤ v < 2 ^ 32 →
  ld32 (mem_write m a (l ≫= le_bytes 4)) (a + 4 * Z.of_nat k) = v.
Proof.
  intros Hk Hv. pose proof (lookup_lt_Some _ _ _ Hk) as Hlt.
  assert (∀ r, 0 ≤ r < 4 → ld8 (mem_write m a (l ≫= le_bytes 4)) (a + 4 * Z.of_nat k + r) = u8 (v / 2 ^ (8 * r))) as H.
  { intros r Hr. rw ld8_mem_write length_words. zdec.
    replace (Z.to_nat (a + 4 * Z.of_nat k + r - a)) with (4 * k + Z.to_nat r)%nat by lia.
    clear Hlt. revert k Hk. induction l as [|b l IH]; intros k Hk; [done|].
    rw bind_cons. destruct k as [|k]; [injection Hk as ->|change (l !! k = Some v) in Hk].
    - rw app_nth1; [|rw length_le_bytes; lia]. rw nth_le_bytes; [|lia]. rw u8_u8. do 3 f_equal. lia.
    - rw app_nth2 length_le_bytes; [|lia]. rw -(IH k Hk). do 2 f_equal. lia. }
  rw /ld32. replace (a + 4 * Z.of_nat k) with (a + 4 * Z.of_nat k + 0) at 1 by lia. rw !H; [|lia..].
  rw /u8. change (2 ^ (8 * 0)) with 1. change (2 ^ (8 * 1)) with 256. change (2 ^ (8 * 2)) with 65536.
  change (2 ^ (8 * 3)) with 16777216. lia.
Qed.

(** Fields that fit their C types. *)
Record fits (ip : inode) : Prop := {
  ft_type : - 2 ^ 15 ≤ ip.(i_type) < 2 ^ 15;
  ft_major : - 2 ^ 15 ≤ ip.(i_major) < 2 ^ 15;
  ft_minor : - 2 ^ 15 ≤ ip.(i_minor) < 2 ^ 15;
  ft_nlink : - 2 ^ 15 ≤ ip.(i_nlink) < 2 ^ 15;
  ft_size : 0 ≤ ip.(i_size) < 2 ^ 32;
  ft_addrs : length ip.(i_addrs) = 13%nat ∧ Forall (λ a, 0 ≤ a < 2 ^ 32) ip.(i_addrs);
}.

(** The fields [iupdate] stores, in the entry [jp]. *)
Definition with_fields (ip jp : inode) : inode :=
  MkInode jp.(i_dev) jp.(i_inum) jp.(i_ref) jp.(i_locked) jp.(i_valid)
    ip.(i_type) ip.(i_major) ip.(i_minor) ip.(i_nlink) ip.(i_size) ip.(i_addrs).

Lemma ld8_addrs_ne m o l x : x < o + 12 ∨ o + 12 + 4 * Z.of_nat (length l) ≤ x →
  ld8 (mem_write m (o + 12) (l ≫= le_bytes 4)) x = ld8 m x.
Proof.
  intros H. rw ld8_mem_write length_words.
  by assert ((o + 12 <=? x) && (x <? o + 12 + Z.of_nat (4 * length l)) = false) as -> by (zbool; lia).
Qed.

Lemma get_put_dinode d o ip jp : fits ip → get_dinode (put_dinode d o ip) o jp = with_fields ip jp.
Proof.
  intros [H1 H2 H3 H4 H5 [Hl Ha]]. rw /get_dinode /with_fields /put_dinode.
  set (d1 := st16 d o _). set (d2 := st16 d1 _ _). set (d3 := st16 d2 _ _). set (d4 := st16 d3 _ _).
  set (d5 := st32 d4 _ _).
  assert (∀ m a x, a ≤ x < a + 2 → o ≤ a → x < o + 8 → ld8 m x = ld8 d4 x →
    ld8 (mem_write d5 (o + 12) (i_addrs ip ≫= le_bytes 4)) x = ld8 m x) as Hhead.
  { intros m a x Hx _ Hlt ->. rw ld8_addrs_ne; [|lia]. apply ld8_st32_ne. lia. }
  f_equal.
  - rw -(s16_mod _ H1) -(ld16_st16_eq d o) -/d1. f_equal. apply ld16_ld8. intros x Hx. apply (Hhead _ o); [lia..|].
    rw /d4 (ld8_st16_ne d3); [|lia]. rw /d3 (ld8_st16_ne d2); [|lia]. by rw /d2 (ld8_st16_ne d1); [|lia].
  - rw -(s16_mod _ H2) -(ld16_st16_eq d1 (o + 2)) -/d2. f_equal. apply ld16_ld8. intros x Hx. apply (Hhead _ (o + 2)); [lia..|].
    rw /d4 (ld8_st16_ne d3); [|lia]. by rw /d3 (ld8_st16_ne d2); [|lia].
  - rw -(s16_mod _ H3) -(ld16_st16_eq d2 (o + 4)) -/d3. f_equal. apply ld16_ld8. intros x Hx. apply (Hhead _ (o + 4)); [lia..|].
    by rw /d4 (ld8_st16_ne d3); [|lia].
  - rw -(s16_mod _ H4) -(ld16_st16_eq d3 (o + 6)) -/d4. f_equal. apply ld16_ld8. intros x Hx. by apply (Hhead _ (o + 6)); [lia..|].
  - rw -[RHS](ld32_st32_eq d4 (o + 8) _ H5) -/d5. apply ld32_ld8. intros x Hx. apply ld8_addrs_ne. lia.
  - apply list_eq. intros k. rw list_lookup_fmap. destruct (ip.(i_addrs) !! k) as [v|] eqn:Hk.
    + pose proof (lookup_lt_Some _ _ _ Hk). rewrite -> lookup_seqZ_lt by (change (NDIRECT + 2) with 13; lia). simpl.
      f_equal. replace (o + 12 + 4 * (0 + Z.of_nat k)) with (o + 12 + 4 * Z.of_nat k) by lia.
      apply ld32_words; [done|]. rw Forall_lookup in Ha. by eapply Ha.
    + apply lookup_ge_None in Hk. rw lookup_seqZ_ge; [done|]. change (NDIRECT + 2) with 13. lia.
Qed.

(** Storing one inode leaves the others of its block alone. *)
Lemma get_put_dinode_other d o o' ip jp : length ip.(i_addrs) = 13%nat → o' + 64 ≤ o ∨ o + 64 ≤ o' →
  get_dinode (put_dinode d o ip) o' jp = get_dinode d o' jp.
Proof.
  intros Hl Ho.
  assert (∀ x, o' ≤ x < o' + 64 → ld8 (put_dinode d o ip) x = ld8 d x) as H.
  { intros x Hx. rw /put_dinode ld8_addrs_ne; [|rw Hl; lia]. rw ld8_st32_ne; [|lia]. by rw !ld8_st16_ne; [|lia..]. }
  rw /get_dinode. f_equal; try (f_equal; apply ld16_ld8; intros x Hx; apply H; lia).
  - apply ld32_ld8. intros x Hx. apply H. lia.
  - apply list_fmap_ext. intros j k Hk. apply lookup_seqZ in Hk as [-> Hk]. change (NDIRECT + 2) with 13 in Hk.
    apply ld32_ld8. intros x Hx. apply H. lia.
Qed.

(** ** The inode table *)

Definition refers (dev inum : Z) (ip : inode) : Prop := 0 < ip.(i_ref) ∧ ip.(i_dev) = dev ∧ ip.(i_inum) = inum.

(** At most one entry refers to an inode of the disk. *)
Record itable_ok (l : list inode) : Prop := {
  it_len : length l = NINODE;
  it_ref i ip : l !! i = Some ip → 0 ≤ ip.(i_ref) < 2 ^ 31 - 1;
  it_uniq i j ip jp dev inum : l !! i = Some ip → l !! j = Some jp → refers dev inum ip → refers dev inum jp → i = j;
}.

(** The entry [iget] sets up in a free slot. *)
Definition fresh_entry (dev inum : Z) (ip : inode) : inode :=
  MkInode dev inum 1 ip.(i_locked) false ip.(i_type) ip.(i_major) ip.(i_minor) ip.(i_nlink) ip.(i_size) ip.(i_addrs).

Section itable.
Context {B X : Type} {BL : BufLayer B} {CL : CopyLayer X}.
Notation fst := (fst B X).
Implicit Types (s : fst) (ip : inode).

(** [iget]'s result: the one entry for the inode, with one more reference. *)
Definition got s (dev inum : Z) (i : nat) s' : Prop :=
  ∃ ip ip', s.(itab) !! i = Some ip ∧ s' = set_itab (insert i ip') s ∧
    ((refers dev inum ip ∧ ip' = set_ref (ip.(i_ref) + 1) ip) ∨
     (ip.(i_ref) = 0 ∧ ip' = fresh_entry dev inum ip ∧ ∀ j jp, s.(itab) !! j = Some jp → ¬ refers dev inum jp)).

Lemma set_itab_itlock_id f s : s.(itlock) = false → set_itlock false (set_itab f (set_itlock true s)) = set_itab f s.
Proof. destruct s. simpl. by intros ->. Qed.

Lemma wp_release_itable f (Q : unit → fst → Prop) s :
  s.(itlock) = false → Q tt (set_itab f s) → wp release_itable Q (set_itab f (set_itlock true s)).
Proof. intros Hl HQ. rw /release_itable. apply wp_gets_bind. rw /= /wp /modify set_itab_itlock_id //. Qed.

Lemma iget_spec s dev inum :
  itable_ok s.(itab) → s.(itlock) = false →
  (∃ i ip, s.(itab) !! i = Some ip ∧ (refers dev inum ip ∨ ip.(i_ref) = 0)) →
  wp (iget dev inum) (λ i s', got s dev inum i s') s.
Proof.
  intros Hok Hl Hex. rw /iget. apply wp_bind. rw /acquire_itable. apply wp_gets_bind. rw Hl. rw {1}/wp /modify. cbv iota beta.
  set (s1 := set_itlock true s). apply wp_bind.
  eapply wp_mono; [|apply (wp_for_acc (λ dn e st, st = s1 ∧
      (∀ j jp, j ∈ dn → s.(itab) !! j = Some jp → ¬ refers dev inum jp) ∧
      match e with
      | Some k => ∃ kp, s.(itab) !! k = Some kp ∧ kp.(i_ref) = 0
      | None => ∀ j jp, j ∈ dn → s.(itab) !! j = Some jp → jp.(i_ref) ≠ 0
      end) (λ i st, got s dev inum i st))].
  - intros [e|i] st H; [|by apply wp_ret]. destruct H as (-> & Hno & He).
    assert (∀ j jp, s.(itab) !! j = Some jp → ¬ refers dev inum jp) as Hno'.
    { intros j jp Hj. apply (Hno j jp); [|done]. apply elem_of_seq. pose proof (lookup_lt_Some _ _ _ Hj).
      rewrite -> (it_len _ Hok) in *. lia. }
    destruct e as [k|]; last first.
    { exfalso. destruct Hex as (i & ip & Hi & [Hr|Hr]); [by apply (Hno' i ip)|]. apply (He i ip); try done.
      apply elem_of_seq. pose proof (lookup_lt_Some _ _ _ Hi). rewrite -> (it_len _ Hok) in *. lia. }
    destruct He as (kp & Hk & Hr). apply wp_bind. eapply wp_updi; [done|].
    apply wp_bind. apply wp_release_itable; [done|]. apply wp_ret. exists kp, (fresh_entry dev inum kp).
    split_and!; [done| |by right]. rw /set_itab. f_equal. by apply alter_as_insert.
  - split_and!; [done|set_solver..].
  - intros dn i td e st Hsplit (-> & Hno & He). apply seq_prefix in Hsplit as (Hi & _ & Hdn).
    destruct (lookup_lt_is_Some_2 s.(itab) i) as [ip Hip]; [by rw (it_len _ Hok)|].
    eapply wp_geti_bind; [done|]. destruct (it_ref _ Hok _ _ Hip) as [Hr0 Hr1].
    destruct (decide (refers dev inum ip)) as [Hrf|Hrf].
    { pose proof Hrf as (Ha & <- & <-). zdec. apply wp_bind. eapply wp_updi; [done|]. apply wp_bind.
      apply wp_release_itable; [done|]. apply wp_ret. exists ip, (set_ref (i_ref ip + 1) ip).
      split_and!; [done| |by left]. rewrite -> s32_small by lia. rw /set_itab. f_equal. by apply alter_as_insert. }
    assert ((0 <? i_ref ip) && (i_dev ip =? dev) && (i_inum ip =? inum) = false) as ->.
    { apply not_true_iff_false. intros H. apply Hrf. zbool; done. }
    assert (∀ j jp, j ∈ dn ++ [i] → itab s !! j = Some jp → ¬ refers dev inum jp) as Hno'.
    { intros j jp [Hj| ->%list_elem_of_singleton]%elem_of_app Hjp; [by eapply Hno|]. by simplify_eq. }
    case_bool_decide as He0; simpl.
    + subst e. destruct (Z.eqb_spec (i_ref ip) 0) as [E0|E0]; apply wp_ret; split_and!; try done; [by eauto|].
      intros j jp [Hj| ->%list_elem_of_singleton]%elem_of_app Hjp; [by eapply He|]. by simplify_eq.
    + apply wp_ret. by destruct e.
Qed.

(** [iget] keeps the table well formed. *)
Lemma got_table s dev inum i s' :
  itable_ok s.(itab) → got s dev inum i s' → (∀ ip, s.(itab) !! i = Some ip → ip.(i_ref) < 2 ^ 31 - 2) →
  itable_ok s'.(itab) ∧ ∃ ip', s'.(itab) !! i = Some ip' ∧ refers dev inum ip'.
Proof.
  intros Hok (ip & ip' & Hi & -> & Hcase) Hr. specialize (Hr ip Hi). destruct (it_ref _ Hok _ _ Hi) as [Hr0 _].
  assert (refers dev inum ip' ∧ i_ref ip' = i_ref ip + 1) as [Hrf Hrr].
  { destruct Hcase as [[(Ha & Hb & Hc) ->]|(E & -> & _)]; (split; [split_and!|]); simpl; try done; lia. }
  assert (∀ j jp d n, itab s !! j = Some jp → j ≠ i → refers d n jp → refers d n ip' → False) as Hclash.
  { intros j jp d n Hj Hne Hrj (_ & <- & <-). destruct Hrf as (_ & E1 & E2). rewrite -> E1, E2 in Hrj.
    destruct Hcase as [[Hri _]|(_ & _ & Hno)]; [|by eapply Hno]. apply Hne. by eapply (it_uniq _ Hok). }
  simpl. split.
  - split.
    + by rw length_insert (it_len _ Hok).
    + intros j jp [(-> & <- & _)|[Hne Hj]]%list_lookup_insert_Some; [lia|by eapply (it_ref _ Hok)].
    + intros j k jp kp d n [(-> & <- & _)|[Hne Hj]]%list_lookup_insert_Some [(-> & <- & _)|[Hne' Hk]]%list_lookup_insert_Some Hrj Hrk;
        [done|exfalso; eauto..|by eapply (it_uniq _ Hok)].
  - exists ip'. split; [|done]. rw list_lookup_insert_eq //. by eapply lookup_lt_Some.
Qed.

(** [iput] of a reference that is not the last one to an unlinked inode. *)
Lemma iput_spec s i ip :
  s.(itab) !! i = Some ip → s.(itlock) = false → 1 ≤ ip.(i_ref) < 2 ^ 31 →
  ip.(i_ref) ≠ 1 ∨ ip.(i_valid) = false ∨ ip.(i_nlink) ≠ 0 →
  wp (iput i) (λ _ s', s' = set_itab (insert i (set_ref (ip.(i_ref) - 1) ip)) s) s.
Proof.
  intros Hi Hl Hr Hc. rw /iput. apply wp_bind. rw /acquire_itable. apply wp_gets_bind. rw Hl. rw {1}/wp /modify. cbv iota beta.
  set (s1 := set_itlock true s). eapply wp_geti_bind; [exact Hi|]. apply wp_bind.
  assert ((i_ref ip =? 1) && i_valid ip && (i_nlink ip =? 0) = false) as ->.
  { apply not_true_iff_false. intros [[?%Z.eqb_eq ?]%andb_true_iff ?%Z.eqb_eq]%andb_true_iff.
    destruct Hc as [?|[?|?]]; congruence. }
  apply wp_ret. eapply wp_geti_bind; [exact Hi|]. apply wp_bind. eapply wp_updi; [exact Hi|].
  apply wp_release_itable; [done|]. rewrite -> s32_small by lia. rw /set_itab. f_equal. by apply alter_as_insert.
Qed.
End itable.
End FsInode.
