(* ===== verification/FsProps.v ===== *)
(** * File-system theorems

    The claims about [fs.c]: the block allocator, the inode round trip, the
    inode table, reading and writing, truncation.  [Demo] holds a concrete
    buffer cache, disk and file that satisfy the hypotheses. *)

From S2P Require Import Prelude Machine Fs FsBlocks FsTree FsData FsRw FsInode.
Import Fs FsBlocks FsTree FsData FsRw FsInode.

Module FsProps.

Section props.
Context {B X : Type} {BL : BufLayer B} {CL : CopyLayer X}.
Notation fst := (fst B X).
Implicit Types (s : fst) (ip jp : inode).

(** [balloc] returns the lowest free block [f] of the bitmap, marked used
    and zeroed, takes it off the free blocks and changes no other data block;
    [bfree] of that block then restores the free blocks, and a second [bfree]
    of it panics. *)
Theorem balloc_takes_lowest s dev f fs :
  fs_ok (blks s) s.(sb) dev → free_blocks (blks s) s.(sb) dev = f :: fs → locked s = [] → 3 ≤ room s →
  ∃ s1 s2, balloc dev s = Ok (f, s1) ∧ alloc_step s.(sb) dev (blks s) (blks s1) f ∧
    bfree dev f s1 = Ok (tt, s2) ∧ free_blocks (blks s2) s.(sb) dev = f :: fs ∧
    bfree dev f s2 = Err (Panic "freeing free block").
Proof.
  intros Hok Hfree Hlk Hr.
  assert (∀ s, locked s = [] → locks_data s dev) as Hld.
  { intros s0 E. split; rw E; [done|]. intros n Hn. by apply not_elem_of_nil in Hn. }
  destruct (wp_run _ _ _ (balloc_spec s dev f fs Hok Hfree (Hld s Hlk) ltac:(lia))) as (r & s1 & Hrun & -> & Has & Heff).
  pose proof (eff_sb _ _ _ _ Heff) as Sb. destruct (dstart_pos _ (fs_layout _ _ _ Hok)).
  assert (used (blks s1) s.(sb) dev f = true) as Hu1 by (rw (as_used _ _ _ _ _ Has); [by rw Z.eqb_refl|pose proof (as_range _ _ _ _ _ Has); lia]).
  assert (fs_ok (blks s1) s1.(sb) dev) as Hok1.
  { rw Sb. destruct Hok as [Hl Hm]. split; [done|]. intros b Hb. pose proof (lay_data _ Hl).
    rw (as_used _ _ _ _ _ Has); [|lia]. rw Hm //. by rw orb_true_r. }
  destruct (wp_run _ _ _ (bfree_spec s1 dev f Hok1 ltac:(rw Sb; apply Has) ltac:(by rw Sb)
    (Hld s1 ltac:(by rw (eff_held _ _ _ _ Heff))) ltac:(pose proof (eff_room _ _ _ _ Heff); lia)))
    as ([] & s2 & Hrun2 & Heff2 & Hu2 & _). rewrite -> Sb in Hu2.
  pose proof (eff_sb _ _ _ _ Heff2) as Sb2. rewrite -> Sb in Sb2.
  exists s1, s2. split_and!; [done..| |].
  - rw -Hfree. apply filter_ext_in. intros x Hx%elem_of_seqZ. rw Hu2; [|lia]. rw (as_used _ _ _ _ _ Has); [|lia].
    pose proof (as_fresh _ _ _ _ _ Has) as Hf0. zbool; simpl; [subst; by rw Hf0|done].
  - pose proof (as_range _ _ _ _ _ Has). apply bfree_free_panics; rw ?Sb2; [apply Hok|lia| |].
    + rw Hu2; [|lia]. by rw Z.eqb_refl.
    + split; rw (eff_held _ _ _ _ Heff2) (eff_held _ _ _ _ Heff) Hlk; [set_solver|done].
Qed.

(** C25: a write is read back.  [writei] of [n] bytes from readable memory at
    an offset up to the end of the file returns [n], extends the size to cover
    the range, and [readi] of the range then delivers exactly those bytes;
    bytes outside the range keep their values. *)
Theorem write_read s i ip (u : bool) src off n dst :
  file_ok s i ip → sized s ip → 0 ≤ ip.(i_inum) < s.(sb).(sb_ninodes) → locked s = [] →
  0 ≤ off ≤ ip.(i_size) → 0 ≤ n → off + n ≤ MAXFILE * BSIZE → 0 ≤ src → src + n < 2 ^ 64 → 0 ≤ dst → dst + n < 2 ^ 64 →
  readable s.(xl) u src n →
  3 * nblocks off n ≤ nfree s ip.(i_dev) → 9 * nblocks off n + 1 ≤ room s →
  ∃ s1 ip1 s2, writei i u src off n s = Ok (n, s1) ∧ s1.(itab) = <[i := ip1]> s.(itab) ∧
    ip1.(i_size) = Z.max ip.(i_size) (off + n) ∧
    readi i false dst off n s1 = Ok (n, s2) ∧
    (∀ k, 0 ≤ k < n → byte_at s2.(xl) false (dst + k) = u8 (byte_at s.(xl) u (src + k))) ∧
    (∀ o, 0 ≤ o < MAXFILE * BSIZE → o < off ∨ off + n ≤ o → byte s1 ip1 o = byte s ip o).
Proof.
  intros Hf Hsz Hin Hlk Ho Hn Hmax Hs1 Hs2 Hd1 Hd2 Hrd Hnf Hrm.
  destruct (wp_run _ _ _ (writei_spec s i ip u src off n Hf Hsz Hin Hlk Ho Hn Hmax Hs1 Hs2 Hrd Hnf Hrm))
    as (r & s1 & Hrun & -> & ip1 & Hw).
  pose proof Hmax as Hmax'. change (MAXFILE * BSIZE) with 67382272 in Hmax'.
  assert (i_size ip1 = Z.max (i_size ip) (off + n)) as Hsize by (by rw (wn_rest _ _ _ _ _ _ _ _ Hw)).
  assert (locked s1 = []) as Hlk1 by (by rw (fe_held _ _ _ _ _ (wn_eff _ _ _ _ _ _ _ _ Hw))).
  destruct (wp_run _ _ _ (readi_spec s1 i ip1 false dst off n (wn_file _ _ _ _ _ _ _ _ Hw) (wn_sized _ _ _ _ _ _ _ _ Hw)
    Hlk1 ltac:(lia) Hn ltac:(lia) Hd1 Hd2)) as (r & s2 & Hrun2 & _ & [[Hr2 Hb]|[? _]]); [|done].
  assert (r = n) as -> by lia. exists s1, ip1, s2. split_and!; try done; [apply (wn_eff _ _ _ _ _ _ _ _ Hw)|..].
  - intros k Hk. rw Hb. zdec. replace (off + (dst + k - dst)) with (off + k) by lia.
    rw (wn_bytes _ _ _ _ _ _ _ _ Hw); [|change (MAXFILE * BSIZE) with 67382272; lia]. zdec. do 3 f_equal. lia.
  - intros o Hoo Hout. rw (wn_bytes _ _ _ _ _ _ _ _ Hw) //.
    by assert ((off <=? o) && (o <? off + n) = false) as -> by (zbool; lia).
Qed.

(** Two files share no block. *)
Definition disjoint_files s ip jp : Prop :=
  ip.(i_dev) = jp.(i_dev) ∧ ∀ p q, vpath p → vpath q → ptr s jp p ≠ 0 → ptr s jp p ≠ ptr s ip q.

(** C26: writing one file leaves every other file alone: its inode, its block
    pointers, each of its bytes and its on-disk inode are unchanged, it stays
    well formed and the two files still share no block. *)
Theorem write_isolated s i ip j jp (u : bool) src off n :
  file_ok s i ip → sized s ip → 0 ≤ ip.(i_inum) < s.(sb).(sb_ninodes) → locked s = [] →
  0 ≤ off ≤ ip.(i_size) → 0 ≤ n → off + n ≤ MAXFILE * BSIZE → 0 ≤ src → src + n < 2 ^ 64 →
  readable s.(xl) u src n →
  3 * nblocks off n ≤ nfree s ip.(i_dev) → 9 * nblocks off n + 1 ≤ room s →
  file_ok s j jp → i ≠ j → disjoint_files s ip jp →
  0 ≤ jp.(i_inum) < s.(sb).(sb_ninodes) → jp.(i_inum) ≠ ip.(i_inum) →
  ∃ s1, writei i u src off n s = Ok (n, s1) ∧ file_ok s1 j jp ∧
    (∀ q, vpath q → ptr s1 jp q = ptr s jp q) ∧
    (∀ o, 0 ≤ o < MAXFILE * BSIZE → byte s1 jp o = byte s jp o) ∧
    let b := IBLOCK jp.(i_inum) s.(sb) in let o := jp.(i_inum) mod IPB * DINODE_size in
    get_dinode (blks s1 jp.(i_dev) b) o jp = get_dinode (blks s jp.(i_dev) b) o jp.
Proof.
  intros Hf Hsz Hin Hlk Ho Hn Hmax Hs1 Hs2 Hrd Hnf Hrm Hj Hij [Hdev Hdis] Hjn Hne.
  destruct (wp_run _ _ _ (writei_spec s i ip u src off n Hf Hsz Hin Hlk Ho Hn Hmax Hs1 Hs2 Hrd Hnf Hrm))
    as (r & s1 & Hrun & -> & ip1 & Hw).
  exists s1. split; [done|]. destruct Hj as [Ji Ja Jf Jt]. pose proof (fs_layout _ _ _ Jf) as Hl.
  pose proof (wn_eff _ _ _ _ _ _ _ _ Hw) as He.
  destruct (tree_frame s.(sb) jp.(i_dev) (blks s) (blks s1) (addr_at jp) Jt Hl) as (Np & Nt & Nb).
  { intros q Hq Hq0. destruct (t_range _ _ _ _ Jt q Hq Hq0). rw -Hdev. apply (wn_frame _ _ _ _ _ _ _ _ Hw); rw ?Hdev //.
    intros p Hp E. by apply (Hdis q p Hq Hp Hq0). }
  { intros b Hb Hu. rw -Hdev. rewrite <- Hdev in Hu. by apply (wn_used _ _ _ _ _ _ _ _ Hw). }
  split_and!; [|done..|].
  - split; [by rw (fe_itab _ _ _ _ _ He) list_lookup_insert_ne|done| |by rw (fe_sb _ _ _ _ _ He)].
    rw -Hdev. pose proof (wn_file _ _ _ _ _ _ _ _ Hw) as [_ _ Ff _].
    by rw (wn_rest _ _ _ _ _ _ _ _ Hw) in Ff.
  - cbv zeta. rw -Hdev. destruct (IBLOCK_range s.(sb) jp.(i_inum) Hl Hjn) as [Ej Hjr].
    destruct (IBLOCK_range s.(sb) ip.(i_inum) Hl Hin) as [Ei Hir].
    destruct (decide (IBLOCK (i_inum jp) (sb s) = IBLOCK (i_inum ip) (sb s))) as [E|E].
    + rw E. pose proof (wn_disk _ _ _ _ _ _ _ _ Hw) as Hd. simpl in Hd. rw Hd. apply get_put_dinode_other.
      * apply (wn_file _ _ _ _ _ _ _ _ Hw).
      * change IPB with 16. change DINODE_size with 64. lia.
    + rw (wn_meta _ _ _ _ _ _ _ _ Hw) //. pose proof (lay_inodes _ Hl). lia.
Qed.

(** C27: an inode survives eviction.  After [iupdate] of a locked inode, the
    table entry may be reused and later fetched again with arbitrary stale
    fields; [ilock] then reads back exactly the fields that [iupdate] wrote.
    The on-disk copies of all other inodes are unchanged. *)
Theorem iupdate_ilock s i ip stale :
  s.(itab) !! i = Some ip → fits ip → ip.(i_type) ≠ 0 → layout_ok s.(sb) → 0 ≤ ip.(i_inum) < s.(sb).(sb_ninodes) →
  locked s = [] → 1 ≤ room s →
  stale.(i_dev) = ip.(i_dev) → stale.(i_inum) = ip.(i_inum) → stale.(i_locked) = false → stale.(i_valid) = false → 1 ≤ stale.(i_ref) →
  ∃ s1 s2, iupdate i s = Ok (tt, s1) ∧
    ilock (Some i) (set_itab (insert i stale) s1) = Ok (tt, s2) ∧
    s2.(itab) = <[i := set_valid true (set_locked true (with_fields ip stale))]> s.(itab) ∧ blks s2 = blks s1 ∧
    ∀ n jp, 0 ≤ n < s.(sb).(sb_ninodes) → n ≠ ip.(i_inum) →
      get_dinode (blks s1 ip.(i_dev) (IBLOCK n s.(sb))) (n mod IPB * DINODE_size) jp =
      get_dinode (blks s ip.(i_dev) (IBLOCK n s.(sb))) (n mod IPB * DINODE_size) jp.
Proof.
  intros Hi Hfit Ht Hl Hin Hlk Hr Ed En El Ev Er. pose proof (lookup_lt_Some _ _ _ Hi) as Hlt.
  set (I := IBLOCK (i_inum ip) (sb s)). set (o := i_inum ip mod IPB * DINODE_size).
  assert (wp (iupdate i) (λ _ s1, eff s s1 (upd_blk (i_dev ip) I (put_dinode (blks s (i_dev ip) I) o ip) (blks s)) 1) s) as Hup.
  { apply (iupdate_spec s i ip); [done|split; rw Hlk; [set_solver|done]|lia|done]. }
  apply wp_run in Hup as ([] & s1 & Hrun & Heff). pose proof (eff_sb _ _ _ _ Heff) as Sb.
  set (s1' := set_itab (insert i stale) s1).
  assert (s1.(itab) = s.(itab)) as Hit by (by rw (eff_rest _ _ _ _ Heff)).
  assert (wp (ilock (Some i)) (λ _ s2, s2.(itab) = <[i := set_valid true (set_locked true (with_fields ip stale))]> s.(itab)
    ∧ blks s2 = blks s1) s1') as Hlock.
  { assert (s1'.(itab) !! i = Some stale) as H0 by (apply list_lookup_insert_eq; by rw Hit).
    rw /ilock. eapply wp_geti_bind; [exact H0|]. zdec. apply wp_bind. rw /acquiresleep. eapply wp_geti_bind; [exact H0|].
    rw El. eapply wp_updi; [exact H0|]. set (s2 := set_itab _ s1').
    assert (s2.(itab) = <[i := set_locked true stale]> s.(itab)) as H2.
    { rw /s2 /=. rewrite -> (alter_as_insert _ _ _ _ H0). by rw /s1' /= Hit list_insert_insert_eq. }
    eapply wp_geti_bind; [rw H2; by apply list_lookup_insert_eq|]. simpl. rw Ev /=. apply wp_gets_bind.
    change (sb s2) with (sb s1). rw Sb Ed En. fold I.
    apply wp_read_block; [split; change (locked s2) with (locked s1); rw (eff_held _ _ _ _ Heff) Hlk; [set_solver|done]|].
    intros s3 E3 B3 L3 _. change (blks s2) with (blks s1) in *. rw (eff_blk _ _ _ _ Heff) upd_blk_eq.
    assert (s3.(itab) = <[i := set_locked true stale]> s.(itab)) as H3 by (by rw E3).
    assert (s3.(itab) !! i = Some (set_locked true stale)) as H3' by (rw H3; by apply list_lookup_insert_eq).
    apply wp_bind. eapply wp_updi; [exact H3'|]. set (s4 := set_itab _ s3).
    assert (s4.(itab) = <[i := with_fields ip (set_locked true stale)]> s.(itab)) as H4.
    { rw /s4 /=. rewrite -> (alter_as_insert _ _ _ _ H3'). rw H3 list_insert_insert_eq. fold o. by rw get_put_dinode. }
    apply wp_bind. apply (wp_brelse _ _ _ []).
    { change (locked s4) with (locked s3). rw L3. by change (locked s2) with (locked s1); rw (eff_held _ _ _ _ Heff) Hlk. }
    { change (blks s4) with (blks s3). by rw B3 (eff_blk _ _ _ _ Heff) upd_blk_eq. }
    intros s5 E5 B5 _ _. assert (s5.(itab) = s4.(itab)) as H5 by (by rw E5).
    apply wp_bind. assert (s5.(itab) !! i = Some (with_fields ip (set_locked true stale))) as H5'
      by (rw H5 H4; by apply list_lookup_insert_eq).
    eapply wp_updi; [exact H5'|]. set (s6 := set_itab _ s5).
    assert (s6.(itab) = <[i := set_valid true (set_locked true (with_fields ip stale))]> s.(itab)) as H6.
    { rw /s6 /=. rewrite -> (alter_as_insert _ _ _ _ H5'). by rw H5 H4 list_insert_insert_eq. }
    eapply wp_geti_bind; [rw H6; by apply list_lookup_insert_eq|]. simpl. zdec. apply wp_ret. split; [done|].
    change (blks s6) with (blks s5). rw B5. by change (blks s4) with (blks s3); rw B3. }
  apply wp_run in Hlock as ([] & s2 & Hrun2 & Hit2 & Hb2). exists s1, s2. split_and!; try done.
  intros n jp Hn Hne. destruct (IBLOCK_range _ _ Hl Hn) as [E1 _], (IBLOCK_range _ _ Hl Hin) as [E2 _].
  rw (eff_blk _ _ _ _ Heff). destruct (decide (IBLOCK n (sb s) = I)) as [E|E].
  - rw E upd_blk_eq. apply get_put_dinode_other; [apply Hfit|]. rw /o. fold I in E2. change IPB with 16. change DINODE_size with 64. lia.
  - rw upd_blk_ne //. by right.
Qed.

(** The inode table holds at most one entry per inode.  [iget] returns
    that entry with one more reference, or a free entry set up with one
    reference when there is none; it leaves all other entries alone and keeps
    the table duplicate free, so asking twice gives the same entry. *)
Theorem iget_unique s dev inum :
  itable_ok s.(itab) → s.(itlock) = false →
  (∀ i ip, s.(itab) !! i = Some ip → ip.(i_ref) < 2 ^ 31 - 3) →
  (∃ i ip, s.(itab) !! i = Some ip ∧ (refers dev inum ip ∨ ip.(i_ref) = 0)) →
  ∃ i s1 s2 ip ip2, iget dev inum s = Ok (i, s1) ∧ got s dev inum i s1 ∧ itable_ok s1.(itab) ∧
    iget dev inum s1 = Ok (i, s2) ∧ itable_ok s2.(itab) ∧ s.(itab) !! i = Some ip ∧ s2.(itab) !! i = Some ip2 ∧
    refers dev inum ip2 ∧ ip2.(i_ref) = ip.(i_ref) + 2.
Proof.
  intros Hok Hl Hr Hex.
  destruct (wp_run _ _ _ (iget_spec s dev inum Hok Hl Hex)) as (i & s1 & Hrun & Hgot).
  destruct (got_table s dev inum i s1 Hok Hgot) as (Hok1 & ip1 & Hi1 & Hrf1); [intros ip Hi; specialize (Hr i ip Hi); lia|].
  assert (s1.(itlock) = false) as Hl1 by (by destruct Hgot as (? & ? & _ & -> & _)).
  destruct (wp_run _ _ _ (iget_spec s1 dev inum Hok1 Hl1 (ex_intro _ i (ex_intro _ ip1 (conj Hi1 (or_introl Hrf1))))))
    as (i2 & s2 & Hrun2 & Hgot2).
  pose proof Hgot2 as (jp & jp' & Hj & -> & [[Hjr ->]|(_ & _ & Hno)]); [|by destruct (Hno i ip1 Hi1)].
  assert (i2 = i) as -> by (by eapply (it_uniq _ Hok1)). assert (jp = ip1) as -> by congruence.
  assert (i_ref ip1 < 2 ^ 31 - 2 ∧ ∃ ip, s.(itab) !! i = Some ip ∧ i_ref ip1 = i_ref ip + 1) as (Hjb & ip & Hip & Hir).
  { destruct Hgot as (ip & ip' & Hip & -> & Hcase). specialize (Hr _ _ Hip).
    simpl in Hi1. rw list_lookup_insert_eq in Hi1; [|by eapply lookup_lt_Some]. simplify_eq.
    destruct Hcase as [[_ ->]|(E & -> & _)]; simpl; (split; [lia|]); exists ip; (split; [done|lia]). }
  destruct (got_table _ _ _ _ _ Hok1 Hgot2) as (Hok2 & ip2 & Hi2 & Hrf2); [intros ? ?; by simplify_eq|].
  exists i, s1. do 3 eexists. split_and!; [done..|exact Hrun2|done|exact Hip|exact Hi2|done|].
  simpl in Hi2. rw list_lookup_insert_eq in Hi2; [|by eapply lookup_lt_Some]. simplify_eq. simpl. lia.
Qed.

(** Sections of [itrunc] that only use the disk, or clear other pointers,
    keep the doubly indirect pointer. *)
Definition has_double s (i : nat) : Prop :=
  ∃ ip, s.(itab) !! i = Some ip ∧ addr_at ip (NDIRECT + 1) ≠ 0.

Lemma wlp_Bl {A} (m : M B A) (Q : A → fst → Prop) s : (∀ a b, Q a (set_bl b s)) → wlp (Bl m) Q s.
Proof. intros H. apply wlp_lift. apply wlp_of_run. intros a b _. apply H. Qed.

Lemma bfree_double dev b i s : has_double s i → wlp (bfree dev b) (λ _ s', has_double s' i) s.
Proof.
  intros H. rw /bfree. apply wlp_bind, wlp_gets. apply wlp_bind, wlp_Bl. intros d b1.
  destruct (_ =? 0); [apply wlp_panic|]. apply wlp_bind, wlp_Bl. intros _ b2. apply wlp_Bl. by intros _ b3.
Qed.

Lemma clear_double k i s : 0 ≤ k ≤ NDIRECT → has_double s i → wlp (updi i (set_addr k 0)) (λ _ s', has_double s' i) s.
Proof.
  change NDIRECT with 11. intros Hk (ip & Hi & Hd). rw /updi. apply wlp_bind. rw /wlp /geti Hi /modify.
  exists (set_addr k 0 ip). split; [by rw /= list_lookup_alter_eq Hi|].
  rw /addr_at /set_addr /= !nth_lookup list_lookup_insert_ne; [|change NDIRECT with 11; lia]. by rw -nth_lookup.
Qed.

Lemma wlp_geti i s (Q : inode → fst → Prop) : (∀ ip, s.(itab) !! i = Some ip → Q ip s) → wlp (geti i) Q s.
Proof. intros H. rw /wlp /geti. destruct (itab s !! i); [by apply H|done]. Qed.

Lemma itrunc_double s i : has_double s i → wlp (itrunc i) (λ _ _, False) s.
Proof.
  intros H. rw /itrunc. apply wlp_bind, wlp_geti. intros ip _. apply wlp_bind.
  eapply wlp_mono; [|apply (wlp_for_each (λ _ s', has_double s' i) (λ _ _, False)); [done|]].
  - intros [[]|] s1 H1; [done|]. apply wlp_bind, wlp_geti. intros ip1 _. apply wlp_bind.
    eapply wlp_mono; [|apply (wlp_when _ _ (λ _ s', has_double s' i)); [intros _|done]].
    + intros [] s2 (ip2 & Hi2 & Hd2). apply wlp_bind, wlp_geti. intros ip2' Hi2'. simplify_eq.
      rewrite -> (proj2 (Z.eqb_neq _ _) Hd2). simpl. apply wlp_bind, wlp_bind, wlp_Bl. intros d b.
      apply wlp_bind, wlp_undef.
    + apply wlp_bind, wlp_Bl. intros d b. apply wlp_bind.
      eapply wlp_mono; [|apply (wlp_for_each (λ _ s', has_double s' i) (λ _ _, False)); [done|]].
      * intros [[]|] s3 H3; [done|]. apply wlp_bind, wlp_Bl. intros _ b3. apply wlp_bind.
        eapply wlp_mono; [|by apply (bfree_double _ _ i)]. intros ? s4 H4. by apply clear_double.
      * intros dn j s3 _ H3. apply wlp_bind. eapply wlp_mono; [|apply (wlp_when _ _ (λ _ s', has_double s' i)); [|done]].
        -- intros [] s4 H4. by apply wlp_ret.
        -- intros _. by apply bfree_double.
  - intros dn k s1 Hk%elem_of_seqZ H1. apply wlp_bind, wlp_geti. intros ip1 _. apply wlp_bind.
    eapply wlp_mono; [|apply (wlp_when _ _ (λ _ s', has_double s' i)); [intros _|done]].
    + intros [] s2 H2. by apply wlp_ret.
    + apply wlp_bind. eapply wlp_mono; [|by apply (bfree_double _ _ i)]. intros ? s2 H2. apply clear_double; [lia|done].
Qed.

(** [itrunc] of a file with a doubly indirect block never returns,
    whatever the rest of the file and the disk look like; and where nothing
    else has to be freed first, it fails by dereferencing the null pointer [bi]
    when it takes the data of that buffer.  So a file that has grown past
    [NDIRECT + NINDIRECT] blocks can be neither truncated nor deleted. *)
Theorem itrunc_double_indirect_faults s i ip :
  s.(itab) !! i = Some ip → addr_at ip (NDIRECT + 1) ≠ 0 →
  (∀ r, itrunc i s ≠ Ok r) ∧
  ((∀ k, 0 ≤ k ≤ NDIRECT → addr_at ip k = 0) → locked s = [] → itrunc i s = Err (Undef "null buf")).
Proof.
  intros Hi Hd. split.
  { intros [[] s'] Hrun. eapply (wlp_run _ _ _ _ _ (itrunc_double s i (ex_intro _ ip (conj Hi Hd))) Hrun). }
  intros Hz Hlk. rw /itrunc {1}/mbind /M_bind {1}/geti Hi.
  set (body := λ k, ip0 ← geti i;
      when (negb (addr_at ip0 k =? 0)) (bfree (i_dev ip) (addr_at ip0 k);; updi i (set_addr k 0));; mret None).
  assert (∀ l, (∀ k, k ∈ l → 0 ≤ k < NDIRECT) → for_each (R := unit) l body s = Ok (None, s)) as Hloop.
  { induction l as [|k l IH]; intros Hk; [done|].
    assert (body k s = Ok (None, s)) as E.
    { rw /body {1}/mbind /M_bind /geti Hi. rewrite -> Hz by (specialize (Hk k ltac:(set_solver)); lia). done. }
    change (for_each (k :: l) body) with (x ← body k; match x with Some r => mret (Some r) | None => for_each l body end).
    rw {1}/mbind /M_bind E. apply IH. set_solver. }
  rw {1}/mbind /M_bind Hloop; [|intros k Hk%elem_of_seqZ; lia].
  rw {1}/mbind /M_bind /geti Hi Hz; [|done]. change (negb (0 =? 0)) with false. rw /when.
  rw {1}/mbind /M_bind {1}/mbind /M_bind /mret /M_ret Hi.
  rewrite -> (proj2 (Z.eqb_neq _ _) Hd). rw /negb {1}/mbind {1}/mbind.
  destruct (bread_ok s.(bl) ip.(i_dev) (addr_at ip (NDIRECT + 1))) as (b' & Hb & _).
  { change (held (bl s)) with (locked s). rw Hlk. set_solver. }
  { change (held (bl s)) with (locked s). by rw Hlk. }
  by rw /Bl /lift Hb.
Qed.
End props.
End FsProps.

(** ** A concrete file system

    A buffer cache that keeps every block in memory, two byte memories, and a
    disk of 100 blocks with one file of 10 bytes in block 5 and an empty file. *)
Module FsDemo.
Import FsProps.

Record ram := MkRam { r_blk : disk; r_held : list (Z * Z); r_room : Z; r_logged : Z → Z → bool }.

Definition ram_bread (dev n : Z) : M ram mem := λ b,
  if bool_decide ((dev, n) ∈ b.(r_held)) then Err (Undef "acquiresleep")
  else if NBUF <=? Z.of_nat (length b.(r_held)) then Err (Panic "bget: no buffers")
  else Ok (b.(r_blk) dev n, MkRam b.(r_blk) ((dev, n) :: b.(r_held)) b.(r_room) b.(r_logged)).
Definition ram_log_write (dev n : Z) (d : mem) : M ram unit := λ b,
  if bool_decide ((dev, n) ∉ b.(r_held)) then Err (Panic "bwrite")
  else if b.(r_room) <=? 0 then Err (Panic "too big a transaction")
  else Ok (tt, MkRam (upd_blk dev n d b.(r_blk)) b.(r_held) (b.(r_room) - if b.(r_logged) dev n then 0 else 1)
    (λ dev' n', b.(r_logged) dev' n' || (dev' =? dev) && (n' =? n))).
Definition ram_brelse (dev n : Z) (_ : mem) : M ram unit := λ b,
  match b.(r_held) with
  | x :: l => if bool_decide (x = (dev, n)) then Ok (tt, MkRam b.(r_blk) l b.(r_room) b.(r_logged)) else Err (Panic "brelse")
  | [] => Err (Panic "brelse")
  end.

#[export] Instance ram_layer : BufLayer ram.
Proof.
  refine {| blk := r_blk; held := r_held; log_room := r_room; logged := r_logged; bread := ram_bread;
            log_write := ram_log_write; brelse := ram_brelse; initlog := λ _ _, mret tt |}.
  - intros b dev n Hn Hl. eexists. rw /ram_bread. rewrite bool_decide_false //. rewrite -> (proj2 (Z.leb_gt _ _) Hl). done.
  - intros b dev n d Hn Hr. eexists. rw /ram_log_write. rewrite bool_decide_false; [|naive_solver].
    rewrite -> (proj2 (Z.leb_gt _ _) Hr). split; [done|]. simpl.
    split_and!; [done|destruct (r_logged b dev n); lia|destruct (r_logged b dev n); lia|by rw upd_blk_eq|].
    intros dev' n' H. apply upd_blk_ne. destruct (decide (dev' = dev)) as [->|]; [|by left]. right. congruence.
  - intros b dev n l Hl. eexists. rw /ram_brelse Hl. by rewrite bool_decide_true.
  - intros b dev n d b'. rw /ram_bread. repeat case_match; naive_solver.
  - intros b dev n d b'. rw /ram_brelse. repeat case_match; naive_solver.
  - intros b dev n d b'. rw /ram_log_write. repeat case_match; intros; simplify_eq/=; (split; [done|intros; lia || done]).
Defined.

(** User and kernel memory; copies never fail. *)
#[export] Instance mem_layer : CopyLayer (mem * mem).
Proof.
  refine {| byte_at := λ x u a, (if u : bool then x.1 else x.2) a;
            either_copyout := λ u dst src x, Ok (0,
              let f := λ m : mem, λ a : Z, if (dst <=? a) && (a <? dst + Z.of_nat (length src)) then nth (Z.to_nat (a - dst)) src 0 else m a in
              if u : bool then (f x.1, x.2) else (x.1, f x.2));
            either_copyin := λ u src n x, Ok ((0, (λ i, (if u : bool then x.1 else x.2) (src + i)) <$> seqZ 0 n), x) |}.
  - intros x u dst src. do 2 eexists. split; [done|]. split; [by left|]. split; [done|]. intros _ a. by destruct u.
  - intros x u src n Hn. do 2 eexists. split; [done|]. split; [by left|]. by split.
Defined.

Definition sb_demo : superblock := MkSb FSMAGIC 100 95 16 0 2 2 4.
Definition file0 : inode := MkInode 1 2 1 true true T_FILE 0 0 1 10 (5 :: replicate 12 0).
Definition file1 : inode := MkInode 1 3 1 false true T_FILE 0 0 1 0 (replicate 13 0).
(** Block 4 is the bitmap: blocks 0 to 5 are in use. *)
Definition disk_demo : disk := λ _ n x, if (n =? 4) && (x =? 0) then 0x3f else 0.
Definition s_demo : fst ram (mem * mem) :=
  MkFst sb_demo (file0 :: file1 :: replicate 48 inode0) false (MkRam disk_demo [] 30 (λ _ _, false)) (λ _, 7, λ a, a mod 256).

Lemma demo_layout : layout_ok sb_demo.
Proof. split; vm_compute; intuition congruence. Qed.

Lemma demo_fs : fs_ok disk_demo sb_demo 1.
Proof.
  split; [exact demo_layout|]. change (dstart sb_demo) with 5. intros b Hb.
  assert (b = 0 ∨ b = 1 ∨ b = 2 ∨ b = 3 ∨ b = 4) as [->|[->|[->|[->| ->]]]] by lia; by vm_compute.
Qed.

(** Files whose only block is block 5. *)
Definition one_block (ip : inode) : Prop := ip.(i_dev) = 1 ∧ ip.(i_addrs) = 5 :: replicate 12 0.

Lemma addr_one ip k : one_block ip → 0 ≤ k < 13 → addr_at ip k = if k =? 0 then 5 else 0.
Proof.
  intros [_ E] Hk. rw /addr_at E. zbool; [by subst|]. replace (Z.to_nat k) with (S (Z.to_nat (k - 1))) by lia.
  change (nth (Z.to_nat (k - 1)) (replicate 12 0) 0 = 0). rw nth_lookup. by rewrite -> lookup_replicate_2 by lia.
Qed.

Lemma addr_file1 k : addr_at file1 k = 0.
Proof.
  rw /addr_at /file1 nth_lookup. destruct (i_addrs _ !! Z.to_nat k) as [v|] eqn:E; [|done].
  by apply lookup_replicate in E as [-> _].
Qed.

Lemma ptr_one (s : fst ram (mem * mem)) ip q : one_block ip → vpath q → ptr s ip q = if decide (q = [0]) then 5 else 0.
Proof.
  intros Ho. destruct q as [|k [|j [|l [|? ?]]]]; simpl; intros H; try done.
  - rw /ptr /= (addr_one ip) //. destruct (decide ([k] = [0])) as [[= ->]|Hne]; [done|].
    assert (k ≠ 0) by congruence. by zdec.
  - rewrite decide_False; [|done]. rw /ptr /= (addr_one ip) //; [|lia]. by rewrite -> (proj2 (Z.eqb_neq j 0)) by lia.
  - rewrite decide_False; [|done]. rw /ptr /= (addr_one ip) //; [|lia]. by rewrite -> (proj2 (Z.eqb_neq l 0)) by lia.
Qed.

Lemma one_file (s : fst ram (mem * mem)) i ip : one_block ip → s.(sb) = sb_demo → s.(itab) !! i = Some ip →
  fs_ok (blks s) sb_demo 1 → used (blks s) sb_demo 1 5 = true → file_ok s i ip.
Proof.
  intros Ho Sb Hi Hf Hu. pose proof Ho as [Hd Ha]. split; [done|by rw Ha|by rw Sb Hd|]. rw Sb Hd. split.
  - intros q Hq. rw -Hd. fold (ptr s ip q). rw ptr_one //. case_decide; [|done]. intros _. rw Hd. split; [|done].
    vm_compute. intuition congruence.
  - intros p q Hp Hq. rw -Hd. fold (ptr s ip p) (ptr s ip q). rw !ptr_one //. repeat case_decide; congruence.
Qed.

Lemma demo_file0 : file_ok s_demo 0 file0.
Proof. apply one_file; [done..|exact demo_fs|by vm_compute]. Qed.

Lemma ptr_file1 q : vpath q → ptr s_demo file1 q = 0.
Proof.
  destruct q as [|k [|j [|l [|? ?]]]]; simpl; intros H; try done; rw /ptr /= addr_file1 //; by zdec.
Qed.

Lemma demo_file1 : file_ok s_demo 1 file1.
Proof.
  split; [done|done|exact demo_fs|]. split; intros q; [|intros q' ]; intros Hq; fold (ptr s_demo file1 q); rw ptr_file1 //.
Qed.

Lemma demo_sized : sized s_demo file0.
Proof.
  split; [by vm_compute|]. intros bn Hbn Hlt. change (i_size file0) with 10 in Hlt. change BSIZE with 1024 in Hlt.
  assert (bn = 0) as -> by lia. by vm_compute.
Qed.

Lemma balloc_takes_lowest_witness : ∃ s1 s2, balloc 1 s_demo = Ok (6, s1) ∧
  alloc_step sb_demo 1 (blks s_demo) (blks s1) 6 ∧ bfree 1 6 s1 = Ok (tt, s2) ∧
  free_blocks (blks s2) sb_demo 1 = seqZ 6 94 ∧ bfree 1 6 s2 = Err (Panic "freeing free block").
Proof.
  apply (balloc_takes_lowest s_demo 1 6 (seqZ 7 93)); [exact demo_fs|by vm_compute|done|by vm_compute].
Defined.

(** 2000 bytes from kernel address 0 at offset 4: two blocks. *)
Lemma write_read_witness : ∃ s1 ip1 s2, writei 0 false 0 4 2000 s_demo = Ok (2000, s1) ∧ s1.(itab) = <[0%nat := ip1]> s_demo.(itab) ∧
    ip1.(i_size) = Z.max 10 (4 + 2000) ∧ readi 0 false 5000 4 2000 s1 = Ok (2000, s2) ∧
    (∀ k, 0 ≤ k < 2000 → byte_at s2.(xl) false (5000 + k) = u8 (byte_at s_demo.(xl) false (0 + k))) ∧
    (∀ o, 0 ≤ o < MAXFILE * BSIZE → o < 4 ∨ 4 + 2000 ≤ o → byte s1 ip1 o = byte s_demo file0 o).
Proof.
  apply (write_read s_demo 0 file0 false 0 4 2000 5000); try (by vm_compute).
  - exact demo_file0.
  - exact demo_sized.
  - apply readable_kernel.
Defined.

Lemma write_isolated_witness : ∃ s1, writei 0 false 0 4 2000 s_demo = Ok (2000, s1) ∧ file_ok s1 1 file1 ∧
    (∀ q, vpath q → ptr s1 file1 q = ptr s_demo file1 q) ∧
    (∀ o, 0 ≤ o < MAXFILE * BSIZE → byte s1 file1 o = byte s_demo file1 o) ∧
    get_dinode (blks s1 1 2) (3 * 64) file1 = get_dinode (blks s_demo 1 2) (3 * 64) file1.
Proof.
  apply (write_isolated s_demo 0 file0 1 file1 false 0 4 2000); try (by vm_compute).
  - exact demo_file0.
  - exact demo_sized.
  - apply readable_kernel.
  - exact demo_file1.
  - split; [done|]. intros p q Hp Hq H. by rw ptr_file1 in H.
Defined.

Lemma demo_fits : fits file0.
Proof.
  split; rw /file0 /T_FILE /=; [lia..|]. split; [done|]. repeat (constructor; [lia|]). constructor.
Qed.
Definition stale_demo : inode := MkInode 1 2 1 false false 3 9 9 9 9 [].
Lemma iupdate_ilock_witness : ∃ s1 s2, iupdate 0 s_demo = Ok (tt, s1) ∧
    ilock (Some 0%nat) (set_itab (insert 0%nat stale_demo) s1) = Ok (tt, s2) ∧
    s2.(itab) = <[0%nat := file0]> s_demo.(itab) ∧ blks s2 = blks s1 ∧
    ∀ n jp, 0 ≤ n < 16 → n ≠ 2 →
      get_dinode (blks s1 1 (IBLOCK n sb_demo)) (n mod IPB * DINODE_size) jp =
      get_dinode (blks s_demo 1 (IBLOCK n sb_demo)) (n mod IPB * DINODE_size) jp.
Proof.
  apply (iupdate_ilock s_demo 0 file0 stale_demo); try (by vm_compute).
  exact demo_fits.
Defined.

Lemma demo_entry i ip : s_demo.(itab) !! i = Some ip → (i = 0%nat ∧ ip = file0) ∨ (i = 1%nat ∧ ip = file1) ∨ ip = inode0.
Proof.
  destruct i as [|[|i]]; simpl; intros H; [naive_solver..|]. right; right.
  change (replicate 48 inode0 !! i = Some ip) in H. by apply lookup_replicate in H as [-> _].
Qed.

Lemma demo_table : itable_ok s_demo.(itab).
Proof.
  split; [done| |].
  - intros i ip [[_ ->]|[[_ ->]| ->]]%demo_entry; by vm_compute.
  - assert (∀ dev inum, ¬ refers dev inum inode0) as H0 by (intros ? ? [H _]; by vm_compute in H).
    assert (∀ dev inum, refers dev inum file0 → inum = 2) as Hf0 by (intros ? ? (_ & _ & H); exact (eq_sym H)).
    assert (∀ dev inum, refers dev inum file1 → inum = 3) as Hf1 by (intros ? ? (_ & _ & H); exact (eq_sym H)).
    intros i j ip jp dev inum [[-> ->]|[[-> ->]| ->]]%demo_entry; [| |by intros _ ?%H0];
      intros [[-> ->]|[[-> ->]| ->]]%demo_entry Hi Hj; try done; try (by apply H0 in Hj).
    + apply Hf0 in Hi. apply Hf1 in Hj. congruence.
    + apply Hf1 in Hi. apply Hf0 in Hj. congruence.
Qed.

(** Inode 7 is in no entry; the first free one is number 2. *)
Lemma iget_unique_witness : ∃ i s1 s2 ip ip2, iget 1 7 s_demo = Ok (i, s1) ∧ got s_demo 1 7 i s1 ∧ itable_ok s1.(itab) ∧
    iget 1 7 s1 = Ok (i, s2) ∧ itable_ok s2.(itab) ∧ s_demo.(itab) !! i = Some ip ∧ s2.(itab) !! i = Some ip2 ∧
    refers 1 7 ip2 ∧ ip2.(i_ref) = ip.(i_ref) + 2.
Proof.
  apply (iget_unique s_demo 1 7); [exact demo_table|done| |].
  - intros i ip [[_ ->]|[[_ ->]| ->]]%demo_entry; by vm_compute.
  - exists 2%nat, inode0. split; [done|]. by right.
Defined.

Definition big : inode := MkInode 1 2 1 true true T_FILE 0 0 0 10 (replicate 12 0 ++ [5]).
Definition s_big : fst ram (mem * mem) := set_itab (insert 0%nat big) s_demo.
Lemma itrunc_double_indirect_faults_witness :
  (∀ r, itrunc 0 s_big ≠ Ok r) ∧
  ((∀ k, 0 ≤ k ≤ NDIRECT → addr_at big k = 0) → locked s_big = [] → itrunc 0 s_big = Err (Undef "null buf")).
Proof. apply (itrunc_double_indirect_faults s_big 0 big); [done|by vm_compute]. Defined.
End FsDemo.
