(* ===== verification/FsTrunc.v ===== *)
(** * Truncating a file (filesystem and mmap labs, [itrunc] of [fs.c])

    The mmap lab keeps the file system of plain xv6, whose files have no
    doubly indirect block: its [bmap] and [itrunc] are translated here, over
    the rest of [Fs.v].  [itrunc] gives every block of the file back to the
    bitmap, and nothing else; the [itrunc] of the filesystem lab does so for
    the files it can truncate, those without a doubly indirect block.  The log
    needs room for the bitmap blocks and the inode only, as a block is logged
    once however often it is written. *)

From S2P Require Import Prelude Machine Fs FsBlocks FsTree FsData FsRw FsInode FsProps.
Import Fs FsBlocks FsTree FsData FsRw FsInode FsProps.

(** ** [bmap] and [itrunc] of the mmap lab

    [NDIRECT] is a constant of [fs.h], which that lab does not contain. *)
Module MmapFs.
Section fs.
Context {B X : Type} {BL : BufLayer B} {CL : CopyLayer X}.
Notation fst := (fst B X).
Variable NDIRECT : Z.

Definition bmap (i : nat) (bn : Z) : M fst Z :=
  ip ← geti i;
  if bn <? NDIRECT then direct i bn
  else
    let bn := bn - NDIRECT in
    if bn <? NINDIRECT then
      addr ← direct i NDIRECT;
      indirect ip.(i_dev) addr bn
    else panic "bmap: out of range".

Definition itrunc (i : nat) : M fst unit :=
  ip ← geti i;
  let dev := ip.(i_dev) in
  for_each (R := unit) (seqZ 0 NDIRECT) (λ k,
    ip ← geti i;
    when (negb (addr_at ip k =? 0)) (bfree dev (addr_at ip k);; updi i (set_addr k 0));;
    mret None);;
  ip ← geti i;
  when (negb (addr_at ip NDIRECT =? 0)) (
    bp ← Bl (bread dev (addr_at ip NDIRECT));
    for_each (R := unit) (seqZ 0 NINDIRECT) (λ j,
      when (negb (ld32 bp (4 * j) =? 0)) (bfree dev (ld32 bp (4 * j)));;
      mret None);;
    Bl (brelse dev (addr_at ip NDIRECT) bp);;
    bfree dev (addr_at ip NDIRECT);;
    updi i (set_addr NDIRECT 0));;
  updi i (set_size 0);;
  iupdate i.
End fs.
End MmapFs.

Module FsTrunc.
Section trunc.
Context {B X : Type} {BL : BufLayer B} {CL : CopyLayer X}.
Notation fst := (fst B X).
Implicit Types (s : fst) (ip : inode).

(** ** The log *)

Definition in_log s (dev n : Z) : bool := logged s.(bl) dev n.
(** The bitmap blocks that are not in the log yet, and the room they leave. *)
Definition unlogged s (dev : Z) : list Z :=
  filter (λ n, in_log s dev n = false) (seqZ s.(sb).(sb_bmapstart) (dstart s.(sb) - s.(sb).(sb_bmapstart))).
Definition budget s (dev : Z) : Prop := Z.of_nat (length (unlogged s dev)) + 1 ≤ room s.

Lemma bfree_logs s dev f s' : bfree dev f s = Ok (tt, s') →
  (∀ n, in_log s' dev n = in_log s dev n || (n =? BBLOCK f s.(sb))) ∧
  (in_log s dev (BBLOCK f s.(sb)) = true → room s' = room s).
Proof.
  rw /bfree /mbind /M_bind /gets /Bl /lift.
  destruct (bread dev _ (bl s)) as [[d b1]|] eqn:E1; [|done]. apply bread_log in E1 as [L1 R1].
  destruct (_ =? 0); [done|]. cbn [bl set_bl].
  destruct (log_write dev _ _ b1) as [[[] b2]|] eqn:E2; [|done]. apply log_write_log in E2 as [L2 R2].
  cbn [bl set_bl]. destruct (brelse dev _ _ b2) as [[[] b3]|] eqn:E3; [|done]. apply brelse_log in E3 as [L3 R3].
  intros [= <-]. rw /in_log /room. cbn [bl set_bl]. split.
  - intros n. by rw L3 L2 L1 Z.eqb_refl.
  - intros H. rw R3 R2; [done|]. by rw L1.
Qed.

Lemma filter_remove {A} (P Q : A → Prop) `{∀ x, Decision (P x), ∀ x, Decision (Q x)} (l : list A) f :
  NoDup l → f ∈ l → P f → (∀ x, Q x ↔ P x ∧ x ≠ f) → length (filter P l) = S (length (filter Q l)).
Proof.
  induction l as [|a l IH]; [by intros _ ?%not_elem_of_nil|]. intros [Ha Hnd]%NoDup_cons Hin Hf HQ.
  rw !filter_cons. apply elem_of_cons in Hin as [<-|Hin].
  - rewrite decide_True // decide_False; [|naive_solver]. simpl. f_equal. f_equal.
    apply filter_ext_in. intros x Hx. rw HQ. set_solver.
  - assert (a ≠ f) by (by intros ->). specialize (IH Hnd Hin Hf HQ). pose proof (HQ a).
    repeat case_decide; simpl; naive_solver lia.
Qed.

(** Freeing a block stays within the budget. *)
Lemma bfree_budget s dev f s' : layout_ok s.(sb) → 0 ≤ f < s.(sb).(sb_size) →
  bfree dev f s = Ok (tt, s') → s'.(sb) = s.(sb) → room s - 1 ≤ room s' → budget s dev → budget s' dev.
Proof.
  intros Hl Hf Hrun Hsb Hr. destruct (bfree_logs _ _ _ _ Hrun) as [Hlog Hfull].
  pose proof (BBLOCK_range s.(sb) f Hl Hf) as HB. rw /budget /unlogged Hsb. set (bs := seqZ _ _).
  destruct (in_log s dev (BBLOCK f (sb s))) eqn:E.
  - rw Hfull //. rw (filter_ext_in (λ n, in_log s' dev n = false) (λ n, in_log s dev n = false)) //.
    intros n _. rw Hlog. destruct (Z.eqb_spec n (BBLOCK f (sb s))) as [->|]; [by rw E|by rw orb_false_r].
  - rw (filter_remove (λ n, in_log s dev n = false) (λ n, in_log s' dev n = false) bs (BBLOCK f (sb s))); try done.
    + lia.
    + apply NoDup_seqZ.
    + apply elem_of_seqZ. lia.
    + intros n. rw Hlog. destruct (Z.eqb_spec n (BBLOCK f (sb s))); rewrite ?orb_true_r ?orb_false_r; naive_solver.
Qed.

(** ** Freeing one block after the other *)

Definition data_block s (dev b : Z) : Prop :=
  dstart s.(sb) ≤ b < s.(sb).(sb_size) ∧ used (blks s) s.(sb) dev b = true.

(** [s] is [s0] after the blocks [fs] were freed; inodes and locks aside. *)
Record freed s0 (dev : Z) s (fs : list Z) : Prop := {
  fr_sb : s.(sb) = s0.(sb);
  fr_itlock : s.(itlock) = s0.(itlock);
  fr_xl : s.(xl) = s0.(xl);
  fr_data : ∀ b, b ∈ fs → data_block s0 dev b;
  fr_used : ∀ b, 0 ≤ b < s0.(sb).(sb_size) →
    used (blks s) s0.(sb) dev b = negb (bool_decide (b ∈ fs)) && used (blks s0) s0.(sb) dev b;
  fr_blks : ∀ d n, d ≠ dev ∨ ¬ (s0.(sb).(sb_bmapstart) ≤ n < dstart s0.(sb)) → blks s d n = blks s0 d n;
  fr_budget : budget s dev;
}.

Lemma freed_start s dev : budget s dev → freed s dev s [].
Proof. intros Hb. split; try done. by intros b ?%not_elem_of_nil. Qed.

(** Operations on inodes and on locks of buffers do not matter. *)
Lemma freed_same s0 dev s s' fs : s'.(sb) = s.(sb) → s'.(itlock) = s.(itlock) → s'.(xl) = s.(xl) →
  blks s' = blks s → logged s'.(bl) = logged s.(bl) → room s' = room s → freed s0 dev s fs → freed s0 dev s' fs.
Proof.
  intros E1 E2 E3 E4 E5 E6 []. split; try congruence; try done; rewrite ?E4 //.
  by rw /budget /unlogged /in_log E1 E5 E6.
Qed.

Lemma free_one s0 dev s fs f L : fs_ok (blks s0) s0.(sb) dev → freed s0 dev s fs → data_block s0 dev f → f ∉ fs →
  locked s = L → Z.of_nat (length L) < NBUF → (∀ n, (dev, n) ∈ L → data_block s0 dev n ∧ n ∉ fs) →
  wp (bfree dev f) (λ _ s', freed s0 dev s' (fs ++ [f]) ∧ s'.(itab) = s.(itab) ∧ locked s' = L) s.
Proof.
  intros [Hlay Hmeta] [Esb Eit Exl Hd Hu Hb Hbud] [Hf Hfu] Hnf HL Hlen Hlk. pose proof (dstart_pos _ Hlay) as Hpos.
  assert (∀ b, data_block s0 dev b → b ∉ fs → used (blks s) s.(sb) dev b = true) as Hstill.
  { intros b [Hr Hbu] Hn. rw Esb Hu; [|lia]. by rewrite bool_decide_false. }
  destruct (wp_run _ _ _ (bfree_spec s dev f ltac:(split; [by rw Esb|]; rw Esb; intros b Hr; rw Hu;
      [rewrite bool_decide_false; [by apply Hmeta|intros [? _]%Hd; lia]|pose proof (lay_data _ Hlay); lia])
    ltac:(by rw Esb) ltac:(by apply Hstill) ltac:(split; [by rw HL|]; intros n; rw HL; intros [Hdn Hn]%Hlk;
      (split; [rw Esb; apply Hdn|by apply Hstill])) ltac:(rw /budget in Hbud; lia)))
    as ([] & s' & Hrun & [E1 Hh Hr _] & Hused & Hblk).
  eapply wp_of_run; [exact Hrun|]. split; [|by split; [rw E1|rw Hh]]. split; try (by rw E1).
  - intros b [?| ->%list_elem_of_singleton]%elem_of_app; [by apply Hd|by split].
  - intros b Hr'. rw Esb in Hused. rw Hused // Hu //. destruct (Z.eqb_spec b f) as [->|Hne].
    + rewrite (bool_decide_true (f ∈ fs ++ [f])) //. set_solver.
    + simpl. rewrite (bool_decide_ext (b ∈ fs ++ [f]) (b ∈ fs)) //. set_solver.
  - intros d n Hn. rw Hblk; [by apply Hb|by rw Esb].
  - eapply (bfree_budget s dev f); [by rw Esb|rw Esb; lia|done|by rw E1|lia|done].
Qed.

(** Locking and unlocking a buffer. *)
Lemma wp_bread_log dev n (Q : mem → fst → Prop) s : can_lock s dev n →
  (∀ s', (∀ s0 d fs, freed s0 d s fs → freed s0 d s' fs) → s'.(itab) = s.(itab) → locked s' = (dev, n) :: locked s →
     Q (blks s dev n) s') → wp (Bl (bread dev n)) Q s.
Proof.
  intros [Hn Hl] HQ. destruct (bread_ok s.(bl) dev n Hn Hl) as (b' & Hr & Hb & Hh & Hg).
  destruct (bread_log _ _ _ _ _ Hr) as [Hlog _]. rw /wp /Bl /lift Hr. apply HQ; [|done..].
  intros s0 d fs. by apply freed_same.
Qed.

Lemma wp_brelse_log dev n d l (Q : unit → fst → Prop) s : locked s = (dev, n) :: l → d = blks s dev n →
  (∀ s', (∀ s0 d fs, freed s0 d s fs → freed s0 d s' fs) → s'.(itab) = s.(itab) → locked s' = l → Q tt s') →
  wp (Bl (brelse dev n d)) Q s.
Proof.
  intros Hn -> HQ. destruct (brelse_ok s.(bl) dev n l Hn) as (b' & Hr & Hb & Hh & Hg).
  destruct (brelse_log _ _ _ _ _ Hr) as [Hlog _]. rw /wp /Bl /lift Hr. apply HQ; [|done..].
  intros s0 d fs. by apply freed_same.
Qed.

(** ** The blocks of a file, in the order in which they are freed *)

Definition nonzero (l : list Z) : list Z := filter (λ b, b ≠ 0) l.
Definition entries s ip (a : Z) : list Z := (λ j, ld32 (blks s ip.(i_dev) a) (4 * j)) <$> seqZ 0 NINDIRECT.
Definition fblocks (nd : Z) s ip : list Z :=
  nonzero (addr_at ip <$> seqZ 0 nd) ++
  if addr_at ip nd =? 0 then [] else nonzero (entries s ip (addr_at ip nd)) ++ [addr_at ip nd].

Lemma nonzero_snoc l b : nonzero (l ++ [b]) = nonzero l ++ if b =? 0 then [] else [b].
Proof.
  rw /nonzero filter_app. f_equal. rw filter_cons filter_nil. destruct (Z.eqb_spec b 0); case_decide; naive_solver.
Qed.

(** [ip'] is [ip] with the pointers [ks] cleared. *)
Record cleared ip (ks : list Z) ip' : Prop := {
  cl_rest : ip' = with_addrs ip'.(i_addrs) ip;
  cl_len : length ip'.(i_addrs) = 13%nat;
  cl_addr : ∀ j, 0 ≤ j < 13 → addr_at ip' j = if decide (j ∈ ks) then 0 else addr_at ip j;
}.

Lemma cleared_nil ip : length ip.(i_addrs) = 13%nat → cleared ip [] ip.
Proof. intros H. split; [by destruct ip|done|]. intros j Hj. by destruct (decide (j ∈ [])) as [?%not_elem_of_nil|]. Qed.

Lemma cleared_snoc ip ks ip' k : cleared ip ks ip' → 0 ≤ k < 13 → cleared ip (ks ++ [k]) (set_addr k 0 ip').
Proof.
  intros [E Hl Ha] Hk. split; [by rw E|by rw /set_addr /= length_insert|].
  intros j Hj. rw addr_set // Ha //. repeat case_decide; naive_solver set_solver.
Qed.

Lemma cleared_skip ip ks ip' k : cleared ip ks ip' → 0 ≤ k < 13 → addr_at ip k = 0 → cleared ip (ks ++ [k]) ip'.
Proof.
  intros [E Hl Ha] Hk H0. split; [done..|]. intros j Hj. rw Ha //.
  destruct (decide (j ∈ ks)), (decide (j ∈ ks ++ [k])) as [Hin|Hn]; try done; [set_solver|].
  apply elem_of_app in Hin as [?| ->%list_elem_of_singleton]; done.
Qed.

Record truncatable (nd : Z) s (i : nat) ip : Prop := {
  tr_inode : s.(itab) !! i = Some ip;
  tr_addrs : length ip.(i_addrs) = 13%nat;
  tr_nd : 0 ≤ nd < 13;
  tr_fs : fs_ok (blks s) s.(sb) ip.(i_dev);
  tr_nodup : NoDup (fblocks nd s ip);
  tr_data : ∀ b, b ∈ fblocks nd s ip → data_block s ip.(i_dev) b;
  tr_locks : locked s = [];
  tr_budget : budget s ip.(i_dev);
}.

Section file.
Context (nd : Z) s (i : nat) ip (T : truncatable nd s i ip).
Notation dev := ip.(i_dev).

(** While the file is taken apart. *)
Definition at_step s' ip' (fs : list Z) (ks : list Z) (L : list (Z * Z)) : Prop :=
  freed s dev s' fs ∧ s'.(itab) = <[i := ip']> s.(itab) ∧ cleared ip ks ip' ∧ locked s' = L.

Lemma at_step_lookup s' ip' fs ks L : at_step s' ip' fs ks L → s'.(itab) !! i = Some ip'.
Proof.
  intros (_ & -> & _). apply list_lookup_insert_eq. eapply lookup_lt_Some, (tr_inode _ _ _ _ T).
Qed.

Lemma direct_loop : wp (for_each (R := unit) (seqZ 0 nd) (λ k,
    ip ← geti i;
    when (negb (addr_at ip k =? 0)) (bfree dev (addr_at ip k);; updi i (set_addr k 0));;
    mret None)) (λ r s', ∃ ip', at_step s' ip' (nonzero (addr_at ip <$> seqZ 0 nd)) (seqZ 0 nd) []) s.
Proof.
  destruct T as [Hi Hlen Hnd Hfs Hndup Hdata Hlk Hbud].
  eapply wp_mono; last apply (wp_for_each
    (λ ks s', ∃ ip', at_step s' ip' (nonzero (addr_at ip <$> ks)) ks []) (λ _ _, False)).
  - intros [r|] s' H; done.
  - exists ip. split_and!; [by apply freed_start|by rw list_insert_id|by apply cleared_nil|done].
  - intros ks k todo s1 El (ip1 & Hst). pose proof (at_step_lookup _ _ _ _ _ Hst) as Hi1. destruct Hst as (Hfr & Hit & Hcl & HL).
    assert (k ∈ seqZ 0 nd) as Hk by (rw El; set_solver). apply elem_of_seqZ in Hk.
    assert (k ∉ ks) as Hkn by (pose proof (NoDup_seqZ 0 nd) as Hn; rw El in Hn; apply NoDup_app in Hn; set_solver).
    eapply wp_geti_bind; [done|]. rw (cl_addr _ _ _ Hcl); [|lia]. rewrite decide_False //.
    apply wp_bind. rw fmap_app /= nonzero_snoc. apply wp_when; intros E.
    + rewrite ->negb_true_iff in E. rw E. apply Z.eqb_neq in E.
      assert (∃ rest, fblocks nd s ip = nonzero (addr_at ip <$> ks) ++ addr_at ip k :: rest) as [rest Hrest].
      { rw /fblocks El fmap_app /= /nonzero filter_app filter_cons. rewrite decide_True //. rw -app_assoc. eauto. }
      assert (addr_at ip k ∉ nonzero (addr_at ip <$> ks)) as Hnk
        by (rw Hrest in Hndup; apply NoDup_app in Hndup; set_solver).
      apply wp_bind. eapply wp_mono; [|apply (free_one s dev s1 _ (addr_at ip k) [] Hfs Hfr)]; [|apply Hdata; rw Hrest; set_solver|done|done|done|].
      * intros [] s2 (Hfr2 & Hit2 & HL2). eapply wp_updi; [by rw Hit2|]. apply wp_ret. exists (set_addr k 0 ip1).
        split_and!; [by eapply freed_same; [..|exact Hfr2]| |apply cleared_snoc; [done|lia]|done].
        simpl. rewrite -> (alter_as_insert _ _ _ ip1) by (by rw Hit2). by rw Hit2 Hit list_insert_insert_eq.
      * intros n H. by apply not_elem_of_nil in H.
    + rewrite ->negb_false_iff in E. rw E. apply Z.eqb_eq in E. apply wp_ret. exists ip1. rw app_nil_r.
      split_and!; [done|done|apply cleared_skip; [done|lia|done]|done].
Qed.

Lemma fblocks_ind : addr_at ip nd ≠ 0 →
  fblocks nd s ip = nonzero (addr_at ip <$> seqZ 0 nd) ++ nonzero (entries s ip (addr_at ip nd)) ++ [addr_at ip nd].
Proof. intros H. rw /fblocks. by zdec. Qed.

(** The entries of the indirect block, which is locked meanwhile. *)
Lemma entries_loop s1 ip1 d : addr_at ip nd ≠ 0 → d = blks s dev (addr_at ip nd) →
  at_step s1 ip1 (nonzero (addr_at ip <$> seqZ 0 nd)) (seqZ 0 nd) [(dev, addr_at ip nd)] →
  wp (for_each (R := unit) (seqZ 0 NINDIRECT) (λ j,
    when (negb (ld32 d (4 * j) =? 0)) (bfree dev (ld32 d (4 * j)));; mret None))
  (λ r s', at_step s' ip1 (nonzero (addr_at ip <$> seqZ 0 nd) ++ nonzero (entries s ip (addr_at ip nd))) (seqZ 0 nd)
    [(dev, addr_at ip nd)]) s1.
Proof.
  intros Hnz -> Hst. destruct T as [Hi Hlen Hnd Hfs Hndup Hdata Hlk Hbud]. rw fblocks_ind // in Hndup.
  rw fblocks_ind // in Hdata. set (a := addr_at ip nd) in *. set (D := nonzero (addr_at ip <$> seqZ 0 nd)) in *.
  set (g := λ j, ld32 (blks s dev a) (4 * j)).
  eapply wp_mono; last apply (wp_for_each
    (λ js s', at_step s' ip1 (D ++ nonzero (g <$> js)) (seqZ 0 nd) [(dev, a)]) (λ _ _, False)).
  - intros [r|] s' H; done.
  - by rw /= /nonzero filter_nil app_nil_r.
  - intros js j todo s2 El (Hfr & Hit & Hcl & HL). change (ld32 (blks s dev a) (4 * j)) with (g j).
    rw fmap_app /= nonzero_snoc. apply wp_bind, wp_when; intros E.
    + rewrite ->negb_true_iff in E. rw E. apply Z.eqb_neq in E.
      assert (∃ rest, nonzero (entries s ip a) = nonzero (g <$> js) ++ g j :: rest) as [rest Hrest].
      { change (entries s ip a) with (g <$> seqZ 0 NINDIRECT). rw El fmap_app /= /nonzero filter_app filter_cons.
        rewrite decide_True //. eauto. }
      rw Hrest in Hndup Hdata.
      assert (g j ∉ D ++ nonzero (g <$> js) ∧ a ∉ D ++ nonzero (g <$> js)) as [Hn1 Hn2].
      { clear -Hndup. rw !NoDup_app NoDup_cons in Hndup. set_solver. }
      eapply wp_mono; [|apply (free_one s dev s2 _ (g j) [(dev, a)] Hfs Hfr)]; [|apply Hdata; set_solver|done|done|done|].
      * intros [] s3 (Hfr3 & Hit3 & HL3). apply wp_ret. rw app_assoc. split_and!; [done|by rw Hit3|done|done].
      * intros n [= ->]%list_elem_of_singleton. split; [apply Hdata; set_solver|done].
    + rewrite ->negb_false_iff in E. rw E app_nil_r. by apply wp_ret.
Qed.

Lemma indirect_part s1 ip1 :
  at_step s1 ip1 (nonzero (addr_at ip <$> seqZ 0 nd)) (seqZ 0 nd) [] →
  wp (when (negb (addr_at ip1 nd =? 0)) (
    bp ← Bl (bread dev (addr_at ip1 nd));
    for_each (R := unit) (seqZ 0 NINDIRECT) (λ j,
      when (negb (ld32 bp (4 * j) =? 0)) (bfree dev (ld32 bp (4 * j)));;
      mret None);;
    Bl (brelse dev (addr_at ip1 nd) bp);;
    bfree dev (addr_at ip1 nd);;
    updi i (set_addr nd 0))) (λ _ s', ∃ ip', at_step s' ip' (fblocks nd s ip) (seqZ 0 nd ++ [nd]) []) s1.
Proof.
  intros Hst. pose proof T as [Hi Hlen Hnd Hfs Hndup Hdata Hlk Hbud]. pose proof Hst as (Hfr & Hit & Hcl & HL).
  assert (addr_at ip1 nd = addr_at ip nd) as ->.
  { rw (cl_addr _ _ _ Hcl) //. rewrite decide_False //. rw elem_of_seqZ. lia. }
  apply wp_when; intros E.
  - rewrite ->negb_true_iff in E. apply Z.eqb_neq in E. pose proof (fblocks_ind E) as Efb. rw Efb in Hndup Hdata |- *.
    set (a := addr_at ip nd) in *. assert (data_block s dev a) as Ha by (apply Hdata; set_solver).
    apply wp_bind, wp_bread_log; [split; [rw HL; apply not_elem_of_nil|by rw HL]|]. intros s2 Hfr2 Hit2 HL2.
    assert (blks s1 dev a = blks s dev a) as Ed.
    { apply (fr_blks _ _ _ _ Hfr). right. destruct Ha. lia. }
    apply wp_bind. eapply wp_mono; [|apply (entries_loop s2 ip1 _ E Ed)]; last first.
    { split_and!; [by apply Hfr2|by rw Hit2|done|by rw HL2 HL]. }
    intros ? s3 Hst3. pose proof Hst3 as (Hfr3 & Hit3 & Hcl3 & HL3).
    assert (blks s3 dev a = blks s dev a) as Ed3.
    { apply (fr_blks _ _ _ _ Hfr3). right. destruct Ha. lia. }
    apply wp_bind, (wp_brelse_log _ _ _ []); [done|by rw Ed Ed3|]. intros s4 Hfr4 Hit4 HL4.
    apply wp_bind. eapply wp_mono; [|apply (free_one s dev s4 _ a [] Hfs (Hfr4 _ _ _ Hfr3) Ha)]; [| |done|done|].
    + intros [] s5 (Hfr5 & Hit5 & HL5). assert (s5.(itab) = <[i := ip1]> s.(itab)) as Hit5' by (by rw Hit5 Hit4).
      assert (s5.(itab) !! i = Some ip1) as Hi5.
      { rw Hit5'. apply list_lookup_insert_eq. by eapply lookup_lt_Some. }
      eapply wp_updi; [done|]. exists (set_addr nd 0 ip1).
      split_and!; [rw app_assoc; by eapply freed_same; [..|exact Hfr5]| |by apply cleared_snoc|done].
      simpl. rewrite -> (alter_as_insert _ _ _ ip1) by done. by rw Hit5' list_insert_insert_eq.
    + clear -Hndup. rw !NoDup_app in Hndup. set_solver.
    + intros n H. by apply not_elem_of_nil in H.
  - rewrite ->negb_false_iff in E. rw /fblocks E app_nil_r. apply Z.eqb_eq in E. exists ip1.
    split_and!; [done|done|by apply cleared_skip|done].
Qed.

End file.

(** ** The end: the size and the inode on disk *)

Definition truncated ip : inode := set_size 0 (with_addrs (replicate 13 0) ip).

Lemma cleared_all ip ks ip' : cleared ip ks ip' → (∀ j, 0 ≤ j < 13 → j ∈ ks ∨ addr_at ip j = 0) →
  ip' = with_addrs (replicate 13 0) ip.
Proof.
  intros [E Hl Ha] Hall. rw {}E. f_equal. apply (list_eq_same_length _ _ 13); [by rw length_replicate|done|].
  intros j x y Hj Hx Hy. apply lookup_replicate in Hy as [-> _].
  assert (addr_at ip' (Z.of_nat j) = 0) as H0.
  { rw Ha; [|lia]. destruct (decide _) as [|Hn]; [done|]. destruct (Hall (Z.of_nat j)); [lia|done..]. }
  rw /addr_at Nat2Z.id nth_lookup Hx in H0. done.
Qed.

(** Inode [i] is empty in memory and on disk, its blocks [fs] are free, and
    nothing else changed. *)
Record emptied s (i : nat) ip (fs : list Z) s' : Prop := {
  em_itab : s'.(itab) = <[i := truncated ip]> s.(itab);
  em_used : ∀ b, 0 ≤ b < s.(sb).(sb_size) →
    used (blks s') s.(sb) ip.(i_dev) b = negb (bool_decide (b ∈ fs)) && used (blks s) s.(sb) ip.(i_dev) b;
  em_disk : ∀ n jp, 0 ≤ n < s.(sb).(sb_ninodes) →
    get_dinode (blks s' ip.(i_dev) (IBLOCK n s.(sb))) (n mod IPB * DINODE_size) jp =
    if n =? ip.(i_inum) then with_fields (truncated ip) jp
    else get_dinode (blks s ip.(i_dev) (IBLOCK n s.(sb))) (n mod IPB * DINODE_size) jp;
  em_blks : ∀ d n, d ≠ ip.(i_dev) ∨ dstart s.(sb) ≤ n → blks s' d n = blks s d n;
  em_locks : locked s' = [];
  em_sb : s'.(sb) = s.(sb);
}.

Lemma truncated_fits ip : fits ip → fits (truncated ip).
Proof. intros [? ? ? ? ? ?]. split; simpl; try done; try lia. split; [done|]. by repeat constructor. Qed.

(** The on-disk inodes after [iupdate] of inode [inum]. *)
Lemma dinodes_after_put sb0 (d : Z → mem) (d' : Z → mem) inum ip :
  layout_ok sb0 → fits ip → 0 ≤ inum < sb0.(sb_ninodes) →
  d' (IBLOCK inum sb0) = put_dinode (d (IBLOCK inum sb0)) (inum mod IPB * DINODE_size) ip →
  (∀ n, n < sb0.(sb_bmapstart) → n ≠ IBLOCK inum sb0 → d' n = d n) →
  ∀ n jp, 0 ≤ n < sb0.(sb_ninodes) →
    get_dinode (d' (IBLOCK n sb0)) (n mod IPB * DINODE_size) jp =
    if n =? inum then with_fields ip jp else get_dinode (d (IBLOCK n sb0)) (n mod IPB * DINODE_size) jp.
Proof.
  intros Hl Hfit Hin Hput Hoth n jp Hn. destruct (IBLOCK_range _ _ Hl Hn) as [E1 R1], (IBLOCK_range _ _ Hl Hin) as [E2 R2].
  destruct (Z.eqb_spec n inum) as [->|Hne]; [rw Hput; by apply get_put_dinode|].
  destruct (decide (IBLOCK n sb0 = IBLOCK inum sb0)) as [E|E].
  - rw E Hput. apply get_put_dinode_other; [apply Hfit|]. change IPB with 16. change DINODE_size with 64. lia.
  - rw Hoth //. lia.
Qed.

Lemma trunc_finish nd s i ip s1 ip1 fs ks : truncatable nd s i ip → fits ip → 0 ≤ ip.(i_inum) < s.(sb).(sb_ninodes) →
  at_step s i ip s1 ip1 fs ks [] → (∀ j, 0 ≤ j < 13 → j ∈ ks ∨ addr_at ip j = 0) →
  wp (updi i (set_size 0);; iupdate i) (λ _ s', emptied s i ip fs s') s1.
Proof.
  intros T Hfit Hin Hst Hall. pose proof (at_step_lookup _ _ _ _ T _ _ _ _ _ Hst) as Hi1.
  destruct Hst as (Hfr & Hit & Hcl & HL). pose proof (cleared_all _ _ _ Hcl Hall) as ->.
  destruct Hfr as [Esb Eit Exl Hd Hu Hb Hbud]. pose proof (fs_layout _ _ _ (tr_fs _ _ _ _ T)) as Hlay.
  apply wp_bind. eapply wp_updi; [done|]. set (s2 := set_itab _ s1).
  assert (s2.(itab) = <[i := truncated ip]> s.(itab)) as Hit2.
  { rw /s2 /=. rewrite -> (alter_as_insert _ _ _ _ Hi1). by rw Hit list_insert_insert_eq. }
  assert (s2.(itab) !! i = Some (truncated ip)) as Hi2.
  { rw Hit2. apply list_lookup_insert_eq. eapply lookup_lt_Some, T. }
  destruct (IBLOCK_range _ _ Hlay Hin) as [_ HI]. pose proof (dstart_pos _ Hlay) as Hdp.
  apply (iupdate_spec s2 i (truncated ip)); [done|split; change (locked s2) with (locked s1); rw HL; [apply not_elem_of_nil|done]| |].
  { change (0 < room s1). rw /budget in Hbud. lia. }
  change (sb s2) with (sb s1). change (blks s2) with (blks s1). rw Esb.
  change (i_dev (truncated ip)) with (i_dev ip). change (i_inum (truncated ip)) with (i_inum ip).
  intros s' [E' Hh' _ Hb']. set (I := IBLOCK (i_inum ip) (sb s)) in *.
  assert (∀ d n, d ≠ i_dev ip ∨ n ≠ I → blks s' d n = blks s1 d n) as Hb1.
  { intros d n Hn. rw Hb'. by apply upd_blk_ne. }
  split.
  - by rw E'.
  - intros b Hbr. rw -Hu //. apply used_other; [|done..]. intros n Hn. apply Hb1. right. lia.
  - apply (dinodes_after_put _ (blks s (i_dev ip)) (blks s' (i_dev ip))); [done|by apply truncated_fits|done| |].
    + fold I. rw Hb' upd_blk_eq. f_equal. apply Hb. right. lia.
    + intros n Hn Hne. rw Hb1; [|by right]. apply Hb. right. lia.
  - intros d n Hn. rw Hb1; [apply Hb; destruct Hn; [by left|right; lia]|destruct Hn; [by left|right; lia]].
  - by rw Hh'.
  - by rw E'.
Qed.

(** ** The two versions *)

(** [itrunc] of the mmap lab, whose inodes have twelve direct pointers. *)
Theorem mmap_itrunc_empties s i ip : truncatable 12 s i ip → fits ip → 0 ≤ ip.(i_inum) < s.(sb).(sb_ninodes) →
  ∃ s', MmapFs.itrunc 12 i s = Ok (tt, s') ∧ emptied s i ip (fblocks 12 s ip) s'.
Proof.
  intros T Hfit Hin.
  assert (wp (MmapFs.itrunc 12 i) (λ _ s', emptied s i ip (fblocks 12 s ip) s') s) as Hwp.
  { rw /MmapFs.itrunc. eapply wp_geti_bind; [apply T|]. cbv zeta. apply wp_bind.
    eapply wp_mono; [|exact (direct_loop 12 s i ip T)]. intros ? s1 (ip1 & Hst).
    eapply wp_geti_bind; [by eapply at_step_lookup|]. apply wp_bind.
    eapply wp_mono; [|exact (indirect_part 12 s i ip T s1 ip1 Hst)]. intros ? s2 (ip2 & Hst2).
    apply (trunc_finish 12 s i ip s2 ip2 _ _ T Hfit Hin Hst2). intros j Hj. left.
    rw elem_of_app elem_of_seqZ list_elem_of_singleton. lia. }
  apply wp_run in Hwp as ([] & s' & Hrun & H). eauto.
Qed.

(** [itrunc] of the filesystem lab, for a file without doubly indirect block. *)
Lemma fs_itrunc_empties s i ip : truncatable 11 s i ip → addr_at ip 12 = 0 → fits ip →
  0 ≤ ip.(i_inum) < s.(sb).(sb_ninodes) →
  ∃ s', itrunc i s = Ok (tt, s') ∧ emptied s i ip (fblocks 11 s ip) s'.
Proof.
  intros T H12 Hfit Hin.
  assert (wp (itrunc i) (λ _ s', emptied s i ip (fblocks 11 s ip) s') s) as Hwp.
  { rw /itrunc. eapply wp_geti_bind; [apply T|]. cbv zeta. apply wp_bind.
    eapply wp_mono; [|exact (direct_loop 11 s i ip T)]. intros ? s1 (ip1 & Hst).
    eapply wp_geti_bind; [by eapply at_step_lookup|]. apply wp_bind.
    eapply wp_mono; [|exact (indirect_part 11 s i ip T s1 ip1 Hst)]. intros ? s2 (ip2 & Hst2).
    eapply wp_geti_bind; [by eapply at_step_lookup|].
    assert (addr_at ip2 12 = 0) as E2.
    { destruct Hst2 as (_ & _ & Hcl & _). rw (cl_addr _ _ _ Hcl); [|lia]. by destruct (decide _). }
    apply wp_bind, wp_when; [change (NDIRECT + 1) with 12; by rw E2|]. intros _.
    apply (trunc_finish 11 s i ip s2 ip2 _ _ T Hfit Hin Hst2). intros j Hj.
    destruct (decide (j = 12)) as [->|]; [by right|left]. rw elem_of_app elem_of_seqZ list_elem_of_singleton. lia. }
  apply wp_run in Hwp as ([] & s' & Hrun & H). eauto.
Qed.

(** The blocks that both versions of [bmap] can reach are the same. *)
Lemma mmap_bmap_agrees (i : nat) bn s : bn < 11 + NINDIRECT → MmapFs.bmap 11 i bn s = bmap i bn s.
Proof.
  intros Hbn. rw /MmapFs.bmap /bmap. change NDIRECT with 11. rw /mbind /M_bind. destruct (geti i s) as [[ip s1]|]; [|done].
  destruct (Z.ltb_spec bn 11); [done|]. destruct (Z.ltb_spec (bn - 11) NINDIRECT); [done|lia].
Qed.

(** ** Files *)

(** The paths of the direct blocks, of the entries of the indirect block, and
    of the indirect block. *)
Definition paths : list (list Z) := ((λ k, [k]) <$> seqZ 0 11) ++ ((λ j, [j; 11]) <$> seqZ 0 256) ++ [[11]].

Lemma elem_of_paths p :
  p ∈ paths ↔ (∃ k, p = [k] ∧ 0 ≤ k < 11) ∨ (∃ j, p = [j; 11] ∧ 0 ≤ j < 256) ∨ p = [11].
Proof.
  rw /paths !elem_of_app !list_elem_of_fmap list_elem_of_singleton. by setoid_rewrite elem_of_seqZ.
Qed.

Lemma paths_vpath p : p ∈ paths → vpath p.
Proof. intros [(k & -> & ?)|[(j & -> & ?)| ->]]%elem_of_paths; simpl; lia. Qed.

Lemma NoDup_paths : NoDup paths.
Proof.
  rw /paths !NoDup_app. split_and!.
  - apply NoDup_fmap_2; [by intros x y [= ->]|apply NoDup_seqZ].
  - intros p (k & -> & Hk%elem_of_seqZ)%list_elem_of_fmap. rw elem_of_app list_elem_of_fmap list_elem_of_singleton.
    intros [(j & E & _)|E]; simplify_eq. lia.
  - apply NoDup_fmap_2; [by intros x y [= ->]|apply NoDup_seqZ].
  - intros p (j & -> & _)%list_elem_of_fmap. by rw list_elem_of_singleton.
  - apply NoDup_singleton.
Qed.

Lemma elem_of_nonzero b l : b ∈ nonzero l ↔ b ≠ 0 ∧ b ∈ l.
Proof. by rw /nonzero list_elem_of_filter. Qed.

Lemma NoDup_nonzero {A} (f : A → Z) (l : list A) : NoDup l →
  (∀ p q, p ∈ l → q ∈ l → f p ≠ 0 → f p = f q → p = q) → NoDup (nonzero (f <$> l)).
Proof.
  induction l as [|p l IH]; [intros; apply NoDup_nil_2|]. intros [Hp Hnd]%NoDup_cons Hinj.
  assert (NoDup (nonzero (f <$> l))) as Hl by (apply IH; [done|]; intros; apply Hinj; set_solver).
  rw /nonzero fmap_cons filter_cons. case_decide; [|done]. apply NoDup_cons. split; [|done].
  intros [_ (q & E & Hq)%list_elem_of_fmap]%elem_of_nonzero. apply Hp.
  rewrite (Hinj p q); [done|set_solver|set_solver|done|done].
Qed.

Lemma fblocks_paths s ip : fblocks 11 s ip = nonzero (ptr s ip <$> paths).
Proof.
  rw /fblocks /paths !fmap_app /nonzero !filter_app.
  rewrite -(list_fmap_compose (λ k, [k]) (ptr s ip)) -(list_fmap_compose (λ j, [j; 11]) (ptr s ip)). f_equal.
  assert (∀ j, (ptr s ip ∘ (λ j, [j; 11])) j = if addr_at ip 11 =? 0 then 0 else ld32 (blks s ip.(i_dev) (addr_at ip 11)) (4 * j)) as Hj
    by done.
  change (ptr s ip <$> [[11]]) with [addr_at ip 11]. destruct (Z.eqb_spec (addr_at ip 11) 0) as [E|E].
  - rw E (filter_singleton_False _ 0 []); [|by intros []]. rw app_nil_r.
    induction (seqZ 0 256) as [|j l IH]; [done|]. rw fmap_cons filter_cons Hj. case_decide; done.
  - rw (filter_singleton_True _ _ []) //. f_equal. f_equal. apply list_fmap_ext. intros _ j _. by rw Hj.
Qed.

Lemma in_fblocks s ip b : addr_at ip 12 = 0 → b ∈ fblocks 11 s ip ↔ b ≠ 0 ∧ ∃ p, vpath p ∧ ptr s ip p = b.
Proof.
  intros H12. rw fblocks_paths elem_of_nonzero list_elem_of_fmap.
  assert (∀ j p, p ≠ [] → ptr s ip p = 0 → ptr s ip (j :: p) = 0) as Hz.
  { intros j p Hp E. rw /ptr nptr_cons //. change (nptr _ _ _ p) with (ptr s ip p). by rw E. }
  split; intros [Hb (p & H1 & H2)]; (split; [done|]).
  - exists p. split; [by apply paths_vpath|done].
  - exists p. split; [done|]. apply elem_of_paths.
    destruct p as [|k [|k' [|k'' [|? p]]]]; simpl in H1; try done.
    + destruct (decide (k = 11)) as [->|]; [by right; right|]. left. exists k. split; [done|].
      assert (k ≠ 12) by (by intros ->; subst b). lia.
    + destruct H1 as [Hk [->| ->]]; [right; left; by exists k|]. destruct Hb. subst b. by apply Hz.
    + destruct H1 as (_ & _ & ->). destruct Hb. subst b. apply Hz; [done|]. by apply Hz.
Qed.

Lemma file_truncatable s i ip : file_ok s i ip → locked s = [] → budget s ip.(i_dev) → truncatable 11 s i ip.
Proof.
  intros [Hi Hl Hfs Ht] Hlk Hb. split; try done.
  - rw fblocks_paths. apply NoDup_nonzero; [apply NoDup_paths|]. intros p q Hp%paths_vpath Hq%paths_vpath. by apply (t_inj _ _ _ _ Ht).
  - intros b. rw fblocks_paths elem_of_nonzero list_elem_of_fmap. intros [Hb0 (p & -> & Hp%paths_vpath)].
    by apply (t_range _ _ _ _ Ht).
Qed.

(** The empty file is well formed. *)
Lemma truncated_file s i ip fs s' : file_ok s i ip → (∀ b, b ∈ fs → data_block s ip.(i_dev) b) →
  emptied s i ip fs s' → file_ok s' i (truncated ip).
Proof.
  intros [Hi Hl [Hlay Hmeta] _] Hdata [Hit Hu _ _ _ Esb].
  assert (∀ j, addr_at (truncated ip) j = 0) as Ha.
  { intros j. rw /addr_at nth_lookup. change (i_addrs (truncated ip)) with (replicate 13 0). destruct (replicate 13 0 !! Z.to_nat j) as [x|] eqn:E; [|done].
    by apply lookup_replicate in E as [-> _]. }
  assert (∀ w p, nptr ip.(i_dev) w (addr_at (truncated ip)) p = 0) as Hp.
  { intros w p. induction p as [|j p IH]; [done|]. destruct p as [|k p]; [apply Ha|]. rw nptr_cons //. by rw IH. }
  split.
  - rw Hit. apply list_lookup_insert_eq. by eapply lookup_lt_Some.
  - done.
  - rw Esb. split; [done|]. intros b Hb. pose proof (lay_data _ Hlay). change (i_dev (truncated ip)) with (i_dev ip) in *.
    rw Hu; [|lia]. rewrite bool_decide_false; [by apply Hmeta|]. intros [? _]%Hdata. lia.
  - split; intros p *; rw Hp; done.
Qed.

Lemma itrunc_spec s i ip :
  file_ok s i ip → addr_at ip 12 = 0 → fits ip → 0 ≤ ip.(i_inum) < s.(sb).(sb_ninodes) →
  locked s = [] → budget s ip.(i_dev) →
  ∃ s', itrunc i s = Ok (tt, s') ∧ emptied s i ip (fblocks 11 s ip) s' ∧ file_ok s' i (truncated ip) ∧
    ∀ b, dstart s.(sb) ≤ b < s.(sb).(sb_size) →
      used (blks s') s.(sb) ip.(i_dev) b = true ↔
      used (blks s) s.(sb) ip.(i_dev) b = true ∧ ∀ p, vpath p → ptr s ip p ≠ b.
Proof.
  intros Hf H12 Hfit Hin Hlk Hb. pose proof (file_truncatable s i ip Hf Hlk Hb) as T.
  destruct (fs_itrunc_empties s i ip T H12 Hfit Hin) as (s' & Hrun & He). exists s'. split; [done|]. split; [done|].
  split; [by eapply truncated_file; [..|exact He]; [|apply T]|].
  intros b Hr. pose proof (dstart_pos _ (fs_layout _ _ _ (fo_fs _ _ _ Hf))).
  rw (em_used _ _ _ _ _ He); [|lia]. rw andb_true_iff negb_true_iff bool_decide_eq_false in_fblocks //.
  split; [intros [Hn Hu]|intros [Hu Hn]]; (split; [try done|try done]).
  - intros p Hp E. apply Hn. split; [lia|eauto].
  - intros (_ & p & Hp & E). by apply (Hn p Hp).
Qed.

(** C2: truncating a file gives back its blocks and no others.  For a file
    without a doubly indirect block, [itrunc] returns with the inode empty in
    memory and on disk; a block is in use afterwards exactly if it was before
    and no pointer of the file, direct or indirect, refers to it; no data
    block and no other inode changes, and the file is well formed again.  The
    log only needs room for the bitmap blocks and the inode. *)
Theorem itrunc_frees_blocks s i ip :
  file_ok s i ip → addr_at ip 12 = 0 → fits ip → 0 ≤ ip.(i_inum) < s.(sb).(sb_ninodes) →
  locked s = [] → budget s ip.(i_dev) →
  ∃ s', itrunc i s = Ok (tt, s') ∧ emptied s i ip (fblocks 11 s ip) s' ∧ file_ok s' i (truncated ip) ∧
    ∀ b, dstart s.(sb) ≤ b < s.(sb).(sb_size) →
      used (blks s') s.(sb) ip.(i_dev) b = true ↔
      used (blks s) s.(sb) ip.(i_dev) b = true ∧ ∀ p, vpath p → ptr s ip p ≠ b.
Proof. apply itrunc_spec. Qed.

(** ** Writing and truncating *)

(** The log was committed: only the bookkeeping of the cache changes. *)
Record committed s s' : Prop := {
  cm_rest : s' = set_bl s'.(bl) s;
  cm_blks : blks s' = blks s;
  cm_held : locked s' = locked s;
}.

Lemma committed_file s s' i ip : committed s s' → file_ok s i ip → file_ok s' i ip.
Proof. intros [E HB _] [Hi Ha Hf Ht]. split; [by rw E|done|rw HB E //..]. Qed.

(** The pointers of a well-formed file fit 32 bits. *)
Lemma file_addrs_fit s i ip : file_ok s i ip → Forall (λ a, 0 ≤ a < 2 ^ 32) ip.(i_addrs).
Proof.
  intros [_ Hl [Hlay _] Ht]. pose proof (dstart_pos _ Hlay). pose proof (lay_size _ Hlay) as Hs. change BPB with 8192 in Hs.
  apply Forall_lookup. intros j a Hj. pose proof (lookup_lt_Some _ _ _ Hj).
  assert (nptr ip.(i_dev) (blks s) (addr_at ip) [Z.of_nat j] = a) as E by (by rw /= /addr_at Nat2Z.id nth_lookup Hj).
  destruct (Z.eq_dec a 0) as [->|Hne]; [lia|].
  destruct (t_range _ _ _ _ Ht [Z.of_nat j]) as [Hr _]; [simpl; lia|by rw E|]. rw E in Hr. lia.
Qed.

(** A write below the doubly indirect range leaves that pointer alone. *)
Definition no_double s (i : nat) : Prop := ∃ ip, s.(itab) !! i = Some ip ∧ addr_at ip 12 = 0.

Lemma balloc_itab dev s : wlp (balloc dev) (λ _ s', s'.(itab) = s.(itab)) s.
Proof.
  rw /balloc. apply wlp_bind, wlp_gets. apply (wlp_loop (λ _ s', s'.(itab) = s.(itab))); [|done]. intros b s1 H1.
  destruct (_ <? _); [|apply wlp_panic]. apply wlp_bind, wlp_Bl. intros d b1. apply wlp_bind.
  apply (wlp_loop (λ _ s', s'.(itab) = s.(itab))); [|done]. intros bi s2 H2.
  destruct (_ && _); [destruct (_ =? 0)|]; [|by apply wlp_ret|].
  - apply wlp_bind, wlp_Bl. intros _ b2. apply wlp_bind, wlp_Bl. intros _ b3. apply wlp_bind.
    rw /bzero. apply wlp_bind, wlp_Bl. intros d' b4. apply wlp_bind, wlp_Bl. intros _ b5. apply wlp_Bl. intros _ b6.
    by apply wlp_ret, wlp_ret.
  - apply wlp_ret. apply wlp_bind, wlp_Bl. intros _ b2. by apply wlp_ret.
Qed.

Lemma direct_no_double s i k : 0 ≤ k < 12 → no_double s i → wlp (direct i k) (λ _ s', no_double s' i) s.
Proof.
  intros Hk Hd. rw /direct. apply wlp_bind, wlp_geti. intros ip _. destruct (_ =? 0); [|by apply wlp_ret].
  apply wlp_bind. eapply wlp_mono; [|apply balloc_itab]. intros a s1 E. destruct Hd as (ip0 & Hi & H0).
  apply wlp_bind. rw /updi. apply wlp_bind, wlp_geti. intros ip1 Hi1. rw E in Hi1. simplify_eq. apply wlp_modify, wlp_ret.
  exists (set_addr k a ip0). split; [by rw /= list_lookup_alter_eq E Hi|].
  rw /addr_at /set_addr /= !nth_lookup list_lookup_insert_ne; [|lia]. by rw -nth_lookup.
Qed.

Lemma indirect_no_double s i dev a k : no_double s i → wlp (indirect dev a k) (λ _ s', no_double s' i) s.
Proof.
  intros Hd. rw /indirect. apply wlp_bind, wlp_Bl. intros d b. destruct (_ =? 0).
  - apply wlp_bind. eapply wlp_mono; [|apply balloc_itab]. intros r s1 E.
    apply wlp_bind, wlp_Bl. intros _ b1. apply wlp_bind, wlp_Bl. intros _ b2. apply wlp_ret.
    rw /no_double. cbn [itab set_bl]. by rw E.
  - apply wlp_bind, wlp_Bl. intros _ b1. by apply wlp_ret.
Qed.

Lemma bmap_no_double s i bn : 0 ≤ bn < 267 → no_double s i → wlp (bmap i bn) (λ _ s', no_double s' i) s.
Proof.
  intros Hbn Hd. rw /bmap. apply wlp_bind, wlp_geti. intros ip _. change NDIRECT with 11. change NINDIRECT with 256.
  destruct (Z.ltb_spec bn 11); [apply direct_no_double; [lia|done]|]. destruct (Z.ltb_spec (bn - 11) 256); [|lia].
  apply wlp_bind. eapply wlp_mono; [|apply direct_no_double; [lia|exact Hd]]. intros a s1 H1. by apply indirect_no_double.
Qed.

Lemma resize_no_double s i n : no_double s i → wlp (updi i (set_size n)) (λ _ s', no_double s' i) s.
Proof.
  intros (ip & Hi & H0). rw /updi. apply wlp_bind, wlp_geti. intros ip' _. apply wlp_modify.
  exists (set_size n ip). by rw /= list_lookup_alter_eq Hi.
Qed.

Lemma iupdate_no_double s i : no_double s i → wlp (iupdate i) (λ _ s', no_double s' i) s.
Proof.
  intros H. rw /iupdate. apply wlp_bind, wlp_geti. intros ip _. apply wlp_bind, wlp_gets.
  apply wlp_bind, wlp_Bl. intros d b1. apply wlp_bind, wlp_Bl. intros _ b2. by apply wlp_Bl.
Qed.

Lemma writei_no_double s i u src off n : 0 ≤ off → 0 ≤ n → off + n ≤ 267 * BSIZE → no_double s i →
  wlp (writei i u src off n) (λ _ s', no_double s' i) s.
Proof.
  change BSIZE with 1024. intros Ho Hn Hmax Hd. rw /writei. apply wlp_bind, wlp_geti. intros ip _.
  destruct (_ || _); [by apply wlp_ret|]. destruct (_ <? _); [by apply wlp_ret|]. apply wlp_bind. change BSIZE with 1024.
  apply (wlp_loop (λ '(tot, o, _) s', 0 ≤ tot ≤ n ∧ o = off + tot ∧ no_double s' i)); [|split_and!; [lia..|done]].
  intros [[tot o] a] s1 (Ht & -> & Hd1).
  assert (∀ (r : Z) (s2 : fst), no_double s2 i → wlp (ip ← geti i; when (i_size ip <? off + tot) (updi i (set_size (off + tot)));; iupdate i;; mret r)
    (λ _ s', no_double s' i) s2) as Hend.
  { intros r s2 Hd2. apply wlp_bind, wlp_geti. intros ip2 Hi2. apply wlp_bind.
    eapply wlp_mono; [|apply (wlp_when _ _ (λ _ s', no_double s' i)); [intros _; by apply resize_no_double|done]].
    intros ? s3 H3. apply wlp_bind. eapply wlp_mono; [|by apply iupdate_no_double]. intros ? s4 H4. by apply wlp_ret. }
  destruct (Z.ltb_spec tot n) as [Hlt|]; [|apply wlp_ret; by apply Hend].
  apply wlp_bind. eapply wlp_mono; [|apply bmap_no_double; [lia|exact Hd1]]. intros bno s2 Hd2.
  apply wlp_bind, wlp_Bl. intros d b1. apply wlp_bind, wlp_lift, wlp_of_run. intros [r bs] x _.
  destruct (_ =? -1).
  - apply wlp_bind, wlp_Bl. intros _ b2. apply wlp_ret. by apply Hend.
  - apply wlp_bind, wlp_Bl. intros _ b2. apply wlp_bind, wlp_Bl. intros _ b3. apply wlp_ret.
    rewrite -> !u32_small by lia. split_and!; [lia..|done].
Qed.


End trunc.
End FsTrunc.

(** ** The hypotheses hold: the demonstration disk *)
Module FsTruncDemo.
Import FsTrunc FsDemo.

Lemma itrunc_frees_blocks_witness : ∃ s', itrunc 0 s_demo = Ok (tt, s') ∧
  emptied s_demo 0 file0 (fblocks 11 s_demo file0) s' ∧ file_ok s' 0 (truncated file0) ∧
  ∀ b, dstart sb_demo ≤ b < 100 →
    used (blks s') sb_demo 1 b = true ↔ used (blks s_demo) sb_demo 1 b = true ∧ ∀ p, vpath p → ptr s_demo file0 p ≠ b.
Proof.
  apply (itrunc_frees_blocks s_demo 0 file0); try (by vm_compute); [exact demo_file0|exact demo_fits].
Defined.

Lemma file1_fits : fits file1.
Proof. split; rw /file1 /T_FILE /=; [lia..|]. split; [done|]. repeat (constructor; [lia|]). constructor. Qed.

End FsTruncDemo.
