(* ===== verification/FsPath.v ===== *)
(** * Path names: [skipelem] against a reference splitter, and [namecmp] *)

From S2P Require Import Prelude Machine Fs.
Import Fs.

Module FsPath.

(** The C string at the start of a buffer, at most [n] bytes. *)
Fixpoint cstr (n : nat) (p : list Z) : list Z :=
  match n, p with
  | S n, c :: p => if c =? 0 then [] else c :: cstr n p
  | _, _ => []
  end.

Lemma cstr_nz n p : Forall (λ c, c ≠ 0) (cstr n p).
Proof.
  revert p. induction n as [|n IH]; intros [|c p]; simpl; try constructor.
  zbool; constructor; auto.
Qed.

(** [strncmp] returns 0 exactly for equal strings. *)
Lemma strncmp_0 n p q : strncmp n p q = 0 ↔ cstr n p = cstr n q.
Proof.
  revert p q. induction n as [|n IH]; intros p q; [done|].
  destruct p as [|a p], q as [|b q]; simpl.
  - done.
  - zbool; split; intros; try done; lia.
  - zbool; simpl; split; intros; try done; lia.
  - destruct (Z.eqb_spec a 0) as [->|Ha]; simpl.
    + destruct (Z.eqb_spec b 0) as [->|Hb]; [done|]. split; [lia|done].
    + destruct (Z.eqb_spec b 0) as [->|Hb].
      * zdec. split; [lia|done].
      * zbool; [subst; rw IH; split; [by intros ->|by intros [= ->]]|]. split; [lia|by intros [= -> _]].
Qed.

Lemma cstr_take n p : Forall (λ c, c ≠ 0) p → cstr n p = take n p.
Proof.
  revert p. induction n as [|n IH]; intros p Hp; [by destruct p|]. destruct Hp as [|c p Hc Hp]; [done|].
  simpl. zdec. by rw IH.
Qed.
Lemma cstr_app0 n p r : Forall (λ c, c ≠ 0) p → cstr n (p ++ 0 :: r) = take n p.
Proof.
  revert p. induction n as [|n IH]; intros p Hp; [by destruct p|]. destruct Hp as [|c p Hc Hp]; [done|].
  simpl. zdec. by rw IH.
Qed.

Lemma cstr_strncpy n p : cstr n (strncpy n p) = cstr n p.
Proof.
  revert p. induction n as [|n IH]; intros p; [done|]. destruct p as [|c p]; simpl; [done|].
  zbool; [done|]. by rw IH.
Qed.
Lemma length_strncpy n p : length (strncpy n p) = n.
Proof. revert p. induction n as [|n IH]; intros p; simpl; [done|]. by rw IH. Qed.

(** ** Splitting a path at slashes *)

Fixpoint split_slash (p : list Z) : list (list Z) :=
  match p with
  | [] => [[]]
  | c :: r =>
      if c =? slash then [] :: split_slash r
      else match split_slash r with
           | e :: es => (c :: e) :: es
           | [] => [[c]]
           end
  end.
(** The elements of a path: the pieces between slashes that are not empty. *)
Definition components (p : list Z) : list (list Z) := filter (λ e, e ≠ []) (split_slash p).

Lemma components_skip p : components (skip_slashes p) = components p.
Proof. induction p as [|c p IH]; [done|]. simpl. zbool; [|done]. subst. rw IH. by rw /components /=. Qed.

Lemma skip_slashes_head p c r : skip_slashes p = c :: r → c ≠ slash.
Proof. induction p as [|a p IH]; simpl; [done|]. zbool; [done|]. by intros [= -> ->]. Qed.

Lemma skip_slashes_length p : (length (skip_slashes p) ≤ length p)%nat.
Proof. induction p as [|a p IH]; simpl; [done|]. zbool; simpl; lia. Qed.

Lemma split_take_elem p : ∃ es, split_slash p = (take_elem p).1 :: es ∧
  components (take_elem p).2 = filter (λ e, e ≠ []) es ∧ p = (take_elem p).1 ++ (take_elem p).2.
Proof.
  induction p as [|c p IH]; [by exists []|]. simpl. zbool.
  - exists (split_slash p). split_and!; try done. subst. by rw /components /=.
  - destruct IH as (es & E1 & E2 & E3). destruct (take_elem p) as [e r]. simpl in *. exists es. rw E1.
    split_and!; [done|done|by f_equal].
Qed.

Lemma components_nil p : components (skip_slashes p) = [] ↔ skip_slashes p = [].
Proof.
  split; [|by intros ->]. destruct (skip_slashes p) as [|c r] eqn:E; [done|]. apply skip_slashes_head in E.
  destruct (split_take_elem (c :: r)) as (es & E1 & _). rw /components E1. simpl. zdec.
  destruct (take_elem r). simpl. rewrite filter_cons_True; done.
Qed.

(** C30: [skipelem] enumerates the elements of a path.  On a C string it
    returns nothing exactly for paths without elements; otherwise the name
    buffer holds the first element, cut to [DIRSIZ] bytes, and the returned
    path has exactly the remaining elements, is empty exactly when there are
    none (so the caller's test for the last element is right), and is shorter,
    so the loop of [namex] ends. *)
Theorem skipelem_components path name :
  Forall (λ c, c ≠ 0) path →
  match skipelem path name with
  | None => components path = []
  | Some (rest, name') => ∃ e, components path = e :: components rest ∧
      cstr (Z.to_nat DIRSIZ) name' = take (Z.to_nat DIRSIZ) e ∧
      (rest = [] ↔ components rest = []) ∧ (length rest < length path)%nat
  end.
Proof.
  intros Hnz. rw /skipelem. pose proof (skip_slashes_length path) as Hlen. rw -components_skip.
  pose proof (skip_slashes_head path) as Hhd.
  assert (Forall (λ c, c ≠ 0) (skip_slashes path)) as Hnz'.
  { clear -Hnz. induction Hnz as [|c p Hc Hp IH]; simpl; [done|]. zbool; [done|by constructor]. }
  destruct (skip_slashes path) as [|c r] eqn:E; [done|]. specialize (Hhd c r eq_refl).
  destruct (split_take_elem (c :: r)) as (es & E1 & E2 & E3).
  assert (components (c :: r) = filter (λ e, e ≠ []) ((take_elem (c :: r)).1 :: es)) as Hcomp by (rw /components E1 //).
  clear E1. revert Hcomp E2 E3.
  assert (take_elem (c :: r) = (c :: (take_elem r).1, (take_elem r).2)) as -> by (simpl; zdec; by destruct (take_elem r)).
  destruct (take_elem r) as [e0 r0]. cbn [Datatypes.fst Datatypes.snd]. intros Hcomp E2 E3. exists (c :: e0).
  assert (r = e0 ++ r0) as -> by (by injection E3). rewrite Forall_cons Forall_app in Hnz'. destruct Hnz' as (Hc & He0 & _).
  split_and!.
  - rw Hcomp. rewrite filter_cons_True; [|done]. f_equal. rw -E2. symmetry. apply components_skip.
  - assert (Forall (λ x, x ≠ 0) (c :: e0)) as Hel by (by constructor). destruct (Z.leb_spec DIRSIZ (Z.of_nat (length (c :: e0)))).
    + rw cstr_take; [|by apply Forall_take]. by rw take_take.
    + by apply (cstr_app0 _ (c :: e0)).
  - by rw components_nil.
  - pose proof (skip_slashes_length r0). simpl in Hlen. rw length_app in Hlen. lia.
Qed.

(** The path ["/usr//bin/"]. *)
Lemma skipelem_components_witness :
  ∃ e, components [47; 117; 115; 114; 47; 47; 98; 105; 110; 47] = e :: components [98; 105; 110; 47] ∧
    cstr (Z.to_nat DIRSIZ) (117 :: 115 :: 114 :: replicate 11 0) = take (Z.to_nat DIRSIZ) e ∧
    ([98; 105; 110; 47] = [] ↔ components [98; 105; 110; 47] = []) ∧ (4 < 10)%nat.
Proof.
  apply (skipelem_components [47; 117; 115; 114; 47; 47; 98; 105; 110; 47] (replicate 14 0)).
  repeat (constructor; [done|]). constructor.
Defined.
End FsPath.
