(* ===== verification/FsDir.v ===== *)
(** * Directories: a finite map from names to inode numbers

    A directory is the list of its entries; [dfind] is the abstract lookup.
    [dirlookup] implements [dfind], and [dirlink] adds one binding. *)

From S2P Require Import Prelude Machine Fs FsBlocks FsTree FsData FsRw FsInode FsPath FsProps.
Import Fs FsBlocks FsTree FsData FsRw FsInode FsPath.

Module FsDir.

#[local] Arguments le_bytes : simpl never.
#[local] Arguments cstr : simpl never.
#[local] Arguments seqZ : simpl never.
#[local] Arguments nth : simpl never.

(** An entry: inode number (0 if free) and name bytes. *)
Definition entry := (Z * list Z)%type.
Notation NAMELEN := 14%nat.
Definition hit (name : list Z) (e : entry) : bool :=
  negb (e.1 =? 0) && bool_decide (cstr NAMELEN name = cstr NAMELEN e.2).

(** The first entry with the name: its index and inode number. *)
Fixpoint dfind (k : Z) (l : list entry) (name : list Z) : option (Z * Z) :=
  match l with
  | [] => None
  | e :: l => if hit name e then Some (k, e.1) else dfind (k + 1) l name
  end.
Definition dget (l : list entry) (name : list Z) : option Z := snd <$> dfind 0 l name.

Lemma dfind_app k l1 l2 name : dfind k (l1 ++ l2) name =
  match dfind k l1 name with Some r => Some r | None => dfind (k + Z.of_nat (length l1)) l2 name end.
Proof.
  revert k. induction l1 as [|e l1 IH]; intros k; simpl; [by rw Z.add_0_r|].
  destruct (hit name e); [done|]. rw IH. destruct (dfind _ l1 name); [done|]. f_equal. lia.
Qed.

Lemma dfind_shift k l name : snd <$> dfind k l name = dget l name.
Proof.
  rw /dget. generalize 0 at 1. intros k'. revert k k'. induction l as [|e l IH]; intros k k'; [done|]. simpl.
  destruct (hit name e); [done|]. apply IH.
Qed.

(** Adding a binding for a name that has none, in a free slot or at the end. *)
Lemma dget_add l1 l2 old name inum nm name' :
  dget (l1 ++ old ++ l2) name = None → Forall (λ e, e.1 = 0) old → inum ≠ 0 →
  cstr NAMELEN nm = cstr NAMELEN name →
  dget (l1 ++ (inum, nm) :: l2) name' =
    if decide (cstr NAMELEN name' = cstr NAMELEN name) then Some inum else dget (l1 ++ old ++ l2) name'.
Proof.
  intros Hno Hold Hi Hnm.
  assert (∀ n, dget (l1 ++ old ++ l2) n = match dget l1 n with Some r => Some r | None => dget l2 n end) as Hd.
  { intros n. rw /dget dfind_app. destruct (dfind 0 l1 n); [done|]. rw dfind_app.
    assert (∀ k, dfind k old n = None) as ->; [|by rw /= dfind_shift].
    clear Hno. induction Hold as [|e old He Hold IH]; [done|]. intros k. simpl. rw /hit He /=. apply IH. }
  assert (dget (l1 ++ (inum, nm) :: l2) name' =
    match dget l1 name' with Some r => Some r | None => if hit name' (inum, nm) then Some inum else dget l2 name' end) as ->.
  { rw /dget dfind_app. destruct (dfind 0 l1 name'); [done|]. simpl. destruct (hit name' (inum, nm)); [done|]. apply dfind_shift. }
  rw Hd in Hno. rw Hd /hit /= Hnm. rewrite -> (proj2 (Z.eqb_neq _ _) Hi). simpl.
  destruct (decide (cstr NAMELEN name' = cstr NAMELEN name)) as [E|E].
  - rewrite bool_decide_true //.
    assert (∀ l k, dfind k l name' = dfind k l name) as Hc.
    { intros l. induction l as [|e l IH]; intros k; [done|]. simpl. rw /hit E. destruct (_ && _); [done|]. apply IH. }
    rw {1}/dget Hc. fold (dget l1 name). by destruct (dget l1 name).
  - by rewrite bool_decide_false.
Qed.

Section dir.
Context {B X : Type} {BL : BufLayer B} {CL : CopyLayer X}.
Notation fst := (fst B X).
Implicit Types (s : fst) (ip : inode).
Variable DE : Z.
Hypothesis DE_ok : 0 ≤ DE ∧ DE + 16 < 2 ^ 64.

(** The [k]-th entry of the directory file, and all of them. *)
Definition dent s ip (k : Z) : entry :=
  (byte s ip (16 * k) + byte s ip (16 * k + 1) * 2 ^ 8, (λ j, byte s ip (16 * k + 2 + j)) <$> seqZ 0 14).
Definition dents s ip : list entry := dent s ip <$> seqZ 0 (ip.(i_size) / 16).

Record is_dir s (i : nat) ip : Prop := {
  dr_file : file_ok s i ip;
  dr_sized : sized s ip;
  dr_type : ip.(i_type) = T_DIR;
  dr_size : ip.(i_size) mod 16 = 0;
}.

Lemma seen_dir s s' i ip : seen s s' → is_dir s i ip → is_dir s' i ip.
Proof.
  intros [E Eb _ _] [[Fi Fa Ff Ft] [S1 S2] Ht Hm]. split; [split|split|done|done]; rw ?Eb; try done; [by rw E..|].
  intros bn H1 H2. rw /ptr Eb. by apply S2.
Qed.
Lemma seen_byte s s' ip o : seen s s' → byte s' ip o = byte s ip o.
Proof. intros [_ Eb _ _]. by rw /byte Eb. Qed.
Lemma seen_dents s s' ip : seen s s' → dents s' ip = dents s ip.
Proof.
  intros Hs. apply list_fmap_ext. intros _ k _. rw /dent !(seen_byte s s') //. f_equal.
  apply list_fmap_ext. intros _ j _. by rw (seen_byte s s').
Qed.
Lemma seen_refl s : seen s s.
Proof. split; by destruct s. Qed.
Lemma seen_trans s s1 s2 : seen s s1 → seen s1 s2 → seen s s2.
Proof. intros [E1 B1 H1 R1] [E2 B2 H2 R2]. split; [by rw E2 E1|congruence..]. Qed.

(** Reading the entry at [16 * k] into [de]. *)
Lemma read_dent s i ip k (Q : Z → fst → Prop) :
  is_dir s i ip → locked s = [] → 0 ≤ k → 16 * k < ip.(i_size) →
  (∀ s', seen s s' → byte_at s'.(xl) false DE + byte_at s'.(xl) false (DE + 1) * 2 ^ 8 = (dent s ip k).1 →
     kernel_bytes s'.(xl) (DE + 2) DIRSIZ = (dent s ip k).2 → Q 16 s') →
  wp (readi i false DE (16 * k) 16) Q s.
Proof.
  intros [Hf Hsz Ht Hm] Hlk Hk Hlt HQ. pose proof (sz_range _ _ Hsz) as Hs. change (MAXFILE * BSIZE) with 67382272 in Hs.
  eapply wp_mono; [|apply (readi_spec s i ip false DE (16 * k) 16); try done; lia].
  intros r s' [Hsn [[Hr Hb]|[? _]]]; [|done]. assert (r = 16) as -> by lia.
  replace (Z.max 0 (Z.min 16 (i_size ip - 16 * k))) with 16 in Hb by lia.
  apply HQ; [done|..].
  - rw !Hb. zdec. rw /dent /=. do 2 f_equal; [f_equal; lia|]. do 2 f_equal. lia.
  - rw /kernel_bytes /dent. cbn [snd]. apply list_fmap_ext. intros ? j Hj. apply lookup_seqZ in Hj as [-> Hj].
    change DIRSIZ with 14 in Hj. rw Hb. zdec. f_equal. lia.
Qed.

Lemma dents_drop s ip k : 0 ≤ k → 16 * k < ip.(i_size) → ip.(i_size) mod 16 = 0 →
  drop (Z.to_nat k) (dents s ip) = dent s ip k :: drop (Z.to_nat (k + 1)) (dents s ip).
Proof.
  intros Hk Hlt Hm. replace (Z.to_nat (k + 1)) with (S (Z.to_nat k)) by lia. apply drop_S.
  rw /dents list_lookup_fmap. rewrite -> lookup_seqZ_lt by lia. simpl. do 2 f_equal. lia.
Qed.
Lemma dents_end s ip k : 0 ≤ k → ip.(i_size) ≤ 16 * k → drop (Z.to_nat k) (dents s ip) = [].
Proof. intros Hk Hge. apply drop_ge. rw /dents length_fmap length_seqZ. lia. Qed.

(** ** [dirlookup] *)

Lemma dirlookup_spec s dp d name :
  is_dir s dp d → locked s = [] → itable_ok s.(itab) → s.(itlock) = false →
  (∃ i ip, s.(itab) !! i = Some ip ∧ ip.(i_ref) = 0) →
  wp (dirlookup DE dp name) (λ r s', match dfind 0 (dents s d) name with
    | None => r = None ∧ seen s s'
    | Some (k, inum) => ∃ i st, r = Some (i, 16 * k) ∧ seen s st ∧ got st d.(i_dev) inum i s'
    end) s.
Proof.
  intros Hd Hlk Hit Hil Hex. pose proof Hd as [Hf Hsz Ht Hm]. pose proof (sz_range _ _ Hsz) as Hs.
  change (MAXFILE * BSIZE) with 67382272 in Hs.
  rw /dirlookup. eapply wp_geti_bind; [apply Hf|]. rw Ht /=.
  apply (wp_loop (λ off st, off mod 16 = 0 ∧ 0 ≤ off ≤ d.(i_size) ∧ seen s st ∧
    dfind 0 (dents s d) name = dfind (off / 16) (drop (Z.to_nat (off / 16)) (dents s d)) name) (λ off, d.(i_size) - off)).
  { split_and!; [done|lia|lia|apply seen_refl|done]. }
  { lia. }
  intros off st (Ho & Hr & Hst & Hfind) _. pose proof (seen_dir _ _ _ _ Hst Hd) as Hd1.
  eapply wp_geti_bind; [apply Hd1|]. destruct (Z.ltb_spec off d.(i_size)) as [Hlt|Hge]; last first.
  { apply wp_ret. rw Hfind dents_end; [|lia..]. done. }
  assert (∃ k, off = 16 * k) as [k ->] by (exists (off / 16); lia). replace (16 * k / 16) with k in Hfind by lia.
  apply wp_bind. change DIRENT_size with 16. apply (read_dent st dp d k); [done|by rw (sn_held _ _ Hst)|lia|lia|].
  intros s1 Hs1 Hino Hnm. simpl. pose proof (seen_trans _ _ _ Hst Hs1) as Hss.
  assert (dent st d k = dent s d k) as Ed.
  { rw /dent !(seen_byte s st) //. f_equal. apply list_fmap_ext. intros _ j _. by rw (seen_byte s st). }
  rewrite -> Ed in Hino, Hnm. rewrite -> dents_drop in Hfind by lia. simpl in Hfind.
  rw /de_inum. apply wp_gets_bind. rw Hino. rewrite -> u32_small by lia.
  assert ((16 * k + 16) mod 16 = 0 ∧ (16 * k + 16) / 16 = k + 1 ∧ 0 ≤ 16 * k + 16 ≤ i_size d) as (M1 & M2 & M3) by lia.
  rw /hit in Hfind. destruct (Z.eqb_spec (dent s d k).1 0) as [E0|E0]; simpl in Hfind.
  { apply wp_ret. split; [|lia]. rw M2. split_and!; try done; lia. }
  rw /de_name. apply wp_gets_bind. rw Hnm /namecmp. change (Z.to_nat DIRSIZ) with 14%nat.
  destruct (Z.eqb_spec (strncmp 14 name (dent s d k).2) 0) as [Ec|Ec].
  - rewrite -> bool_decide_true in Hfind by (by apply strncmp_0). rw Hfind.
    apply wp_bind. assert (s1.(itab) = s.(itab)) as Ei by (by rw (sn_rest _ _ Hss)).
    eapply wp_mono; [|apply iget_spec; [by rw Ei|by rw (sn_rest _ _ Hss)|]].
    + intros i s' Hg. apply wp_ret. eauto.
    + destruct Hex as (i & ip & Hi & Hr0). exists i, ip. rw Ei. auto.
  - rewrite -> bool_decide_false in Hfind by (by rewrite <- strncmp_0). apply wp_ret. split; [|lia].
    rw M2. split_and!; try done; lia.
Qed.

(** ** [dirlink] *)

Definition byte_str (l : list Z) : Prop := Forall (λ c, 0 ≤ c < 256) l.

Lemma cstr_u8 n l : byte_str l → cstr n (u8 <$> l) = cstr n l.
Proof.
  revert l. induction n as [|n IH]; intros l Hl; [by destruct l|]. destruct Hl as [|c l Hc Hl]; [done|].
  change (u8 <$> c :: l) with (u8 c :: (u8 <$> l)). rw (u8_small c) //. rw /cstr -/cstr. zbool; [done|]. by rw IH.
Qed.
Lemma byte_strncpy n l : byte_str l → byte_str (strncpy n l).
Proof.
  revert l. induction n as [|n IH]; intros l Hl; simpl; constructor.
  - destruct Hl; simpl; lia.
  - apply IH. destruct (_ =? 0); [constructor|]. by destruct Hl; simpl; [constructor|].
Qed.

(** Storing into [de] changes kernel memory only. *)
Lemma set_de_spec s a bs (Q : unit → fst → Prop) :
  (∀ s', seen s s' → (∀ x, byte_at s'.(xl) false x =
      if (a <=? x) && (x <? a + Z.of_nat (length bs)) then nth (Z.to_nat (x - a)) bs 0 else byte_at s.(xl) false x) → Q tt s') →
  wp (set_de a bs) Q s.
Proof.
  intros HQ. destruct (copyout_ok s.(xl) false a bs) as (r & x' & Hrun & _ & Hr & Hb).
  rw /set_de. apply wp_bind. rw /wp /Xl /lift Hrun. apply HQ; [split; by destruct s|]. apply Hb. by apply Hr.
Qed.

(** The bytes of [de] after both stores. *)
Lemma de_bytes (b1 b2 b3 : Z → Z) name inum :
  (∀ x, b2 x = if (DE + 2 <=? x) && (x <? DE + 2 + Z.of_nat (length (strncpy (Z.to_nat DIRSIZ) name)))
               then nth (Z.to_nat (x - (DE + 2))) (strncpy (Z.to_nat DIRSIZ) name) 0 else b1 x) →
  (∀ x, b3 x = if (DE <=? x) && (x <? DE + Z.of_nat (length (le_bytes 2 inum)))
               then nth (Z.to_nat (x - DE)) (le_bytes 2 inum) 0 else b2 x) →
  0 < inum < 2 ^ 16 →
  u8 (b3 (DE + 0)) + u8 (b3 (DE + 1)) * 2 ^ 8 = inum ∧
  (λ j, u8 (b3 (DE + (2 + j)))) <$> seqZ 0 14 = u8 <$> strncpy 14 name.
Proof.
  change (Z.to_nat DIRSIZ) with 14%nat. intros Hb2 Hb3 Hin. split.
  - rw !Hb3 length_le_bytes. change (Z.of_nat 2) with 2. zdec. rw !nth_le_bytes; [|lia..].
    replace (Z.to_nat (DE + 0 - DE)) with 0%nat by lia. replace (Z.to_nat (DE + 1 - DE)) with 1%nat by lia.
    rw !u8_u8 /u8. change (2 ^ (8 * Z.of_nat 0)) with 1. change (2 ^ (8 * Z.of_nat 1)) with 256. lia.
  - apply list_eq. intros j. rw list_lookup_fmap (list_lookup_fmap u8). destruct (Nat.lt_ge_cases j 14) as [Hj|Hj]; last first.
    { rw lookup_seqZ_ge; [|lia]. by rw (proj2 (lookup_ge_None _ _)); [|rw length_strncpy]. }
    rewrite -> lookup_seqZ_lt by lia. rewrite Z.add_0_l. destruct (lookup_lt_is_Some_2 (strncpy 14 name) j) as [c Hc]; [by rw length_strncpy|].
    rw Hc /=. do 2 f_equal. rw Hb3 length_le_bytes. change (Z.of_nat 2) with 2.
    assert ((DE <=? DE + (2 + Z.of_nat j)) && (DE + (2 + Z.of_nat j) <? DE + 2) = false) as -> by (clear -Hj; zbool; lia).
    rw Hb2 length_strncpy. change (Z.of_nat 14) with 14.
    assert ((DE + 2 <=? DE + (2 + Z.of_nat j)) && (DE + (2 + Z.of_nat j) <? DE + 2 + 14) = true) as -> by (clear -Hj; zbool; lia).
    apply nth_lookup_Some. by replace (Z.to_nat (DE + (2 + Z.of_nat j) - (DE + 2))) with j by lia.
Qed.

(** The slot [dirlink] chooses: the first free entry, or the end. *)
Lemma find_slot s dp d (Q : Z → fst → Prop) :
  is_dir s dp d → locked s = [] →
  (∀ k st, 0 ≤ k → 16 * k ≤ d.(i_size) → (16 * k < d.(i_size) → (dent s d k).1 = 0) → seen s st → Q (16 * k) st) →
  wp (loop (λ off : Z, d ← geti dp;
        if u32 off <? d.(i_size) then
          r ← readi dp false DE (u32 off) DIRENT_size;
          if negb (r =? DIRENT_size) then panic "dirlink read"
          else ino ← de_inum DE; if ino =? 0 then mret (inr off) else mret (inl (s32 (off + DIRENT_size)))
        else mret (inr off)) 0) Q s.
Proof.
  intros Hd Hlk HQ. pose proof (sz_range _ _ (dr_sized _ _ _ Hd)) as Hs. change (MAXFILE * BSIZE) with 67382272 in Hs.
  pose proof (dr_size _ _ _ Hd) as Hm.
  apply (wp_loop (λ off st, off mod 16 = 0 ∧ 0 ≤ off ≤ d.(i_size) ∧ seen s st) (λ off, d.(i_size) - off)).
  { split_and!; [done|lia|lia|apply seen_refl]. }
  { lia. }
  intros off st (Ho & Hr & Hst) _. eapply wp_geti_bind; [apply (seen_dir _ _ _ _ Hst Hd)|]. rewrite -> u32_small by lia.
  assert (∃ k, off = 16 * k) as [k ->] by (exists (off / 16); lia).
  destruct (Z.ltb_spec (16 * k) d.(i_size)) as [Hlt|Hge]; [|apply wp_ret, HQ; try done; lia].
  apply wp_bind. change DIRENT_size with 16.
  apply (read_dent st dp d k); [by eapply seen_dir|by rw (sn_held _ _ Hst)|lia|lia|].
  intros s1 Hs1 Hino _. simpl. pose proof (seen_trans _ _ _ Hst Hs1) as Hss. rw /de_inum. apply wp_gets_bind. rw Hino.
  assert ((dent st d k).1 = (dent s d k).1) as -> by (rw /dent /= !(seen_byte s st) //).
  destruct (Z.eqb_spec (dent s d k).1 0) as [E|E]; apply wp_ret; [apply HQ; try done; lia|].
  rewrite -> s32_small by lia. split; [|lia]. split_and!; [lia..|done].
Qed.

Lemma dents_split s ip k n : 0 ≤ k < n →
  dent s ip <$> seqZ 0 n = (dent s ip <$> seqZ 0 k) ++ dent s ip k :: (dent s ip <$> seqZ (k + 1) (n - k - 1)).
Proof.
  intros Hk. replace n with (k + (1 + (n - k - 1))) at 1 by lia. rw seqZ_app; [|lia..]. rw fmap_app. f_equal.
  rw seqZ_app; [|lia..]. rw fmap_app. done.
Qed.

(** The entries after the 16 bytes at slot [k] were written. *)
Lemma written_dents s dp d k g s' d' :
  is_dir s dp d → 0 ≤ k → 16 * k ≤ d.(i_size) → d.(i_size) + 16 ≤ MAXFILE * BSIZE →
  written s dp d (16 * k) 16 g s' d' →
  is_dir s' dp d' ∧
  ∃ l1 old l2, dents s d = l1 ++ old ++ l2 ∧ (old = [] ∨ (16 * k < d.(i_size) ∧ old = [dent s d k])) ∧
    dents s' d' = l1 ++ (u8 (g 0) + u8 (g 1) * 2 ^ 8, (λ j, u8 (g (2 + j))) <$> seqZ 0 14) :: l2.
Proof.
  intros [Hf Hsz Ht Hm] Hk Hle Hmax Hw. pose proof (sz_range _ _ Hsz) as Hs.
  change (MAXFILE * BSIZE) with 67382272 in *. pose proof (wn_rest _ _ _ _ _ _ _ _ Hw) as Hrest.
  assert (i_size d' = Z.max (i_size d) (16 * k + 16)) as Hsize by (by rw Hrest).
  assert (∀ j, 0 ≤ j → 16 * j < i_size d' → dent s' d' j = if j =? k then
    (u8 (g 0) + u8 (g 1) * 2 ^ 8, (λ j, u8 (g (2 + j))) <$> seqZ 0 14) else dent s d j) as Hdent.
  { intros j Hj Hlt.
    assert (∀ o, 0 ≤ o < 16 → byte s' d' (16 * j + o) = if j =? k then u8 (g o) else byte s d (16 * j + o)) as Hby.
    { intros o Ho. rw (wn_bytes _ _ _ _ _ _ _ _ Hw); [|change (MAXFILE * BSIZE) with 67382272; lia].
      destruct (Z.eqb_spec j k) as [->|Hne]; [zdec; do 2 f_equal; lia|].
      by assert ((16 * k <=? 16 * j + o) && (16 * j + o <? 16 * k + 16) = false) as -> by (zbool; lia). }
    rw /dent. replace (16 * j) with (16 * j + 0) at 1 by lia. rw !Hby; [|lia..].
    assert (∀ f : Z → Z, (∀ x, 0 ≤ x < 14 → byte s' d' (16 * j + 2 + x) = f x) →
      (λ x, byte s' d' (16 * j + 2 + x)) <$> seqZ 0 14 = f <$> seqZ 0 14) as Hext.
    { intros f Hfx. apply list_fmap_ext. intros ? x Hx. apply lookup_seqZ in Hx as [-> Hx]. apply Hfx. lia. }
    assert (∀ x, 0 ≤ x < 14 → byte s' d' (16 * j + 2 + x) = if j =? k then u8 (g (2 + x)) else byte s d (16 * j + 2 + x)) as Hnm.
    { intros x Hx. replace (16 * j + 2 + x) with (16 * j + (2 + x)) by lia. by rw Hby; [|lia]. }
    destruct (j =? k); apply (f_equal2 pair); [done|by apply Hext|by rw Z.add_0_r|by apply Hext]. }
  split.
  { split; [apply Hw|apply Hw|by rw Hrest|]. rw Hsize. lia. }
  assert (∀ a n, (∀ j, a ≤ j < a + n → j ≠ k ∧ 0 ≤ j ∧ 16 * j < i_size d') → dent s' d' <$> seqZ a n = dent s d <$> seqZ a n) as Hsame.
  { intros a n Hj. apply list_fmap_ext. intros ? x Hx. apply lookup_seqZ in Hx as [-> Hx]. destruct (Hj (a + Z.of_nat i)) as (H1 & H2 & H3); [lia|].
    rw Hdent //. by zdec. }
  assert (dent s' d' k = (u8 (g 0) + u8 (g 1) * 2 ^ 8, (λ j, u8 (g (2 + j))) <$> seqZ 0 14)) as Hk' by (rw Hdent; [by rw Z.eqb_refl|lia..]).
  exists (dent s d <$> seqZ 0 k). rw /dents Hsize. destruct (Z.lt_ge_cases (16 * k) (i_size d)) as [Hlt|Hge].
  - exists [dent s d k], (dent s d <$> seqZ (k + 1) (i_size d / 16 - k - 1)).
    rw (dents_split s d k); [|lia]. split_and!; [done|by right|]. rewrite -> Z.max_l by lia.
    rw (dents_split s' d' k); [|lia]. by rw Hk' !Hsame; [|lia..].
  - assert (i_size d = 16 * k) as -> by lia. exists [], []. rewrite -> Z.max_r by lia.
    replace ((16 * k + 16) / 16) with (k + 1) by lia. replace (16 * k / 16) with k by lia.
    rw (dents_split s' d' k); [|lia]. replace (k + 1 - k - 1) with 0 by lia. rw Hk' Hsame; [|lia].
    rw /= app_nil_r. split_and!; [done|by left|done].
Qed.

(** [dirlookup] finds the first entry with the name.  In a well-formed
    directory it returns that entry's byte offset and an [iget] reference to
    its inode, and nothing when no entry has the name; the disk is untouched. *)
Theorem dirlookup_finds s dp d name :
  is_dir s dp d → locked s = [] → itable_ok s.(itab) → s.(itlock) = false →
  (∃ i ip, s.(itab) !! i = Some ip ∧ ip.(i_ref) = 0) →
  ∃ r s', dirlookup DE dp name s = Ok (r, s') ∧ blks s' = blks s ∧
    match dfind 0 (dents s d) name with
    | None => r = None ∧ s'.(itab) = s.(itab)
    | Some (k, inum) => ∃ i st, r = Some (i, 16 * k) ∧ st.(itab) = s.(itab) ∧ got st d.(i_dev) inum i s'
    end.
Proof.
  intros Hd Hlk Hit Hil Hex. destruct (wp_run _ _ _ (dirlookup_spec s dp d name Hd Hlk Hit Hil Hex)) as (r & s' & Hrun & Hpost).
  exists r, s'. split; [done|]. destruct (dfind 0 (dents s d) name) as [[k inum]|].
  - destruct Hpost as (i & st & -> & Hsn & Hg). split.
    + destruct Hg as (ip & ip' & _ & -> & _). exact (sn_blks _ _ Hsn).
    + exists i, st. split_and!; try done. by rw (sn_rest _ _ Hsn).
  - destruct Hpost as [-> Hsn]. split; [apply Hsn|]. split; [done|]. by rw (sn_rest _ _ Hsn).
Qed.

Lemma dget_dfind l name : dget l name = None ↔ dfind 0 l name = None.
Proof. rw /dget. by destruct (dfind 0 l name). Qed.

(** C32: a directory is a map from names to inode numbers and [dirlink] adds
    one binding.  For a name that is not in the directory it returns 0, and
    afterwards the name, and no other, is bound to the new number; for a name
    that is, it returns -1, drops the reference it took and changes nothing on
    disk. *)
Theorem dirlink_adds s dp d name inum :
  is_dir s dp d → locked s = [] → itable_ok s.(itab) → s.(itlock) = false →
  (∃ i ip, s.(itab) !! i = Some ip ∧ ip.(i_ref) = 0) →
  0 ≤ d.(i_inum) < s.(sb).(sb_ninodes) → 0 < inum < 2 ^ 16 → byte_str name →
  d.(i_size) + 16 ≤ MAXFILE * BSIZE → 3 ≤ nfree s d.(i_dev) → 10 ≤ room s →
  ∃ r s', dirlink DE dp name inum s = Ok (r, s') ∧
    match dget (dents s d) name with
    | None => r = 0 ∧ ∃ d', is_dir s' dp d' ∧ ∀ name', dget (dents s' d') name' =
        if decide (cstr NAMELEN name' = cstr NAMELEN name) then Some inum else dget (dents s d) name'
    | Some _ => r = -1 ∧ blks s' = blks s
    end.
Proof.
  intros Hd Hlk Hit Hil Hex Hdi Hin Hby Hmax Hnf Hrm.
  enough (wp (dirlink DE dp name inum) (λ r s', match dget (dents s d) name with
    | None => r = 0 ∧ ∃ d', is_dir s' dp d' ∧ ∀ name', dget (dents s' d') name' =
        if decide (cstr NAMELEN name' = cstr NAMELEN name) then Some inum else dget (dents s d) name'
    | Some _ => r = -1 ∧ blks s' = blks s
    end) s) as Hwp by (apply wp_run in Hwp as (r & s' & ? & ?); eauto).
  pose proof (sz_range _ _ (dr_sized _ _ _ Hd)) as Hs. change (MAXFILE * BSIZE) with 67382272 in Hs, Hmax.
  rw /dirlink. apply wp_bind. eapply wp_mono; [|exact (dirlookup_spec s dp d name Hd Hlk Hit Hil Hex)].
  intros r s1. destruct (dfind 0 (dents s d) name) as [[k ino]|] eqn:Hfind.
  { assert (dget (dents s d) name = Some ino) as -> by (by rw /dget Hfind). cbv iota. intros (i & st & -> & Hsn & Hg). apply wp_bind.
    assert (st.(itab) = s.(itab)) as Ei by (by rw (sn_rest _ _ Hsn)). destruct Hg as (ip & ip' & Hip & -> & Hcase).
    rewrite -> Ei in Hip. destruct (it_ref _ Hit _ _ Hip) as [Hr0 Hr1].
    eapply wp_mono; [|apply (iput_spec _ i ip')].
    - intros _ s' ->. apply wp_ret. split; [done|]. exact (sn_blks _ _ Hsn).
    - simpl. rw Ei list_lookup_insert_eq //. by eapply lookup_lt_Some.
    - simpl. by rw (sn_rest _ _ Hsn).
    - destruct Hcase as [[(? & _) ->]|(? & -> & _)]; simpl; lia.
    - destruct Hcase as [[(? & _) ->]|(? & -> & _)]; simpl; [left; lia|auto]. }
  intros [-> Hsn]. assert (dget (dents s d) name = None) as Hnone by (by apply dget_dfind). rw Hnone. cbv iota.
  apply wp_bind. apply (find_slot s1 dp d); [by eapply seen_dir|by rw (sn_held _ _ Hsn)|].
  intros k st Hk Hle Hfree Hst. pose proof (seen_trans _ _ _ Hsn Hst) as Hst'.
  apply wp_bind. apply set_de_spec. intros s2 Hs2 Hb2. apply wp_bind. apply set_de_spec. intros s3 Hs3 Hb3.
  pose proof (seen_trans _ _ _ Hst' (seen_trans _ _ _ Hs2 Hs3)) as H3. pose proof (seen_dir _ _ _ _ H3 Hd) as Hd3.
  change DIRENT_size with 16. rewrite -> u32_small by lia. apply wp_bind.
  assert (nblocks (16 * k) 16 = 1) as Hnb by (rw /nblocks; zdec; lia).
  assert (s3.(sb) = s.(sb)) as Sb by (by rw (sn_rest _ _ H3)).
  eapply wp_mono; [|apply (writei_spec s3 dp d false DE (16 * k) 16); try apply Hd3; try lia].
  2: by rw Sb. 2: by rw (sn_held _ _ H3). 2: change (MAXFILE * BSIZE) with 67382272; lia. 2: apply readable_kernel.
  2: rw Hnb /nfree (sn_blks _ _ H3) Sb; fold (nfree s (i_dev d)); lia. 2: rw (sn_room _ _ H3); lia.
  intros r s4 (-> & d' & Hw). change (negb (16 =? 16)) with false. cbv iota. apply wp_ret. split; [done|]. exists d'.
  destruct (written_dents _ _ _ _ _ _ _ Hd3 Hk Hle ltac:(change (MAXFILE * BSIZE) with 67382272; lia) Hw)
    as (Hd4 & l1 & old & l2 & Hl & Hold & ->). split; [done|]. intros name'.
  rewrite -> (seen_dents _ _ _ H3) in Hl. rewrite -> Hl in Hnone |- *.
  destruct (de_bytes (byte_at (xl st) false) (byte_at (xl s2) false) (byte_at (xl s3) false) name inum Hb2 Hb3 Hin) as [-> ->].
  apply dget_add; [done| |lia|].
  - destruct Hold as [->|[Hlt ->]]; [constructor|]. constructor; [|constructor].
    rw -(Hfree Hlt) /dent /=. by rw !(seen_byte s1 s3) //; apply (seen_trans _ _ _ Hst (seen_trans _ _ _ Hs2 Hs3)).
  - rw cstr_u8; [|by apply byte_strncpy]. apply cstr_strncpy.
Qed.
End dir.
End FsDir.

(** ** A directory with the entry ["."] for inode 1 and a free entry. *)
Module DirDemo.
Import FsDir FsProps.FsDemo.

Definition root_dir : inode := MkInode 1 1 1 true true T_DIR 0 0 1 32 (5 :: replicate 12 0).
Definition disk_dir : disk := λ _ n x,
  if (n =? 4) && (x =? 0) then 0x3f else if n =? 5 then (if x =? 0 then 1 else if x =? 2 then 46 else 0) else 0.
Definition s_dir : fst ram (mem * mem) :=
  MkFst sb_demo (root_dir :: replicate 49 inode0) false (MkRam disk_dir [] 30 (λ _ _, false)) (λ _, 7, λ a, a mod 256).
Definition dot : list Z := [46; 0].
Definition lib : list Z := [108; 105; 98; 0].

Lemma dir_fs : fs_ok disk_dir sb_demo 1.
Proof.
  split; [exact demo_layout|]. change (dstart sb_demo) with 5. intros b Hb.
  assert (b = 0 ∨ b = 1 ∨ b = 2 ∨ b = 3 ∨ b = 4) as [->|[->|[->|[->| ->]]]] by lia; by vm_compute.
Qed.

Lemma demo_dir : is_dir s_dir 0 root_dir.
Proof.
  split; [|split|done|done].
  - apply one_file; [done..|exact dir_fs|by vm_compute].
  - by vm_compute.
  - intros bn Hbn Hlt. change (i_size root_dir) with 32 in Hlt. change BSIZE with 1024 in Hlt.
    assert (bn = 0) as -> by lia. by vm_compute.
Qed.

Lemma dir_entry i ip : s_dir.(itab) !! i = Some ip → (i = 0%nat ∧ ip = root_dir) ∨ ip = inode0.
Proof.
  destruct i as [|i]; simpl; intros H; [naive_solver|]. right.
  change (replicate 49 inode0 !! i = Some ip) in H. by apply lookup_replicate in H as [-> _].
Qed.

Lemma dir_table : itable_ok s_dir.(itab).
Proof.
  split; [done| |].
  - intros i ip [[_ ->]| ->]%dir_entry; by vm_compute.
  - assert (∀ dev inum, ¬ refers dev inum inode0) as H0 by (intros ? ? [H _]; by vm_compute in H).
    intros i j ip jp dev inum [[-> ->]| ->]%dir_entry; [|by intros _ ?%H0].
    intros [[-> ->]| ->]%dir_entry Hi Hj; [done|]. by apply H0 in Hj.
Qed.

Lemma dirlookup_finds_witness : ∃ r s', dirlookup 4096 0 dot s_dir = Ok (r, s') ∧ blks s' = blks s_dir ∧
  ∃ i st, r = Some (i, 16 * 0) ∧ st.(itab) = s_dir.(itab) ∧ got st 1 1 i s'.
Proof.
  assert (dfind 0 (dents s_dir root_dir) dot = Some (0, 1)) as E by (vm_compute; reflexivity).
  destruct (dirlookup_finds 4096 ltac:(lia) s_dir 0 root_dir dot) as (r & s' & H);
    [exact demo_dir|done|exact dir_table|done|by exists 1%nat, inode0|].
  rewrite -> E in H. exists r, s'. exact H.
Defined.

Lemma dirlink_adds_witness : ∃ r s', dirlink 4096 0 lib 9 s_dir = Ok (r, s') ∧ r = 0 ∧
  ∃ d', is_dir s' 0 d' ∧ ∀ name', dget (dents s' d') name' =
    if decide (cstr NAMELEN name' = cstr NAMELEN lib) then Some 9 else dget (dents s_dir root_dir) name'.
Proof.
  assert (dget (dents s_dir root_dir) lib = None) as E by (vm_compute; reflexivity).
  assert (byte_str lib) as Hb by (repeat (constructor; [lia|]); constructor).
  assert (0 ≤ 1 < 16 ∧ 0 < 9 < 2 ^ 16) as [H1 H2] by lia.
  assert (i_size root_dir + 16 ≤ MAXFILE * BSIZE) as H3 by (vm_compute; congruence).
  assert (3 ≤ nfree s_dir (i_dev root_dir)) as H4 by (vm_compute; congruence).
  assert (10 ≤ room s_dir) as H5 by (vm_compute; congruence).
  destruct (dirlink_adds 4096 ltac:(lia) s_dir 0 root_dir lib 9 demo_dir eq_refl dir_table eq_refl
    (ex_intro _ 1%nat (ex_intro _ inode0 (conj eq_refl eq_refl))) H1 H2 Hb H3 H4 H5) as (r & s' & H).
  rewrite -> E in H. exists r, s'. exact H.
Defined.
End DirDemo.
