(* ===== verification/File.v ===== *)
(** * The file table and file-descriptor system calls (mmap lab [file.c],
      filesystem lab [sysfile.c])

    The state adds to the file system the file table, the open files and
    current directory of the calling process and its system-call arguments.
    Pipes, devices, the log and string copies from user memory are interfaces:
    their code is not part of the sources.  A struct file is an index of the
    table; a call that would block is an error value of the layer below. *)

From S2P Require Import Prelude Machine Fs.
Import Fs.

Module File.

Definition NFILE : nat := 100.
Definition NDEV : Z := 10.
Definition NOFILE : nat := 16.
Definition MAXPATH : Z := 128.
Definition MAXARG : Z := 32.
Definition MAXOPBLOCKS : Z := 10.
Definition O_RDONLY : Z := 0x000.
Definition O_WRONLY : Z := 0x001.
Definition O_RDWR : Z := 0x002.
Definition O_CREATE : Z := 0x200.
Definition O_TRUNC : Z := 0x400.
Definition O_NOFOLLOW : Z := 0x800.

Inductive ftype := FD_NONE | FD_PIPE | FD_INODE | FD_DEVICE.
#[export] Instance ftype_eq_dec : EqDecision ftype.
Proof. solve_decision. Defined.

Record file := MkFile {
  f_type : ftype; f_ref : Z; f_readable : bool; f_writable : bool;
  f_pipe : nat; f_ip : nat; f_off : Z; f_major : Z;
}.
Definition file0 : file := MkFile FD_NONE 0 false false 0 0 0 0.
Definition set_fref (n : Z) (f : file) : file :=
  MkFile f.(f_type) n f.(f_readable) f.(f_writable) f.(f_pipe) f.(f_ip) f.(f_off) f.(f_major).
Definition set_ftype (t : ftype) (f : file) : file :=
  MkFile t f.(f_ref) f.(f_readable) f.(f_writable) f.(f_pipe) f.(f_ip) f.(f_off) f.(f_major).
Definition set_off (o : Z) (f : file) : file :=
  MkFile f.(f_type) f.(f_ref) f.(f_readable) f.(f_writable) f.(f_pipe) f.(f_ip) o f.(f_major).

(** The code [file.c] and [sysfile.c] call and whose source is elsewhere:
    [log.c], [pipe.c], the device switch, [exec], and string copies. *)
Class KernelCalls (B X O : Type) := {
  begin_op : M B unit;
  end_op : M B unit;
  pipeclose : nat → bool → M O unit;
  piperead : nat → Z → Z → M O Z;
  pipewrite : nat → Z → Z → M O Z;
  (** [pipealloc] makes a pipe; its two files come from [filealloc]. *)
  pipe_new : M O (option nat);
  dev_read : Z → option (bool → Z → Z → M O Z);
  dev_write : Z → option (bool → Z → Z → M O Z);
  (** [fetchstr]: the length and bytes of the user string, or a negative number. *)
  fetchstr : Z → Z → M X (Z * list Z);
  (** [fetchaddr]: the word at a user address. *)
  fetchaddr : Z → M X (Z * Z);
  (** [copyout] to the current process. *)
  copyout : Z → list Z → M X Z;
  exec : list Z → list (list Z) → M O Z;
  (** [kalloc] and [kfree], for the argument pages of [exec]. *)
  kalloc : M O Z;
  kfree : Z → M O unit;
}.

Section file.
Context {B X O : Type} {BL : BufLayer B} {CL : CopyLayer X} {KC : KernelCalls B X O}.
Notation fst := (Fs.fst B X).

Record sst := MkSst {
  fsys : fst;
  ftab : list file;
  ftlock : bool;               (* ftable.lock *)
  ofile : list (option nat);   (* p->ofile *)
  cwd : nat;                   (* p->cwd *)
  args : Z → Z;                (* the argument registers *)
  other : O;
}.
Definition set_fsys (v : fst) (s : sst) : sst := MkSst v s.(ftab) s.(ftlock) s.(ofile) s.(cwd) s.(args) s.(other).
Definition set_ftab (f : list file → list file) (s : sst) : sst :=
  MkSst s.(fsys) (f s.(ftab)) s.(ftlock) s.(ofile) s.(cwd) s.(args) s.(other).
Definition set_ftlock (l : bool) (s : sst) : sst := MkSst s.(fsys) s.(ftab) l s.(ofile) s.(cwd) s.(args) s.(other).
Definition set_ofile (f : list (option nat) → list (option nat)) (s : sst) : sst :=
  MkSst s.(fsys) s.(ftab) s.(ftlock) (f s.(ofile)) s.(cwd) s.(args) s.(other).
Definition set_cwd (i : nat) (s : sst) : sst := MkSst s.(fsys) s.(ftab) s.(ftlock) s.(ofile) i s.(args) s.(other).
Definition set_other (o : O) (s : sst) : sst := MkSst s.(fsys) s.(ftab) s.(ftlock) s.(ofile) s.(cwd) s.(args) o.

Definition F {A} : M fst A → M sst A := lift fsys set_fsys.
Definition Ot {A} : M O A → M sst A := lift other set_other.
Definition Lg {A} (m : M B A) : M sst A := F (Bl m).
Definition Us {A} (m : M X A) : M sst A := F (Xl m).

Definition getf (i : nat) : M sst file := λ s,
  match s.(ftab) !! i with Some f => Ok (f, s) | None => Err (Undef "file pointer") end.
Definition updf (i : nat) (g : file → file) : M sst unit := getf i;; modify (set_ftab (alter g i)).
Definition acquire_ftable : M sst unit :=
  l ← gets ftlock; if (l : bool) then panic "acquire" else modify (set_ftlock true).
Definition release_ftable : M sst unit :=
  l ← gets ftlock; if (l : bool) then modify (set_ftlock false) else panic "release".

(** ** [file.c] *)

Definition fileinit : M sst unit := modify (set_ftlock false).

Definition filealloc : M sst (option nat) :=
  acquire_ftable;;
  r ← for_each (seq 0 NFILE) (λ i,
    f ← getf i;
    if f.(f_ref) =? 0 then
      updf i (set_fref 1);;
      release_ftable;;
      mret (Some i)
    else mret None);
  match r with
  | Some i => mret (Some i)
  | None => release_ftable;; mret None
  end.

Definition filedup (i : nat) : M sst nat :=
  acquire_ftable;;
  f ← getf i;
  if f.(f_ref) <? 1 then panic "filedup"
  else
    updf i (set_fref (s32 (f.(f_ref) + 1)));;
    release_ftable;;
    mret i.

Definition fileclose (i : nat) : M sst unit :=
  acquire_ftable;;
  f ← getf i;
  if f.(f_ref) <? 1 then panic "fileclose"
  else
    updf i (set_fref (s32 (f.(f_ref) - 1)));;
    ff ← getf i;
    if 0 <? ff.(f_ref) then release_ftable
    else
      updf i (set_fref 0);;
      updf i (set_ftype FD_NONE);;
      release_ftable;;
      match ff.(f_type) with
      | FD_PIPE => Ot (pipeclose ff.(f_pipe) ff.(f_writable))
      | FD_INODE | FD_DEVICE => Lg begin_op;; F (iput ff.(f_ip));; Lg end_op
      | FD_NONE => mret tt
      end.

(** The bytes of [struct stat]: [dev], [ino], [type], [nlink], padding, [size]. *)
Definition stat_bytes (st : stat) : list Z :=
  le_bytes 4 st.(st_dev) ++ le_bytes 4 st.(st_ino) ++ le_bytes 2 st.(st_type) ++ le_bytes 2 st.(st_nlink)
  ++ le_bytes 4 0 ++ le_bytes 8 st.(st_size).

Definition filestat (i : nat) (addr : Z) : M sst Z :=
  f ← getf i;
  match f.(f_type) with
  | FD_INODE | FD_DEVICE =>
      F (ilock (Some f.(f_ip)));;
      st ← F (stati f.(f_ip));
      F (iunlock (Some f.(f_ip)));;
      r ← Us (copyout addr (stat_bytes st));
      if r <? 0 then mret (-1) else mret 0
  | _ => mret (-1)
  end.

Definition fileread (i : nat) (addr n : Z) : M sst Z :=
  f ← getf i;
  if negb f.(f_readable) then mret (-1)
  else match f.(f_type) with
  | FD_PIPE => Ot (piperead f.(f_pipe) addr n)
  | FD_DEVICE =>
      if (f.(f_major) <? 0) || (NDEV <=? f.(f_major)) then mret (-1)
      else match dev_read f.(f_major) with
           | None => mret (-1)
           | Some rd => Ot (rd true addr n)
           end
  | FD_INODE =>
      F (ilock (Some f.(f_ip)));;
      r ← F (readi f.(f_ip) true addr f.(f_off) (u32 n));
      when (0 <? r) (updf i (set_off (u32 (f.(f_off) + r))));;
      F (iunlock (Some f.(f_ip)));;
      mret r
  | FD_NONE => panic "fileread"
  end.

Definition filewrite (i : nat) (addr n : Z) : M sst Z :=
  f ← getf i;
  if negb f.(f_writable) then mret (-1)
  else match f.(f_type) with
  | FD_PIPE => Ot (pipewrite f.(f_pipe) addr n)
  | FD_DEVICE =>
      if (f.(f_major) <? 0) || (NDEV <=? f.(f_major)) then mret (-1)
      else match dev_write f.(f_major) with
           | None => mret (-1)
           | Some wr => Ot (wr true addr n)
           end
  | FD_INODE =>
      let max := (MAXOPBLOCKS - 1 - 1 - 2) / 2 * BSIZE in
      k ← loop (λ k : Z,
        if k <? n then
          let n1 := if max <? n - k then max else n - k in
          Lg begin_op;;
          F (ilock (Some f.(f_ip)));;
          f ← getf i;
          r ← F (writei f.(f_ip) true (u64 (addr + k)) f.(f_off) n1);
          when (0 <? r) (updf i (set_off (u32 (f.(f_off) + r))));;
          F (iunlock (Some f.(f_ip)));;
          Lg end_op;;
          if negb (r =? n1) then mret (inr k) else mret (inl (k + r))
        else mret (inr k)) 0;
      mret (if k =? n then n else -1)
  | FD_NONE => panic "filewrite"
  end.

(** ** Descriptors ([sysfile.c]) *)

(** [argint] and [argaddr] read a register and never fail. *)
Definition argint (n : Z) : M sst Z := a ← gets args; mret (s32 (a n)).
Definition argaddr (n : Z) : M sst Z := a ← gets args; mret (u64 (a n)).
Definition argstr (n max : Z) : M sst (Z * list Z) := a ← argaddr n; Us (fetchstr a max).

(** [argfd]: descriptor and file, or nothing for -1. *)
Definition argfd (n : Z) : M sst (option (Z * nat)) :=
  fd ← argint n;
  if (fd <? 0) || (Z.of_nat NOFILE <=? fd) then mret None
  else
    o ← gets ofile;
    match o !! Z.to_nat fd with
    | Some (Some f) => mret (Some (fd, f))
    | Some None => mret None
    | None => undef "ofile index"
    end.

Definition fdalloc (f : nat) : M sst Z :=
  r ← for_each (seq 0 NOFILE) (λ fd,
    o ← gets ofile;
    match o !! fd with
    | Some None => modify (set_ofile (alter (λ _, Some f) fd));; mret (Some (Z.of_nat fd))
    | Some (Some _) => mret None
    | None => undef "ofile index"
    end);
  mret (default (-1) r).

Definition set_fd (fd : Z) (v : option nat) : M sst unit := modify (set_ofile (alter (λ _, v) (Z.to_nat fd))).

Definition sys_dup : M sst Z :=
  a ← argfd 0;
  match a with
  | None => mret (-1)
  | Some (_, f) =>
      fd ← fdalloc f;
      if fd <? 0 then mret (-1) else filedup f;; mret fd
  end.

Definition sys_read : M sst Z :=
  a ← argfd 0;
  n ← argint 2;
  p ← argaddr 1;
  match a with None => mret (-1) | Some (_, f) => fileread f p n end.

Definition sys_write : M sst Z :=
  a ← argfd 0;
  n ← argint 2;
  p ← argaddr 1;
  match a with None => mret (-1) | Some (_, f) => filewrite f p n end.

Definition sys_close : M sst Z :=
  a ← argfd 0;
  match a with
  | None => mret (-1)
  | Some (fd, f) => set_fd fd None;; fileclose f;; mret 0
  end.

Definition sys_fstat : M sst Z :=
  a ← argfd 0;
  st ← argaddr 1;
  match a with None => mret (-1) | Some (_, f) => filestat f st end.

(** [pipealloc] of [pipe.c] takes two files and a new pipe. *)
Definition pipealloc : M sst (option (nat * nat)) :=
  rf ← filealloc;
  match rf with
  | None => mret None
  | Some rf =>
      wf ← filealloc;
      match wf with
      | None => fileclose rf;; mret None
      | Some wf =>
          p ← Ot pipe_new;
          match p with
          | None => fileclose rf;; fileclose wf;; mret None
          | Some p =>
              updf rf (λ f, MkFile FD_PIPE f.(f_ref) true false p f.(f_ip) f.(f_off) f.(f_major));;
              updf wf (λ f, MkFile FD_PIPE f.(f_ref) false true p f.(f_ip) f.(f_off) f.(f_major));;
              mret (Some (rf, wf))
          end
      end
  end.

Definition sys_pipe : M sst Z :=
  fdarray ← argaddr 0;
  p ← pipealloc;
  match p with
  | None => mret (-1)
  | Some (rf, wf) =>
      fd0 ← fdalloc rf;
      fd1 ← (if fd0 <? 0 then mret (-1) else fdalloc wf);
      if (fd0 <? 0) || (fd1 <? 0) then
        when (0 <=? fd0) (set_fd fd0 None);;
        fileclose rf;;
        fileclose wf;;
        mret (-1)
      else
        r0 ← Us (copyout fdarray (le_bytes 4 fd0));
        r1 ← (if r0 <? 0 then mret (-1) else Us (copyout (u64 (fdarray + 4)) (le_bytes 4 fd1)));
        if (r0 <? 0) || (r1 <? 0) then
          set_fd fd0 None;;
          set_fd fd1 None;;
          fileclose rf;;
          fileclose wf;;
          mret (-1)
        else mret 0
  end.
End file.
Arguments sst : clear implicits.
End File.
