(* ===== verification/Sysfile.v ===== *)
(** * File-system system calls (filesystem lab, [sysfile.c])

    [sys_link], [sys_unlink], [create], symbolic links, [sys_open] and the rest,
    over the file table and the file system.  [DE] and [TG] are the kernel
    addresses of the local variables [de] and [target]; [goto bad] is the
    definition that follows the label. *)

From S2P Require Import Prelude Machine Fs File.
Import Fs File.

Module Sysfile.

Section sysfile.
Context {B X O : Type} {BL : BufLayer B} {CL : CopyLayer X} {KC : KernelCalls B X O}.
Variables (DE TG : Z).
Notation sst := (sst B X O).

Definition dot : list Z := [46].
Definition dotdot : list Z := [46; 46].
(** The current directory is that of the process. *)
Definition p_namei (path : list Z) : M sst (option nat) := c ← gets cwd; F (namei DE c path).
Definition p_nameiparent (path : list Z) : M sst (option nat * list Z) :=
  c ← gets cwd; F (nameiparent DE c path (replicate (Z.to_nat DIRSIZ) 0)).
Definition bump_nlink (i : nat) (d : Z) : M sst unit :=
  ip ← F (geti i); F (updi i (set_nlink (s16 (ip.(i_nlink) + d)))).
(** The C string at a kernel address, in a buffer of [n] bytes. *)
Fixpoint until_nul (l : list Z) : option (list Z) :=
  match l with [] => None | c :: l => if c =? 0 then Some [] else c' ← until_nul l; Some (c :: c') end.
Definition kernel_str (a n : Z) : M sst (list Z) :=
  bs ← gets (λ s, kernel_bytes s.(fsys).(xl) a n);
  match until_nul bs with Some str => mret str | None => undef "unterminated string" end.

Definition sys_link : M sst Z :=
  '(n0, old) ← argstr 0 MAXPATH;
  if n0 <? 0 then mret (-1) else
  '(n1, new) ← argstr 1 MAXPATH;
  if n1 <? 0 then mret (-1) else
  Lg begin_op;;
  ip ← p_namei old;
  match ip with
  | None => Lg end_op;; mret (-1)
  | Some ip =>
      F (ilock (Some ip));;
      d ← F (geti ip);
      if d.(i_type) =? T_DIR then
        F (iunlockput ip);; Lg end_op;; mret (-1)
      else
        bump_nlink ip 1;;
        F (iupdate ip);;
        F (iunlock (Some ip));;
        '(dp, name) ← p_nameiparent new;
        let bad :=
          F (ilock (Some ip));;
          bump_nlink ip (-1);;
          F (iupdate ip);;
          F (iunlockput ip);;
          Lg end_op;;
          mret (-1) in
        match dp with
        | None => bad
        | Some dp =>
            F (ilock (Some dp));;
            dd ← F (geti dp);
            ii ← F (geti ip);
            r ← (if negb (dd.(i_dev) =? ii.(i_dev)) then mret (-1) else F (dirlink DE dp name ii.(i_inum)));
            if r <? 0 then F (iunlockput dp);; bad
            else
              F (iunlockput dp);;
              F (iput ip);;
              Lg end_op;;
              mret 0
        end
  end.

Definition isdirempty (dp : nat) : M sst Z :=
  F (loop (λ off : Z,
    d ← geti dp;
    if u32 off <? d.(i_size) then
      r ← readi dp false DE (u32 off) DIRENT_size;
      if negb (r =? DIRENT_size) then panic "isdirempty: readi"
      else
        inum ← de_inum DE;
        if negb (inum =? 0) then mret (inr 0) else mret (inl (s32 (off + DIRENT_size)))
    else mret (inr 1)) (2 * DIRENT_size)).

Definition sys_unlink : M sst Z :=
  '(n, path) ← argstr 0 MAXPATH;
  if n <? 0 then mret (-1) else
  Lg begin_op;;
  '(dp, name) ← p_nameiparent path;
  match dp with
  | None => Lg end_op;; mret (-1)
  | Some dp =>
      F (ilock (Some dp));;
      let bad := F (iunlockput dp);; Lg end_op;; mret (-1) in
      if (namecmp name dot =? 0) || (namecmp name dotdot =? 0) then bad
      else
        e ← F (dirlookup DE dp name);
        match e with
        | None => bad
        | Some (ip, off) =>
            F (ilock (Some ip));;
            i ← F (geti ip);
            if i.(i_nlink) <? 1 then panic "unlink: nlink < 1"
            else
              empty ← (if i.(i_type) =? T_DIR then isdirempty ip else mret 1);
              if (i.(i_type) =? T_DIR) && (empty =? 0) then F (iunlockput ip);; bad
              else
                F (set_de DE (replicate (Z.to_nat DIRENT_size) 0));;
                r ← F (writei dp false DE off DIRENT_size);
                if negb (r =? DIRENT_size) then panic "unlink: writei"
                else
                  when (i.(i_type) =? T_DIR) (bump_nlink dp (-1);; F (iupdate dp));;
                  F (iunlockput dp);;
                  bump_nlink ip (-1);;
                  F (iupdate ip);;
                  F (iunlockput ip);;
                  Lg end_op;;
                  mret 0
        end
  end.

(** [create] returns the new or existing inode, locked, or 0. *)
Definition create (path : list Z) (type major minor : Z) : M sst (option nat) :=
  '(dp, name) ← p_nameiparent path;
  match dp with
  | None => mret None
  | Some dp =>
      F (ilock (Some dp));;
      e ← F (dirlookup DE dp name);
      match e with
      | Some (ip, _) =>
          F (iunlockput dp);;
          F (ilock (Some ip));;
          i ← F (geti ip);
          if (type =? T_FILE) && ((i.(i_type) =? T_FILE) || (i.(i_type) =? T_DEVICE)) then mret (Some ip)
          else F (iunlockput ip);; mret None
      | None =>
          d ← F (geti dp);
          ip ← F (ialloc d.(i_dev) type);
          F (ilock (Some ip));;
          F (updi ip (λ i, MkInode i.(i_dev) i.(i_inum) i.(i_ref) i.(i_locked) i.(i_valid) i.(i_type)
                             (s16 major) (s16 minor) 1 i.(i_size) i.(i_addrs)));;
          F (iupdate ip);;
          i ← F (geti ip);
          when (type =? T_DIR) (
            bump_nlink dp 1;;
            F (iupdate dp);;
            r ← F (dirlink DE ip dot i.(i_inum));
            r' ← (if r <? 0 then mret r else F (dirlink DE ip dotdot d.(i_inum)));
            if r' <? 0 then panic "create dots" else mret tt);;
          r ← F (dirlink DE dp name i.(i_inum));
          if r <? 0 then panic "create: dirlink"
          else F (iunlockput dp);; mret (Some ip)
      end
  end.

(** [getsymlink] follows at most ten links; [None] is -1. *)
Definition getsymlink (ip : nat) : M sst (option nat) :=
  r ← loop (λ '(p, cnt),
    F (readi p false TG 0 MAXPATH);;
    target ← kernel_str TG MAXPATH;
    F (iunlockput p);;
    q ← p_namei target;
    match q with
    | None => mret (inr None)
    | Some q =>
        let cnt := cnt + 1 in
        F (ilock (Some q));;
        i ← F (geti q);
        if (cnt <? 10) && (i.(i_type) =? T_SYMLINK) then mret (inl (q, cnt))
        else mret (inr (Some (q, cnt)))
    end) (ip, 0);
  match r with
  | None => mret None
  | Some (q, cnt) => if cnt =? 10 then mret None else mret (Some q)
  end.

Definition sys_open : M sst Z :=
  '(n, path) ← argstr 0 MAXPATH;
  if n <? 0 then mret (-1) else
  omode ← argint 1;
  Lg begin_op;;
  ip ← (if negb (Z.land omode O_CREATE =? 0) then
          ip ← create path T_FILE 0 0;
          match ip with None => Lg end_op;; mret None | Some ip => mret (Some ip) end
        else
          ip ← p_namei path;
          match ip with
          | None => Lg end_op;; mret None
          | Some ip =>
              F (ilock (Some ip));;
              i ← F (geti ip);
              if (i.(i_type) =? T_DIR) && negb (omode =? O_RDONLY) then
                F (iunlockput ip);; Lg end_op;; mret None
              else if (i.(i_type) =? T_SYMLINK) && negb (omode =? O_NOFOLLOW) then
                r ← getsymlink ip;
                match r with None => Lg end_op;; mret None | Some ip => mret (Some ip) end
              else mret (Some ip)
          end);
  match ip with
  | None => mret (-1)
  | Some ip =>
      i ← F (geti ip);
      if (i.(i_type) =? T_DEVICE) && ((i.(i_major) <? 0) || (NDEV <=? i.(i_major))) then
        F (iunlockput ip);; Lg end_op;; mret (-1)
      else
        f ← filealloc;
        fd ← match f with None => mret (-1) | Some f => fdalloc f end;
        match f with
        | Some f =>
            if fd <? 0 then
              fileclose f;; F (iunlockput ip);; Lg end_op;; mret (-1)
            else
              updf f (λ x,
                let rd := Z.land omode O_WRONLY =? 0 in
                let wr := negb (Z.land omode O_WRONLY =? 0) || negb (Z.land omode O_RDWR =? 0) in
                if i.(i_type) =? T_DEVICE
                then MkFile FD_DEVICE x.(f_ref) rd wr x.(f_pipe) ip x.(f_off) i.(i_major)
                else MkFile FD_INODE x.(f_ref) rd wr x.(f_pipe) ip 0 x.(f_major));;
              when (negb (Z.land omode O_TRUNC =? 0) && (i.(i_type) =? T_FILE)) (F (itrunc ip));;
              F (iunlock (Some ip));;
              Lg end_op;;
              mret fd
        | None => F (iunlockput ip);; Lg end_op;; mret (-1)
        end
  end.

Definition sys_mkdir : M sst Z :=
  Lg begin_op;;
  '(n, path) ← argstr 0 MAXPATH;
  ip ← (if n <? 0 then mret None else create path T_DIR 0 0);
  match ip with
  | None => Lg end_op;; mret (-1)
  | Some ip => F (iunlockput ip);; Lg end_op;; mret 0
  end.

Definition sys_mknod : M sst Z :=
  Lg begin_op;;
  '(n, path) ← argstr 0 MAXPATH;
  major ← argint 1;
  minor ← argint 2;
  ip ← (if n <? 0 then mret None else create path T_DEVICE (s16 major) (s16 minor));
  match ip with
  | None => Lg end_op;; mret (-1)
  | Some ip => F (iunlockput ip);; Lg end_op;; mret 0
  end.

Definition sys_chdir : M sst Z :=
  Lg begin_op;;
  '(n, path) ← argstr 0 MAXPATH;
  ip ← (if n <? 0 then mret None else p_namei path);
  match ip with
  | None => Lg end_op;; mret (-1)
  | Some ip =>
      F (ilock (Some ip));;
      i ← F (geti ip);
      if negb (i.(i_type) =? T_DIR) then F (iunlockput ip);; Lg end_op;; mret (-1)
      else
        F (iunlock (Some ip));;
        c ← gets cwd;
        F (iput c);;
        Lg end_op;;
        modify (set_cwd ip);;
        mret 0
  end.

(** [for(i = 0; i < NELEM(argv) && argv[i] != 0; i++) kfree(argv[i]);] *)
Definition free_argv (pages : list Z) : M sst unit :=
  for_each (R := unit) pages (λ a, Ot (kfree a);; mret None);; mret tt.

(** The loop carries the pages of [argv] and the strings in them; leaving it
    with no strings is [goto bad]. *)
Definition sys_exec : M sst Z :=
  '(n, path) ← argstr 0 MAXPATH;
  uargv ← argaddr 1;
  if n <? 0 then mret (-1) else
  '(pages, argv) ← loop (λ '(i, pages, strs),
    if MAXARG <=? i then mret (inr (pages, None))
    else
      '(r, uarg) ← Us (fetchaddr (u64 (uargv + 8 * i)));
      if r <? 0 then mret (inr (pages, None))
      else if uarg =? 0 then mret (inr (pages, Some strs))
      else
        a ← Ot kalloc;
        if a =? 0 then mret (inr (pages, None))
        else
          '(r, str) ← Us (fetchstr uarg PGSIZE);
          if r <? 0 then mret (inr (pages ++ [a], None))
          else mret (inl (i + 1, pages ++ [a], strs ++ [str]))) (0, [], []);
  match argv with
  | None => free_argv pages;; mret (-1)
  | Some argv => ret ← Ot (exec path argv); free_argv pages;; mret ret
  end.

Definition sys_symlink : M sst Z :=
  '(n0, target) ← argstr 0 MAXPATH;
  if n0 <? 0 then mret (-1) else
  '(n1, path) ← argstr 1 MAXPATH;
  if n1 <? 0 then mret (-1) else
  Lg begin_op;;
  '(dp, name) ← p_nameiparent path;
  match dp with
  | None => Lg end_op;; mret (-1)
  | Some dp =>
      d ← F (geti dp);
      sp ← F (ialloc d.(i_dev) T_SYMLINK);
      F (ilock (Some sp));;
      F (set_de TG (target ++ [0]));;
      r ← F (writei sp false TG 0 MAXPATH);
      if negb (r =? MAXPATH) then
        F (iunlockput sp);; F (iput dp);; Lg end_op;; mret (-1)
      else
        F (ilock (Some dp));;
        s ← F (geti sp);
        r ← F (dirlink DE dp name s.(i_inum));
        if r <? 0 then
          F (iunlockput dp);; F (iunlockput sp);; Lg end_op;; mret (-1)
        else
          F (iunlockput dp);;
          bump_nlink sp 1;;
          F (iupdate sp);;
          F (iunlockput sp);;
          Lg end_op;;
          mret 0
  end.
End sysfile.
End Sysfile.
