(* ===== verification/FileProps.v ===== *)
(** * Descriptors and file reference counts

    A struct file is referred to by descriptors of the calling process and by
    others (other processes, mappings).  The reference count of every file
    equals the number of its references, across every system call that opens,
    duplicates or closes descriptors, on all their error paths. *)

From S2P Require Import Prelude Machine Fs FsProps File Sysfile.
Import Fs File Sysfile.

Module FileProps.

Definition cnt (f : nat) (l : list (option nat)) : Z := Z.of_nat (length (filter (λ o, o = Some f) l)).
Definition bump (f : nat) (d : Z) (e : nat → Z) : nat → Z := λ g, if decide (g = f) then e g + d else e g.

Lemma cnt_alter f l fd v old : l !! fd = Some old →
  cnt f (alter (λ _, v) fd l) = cnt f l - (if decide (old = Some f) then 1 else 0) + (if decide (v = Some f) then 1 else 0).
Proof.
  intros Hl. rw /cnt -(take_drop_middle _ _ _ Hl).
  assert (fd = length (take fd l)) as E by (rw length_take; apply lookup_lt_Some in Hl; lia).
  rw {1}E. clear E. generalize (take fd l), (drop (S fd) l). intros l1 l2.
  rw alter_app_r_alt; [|lia]. rw Nat.sub_diag /= !filter_app !filter_cons !length_app.
  repeat case_decide; simpl; lia.
Qed.

(** A loop over the indices below [n]; the invariant holds at index [i]. *)
Lemma wlp_for_seq {S R} (I : nat → S → Prop) (Q : R → S → Prop) n (body : nat → M S (option R)) s :
  I 0%nat s →
  (∀ i s, (i < n)%nat → I i s →
     wlp (body i) (λ x s', match x with None => I (Datatypes.S i) s' | Some r => Q r s' end) s) →
  wlp (for_each (seq 0 n) body) (λ x s', match x with None => I n s' | Some r => Q r s' end) s.
Proof.
  intros HI Hb.
  enough (∀ m i s, (i + m = n)%nat → I i s →
    wlp (for_each (seq i m) body) (λ x s', match x with None => I n s' | Some r => Q r s' end) s) as H by by apply H.
  induction m as [|m IH]; intros i s' Hi HI'; simpl.
  - apply wlp_ret. by replace n with i by lia.
  - apply wlp_bind. eapply wlp_mono; [|apply Hb; [lia|done]]. intros [r|] s'' H; [done|]. apply IH; [lia|done].
Qed.

Section props.
Context {B X O : Type} {BL : BufLayer B} {CL : CopyLayer X} {KC : KernelCalls B X O}.
Notation sst := (sst B X O).
Implicit Types (s : sst) (e : nat → Z).

(** [e f] counts the references to file [f] that are not descriptors. *)
Record counted s e : Prop := {
  cn_ref f x : s.(ftab) !! f = Some x → x.(f_ref) = s32 (cnt f s.(ofile) + e f);
  cn_ptr fd f : s.(ofile) !! fd = Some (Some f) → (f < NFILE)%nat;
  cn_len : length s.(ftab) = NFILE;
}.

Lemma counted_ext s e e' : (∀ f, e f = e' f) → counted s e → counted s e'.
Proof. intros E [H1 H2 H3]. split; [|done..]. intros f x Hx. rw -E. by apply H1. Qed.

Lemma counted_frame s s' e : s'.(ftab) = s.(ftab) → s'.(ofile) = s.(ofile) → counted s e → counted s' e.
Proof. intros E1 E2 [H1 H2 H3]. split; rw ?E1 ?E2 //. Qed.

(** Changing a file without touching its count. *)
Lemma counted_updf s i g e : (∀ x, (g x).(f_ref) = x.(f_ref)) → counted s e → wlp (updf i g) (λ _ s', counted s' e ∧ s'.(ofile) = s.(ofile)) s.
Proof.
  intros Hg [H1 H2 H3]. rw /updf /wlp /mbind /M_bind /getf. destruct (ftab s !! i) as [x|] eqn:E; [|done].
  split; [|done]. split; simpl.
  - intros f y [(<- & z & Hz & ->)|[_ Hy]]%lookup_alter_inv; [rw Hg|]; by apply H1.
  - done.
  - by rw length_alter.
Qed.

(** Setting the count of file [i] to its old value plus [d]. *)
Lemma counted_bump s i x n d e :
  s.(ftab) !! i = Some x → n = s32 (x.(f_ref) + d) → counted s e →
  counted (set_ftab (alter (set_fref n) i) s) (bump i d e).
Proof.
  intros Hx -> [H1 H2 H3]. split; simpl.
  - intros f y [(<- & z & Hz & ->)|[Hne Hy]]%lookup_alter_inv; simplify_eq; simpl.
    + rw (H1 _ _ Hx) /bump. rewrite decide_True //. rw /s32. lia.
    + rw (H1 _ _ Hy) /bump. by rewrite decide_False.
  - done.
  - by rw length_alter.
Qed.

Lemma wlp_F {A} (m : M (fst B X) A) (Q : A → sst → Prop) s :
  (∀ a v, Q a (set_fsys v s)) → wlp (F m) Q s.
Proof. intros H. apply wlp_lift, wlp_of_run. intros a v _. apply H. Qed.
Lemma wlp_Ot {A} (m : M O A) (Q : A → sst → Prop) s : (∀ a v, Q a (set_other v s)) → wlp (Ot m) Q s.
Proof. intros H. apply wlp_lift, wlp_of_run. intros a v _. apply H. Qed.

(** Programs that leave the file table and the descriptors alone. *)
Definition stable {A} (m : M sst A) : Prop :=
  ∀ s, wlp m (λ _ s', s'.(ftab) = s.(ftab) ∧ s'.(ofile) = s.(ofile)) s.

Lemma wlp_stable {A} (m : M sst A) s e (Q : A → sst → Prop) :
  stable m → counted s e → (∀ a s', counted s' e → s'.(ofile) = s.(ofile) → Q a s') → wlp m Q s.
Proof.
  intros Hm Hc HQ. eapply wlp_mono; [|apply Hm]. intros a s' [E1 E2]. apply HQ; [|done]. by apply (counted_frame s).
Qed.

Lemma stable_ret {A} (a : A) : stable (mret a). Proof. done. Qed.
Lemma stable_panic {A} w : stable (panic w : M sst A). Proof. done. Qed.
Lemma stable_undef {A} w : stable (undef w : M sst A). Proof. done. Qed.
Lemma stable_gets {A} (g : sst → A) : stable (gets g). Proof. done. Qed.
Lemma stable_bind {A C} (m : M sst A) (k : A → M sst C) : stable m → (∀ a, stable (k a)) → stable (m ≫= k).
Proof.
  intros Hm Hk s. apply wlp_bind. eapply wlp_mono; [|apply Hm]. intros a s1 [E1 E2].
  eapply wlp_mono; [|apply Hk]. intros b s2 [E3 E4]. split; congruence.
Qed.
Lemma stable_F {A} (m : M (fst B X) A) : stable (F m). Proof. intros s. by apply wlp_F. Qed.
Lemma stable_Ot {A} (m : M O A) : stable (Ot m). Proof. intros s. by apply wlp_Ot. Qed.
Lemma stable_when b (m : M sst unit) : stable m → stable (when b m).
Proof. by destruct b. Qed.
Lemma stable_loop {A R} (body : A → M sst (A + R)) a : (∀ a, stable (body a)) → stable (loop body a).
Proof.
  intros Hb s. apply (wlp_loop (λ _ s', s'.(ftab) = s.(ftab) ∧ s'.(ofile) = s.(ofile))); [|done].
  intros a' s1 [E1 E2]. eapply wlp_mono; [|apply Hb]. intros [] s2 [E3 E4]; split; congruence.
Qed.
Lemma stable_cwd i : stable (modify (set_cwd i)). Proof. done. Qed.
#[local] Create HintDb stable.
Ltac stable := repeat (intros;
  lazymatch goal with
  | |- stable (mbind _ _) => apply stable_bind
  | |- stable (mret _) => apply stable_ret
  | |- stable (panic _) => apply stable_panic
  | |- stable (undef _) => apply stable_undef
  | |- stable (gets _) => apply stable_gets
  | |- stable (F _) => apply stable_F
  | |- stable (Lg _) => apply stable_F
  | |- stable (Us _) => apply stable_F
  | |- stable (Ot _) => apply stable_Ot
  | |- stable (modify (set_cwd _)) => apply stable_cwd
  | |- stable (when _ _) => apply stable_when
  | |- stable (loop _ _) => apply stable_loop
  | |- stable (match ?x with _ => _ end) => destruct x
  | |- stable _ => solve [auto with stable]
  end).

Lemma wlp_getf i (Q : file → sst → Prop) s : (∀ x, s.(ftab) !! i = Some x → Q x s) → wlp (getf i) Q s.
Proof. intros H. rw /wlp /getf. destruct (ftab s !! i) eqn:E; [by apply H|done]. Qed.
Lemma wlp_acquire_ft s e (Q : unit → sst → Prop) : counted s e → (∀ s', counted s' e → s'.(ftab) = s.(ftab) → s'.(ofile) = s.(ofile) → Q tt s') → wlp acquire_ftable Q s.
Proof. intros H HQ. rw /acquire_ftable. apply wlp_bind, wlp_gets. destruct (ftlock s); [done|]. apply wlp_modify, HQ; [by apply (counted_frame s)|done..]. Qed.
Lemma wlp_release_ft s e (Q : unit → sst → Prop) : counted s e → (∀ s', counted s' e → s'.(ftab) = s.(ftab) → s'.(ofile) = s.(ofile) → Q tt s') → wlp release_ftable Q s.
Proof. intros H HQ. rw /release_ftable. apply wlp_bind, wlp_gets. destruct (ftlock s); [|done]. apply wlp_modify, HQ; [by apply (counted_frame s)|done..]. Qed.
Lemma wlp_fref i n d e x (Q : unit → sst → Prop) s :
  s.(ftab) !! i = Some x → n = s32 (x.(f_ref) + d) → counted s e →
  (∀ s', counted s' (bump i d e) → s'.(ftab) = alter (set_fref n) i s.(ftab) → s'.(ofile) = s.(ofile) → Q tt s') → wlp (updf i (set_fref n)) Q s.
Proof.
  intros Hx Hn Hc HQ. rw /updf. apply wlp_bind, wlp_getf. intros y _. apply wlp_modify, HQ; [by eapply counted_bump|done..].
Qed.

(** ** The operations of [file.c] *)

Lemma filealloc_counted s e : counted s e →
  wlp filealloc (λ r s', match r with
    | Some f => counted s' (bump f 1 e) ∧ (f < NFILE)%nat
    | None => counted s' e end ∧ s'.(ofile) = s.(ofile)) s.
Proof.
  intros Hc. rw /filealloc. apply wlp_bind. apply (wlp_acquire_ft s e); [done|]. intros s1 H1 T1 O1. apply wlp_bind.
  eapply wlp_mono; [|apply (wlp_for_each (λ _ s', counted s' e ∧ s'.(ofile) = s.(ofile))
    (λ f s', counted s' (bump f 1 e) ∧ (f < NFILE)%nat ∧ s'.(ofile) = s.(ofile))); [done|]].
  - intros [f|] s2 H2; [by apply wlp_ret; naive_solver|]. destruct H2 as [H2 O2].
    apply wlp_bind. apply (wlp_release_ft s2 e); [done|]. intros s3 H3 _ O3. apply wlp_ret. split; [done|congruence].
  - intros dn f s2 _ [H2 O2]. apply wlp_bind, wlp_getf. intros x Hx. destruct (Z.eqb_spec x.(f_ref) 0) as [E|E]; [|by apply wlp_ret].
    apply wlp_bind. apply (wlp_fref f 1 1 e x); [done|by rw E|done|]. intros s3 H3 T3 O3. apply wlp_bind.
    apply (wlp_release_ft s3 _ _ H3). intros s4 H4 T4 O4. apply wlp_ret. split_and!; [done| |congruence].
    rw -(cn_len _ _ H2). by eapply lookup_lt_Some.
Qed.

Lemma filedup_counted s e f : counted s e →
  wlp (filedup f) (λ _ s', counted s' (bump f 1 e) ∧ s'.(ofile) = s.(ofile)) s.
Proof.
  intros Hc. rw /filedup. apply wlp_bind. apply (wlp_acquire_ft s e); [done|]. intros s1 H1 T1 O1.
  apply wlp_bind, wlp_getf. intros x Hx. destruct (_ <? 1); [apply wlp_panic|].
  apply wlp_bind. apply (wlp_fref f _ 1 e x); [done..|]. intros s2 H2 T2 O2. apply wlp_bind.
  apply (wlp_release_ft s2 _ _ H2). intros s3 H3 T3 O3. apply wlp_ret. split; [done|congruence].
Qed.

Lemma fileclose_counted s e f : counted s (bump f 1 e) →
  wlp (fileclose f) (λ _ s', counted s' e ∧ s'.(ofile) = s.(ofile)) s.
Proof.
  intros Hc. rw /fileclose. apply wlp_bind. apply (wlp_acquire_ft s _ _ Hc). intros s1 H1 T1 O1.
  apply wlp_bind, wlp_getf. intros x Hx. destruct (Z.ltb_spec x.(f_ref) 1); [apply wlp_panic|].
  apply wlp_bind. apply (wlp_fref f _ (-1) _ x _ _ Hx eq_refl H1). intros s2 H2 T2 O2.
  apply (counted_ext _ _ e) in H2; [|by intros g; rw /bump; case_decide; lia].
  apply wlp_bind, wlp_getf. intros y Hy.
  assert (y.(f_ref) = x.(f_ref) - 1) as Ey.
  { rw T2 list_lookup_alter_eq Hx in Hy. injection Hy as <-. simpl. rw (cn_ref _ _ H1 _ _ Hx).
    pose proof (cn_ref _ _ H1 _ _ Hx). pose proof (s32_range (cnt f s1.(ofile) + bump f 1 e f)). apply s32_small. lia. }
  destruct (Z.ltb_spec 0 y.(f_ref)).
  { apply (wlp_release_ft s2 e); [done|]. intros. split; [done|congruence]. }
  apply wlp_bind. apply (wlp_fref f 0 0 e y); [done|by replace (f_ref y) with 0 by lia|done|]. intros s3 H3 T3 O3.
  apply (counted_ext _ _ e) in H3; [|by intros g; rw /bump; case_decide; lia].
  apply wlp_bind. eapply wlp_mono; [|by apply (counted_updf s3 f (set_ftype FD_NONE) e)]. intros [] s4 [H4 O4].
  apply wlp_bind. apply (wlp_release_ft s4 e); [done|]. intros s5 H5 _ O5.
  eapply wlp_stable; [|done|].
  - destruct (f_type y); stable.
  - intros ? s6 H6 O6. split; [done|congruence].
Qed.

(** ** Descriptors *)

Lemma argfd_spec n s (Q : option (Z * nat) → sst → Prop) :
  (∀ fd f, 0 ≤ fd → s.(ofile) !! Z.to_nat fd = Some (Some f) → Q (Some (fd, f)) s) → Q None s → wlp (argfd n) Q s.
Proof.
  intros H1 H2. rw /argfd /argint. do 2 apply wlp_bind. apply wlp_gets, wlp_ret.
  destruct (Z.ltb_spec (s32 (args s n)) 0); [by apply wlp_ret|]. destruct (_ <=? _); [by apply wlp_ret|].
  apply wlp_bind, wlp_gets. destruct (_ !! _) as [[f|]|] eqn:E; [by apply wlp_ret, H1|by apply wlp_ret|done].
Qed.

(** Storing [v] in a descriptor that holds [old] moves one reference each way. *)
Lemma counted_set_fd s e fd old v :
  s.(ofile) !! fd = Some old → (∀ f, v = Some f → (f < NFILE)%nat) → counted s e →
  counted (set_ofile (alter (λ _, v) fd) s)
    (λ g, e g + (if decide (old = Some g) then 1 else 0) - (if decide (v = Some g) then 1 else 0)).
Proof.
  intros Ho Hv [H1 H2 H3]. split; simpl.
  - intros f x Hx. rw (H1 _ _ Hx) (cnt_alter _ _ _ _ _ Ho). f_equal. lia.
  - intros fd' f [(_ & y & _ & E)|[_ Hf]]%lookup_alter_inv; [by apply Hv|by eapply H2].
  - done.
Qed.

Lemma wlp_set_fd fd old v s e e' (Q : unit → sst → Prop) :
  s.(ofile) !! Z.to_nat fd = Some old → (∀ f, v = Some f → (f < NFILE)%nat) → counted s e →
  (∀ g, e' g = e g + (if decide (old = Some g) then 1 else 0) - (if decide (v = Some g) then 1 else 0)) →
  (∀ s', counted s' e' → s'.(ofile) = alter (λ _, v) (Z.to_nat fd) s.(ofile) → s'.(ftab) = s.(ftab) → Q tt s') → wlp (set_fd fd v) Q s.
Proof.
  intros Ho Hv Hc He HQ. rw /set_fd. apply wlp_modify, HQ; [|done..].
  eapply counted_ext; [|by eapply counted_set_fd]. done.
Qed.

(** [fdalloc] takes the lowest free descriptor. *)
Lemma fdalloc_counted s e f : counted s (bump f 1 e) → (f < NFILE)%nat →
  wlp (fdalloc f) (λ r s',
    (r = -1 ∧ s' = s ∧ ∀ i, (i < NOFILE)%nat → ∃ g, s.(ofile) !! i = Some (Some g))
    ∨ (0 ≤ r ∧ (Z.to_nat r < NOFILE)%nat ∧ s.(ofile) !! Z.to_nat r = Some None
       ∧ (∀ i, (i < Z.to_nat r)%nat → ∃ g, s.(ofile) !! i = Some (Some g))
       ∧ counted s' e ∧ s'.(ftab) = s.(ftab) ∧ s'.(ofile) = alter (λ _, Some f) (Z.to_nat r) s.(ofile))) s.
Proof.
  intros Hc Hf. rw /fdalloc. apply wlp_bind.
  eapply wlp_mono; [|apply (wlp_for_seq (λ n s', s' = s ∧ ∀ i, (i < n)%nat → ∃ g, s.(ofile) !! i = Some (Some g))
    (λ r s', 0 ≤ r ∧ (Z.to_nat r < NOFILE)%nat ∧ s.(ofile) !! Z.to_nat r = Some None
       ∧ (∀ i, (i < Z.to_nat r)%nat → ∃ g, s.(ofile) !! i = Some (Some g))
       ∧ counted s' e ∧ s'.(ftab) = s.(ftab) ∧ s'.(ofile) = alter (λ _, Some f) (Z.to_nat r) s.(ofile)))].
  - intros [r|] s'; intros H; apply wlp_ret; [by right|]. destruct H as [-> H]. by left.
  - split; [done|]. lia.
  - intros fd s' Hs [-> Hd]. apply wlp_bind, wlp_gets. destruct (_ !! _) as [[g|]|] eqn:E; [| |done].
    + apply wlp_ret. split; [done|]. intros i Hi. destruct (decide (i = fd)) as [->|]; [by eauto|]. apply Hd. lia.
    + apply wlp_bind, wlp_modify, wlp_ret. rw Nat2Z.id. split_and!; [lia|done..| |done|done].
      eapply counted_ext; [|apply (counted_set_fd s (bump f 1 e) fd None (Some f)); [done| |done]]; [|by intros ? [= <-]].
      intros g. rw /bump. repeat case_decide; simplify_eq; lia.
Qed.

(** ** The system calls *)

Lemma sys_close_counted s e : counted s e → wlp sys_close (λ _ s', counted s' e) s.
Proof.
  intros Hc. rw /sys_close. apply wlp_bind, argfd_spec; [|by apply wlp_ret]. intros fd f Hfd Hf.
  apply wlp_bind. apply (wlp_set_fd fd (Some f) None s e (bump f 1 e)); [done..| |].
  { intros g. rw /bump. repeat case_decide; simplify_eq; lia. }
  intros s1 H1 _ _. apply wlp_bind. eapply wlp_mono; [|by apply (fileclose_counted _ e)].
  intros [] s2 [H2 _]. by apply wlp_ret.
Qed.

Lemma sys_dup_counted s e : counted s e → wlp sys_dup (λ _ s', counted s' e) s.
Proof.
  intros Hc. rw /sys_dup. apply wlp_bind, argfd_spec; [|by apply wlp_ret]. intros fd f Hfd Hf.
  apply wlp_bind. eapply wlp_mono; [|apply (fdalloc_counted s (bump f (-1) e))].
  - intros r s1 [(-> & -> & _)|(Hr & _ & _ & _ & H1 & T1 & O1)]; [by apply wlp_ret|].
    destruct (Z.ltb_spec r 0); [lia|]. apply wlp_bind. eapply wlp_mono; [|by apply filedup_counted].
    intros _ s2 [H2 _]. apply wlp_ret. eapply counted_ext; [|done]. intros g. rw /bump. case_decide; lia.
  - eapply counted_ext; [|done]. intros g. rw /bump. case_decide; lia.
  - by eapply cn_ptr.
Qed.

(** Two new files, both referred to by the caller. *)
Lemma pipealloc_counted s e : counted s e →
  wlp pipealloc (λ r s', match r with
    | Some (rf, wf) => counted s' (bump rf 1 (bump wf 1 e)) ∧ (rf < NFILE)%nat ∧ (wf < NFILE)%nat
    | None => counted s' e end) s.
Proof.
  intros Hc. rw /pipealloc. apply wlp_bind. eapply wlp_mono; [|by apply filealloc_counted].
  intros [rf|] s1 [H1 _]; [|by apply wlp_ret]. destruct H1 as [H1 Hrf].
  apply wlp_bind. eapply wlp_mono; [|by apply filealloc_counted].
  intros [wf|] s2 [H2 _]; last first.
  { apply wlp_bind. eapply wlp_mono; [|by apply (fileclose_counted _ e)]. intros [] s3 [H3 _]. by apply wlp_ret. }
  destruct H2 as [H2 Hwf]. apply wlp_bind. eapply wlp_stable; [stable|done|]. intros [p|] s3 H3 _; apply wlp_bind.
  - eapply wlp_mono; [|by eapply counted_updf]. intros [] s4 [H4 _]. apply wlp_bind.
    eapply wlp_mono; [|by eapply counted_updf]. intros [] s5 [H5 _]. apply wlp_ret. split; [|done].
    eapply counted_ext; [|done]. intros g. rw /bump. repeat case_decide; lia.
  - eapply wlp_mono; [|apply (fileclose_counted _ (bump wf 1 e))]; last first.
    { eapply counted_ext; [|done]. intros g. rw /bump. repeat case_decide; lia. }
    intros [] s4 [H4 _]. apply wlp_bind. eapply wlp_mono; [|by apply (fileclose_counted _ e)].
    intros [] s5 [H5 _]. by apply wlp_ret.
Qed.

(** Dropping the caller's references to two files. *)
Lemma close_two rf wf s e :
  counted s (bump rf 1 (bump wf 1 e)) → wlp (fileclose rf;; fileclose wf;; mret (-1)) (λ _ s', counted s' e) s.
Proof.
  intros Hc. apply wlp_bind. eapply wlp_mono; [|by apply (fileclose_counted _ (bump wf 1 e))]. intros [] s1 [H1 _].
  apply wlp_bind. eapply wlp_mono; [|by apply (fileclose_counted _ e)]. intros [] s2 [H2 _]. by apply wlp_ret.
Qed.

Lemma sys_pipe_counted s e : counted s e → wlp sys_pipe (λ _ s', counted s' e) s.
Proof.
  intros Hc. rw /sys_pipe. apply wlp_bind. eapply wlp_stable; [rw /argaddr; stable|done|]. intros fdarray s0 H0 _.
  apply wlp_bind. eapply wlp_mono; [|by apply pipealloc_counted]. intros [[rf wf]|] s1 H1; [|by apply wlp_ret].
  destruct H1 as (H1 & Hrf & Hwf). apply wlp_bind.
  eapply wlp_mono; [|by apply (fdalloc_counted s1 (bump wf 1 e))].
  intros fd0 s2 [(-> & -> & _)|(Hr & Hb0 & Hn0 & _ & H2 & T2 & O2)].
  { apply wlp_bind, wlp_ret. cbn [when Z.leb Z.compare Z.ltb orb]. apply wlp_bind, wlp_ret. by apply close_two. }
  destruct (Z.ltb_spec fd0 0) as [|_]; [lia|]. apply wlp_bind. eapply wlp_mono; [|by apply (fdalloc_counted s2 e)].
  assert (s2.(ofile) !! Z.to_nat fd0 = Some (Some rf)) as E0 by by rw O2 list_lookup_alter_eq Hn0.
  intros fd1 s3 [(-> & -> & _)|(Hr1 & Hb1 & Hn1 & _ & H3 & T3 & O3)]; cbn [orb].
  { apply wlp_bind, wlp_when; [|by destruct (Z.leb_spec 0 fd0); [|lia]]. intros _.
    apply (wlp_set_fd fd0 (Some rf) None s2 (bump wf 1 e) (bump rf 1 (bump wf 1 e))); [done..| |].
    - intros g. rw /bump. repeat case_decide; simplify_eq; lia.
    - intros s3 H3 _ _. by apply close_two. }
  destruct (Z.ltb_spec fd1 0) as [|_]; [lia|]. apply wlp_bind. eapply wlp_stable; [stable|done|]. intros r0 s4 H4 O4.
  apply wlp_bind. eapply wlp_stable; [stable|done|]. intros r1 s5 H5 O5. destruct (_ || _); [|by apply wlp_ret].
  assert (Z.to_nat fd0 ≠ Z.to_nat fd1) as Hne by (intros E; congruence).
  assert (s5.(ofile) !! Z.to_nat fd0 = Some (Some rf)) as E1 by by rw O5 O4 O3 list_lookup_alter_ne.
  apply wlp_bind. apply (wlp_set_fd fd0 (Some rf) None s5 e (bump rf 1 e)); [done..| |].
  { intros g. rw /bump. repeat case_decide; simplify_eq; lia. }
  intros s6 H6 O6 _. apply wlp_bind.
  apply (wlp_set_fd fd1 (Some wf) None s6 (bump rf 1 e) (bump rf 1 (bump wf 1 e))); [|done..| |].
  - by rw O6 list_lookup_alter_ne // O5 O4 O3 list_lookup_alter_eq Hn1.
  - intros g. rw /bump. repeat case_decide; simplify_eq; lia.
  - intros s7 H7 _ _. by apply close_two.
Qed.

Lemma fileread_counted s e i a n : counted s e → wlp (fileread i a n) (λ _ s', counted s' e) s.
Proof.
  intros Hc. rw /fileread. apply wlp_bind, wlp_getf. intros f _. destruct (negb _); [by apply wlp_ret|].
  destruct (f_type f); [done|by eapply wlp_stable; [stable|done|]| |].
  - apply wlp_bind. eapply wlp_stable; [stable|done|]. intros _ s1 H1 _. apply wlp_bind.
    eapply wlp_stable; [stable|done|]. intros r s2 H2 _. apply wlp_bind, wlp_when; intros _.
    + eapply wlp_mono; [|by eapply counted_updf]. intros [] s3 [H3 _]. by eapply wlp_stable; [stable|done|].
    + by eapply wlp_stable; [stable|done|].
  - by eapply wlp_stable; [stable|done|].
Qed.

Lemma filewrite_counted s e i a n : counted s e → wlp (filewrite i a n) (λ _ s', counted s' e) s.
Proof.
  intros Hc. rw /filewrite. apply wlp_bind, wlp_getf. intros f _. destruct (negb _); [by apply wlp_ret|].
  destruct (f_type f); [done|by eapply wlp_stable; [stable|done|]| |by eapply wlp_stable; [stable|done|]].
  apply wlp_bind. apply (wlp_loop (λ _ s', counted s' e)); [|done]. intros k s1 H1.
  destruct (_ <? _); [|by do 2 apply wlp_ret]. cbv zeta.
  apply wlp_bind. eapply wlp_stable; [stable|done|]. intros _ s2 H2 _.
  apply wlp_bind. eapply wlp_stable; [stable|done|]. intros _ s3 H3 _.
  apply wlp_bind, wlp_getf. intros f' _.
  apply wlp_bind. eapply wlp_stable; [stable|done|]. intros r s4 H4 _.
  assert (∀ s', counted s' e → wlp (F (iunlock (Some f'.(f_ip)));; Lg end_op;;
    (if negb (r =? (if (MAXOPBLOCKS - 1 - 1 - 2) / 2 * BSIZE <? n - k then (MAXOPBLOCKS - 1 - 1 - 2) / 2 * BSIZE else n - k)) then mret (inr k) else mret (inl (k + r))))
    (λ x s', match x with inl _ => counted s' e | inr k => wlp (mret (if k =? n then n else -1)) (λ _ s', counted s' e) s' end) s') as Hend.
  { intros s' H'. eapply wlp_stable; [stable|done|]. intros [] s5 H5 _; [done|by apply wlp_ret]. }
  apply wlp_bind, wlp_when; intros _; [|by apply Hend].
  eapply wlp_mono; [|by eapply counted_updf]. intros [] s5 [H5 _]. by apply Hend.
Qed.

Section syscalls.
Variables (DE TG : Z).

Lemma stable_create path ty ma mi : stable (create DE path ty ma mi).
Proof. rw /create /p_nameiparent /bump_nlink. stable. Qed.
Lemma stable_getsymlink ip : stable (getsymlink DE TG ip).
Proof. rw /getsymlink /p_namei /kernel_str. stable. Qed.

(** Taking a file, then a descriptor for it, and undoing the first when the
    second fails. *)
Lemma sys_open_counted s e : counted s e → wlp (sys_open DE TG) (λ _ s', counted s' e) s.
Proof.
  intros Hc. rw /sys_open. apply wlp_bind. eapply wlp_stable; [rw /argstr /argaddr; stable|done|]. intros [n path] s1 H1 _.
  destruct (_ <? _); [by apply wlp_ret|]. apply wlp_bind. eapply wlp_stable; [rw /argint; stable|done|]. intros omode s2 H2 _.
  apply wlp_bind. eapply wlp_stable; [stable|done|]. intros _ s3 H3 _. apply wlp_bind.
  eapply wlp_stable; [|done|].
  { pose proof stable_create. pose proof stable_getsymlink. rw /p_namei. stable; eauto. }
  intros [ip|] s4 H4 _; [|by apply wlp_ret]. apply wlp_bind. eapply wlp_stable; [stable|done|]. intros d s5 H5 _.
  destruct (_ && _); [by eapply wlp_stable; [stable|done|]|].
  apply wlp_bind. eapply wlp_mono; [|by apply filealloc_counted].
  intros [f|] s6 [H6 _]; apply wlp_bind; [|by apply wlp_ret; eapply wlp_stable; [stable|done|]].
  destruct H6 as [H6 Hf]. eapply wlp_mono; [|by apply (fdalloc_counted s6 e)].
  intros fd s7 [(-> & -> & _)|(Hr & _ & _ & _ & H7 & _)]; cbn [Z.ltb Z.compare].
  { apply wlp_bind. eapply wlp_mono; [|by apply (fileclose_counted _ e)]. intros [] s8 [H8 _].
    by eapply wlp_stable; [stable|done|]. }
  destruct (Z.ltb_spec fd 0); [lia|]. apply wlp_bind. eapply wlp_mono; [|apply (counted_updf s7 _ _ e); [|done]].
  - intros [] s8 [H8 _]. by eapply wlp_stable; [stable|done|].
  - intros x. simpl. by destruct (_ =? T_DEVICE).
Qed.

(** ** Any sequence of system calls *)

Inductive fcall :=
  | C_dup | C_read | C_write | C_close | C_fstat | C_pipe | C_open | C_link | C_unlink
  | C_mkdir | C_mknod | C_chdir | C_symlink.
Definition run (c : fcall) : M sst Z :=
  match c with
  | C_dup => sys_dup | C_read => sys_read | C_write => sys_write | C_close => sys_close | C_fstat => sys_fstat
  | C_pipe => sys_pipe | C_open => sys_open DE TG | C_link => sys_link DE | C_unlink => sys_unlink DE
  | C_mkdir => sys_mkdir DE | C_mknod => sys_mknod DE | C_chdir => sys_chdir DE | C_symlink => sys_symlink DE TG
  end.
Definition set_args (a : Z → Z) (s : sst) : sst := MkSst s.(fsys) s.(ftab) s.(ftlock) s.(ofile) s.(cwd) a s.(other).
(** User code sets the argument registers and traps. *)
Inductive call_step : sst → sst → Prop :=
  | CallStep a c r s s' : run c (set_args a s) = Ok (r, s') → call_step s s'.

Lemma stable_argstr n m : stable (argstr n m).
Proof. rw /argstr /argaddr. stable. Qed.
Lemma stable_argint n : stable (argint n).
Proof. rw /argint. stable. Qed.
Lemma stable_getf i : stable (getf i).
Proof. intros s. by apply wlp_getf. Qed.
Lemma stable_namei path : stable (p_namei DE path).
Proof. rw /p_namei. stable. Qed.
Lemma stable_nameiparent path : stable (p_nameiparent DE path).
Proof. rw /p_nameiparent. stable. Qed.
Lemma stable_nlink i d : stable (bump_nlink i d).
Proof. rw /bump_nlink. stable. Qed.

#[local] Hint Resolve stable_create stable_getsymlink stable_argstr stable_argint stable_getf stable_nlink : stable.
#[local] Hint Resolve stable_namei stable_nameiparent : stable.

(** Reading and writing a descriptor. *)
Lemma rw_counted (m : nat → Z → Z → M sst Z) s e :
  (∀ f p n s, counted s e → wlp (m f p n) (λ _ s', counted s' e) s) → counted s e →
  wlp (a ← argfd 0; n ← argint 2; p ← argaddr 1; match a with None => mret (-1) | Some (_, f) => m f p n end)
    (λ _ s', counted s' e) s.
Proof.
  intros Hm Hc. apply wlp_bind, argfd_spec.
  - intros fd f _ _. do 2 (apply wlp_bind; eapply wlp_stable; [rw /argint /argaddr; stable|done|]; intros). by apply Hm.
  - by eapply wlp_stable; [rw /argint /argaddr; stable|done|].
Qed.

Lemma run_counted c s e : counted s e → wlp (run c) (λ _ s', counted s' e) s.
Proof.
  intros Hc. destruct c; simpl.
  - by apply sys_dup_counted.
  - apply rw_counted; [|done]. intros. by apply fileread_counted.
  - apply rw_counted; [|done]. intros. by apply filewrite_counted.
  - by apply sys_close_counted.
  - eapply wlp_stable; [|done|done]. rw /sys_fstat /argfd /argaddr /filestat. stable.
  - by apply sys_pipe_counted.
  - by apply sys_open_counted.
  - eapply wlp_stable; [|done|done]. rw /sys_link. stable.
  - eapply wlp_stable; [|done|done]. rw /sys_unlink /isdirempty. stable.
  - eapply wlp_stable; [|done|done]. rw /sys_mkdir. stable.
  - eapply wlp_stable; [|done|done]. rw /sys_mknod. stable.
  - eapply wlp_stable; [|done|done]. rw /sys_chdir. stable.
  - eapply wlp_stable; [|done|done]. rw /sys_symlink. stable.
Qed.

(** C33: for every sequence of descriptor and path system calls, whatever
    their arguments and whichever error path they take, the reference count
    of every struct file stays the number of descriptors that refer to it
    plus its other references, and descriptors refer to files of the table. *)
Theorem file_refs_counted s s' e : counted s e → rtc call_step s s' → counted s' e.
Proof.
  intros Hc Hs. induction Hs as [|s s1 s2 Hst _ IH]; [done|]. apply IH. destruct Hst as [a c r s s1 Hrun].
  refine (wlp_run _ (λ _ s3, counted s3 e) _ _ _ _ Hrun). apply run_counted. by apply (counted_frame s).
Qed.
End syscalls.

(** ** [dup] in full *)

Lemma fdalloc_total s f : length s.(ofile) = NOFILE →
  wp (fdalloc f) (λ r s',
    (r = -1 ∧ s' = s ∧ ∀ i, (i < NOFILE)%nat → ∃ g, s.(ofile) !! i = Some (Some g))
    ∨ (∃ fd, r = Z.of_nat fd ∧ (fd < NOFILE)%nat ∧ s.(ofile) !! fd = Some None
       ∧ (∀ i, (i < fd)%nat → ∃ g, s.(ofile) !! i = Some (Some g))
       ∧ s' = set_ofile (alter (λ _, Some f) fd) s)) s.
Proof.
  intros Hl. rw /fdalloc. apply wp_bind.
  eapply wp_mono; [|apply (wp_for_each (λ dn s', s' = s ∧ ∀ i, i ∈ dn → ∃ g, s.(ofile) !! i = Some (Some g))
    (λ r s', ∃ fd, r = Z.of_nat fd ∧ (fd < NOFILE)%nat ∧ s.(ofile) !! fd = Some None
       ∧ (∀ i, (i < fd)%nat → ∃ g, s.(ofile) !! i = Some (Some g))
       ∧ s' = set_ofile (alter (λ _, Some f) fd) s))].
  - intros [r|] s' H; apply wp_ret; [by right|]. destruct H as [-> H]. left. split_and!; [done..|].
    intros i Hi. apply H, elem_of_seq. lia.
  - split; [done|]. set_solver.
  - intros dn fd todo s' Hs [-> Hd].
    assert (fd = length dn ∧ (fd < NOFILE)%nat) as [Efd Hfd].
    { assert (seq 0 NOFILE !! length dn = Some fd) as E by by rw Hs list_lookup_middle.
      apply lookup_seq in E. lia. }
    destruct (lookup_lt_is_Some_2 s.(ofile) fd) as [o Ho]; [by rw Hl|]. apply wp_bind. rw /wp /= Ho. destruct o as [g|].
    + split; [done|]. intros i [Hi| ->%list_elem_of_singleton]%elem_of_app; eauto.
    + exists fd. split_and!; [done..| |done]. intros i Hi. apply Hd.
      assert (seq 0 NOFILE !! i = Some i) as Ei by (apply lookup_seq; lia).
      rw Hs lookup_app_l in Ei; [|lia]. by eapply list_elem_of_lookup_2.
Qed.

(** [dup] of an open descriptor never panics: it makes the lowest free
    descriptor refer to the same file, whose reference count grows by one, or,
    when all descriptors are in use, returns -1 and changes nothing. *)
Theorem sys_dup_lowest s e fd f :
  counted s e → s.(ftlock) = false → length s.(ofile) = NOFILE →
  0 ≤ e f → cnt f s.(ofile) + e f < 2 ^ 31 - 1 →
  s.(args) 0 = Z.of_nat fd → (fd < NOFILE)%nat → s.(ofile) !! fd = Some (Some f) →
  wp sys_dup (λ r s',
    (r = -1 ∧ s' = s ∧ ∀ i, (i < NOFILE)%nat → ∃ g, s.(ofile) !! i = Some (Some g))
    ∨ (∃ n, r = Z.of_nat n ∧ (n < NOFILE)%nat ∧ s.(ofile) !! n = Some None
       ∧ (∀ i, (i < n)%nat → ∃ g, s.(ofile) !! i = Some (Some g))
       ∧ s' = set_ftab (alter (λ x, set_fref (x.(f_ref) + 1) x) f) (set_ofile (alter (λ _, Some f) n) s))) s.
Proof.
  intros Hc Hk Hl He Hmax Ha Hfd Hf.
  assert (1 ≤ cnt f s.(ofile)) as Hpos.
  { rw /cnt -(take_drop_middle _ _ _ Hf) filter_app filter_cons. rewrite decide_True //. rw length_app /=. lia. }
  destruct (lookup_lt_is_Some_2 s.(ftab) f) as [x Hx]; [rw (cn_len _ _ Hc); by eapply cn_ptr|].
  pose proof (cn_ref _ _ Hc _ _ Hx) as Er. rw s32_small in Er; [|lia].
  assert (argfd 0 s = Ok (Some (Z.of_nat fd, f), s)) as Earg.
  { rw /argfd /argint /mbind /M_bind /gets /mret /M_ret Ha s32_small; [|rw /NOFILE in Hfd; lia].
    destruct (Z.ltb_spec (Z.of_nat fd) 0); [lia|]. destruct (Z.leb_spec (Z.of_nat NOFILE) (Z.of_nat fd)); [lia|]. simpl.
    by rw Nat2Z.id Hf. }
  rw /sys_dup. apply wp_bind. eapply wp_of_run; [exact Earg|]. apply wp_bind.
  eapply wp_mono; [|by apply fdalloc_total].
  intros r s1 [(-> & -> & Hu)|(n & -> & Hn & Hno & Hlow & ->)]; [apply wp_ret; left; by split_and!|].
  destruct (Z.ltb_spec (Z.of_nat n) 0); [lia|].
  apply wp_bind. rw /wp /filedup /acquire_ftable /release_ftable /updf /getf /mbind /M_bind /gets /modify /= Hk /= Hx.
  destruct (Z.ltb_spec (f_ref x) 1); [lia|]. simpl. rw Hx /=. right. exists n. split_and!; [done..|].
  rw s32_small; [|lia]. rw /set_ftlock /set_ftab /set_ofile /= Hk. f_equal.
  by rewrite -> !(alter_as_insert _ _ _ x) by done.
Qed.
End props.
End FileProps.

(** A state with two open files, on which the theorems apply. *)
Module FileDemo.
Import FileProps FsDemo.

#[local] Instance quiet_calls : KernelCalls ram (mem * mem) unit := {|
  begin_op := mret tt; end_op := mret tt; pipeclose := λ _ _, mret tt;
  piperead := λ _ _ _, mret 0; pipewrite := λ _ _ _, mret 0; pipe_new := mret (Some 0%nat);
  dev_read := λ _, None; dev_write := λ _, None;
  fetchstr := λ _ _, mret (-1, []); fetchaddr := λ _, mret (-1, 0); copyout := λ _ _, mret 0;
  exec := λ _ _, mret (-1); kalloc := mret 0; kfree := λ _, mret tt;
|}.

Definition sd : sst ram (mem * mem) unit :=
  MkSst s_demo (MkFile FD_INODE 2 true true 0 0 0 0 :: MkFile FD_PIPE 1 true false 0 0 0 0 :: replicate 98 File.file0) false
    (Some 0%nat :: None :: Some 1%nat :: Some 0%nat :: replicate 12 None) 0 (λ _, 3) tt.

Lemma sd_counted : counted sd (λ _, 0).
Proof.
  split.
  - intros [|[|f]] x Hx; [by injection Hx as <-..|].
    change (replicate 98 File.file0 !! f = Some x) in Hx. apply lookup_replicate in Hx as [-> _]. by vm_compute.
  - intros [|[|[|[|fd]]]] f Hf; [injection Hf as <-; rw /NFILE; lia|done|injection Hf as <-; rw /NFILE; lia..|].
    change (replicate 12 (@None nat) !! fd = Some (Some f)) in Hf. by apply lookup_replicate in Hf as [? _].
  - done.
Qed.

Definition after_dup : sst ram (mem * mem) unit :=
  set_ftab (alter (λ x, set_fref (x.(f_ref) + 1) x) 0%nat) (set_ofile (alter (λ _, Some 0%nat) 1%nat) sd).

Lemma file_refs_counted_witness : counted after_dup (λ _, 0).
Proof.
  apply (file_refs_counted 0 0 sd after_dup); [exact sd_counted|].
  apply rtc_once, (CallStep 0 0 (λ _, 3) C_dup 1). reflexivity.
Defined.

Lemma sys_dup_lowest_witness : ∃ r s', sys_dup sd = Ok (r, s') ∧ 0 ≤ r.
Proof.
  pose proof (sys_dup_lowest sd (λ _, 0) 3 0 sd_counted eq_refl eq_refl ltac:(lia) ltac:(by vm_compute) eq_refl
    ltac:(rw /NOFILE; lia) eq_refl) as (r & s' & E & H)%wp_run.
  exists r, s'. split; [exact E|]. destruct H as [(_ & _ & H)|(n & -> & _)]; [|lia].
  destruct (H 1%nat) as [g Hg]; [rw /NOFILE; lia|done].
Defined.
End FileDemo.
