(* ===== verification/Syscall.v ===== *)
(** * System calls (syscalls lab, [syscall.c] and [sysproc.c])

    Argument fetching, the dispatcher with tracing, and the process system
    calls, over the process table of [Proc].  The trapframe is in physical
    memory.  A handler that gives up the CPU returns [None]: it goes on when
    the process is scheduled again, and [syscall_return] is what [syscall]
    does once a value is there.  The handlers of [sysfile.c] are an argument
    of the dispatcher. *)

From S2P Require Import Prelude Machine Kalloc Vm Proc.
Import Proc.

Module Syscall.

Definition TF_a2 : Z := 128.
Definition TF_a3 : Z := 136.
Definition TF_a4 : Z := 144.
Definition TF_a5 : Z := 152.

(** The word of little-endian bytes [bs]. *)
Definition le_sum (bs : list Z) : Z := foldr (λ b acc, u8 b + 256 * acc) 0 bs.

(** What [syscall] prints. *)
Inductive line :=
  | Traced (pid : Z) (name : string) (ret : Z)
  | UnknownCall (pid : Z) (name : string) (num : Z).

Definition SYS_fork : Z := 1.
Definition SYS_exit : Z := 2.
Definition SYS_wait : Z := 3.
Definition SYS_kill : Z := 6.
Definition SYS_getpid : Z := 11.
Definition SYS_sbrk : Z := 12.
Definition SYS_sleep : Z := 13.
Definition SYS_uptime : Z := 14.
Definition SYS_trace : Z := 22.
Definition SYS_sysinfo : Z := 23.

(** The array has [None] at index 0, where the source has a null pointer. *)
Definition syscall_names : list (option string) := [
  None; Some "fork"; Some "exit"; Some "wait"; Some "pipe"; Some "read"; Some "kill"; Some "exec";
  Some "fstat"; Some "chdir"; Some "dup"; Some "getpid"; Some "sbrk"; Some "sleep"; Some "uptime";
  Some "open"; Some "write"; Some "mknod"; Some "unlink"; Some "link"; Some "mkdir"; Some "close";
  Some "trace"; Some "sysinfo" ].

Section syscall.
Context {KI : KernelImage} {F : Type} {FL : FileLayer F} (forkret_pc : Z).
(** The addresses of [ticks] and of [tickslock]. *)
Context (ticks_addr tickslock : Z).
Notation kern := (kern (F := F)).

Record sys := MkSys { kn : kern; ticks : Z; console : list line }.
Definition set_kn (k : kern) (s : sys) : sys := MkSys k s.(ticks) s.(console).
Definition set_ticks (t : Z) (s : sys) : sys := MkSys s.(kn) t s.(console).
Definition printf (l : line) : M sys unit := modify (λ s, MkSys s.(kn) s.(ticks) (s.(console) ++ [l])).
Definition P {A} : M kern A → M sys A := lift kn set_kn.

(** [myproc()], dereferenced. *)
Definition cur (c : nat) : M sys (nat * proc) := P (r ← myproc c; i ← deref r; p ← getp i; mret (i, p)).
Definition tf_load (tf off : Z) : M sys Z := P (K (gets (λ s, ld64 s.(km) (tf + off)))).

(** ** Arguments *)

Definition fetchaddr (c : nat) (addr : Z) : M sys (Z * Z) :=
  '(_, p) ← cur c;
  if (p.(p_sz) <=? addr) || (p.(p_sz) <? u64 (addr + 8)) then mret (-1, 0)
  else
    '(r, bs) ← P (K (copyin p.(p_pagetable) addr 8));
    if negb (r =? 0) then mret (-1, 0) else mret (0, le_sum bs).

(** [strlen(buf)] counts the bytes before the NUL [copyinstr] wrote. *)
Fixpoint strlen (l : list Z) : Z :=
  match l with
  | [] => 0
  | c :: l => if c =? 0 then 0 else 1 + strlen l
  end.

Definition fetchstr (c : nat) (addr max : Z) : M sys (Z * list Z) :=
  '(_, p) ← cur c;
  '(err, buf) ← P (K (copyinstr p.(p_pagetable) addr max));
  if err <? 0 then mret (err, buf) else mret (s32 (strlen buf), buf).

Definition argraw (c : nat) (n : Z) : M sys Z :=
  '(_, p) ← cur c;
  if n =? 0 then tf_load p.(p_trapframe) TF_a0
  else if n =? 1 then tf_load p.(p_trapframe) TF_a1
  else if n =? 2 then tf_load p.(p_trapframe) TF_a2
  else if n =? 3 then tf_load p.(p_trapframe) TF_a3
  else if n =? 4 then tf_load p.(p_trapframe) TF_a4
  else if n =? 5 then tf_load p.(p_trapframe) TF_a5
  else panic "argraw".

(** These return 0 always; the value is the one stored through the pointer. *)
Definition argint (c : nat) (n : Z) : M sys Z := v ← argraw c n; mret (s32 v).
Definition argaddr (c : nat) (n : Z) : M sys Z := argraw c n.
Definition argstr (c : nat) (n max : Z) : M sys (Z * list Z) := addr ← argaddr c n; fetchstr c addr max.

(** ** [sysproc.c] *)

Definition sys_exit (c : nat) : M sys (option Z) := n ← argint c 0; P (exit c n);; mret None.
Definition sys_getpid (c : nat) : M sys (option Z) := '(_, p) ← cur c; mret (Some p.(p_pid)).
Definition sys_fork (c : nat) : M sys (option Z) := r ← P (fork forkret_pc c); mret (Some r).
(** One scan of [wait]; [None] when it sleeps. *)
Definition sys_wait (c : nat) : M sys (option Z) := p ← argaddr c 0; P (wait_scan c p).
Definition sys_sbrk (c : nat) : M sys (option Z) :=
  n ← argint c 0;
  '(_, p) ← cur c;
  let addr := s32 p.(p_sz) in
  r ← P (growproc c n);
  if r <? 0 then mret (Some (-1)) else mret (Some addr).

(** The loop of [sys_sleep], with [tickslock] held: it returns or sleeps.  The
    comparison is unsigned, so a negative [n] is a number of ticks above [2^31]. *)
Definition sleep_loop (c : nat) (n ticks0 : Z) : M sys (option Z) :=
  t ← gets ticks;
  if u32 (t - ticks0) <? u32 n then
    '(_, p) ← cur c;
    if negb (p.(p_killed) =? 0) then P (release (OtherLock tickslock));; mret (Some (-1))
    else P (sleep c (ChAddr ticks_addr) (OtherLock tickslock));; mret None
  else P (release (OtherLock tickslock));; mret (Some 0).
Definition sys_sleep (c : nat) : M sys (option Z) :=
  n ← argint c 0;
  P (acquire (OtherLock tickslock));;
  ticks0 ← gets ticks;
  sleep_loop c n ticks0.
(** The process is scheduled again: the end of [sleep], then the loop. *)
Definition sys_sleep_resume (c i : nat) (n ticks0 : Z) : M sys (option Z) :=
  P (sleep_resume i);;
  P (acquire (OtherLock tickslock));;
  sleep_loop c n ticks0.

Definition sys_kill (c : nat) : M sys (option Z) := pid ← argint c 0; r ← P (kill pid); mret (Some r).
Definition sys_uptime : M sys (option Z) :=
  P (acquire (OtherLock tickslock));;
  xticks ← gets ticks;
  P (release (OtherLock tickslock));;
  mret (Some xticks).
Definition sys_trace (c : nat) : M sys (option Z) :=
  mask ← argint c 0;
  '(i, _) ← cur c;
  P (updp i (set_p_trace_mask mask));;
  mret (Some 0).
(** [struct sysinfo] is the two 64-bit words [freemem] and [nproc]. *)
Definition sys_sysinfo (c : nat) : M sys (option Z) :=
  '(_, p) ← cur c;
  addr ← argaddr c 0;
  freemem ← P (K free_mem);
  np ← P nproc;
  r ← P (K (copyout p.(p_pagetable) addr (le_bytes 8 freemem ++ le_bytes 8 np) 16));
  if r <? 0 then mret (Some (-1)) else mret (Some 0).

(** ** [sys_pgaccess] (pagetables lab)

    [1 << i] is an [int]; for [i = 31] it is negative and sign-extends. *)
Definition MAXSCAN : Z := 32.
Definition pgaccess_scan (pagetable StartVA NumberOfPages : Z) : M kst Z :=
  loop (λ '(i, va, BitMask),
    if i <? NumberOfPages then
      pte ← walk pagetable va false;
      if pte =? 0 then panic "pgaccess : walk failed" else
      v ← gets (λ s, ld64 s.(km) pte);
      if has v PTE_A then
        modify (set_km (λ m, st64 m pte (Z.land v (Z.lnot PTE_A))));;
        mret (inl (i + 1, u64 (va + PGSIZE), Z.lor BitMask (u64 (s32 (Z.shiftl 1 i)))))
      else mret (inl (i + 1, u64 (va + PGSIZE), BitMask))
    else mret (inr BitMask)) (0, StartVA, 0).
Definition sys_pgaccess (c : nat) : M sys (option Z) :=
  NumberOfPages ← argint c 1;
  if MAXSCAN <? NumberOfPages then mret (Some (-1))
  else
    StartVA ← argaddr c 0;
    BitMaskVA ← argaddr c 2;
    '(_, p) ← cur c;
    BitMask ← P (K (pgaccess_scan p.(p_pagetable) StartVA NumberOfPages));
    P (K (copyout p.(p_pagetable) BitMaskVA (le_bytes 8 BitMask) 8));;
    mret (Some 0).

(** ** [syscall] *)

(** The table [syscalls]; [files] are the handlers of [sysfile.c]. *)
Definition syscalls (files : Z → M sys (option Z)) (c : nat) : list (option (M sys (option Z))) := [
  None; Some (sys_fork c); Some (sys_exit c); Some (sys_wait c); Some (files 4); Some (files 5);
  Some (sys_kill c); Some (files 7); Some (files 8); Some (files 9); Some (files 10); Some (sys_getpid c);
  Some (sys_sbrk c); Some (sys_sleep c); Some sys_uptime; Some (files 15); Some (files 16); Some (files 17);
  Some (files 18); Some (files 19); Some (files 20); Some (files 21); Some (sys_trace c); Some (sys_sysinfo c) ].

(** [NELEM(syscalls)] *)
Definition NSYS : Z := 24.

Definition syscall_return (c : nat) (num v : Z) : M sys unit :=
  '(i, p) ← cur c;
  P (K (tf_store p.(p_trapframe) TF_a0 (u64 v)));;
  '(_, p) ← cur c;
  if negb (Z.land (Z.shiftr p.(p_trace_mask) num) 1 =? 0) then
    match syscall_names !! Z.to_nat num with
    | Some (Some name) =>
        a0 ← tf_load p.(p_trapframe) TF_a0;
        printf (Traced p.(p_pid) name (s32 a0))
    | _ => undef "syscall_names"
    end
  else mret tt.

Definition syscall (files : Z → M sys (option Z)) (c : nat) : M sys unit :=
  '(_, p) ← cur c;
  a7 ← tf_load p.(p_trapframe) TF_a7;
  let num := s32 a7 in
  let unknown :=
    printf (UnknownCall p.(p_pid) p.(p_name) num);;
    P (K (tf_store p.(p_trapframe) TF_a0 (u64 (-1)))) in
  if (0 <? num) && (num <? NSYS) then
    match syscalls files c !! Z.to_nat num with
    | Some (Some h) =>
        r ← h;
        match r with
        | Some v => syscall_return c num v
        | None => mret tt
        end
    | Some None => unknown
    | None => undef "syscalls"
    end
  else unknown.
End syscall.
End Syscall.
