(* ===== verification/SyscallProps.v ===== *)
(** * System calls: page access bits, system information, dispatch *)

From S2P Require Import Prelude Machine Kalloc Vm VmRep VmMap VmCopy VmProps Proc Syscall.
Import Proc Syscall.

Module SyscallProps.

Section props.
Context {KI : KernelImage}.
Implicit Types (t : gmap (list Z) Z) (s : kst).

(** The bits of [1 << i] in a 64-bit mask. *)
Lemma shift_bit i k : 0 ≤ i < 32 → 0 ≤ k < 64 →
  Z.testbit (u64 (s32 (Z.shiftl 1 i))) k = (Z.min k 31 =? i).
Proof.
  intros Hi Hk.
  assert (Forall (λ i, Forall (λ k, Z.testbit (u64 (s32 (Z.shiftl 1 i))) k = (Z.min k 31 =? i)) (seqZ 0 64)) (seqZ 0 32)) as H.
  { apply (bool_decide_unpack _). by vm_compute. }
  rw Forall_forall in H. specialize (H i). rw Forall_forall in H. apply H; apply elem_of_seqZ; lia.
Qed.

Definition accessed s t (va i : Z) : bool := has (pte_of (km s) t (va + 4096 * i)) PTE_A.
Definition clear_A (v : Z) : Z := Z.land v (Z.lnot PTE_A).

Lemma clear_A_range v : 0 ≤ v < 2 ^ 64 → 0 ≤ clear_A v < 2 ^ 64.
Proof.
  intros Hv. assert (clear_A v = clear_A v mod 2 ^ 64) as ->; [|by apply Z.mod_pos_bound].
  rw -(Z.land_ones (clear_A v) 64) // /clear_A -Z.land_assoc (Z.land_comm (Z.lnot _)) Z.land_assoc Z.land_ones //.
  by rw Z.mod_small.
Qed.

Lemma clear_A_id v : has v PTE_A = false → clear_A v = v.
Proof.
  rw /has /clear_A -Z.ldiff_land. destruct (Z.eqb_spec (Z.land v PTE_A) 0) as [E|]; [|done]. intros _.
  apply Z.bits_inj'. intros n Hn. rw Z.ldiff_spec. apply (f_equal (λ z, Z.testbit z n)) in E.
  rw Z.land_spec Z.bits_0 in E. by destruct (Z.testbit v n), (Z.testbit PTE_A n).
Qed.

(** One more page in the mask. *)
Lemma mask_step (f : Z → bool) k i b : f i = b →
  (Z.min k 31 <? i) && f (Z.min k 31) || (Z.min k 31 =? i) && b = (Z.min k 31 <? i + 1) && f (Z.min k 31).
Proof.
  intros Hb. destruct (Z.eqb_spec (Z.min k 31) i) as [->|].
  - by rw Z.ltb_irrefl (proj2 (Z.ltb_lt i (i + 1))) ?Hb; [|lia].
  - rw andb_false_l orb_false_r. f_equal. destruct (Z.ltb_spec (Z.min k 31) i), (Z.ltb_spec (Z.min k 31) (i + 1)); lia || done.
Qed.

(** An entry belongs to a page. *)
Lemma pte_of_page m t x y : 0 ≤ x < MAXVA → 0 ≤ y < MAXVA → x / 4096 = y / 4096 → pte_of m t x = pte_of m t y.
Proof.
  intros Hx Hy E. pose proof (PX_page x Hx). pose proof (PX_page y Hy). rw /pte_of /leaf_path.
  pose proof (PX_range 0 x ltac:(lia)). pose proof (PX_range 0 y ltac:(lia)). pose proof (PX_range 1 x ltac:(lia)).
  pose proof (PX_range 1 y ltac:(lia)). pose proof (PX_range 2 x ltac:(lia)). pose proof (PX_range 2 y ltac:(lia)).
  assert (PX 2 x = PX 2 y ∧ PX 1 x = PX 1 y ∧ PX 0 x = PX 0 y) as (-> & -> & ->) by lia. done.
Qed.

(** C35: scanning [n] pages, each with a page-table entry, terminates without
    a panic; bit [i] of the mask tells whether page [i] was accessed, the
    accessed bits of exactly these pages are cleared, and no other entry
    changes.  Bits 32 to 63, which belong to no page, repeat bit 31. *)
Theorem pgaccess_scan_reports s t root va n :
  pt_rep (km s) t root → 0 ≤ n ≤ MAXSCAN → 0 ≤ va → va + 4096 * n ≤ MAXVA →
  (∀ i, 0 ≤ i < n → leaf_addr t (va + 4096 * i) ≠ 0) →
  wp (pgaccess_scan root va n) (λ mask s',
    (∀ k, 0 ≤ k < 64 → Z.testbit mask k = (Z.min k 31 <? n) && accessed s t va (Z.min k 31)) ∧
    pt_rep (km s') t root ∧ freelist s' = freelist s ∧
    (∀ x, 0 ≤ x < MAXVA → pte_of (km s') t x =
       if (va / 4096 <=? x / 4096) && (x / 4096 <? va / 4096 + n) then clear_A (pte_of (km s) t x)
       else pte_of (km s) t x)) s.
Proof.
  intros Hr Hn Hva Hmax Hleaf. rw /pgaccess_scan. change MAXSCAN with 32 in Hn. change MAXVA with 274877906944 in *.
  apply (wp_loop (λ '(i, v, mask) s', 0 ≤ i ≤ n ∧ v = va + 4096 * i ∧
    (∀ k, 0 ≤ k < 64 → Z.testbit mask k = (Z.min k 31 <? i) && accessed s t va (Z.min k 31)) ∧
    pt_rep (km s') t root ∧ freelist s' = freelist s ∧
    (∀ x, 0 ≤ x < 274877906944 → pte_of (km s') t x =
       if (va / 4096 <=? x / 4096) && (x / 4096 <? va / 4096 + i) then clear_A (pte_of (km s) t x)
       else pte_of (km s) t x)) (λ '(i, _, _), n - i)).
  - split_and!; try lia; try done.
    + intros k Hk. rw Z.bits_0. zbool; (lia || done).
    + intros x Hx. zbool; (lia || done).
  - lia.
  - intros [[i v] mask] s1 (Hi & -> & Hm & Hr1 & Hf1 & Hsp) _. zbool; last first.
    { replace i with n in * by lia. by apply wp_ret. }
    pose proof (Hleaf i ltac:(lia)) as Hl. apply wp_bind.
    eapply wp_of_run; [apply (walk_spec s1 t); [done|change MAXVA with 274877906944; lia]|].
    zbool; [done|]. apply wp_gets_bind. rw (pte_of_leaf_addr _ _ _ Hl).
    assert (pte_of (km s1) t (va + 4096 * i) = pte_of (km s) t (va + 4096 * i)) as E.
    { rw Hsp; [|lia]. zbool; (lia || done). }
    rw E. destruct (has _ _) eqn:HA.
    + assert (0 ≤ pte_of (km s) t (va + 4096 * i) < 2 ^ 64) as Hv
        by (rw -E -(pte_of_leaf_addr _ _ _ Hl); apply ld64_range).
      apply wp_modify_bind, wp_ret.
      destruct (pt_rep_store (km s1) t root (va + 4096 * i) (clear_A (pte_of (km s) t (va + 4096 * i)))) as [Hr2 Hsp2];
        [done|change MAXVA with 274877906944; lia|done|by apply clear_A_range|].
      split; [|lia]. split_and!; try lia; try done.
      * rw u64_small; change PGSIZE with 4096; lia.
      * intros k Hk. rw Z.lor_spec Hm // shift_bit; [|lia..].
        rw -(andb_true_r (_ =? i)). apply (mask_step (accessed s t va) k i true HA).
      * intros x Hx. rw Hsp2 // Hsp //. destruct (Z.eqb_spec (x / 4096) ((va + 4096 * i) / 4096)) as [Ex|Ex].
        { rw -(pte_of_page _ t x); [zdec; done|change MAXVA with 274877906944; lia..]. }
        destruct (Z.ltb_spec (x / 4096) (va / 4096 + i)), (Z.ltb_spec (x / 4096) (va / 4096 + (i + 1))); lia || done.
    + apply wp_ret. split; [|lia]. split_and!; try lia; try done.
      * rw u64_small; change PGSIZE with 4096; lia.
      * intros k Hk. rw Hm // -(mask_step (accessed s t va) k i false HA). by rw andb_false_r orb_false_r.
      * intros x Hx. rw Hsp //. destruct (Z.eqb_spec (x / 4096) ((va + 4096 * i) / 4096)) as [Ex|Ex].
        { rw (pte_of_page _ t x (va + 4096 * i)); [|change MAXVA with 274877906944; lia..]. rw clear_A_id //. by zbool. }
        destruct (Z.ltb_spec (x / 4096) (va / 4096 + i)), (Z.ltb_spec (x / 4096) (va / 4096 + (i + 1))); lia || done.
Qed.

(** ** [sysinfo] *)

Context {F : Type} {FL : FileLayer F}.
Notation kern := (kern (F := F)).
Notation sys := (sys (F := F)).
Implicit Types (k : kern) (w : sys).

(** CPU [c] runs process [i], whose entry is [p]. *)
Definition runs k (c i : nat) (p : proc) : Prop :=
  (∃ cp, k.(cpus) !! c = Some cp ∧ cp.(c_proc) = Some i) ∧ k.(procs) !! i = Some p.

Lemma cur_runs w c i p : runs w.(kn) c i p → cur c w = Ok ((i, p), w).
Proof.
  intros [(cp & Hc & Hi) Hp]. destruct w as [k t co]. simpl in *.
  rw /cur /P /lift /mbind /M_bind /myproc /mycpu /mbind /M_bind /gets /= Hc /= Hi /= /getp Hp /=. done.
Qed.

Lemma wp_acquire_first l k (Q : unit → kern → Prop) :
  k.(held) = [] → Q tt (set_held [l] k) → wp (acquire l) Q k.
Proof.
  intros Hh HQ. rw /wp /acquire /mbind /M_bind /gets Hh. rewrite bool_decide_false; [done|set_solver].
Qed.
Lemma wp_release_last l k (Q : unit → kern → Prop) :
  k.(held) = [l] → Q tt (set_held [] k) → wp (release l) Q k.
Proof.
  intros Hh HQ. rw /wp /release /mbind /M_bind /gets Hh. rewrite bool_decide_true; [|set_solver].
  rw filter_cons filter_nil. rewrite decide_False; [done|naive_solver].
Qed.

Definition live_procs k : list proc := filter (λ p, p.(p_state) ≠ UNUSED) k.(procs).

Lemma nproc_counts k : length k.(procs) = NPROC → k.(held) = [] →
  nproc k = Ok (Z.of_nat (length (live_procs k)), k).
Proof.
  intros Hl Hh. apply wp_eq_run. rw /nproc. apply wp_bind.
  eapply wp_mono; [|apply (wp_for_acc (λ dn num k', k' = k ∧
    num = Z.of_nat (length (filter (λ p, p.(p_state) ≠ UNUSED) (take (length dn) k.(procs))))) (λ r _, False))].
  - intros [num|[]] k'. intros [-> ->]. apply wp_ret. split; [|done]. rw length_seq -Hl firstn_all //.
  - done.
  - intros dn i todo num k' Hs [-> ->].
    assert (i = length dn ∧ (length dn < NPROC)%nat) as [-> Hlt].
    { assert (all_procs !! length dn = Some i) as E by by rw Hs list_lookup_middle.
      apply lookup_seq in E. lia. }
    destruct (lookup_lt_is_Some_2 k.(procs) (length dn)) as [p Hp]; [by rw Hl|].
    apply wp_bind, wp_acquire_first; [done|]. apply wp_bind. rw /wp /getp /= Hp -/(wp _ _ _).
    apply wp_bind, wp_release_last; [done|]. apply wp_ret. split; [by destruct k; simpl in *; subst|].
    rw length_app /= Nat.add_1_r (take_S_r _ _ _ Hp) filter_app length_app /= filter_cons filter_nil.
    case_bool_decide; case_decide; try done; simpl; [|lia].
    pose proof (length_filter (λ p, p_state p ≠ UNUSED) (take (length dn) (procs k))) as Hf.
    rw length_take in Hf. rw u64_small; [|rw /NPROC in Hlt; lia]. lia.
Qed.

Lemma wp_P {A} (m : M kern A) (Q : A → sys → Prop) w : wp m (λ a k, Q a (set_kn k w)) w.(kn) → wp (P m) Q w.
Proof. rw /wp /P /lift. by destruct (m (kn w)) as [[a k]|]. Qed.
Lemma wp_K {A} (m : M kst A) (Q : A → kern → Prop) k : wp m (λ a v, Q a (set_kmem v k)) k.(kmem) → wp (K m) Q k.
Proof. rw /wp /K /lift. by destruct (m (kmem k)) as [[a v]|]. Qed.

(** [sysinfo] with a mapped buffer returns 0 and leaves in it, as two
    64-bit words, the bytes of all pages of the free list and the number of
    process table entries in use; nothing else changes. *)
Theorem sysinfo_reports w c i p t l addr :
  runs w.(kn) c i p → length w.(kn).(procs) = NPROC → w.(kn).(held) = [] →
  free_pages w.(kn).(kmem) l → pt_rep (km w.(kn).(kmem)) t p.(p_pagetable) →
  ld64 (km w.(kn).(kmem)) (p.(p_trapframe) + TF_a0) = addr → urange (km w.(kn).(kmem)) t addr 16 →
  wp (sys_sysinfo c) (λ r w', r = Some 0 ∧
    written (km w.(kn).(kmem)) (km w'.(kn).(kmem)) t addr
      (le_bytes 8 (PGSIZE * Z.of_nat (length l)) ++ le_bytes 8 (Z.of_nat (length (live_procs w.(kn))))) ∧
    ∃ m, w' = set_kn (set_kmem (MkKst m (freelist w.(kn).(kmem))) w.(kn)) w) w.
Proof.
  intros Hrun Hl Hh Hfp Hrep Ha Hu. rw /sys_sysinfo. apply wp_bind. eapply wp_of_run; [by apply cur_runs|].
  apply wp_bind. rw /argaddr /argraw. apply wp_bind. eapply wp_of_run; [by apply cur_runs|]. cbv beta iota.
  change (0 =? 0) with true. cbv iota. rw /tf_load. apply wp_P, wp_K.
  rw {1}/wp /gets Ha. destruct w as [k tk co]. simpl in *.
  apply wp_bind, wp_P, wp_K. eapply wp_of_run; [by apply free_mem_spec|].
  apply wp_bind, wp_P. simpl. eapply wp_of_run; [by apply nproc_counts; destruct k|]. simpl.
  apply wp_bind, wp_P, wp_K. simpl. change 16 with (Z.of_nat (length (le_bytes 8 (PGSIZE * Z.of_nat (length l)) ++ le_bytes 8 (Z.of_nat (length (live_procs k)))))) at 1.
  eapply wp_mono; [|apply (copyout_ok _ t); [by destruct k| |done|by destruct k]]; last first.
  { rw -Ha. apply ld64_range. }
  intros r s' (-> & Hf & Hw). apply wp_ret. split_and!; [done|by destruct k|].
  exists (km s'). destruct s' as [m' f'], k as [[m0 f0] ? ? ? ? ? ?]. simpl in *. by subst f'.
Qed.

(** ** Dispatch *)

Definition store_a0 (tf v : Z) w : sys :=
  set_kn (set_kmem (set_km (λ m, st64 m (tf + TF_a0) v) w.(kn).(kmem)) w.(kn)) w.
Definition print (ls : list line) w : sys := MkSys w.(kn) w.(ticks) (w.(console) ++ ls).

Lemma s32_u64 v : s32 (u64 v) = s32 v.
Proof. rw /s32 /u64. lia. Qed.

Lemma shift_test v n : 0 ≤ n → negb (Z.land (Z.shiftr v n) 1 =? 0) = Z.testbit v n.
Proof.
  intros Hk. rw (land_pow2 (Z.shiftr v n) 0) // Z.shiftr_spec //. rw Z.add_0_l. by destruct (Z.testbit v n).
Qed.

Lemma syscall_return_spec w c i p num v name :
  runs w.(kn) c i p → 0 ≤ num → syscall_names !! Z.to_nat num = Some (Some name) →
  syscall_return c num v w = Ok (tt, print (if Z.testbit p.(p_trace_mask) num then [Traced p.(p_pid) name (s32 v)] else [])
    (store_a0 p.(p_trapframe) (u64 v) w)).
Proof.
  intros Hr Hn Hname. apply wp_eq_run. rw /syscall_return. apply wp_bind. eapply wp_of_run; [by apply cur_runs|]. cbv beta iota.
  apply wp_bind, wp_P, wp_K. rw {1}/wp /tf_store /modify. apply wp_bind.
  eapply wp_of_run; [apply (cur_runs _ _ i p); exact Hr|]. cbv beta iota. rw shift_test //.
  destruct (Z.testbit _ _).
  - rw Hname. apply wp_bind, wp_P, wp_K. rw {1}/wp /gets. simpl. rw ld64_st64_eq; [|apply u64_range].
    by rw s32_u64.
  - apply wp_ret. destruct w as [k tk co]. rw /print /store_a0 /= app_nil_r. done.
Qed.

(** C37: whatever the register [a7] holds, [syscall] stays inside its tables.
    A number that is not a system call sets [a0] to -1 and prints one line.
    Otherwise the handler of that number runs, and when it returns [v], [a0]
    is [v] and a line with the name of the call is printed exactly when the
    bit of its number is set in the trace mask. *)
Theorem syscall_dispatch forkret_pc ticks_addr tickslock files w c i p num :
  runs w.(kn) c i p → s32 (ld64 (km w.(kn).(kmem)) (p.(p_trapframe) + TF_a7)) = num →
  let call := syscall forkret_pc ticks_addr tickslock files c in
  (num ≤ 0 ∨ NSYS ≤ num →
     call w = Ok (tt, store_a0 p.(p_trapframe) (2 ^ 64 - 1) (print [UnknownCall p.(p_pid) p.(p_name) num] w))) ∧
  (0 < num < NSYS → ∃ h name,
     syscalls forkret_pc ticks_addr tickslock files c !! Z.to_nat num = Some (Some h) ∧
     syscall_names !! Z.to_nat num = Some (Some name) ∧
     ∀ v w' p', h w = Ok (Some v, w') → runs w'.(kn) c i p' →
       call w = Ok (tt, print (if Z.testbit p'.(p_trace_mask) num then [Traced p'.(p_pid) name (s32 v)] else [])
                          (store_a0 p'.(p_trapframe) (u64 v) w'))).
Proof.
  intros Hr Hn call.
  assert (∀ Q, wp (let unknown := printf (UnknownCall p.(p_pid) p.(p_name) num);;
      P (K (tf_store p.(p_trapframe) TF_a0 (u64 (-1)))) in
    if (0 <? num) && (num <? NSYS) then
      match syscalls forkret_pc ticks_addr tickslock files c !! Z.to_nat num with
      | Some (Some h) => r ← h; match r with Some v => syscall_return c num v | None => mret tt end
      | Some None => unknown
      | None => undef "syscalls"
      end
    else unknown) Q w → wp call Q w) as Hcall.
  { intros Q HQ. rw /call /syscall. apply wp_bind. eapply wp_of_run; [by apply cur_runs|]. cbv beta iota.
    apply wp_bind, wp_P, wp_K. rw {1}/wp /gets Hn. by destruct w as [[]]. }
  clearbody call. split.
  - intros Hout. apply wp_eq_run, Hcall. cbv zeta.
    replace ((0 <? num) && (num <? NSYS)) with false by (zbool; lia || done). done.
  - intros Hin.
    assert (∃ h name, syscalls forkret_pc ticks_addr tickslock files c !! Z.to_nat num = Some (Some h) ∧
       syscall_names !! Z.to_nat num = Some (Some name)) as (h & name & Eh & En).
    { change NSYS with 24 in Hin. remember (Z.to_nat num) as j. assert (0 < j < 24)%nat as Hj by lia.
      clear -Hj. do 24 (destruct j as [|j]; [first [lia | by do 2 eexists]|]). lia. }
    exists h, name. split_and!; [done..|]. intros v w' p' Hh Hr'. apply wp_eq_run, Hcall. cbv zeta.
    replace ((0 <? num) && (num <? NSYS)) with true by (zbool; lia || done). rw Eh. apply wp_bind.
    eapply wp_of_run; [exact Hh|]. eapply wp_of_run; [apply (syscall_return_spec w' c i p' num v name Hr' ltac:(lia) En)|done].
Qed.
End props.
End SyscallProps.

(** One process on CPU 0, with the address space of [VmProps.Demo] and a
    trapframe of zeros. *)
Module SyscallDemo.
Import SyscallProps.
#[local] Existing Instance pgtbl_image.
#[local] Instance no_file_layer : FileLayer unit := {|
  fl_filedup f := mret f; fl_fileclose _ := mret tt; fl_idup i := mret i; fl_iput _ := mret tt;
  fl_begin_op := mret tt; fl_end_op := mret tt; fl_namei _ := mret 1 |}.

Definition free_entry : proc :=
  MkProc UNUSED ChNull 0 0 0 None 0 0 0 0 context0 (replicate 16 0) 0 EmptyString 0.
Definition shell : proc :=
  MkProc RUNNING ChNull 0 0 7 None 0 4096 Demo.R 0x80300000 context0 (replicate 16 0) 0 "sh" 0.
Definition k_demo : kern (F := unit) :=
  MkKern Demo.s_demo (shell :: replicate 63 free_entry) [MkCpu (Some 0%nat) 1] None 8 [] tt.
Definition w_demo : sys := MkSys k_demo 5 [].

Lemma demo_runs : runs w_demo.(kn) 0 0 shell.
Proof. split; [by eexists|done]. Qed.

Lemma demo_urange : urange Demo.m_demo Demo.t_demo 0 16.
Proof.
  assert (∀ i, 0 ≤ i < 16 → uframe Demo.m_demo Demo.t_demo (PGROUNDDOWN (0 + i)) = Demo.D) as Hd.
  { intros i Hi. rw PGROUNDDOWN_eq. replace (0 + i - (0 + i) mod 4096) with 0 by lia. by vm_compute. }
  split; simpl.
  - intros i Hi. by rw Hd.
  - intros i p Hi Hp. rw Hd // in Hp. apply Demo.demo_lookup in Hp.
    by destruct Hp as [[_ H]|[[_ H]|[_ H]]]; vm_compute in H.
  - intros i j Hi Hj. rw /upa !Hd //. lia.
Qed.

Lemma pgaccess_scan_reports_witness : ∃ mask s',
  pgaccess_scan Demo.R 0 2 Demo.s_demo = Ok (mask, s') ∧ Z.testbit mask 0 = false.
Proof.
  pose proof (pgaccess_scan_reports Demo.s_demo Demo.t_demo Demo.R 0 2 Demo.demo_rep ltac:(change MAXSCAN with 32; lia)
    ltac:(lia) ltac:(change MAXVA with 274877906944; lia)
    ltac:(intros i Hi; assert (i = 0 ∨ i = 1) as [->| ->] by lia; by vm_compute)) as (mask & s' & Hrun & Hbit & _)%wp_run.
  exists mask, s'. split; [done|]. rw Hbit; [|lia]. by vm_compute.
Defined.

Lemma sysinfo_reports_witness : ∃ w', sys_sysinfo 0 w_demo = Ok (Some 0, w').
Proof.
  pose proof (sysinfo_reports w_demo 0 0 shell Demo.t_demo Demo.l_demo 0 demo_runs eq_refl eq_refl Demo.demo_free
    Demo.demo_rep ltac:(by vm_compute) demo_urange) as (r & w' & Hrun & -> & _)%wp_run.
  by exists w'.
Defined.

Lemma syscall_dispatch_witness : ∃ w',
  syscall 0 0 0 (λ _, mret (Some 0)) 0 w_demo = Ok (tt, w') ∧ w'.(console) = [UnknownCall 7 "sh" 0].
Proof.
  pose proof (syscall_dispatch 0 0 0 (λ _, mret (Some 0)) w_demo 0 0 shell 0 demo_runs ltac:(by vm_compute)) as [H _].
  eexists. split; [apply H; lia|done].
Defined.
End SyscallDemo.
