(* ===== verification/E1000.v ===== *)
(** * The E1000 network driver (net lab, [e1000.c])

    The descriptor rings, the buffers behind them and the register file the
    driver reads and writes.  The network stack ([mbufalloc], [mbuffree],
    [net_rx], the fields of [struct mbuf]) is an interface: its code is not
    part of the sources.  A [struct mbuf] pointer is a number, 0 is null. *)

From S2P Require Import Prelude Machine.

(** What the driver relies on: a buffer handed to [net_rx] or [mbuffree] is
    recorded in that order, and [mbufalloc] succeeds while buffers are left. *)
Class NetLayer (N : Type) := {
  MBUF_SIZE : Z;
  mbufalloc : Z → M N Z;
  mbuffree : Z → M N unit;
  net_rx : Z → M N unit;
  m_head : N → Z → Z;
  m_len : N → Z → Z;
  set_m_len : Z → Z → N → N;
  delivered : N → list (Z * Z);
  freed : N → list Z;
  avail : N → nat;
  mbufalloc_ok n k : ∃ p n', mbufalloc k n = Ok (p, n') ∧ delivered n' = delivered n ∧ freed n' = freed n
    ∧ (avail n ≤ S (avail n'))%nat ∧ (avail n ≠ 0%nat → p ≠ 0);
  mbuffree_ok n m : ∃ n', mbuffree m n = Ok (tt, n') ∧ freed n' = freed n ++ [m] ∧ delivered n' = delivered n
    ∧ (avail n ≤ avail n')%nat;
  net_rx_ok n m : ∃ n', net_rx m n = Ok (tt, n') ∧ delivered n' = delivered n ++ [(m, m_len n m)]
    ∧ (avail n ≤ avail n')%nat;
  set_m_len_ok n m v : m_len (set_m_len m v n) m = v ∧ delivered (set_m_len m v n) = delivered n
    ∧ avail (set_m_len m v n) = avail n;
}.

Module E1000.

Definition TX_RING_SIZE : Z := 16.
Definition RX_RING_SIZE : Z := 16.
Definition E1000_CTL : Z := 0x00000 / 4.
Definition E1000_ICR : Z := 0x000C0 / 4.
Definition E1000_IMS : Z := 0x000D0 / 4.
Definition E1000_RCTL : Z := 0x00100 / 4.
Definition E1000_TCTL : Z := 0x00400 / 4.
Definition E1000_TIPG : Z := 0x00410 / 4.
Definition E1000_RDBAL : Z := 0x02800 / 4.
Definition E1000_RDTR : Z := 0x02820 / 4.
Definition E1000_RADV : Z := 0x0282C / 4.
Definition E1000_RDH : Z := 0x02810 / 4.
Definition E1000_RDT : Z := 0x02818 / 4.
Definition E1000_RDLEN : Z := 0x02808 / 4.
Definition E1000_TDBAL : Z := 0x03800 / 4.
Definition E1000_TDLEN : Z := 0x03808 / 4.
Definition E1000_TDH : Z := 0x03810 / 4.
Definition E1000_TDT : Z := 0x03818 / 4.
Definition E1000_MTA : Z := 0x05200 / 4.
Definition E1000_RA : Z := 0x05400 / 4.
Definition E1000_CTL_RST : Z := 0x00400000.
Definition E1000_TCTL_EN : Z := 0x00000002.
Definition E1000_TCTL_PSP : Z := 0x00000008.
Definition E1000_TCTL_CT_SHIFT : Z := 4.
Definition E1000_TCTL_COLD_SHIFT : Z := 12.
Definition E1000_RCTL_EN : Z := 0x00000002.
Definition E1000_RCTL_BAM : Z := 0x00008000.
Definition E1000_RCTL_SZ_2048 : Z := 0x00000000.
Definition E1000_RCTL_SECRC : Z := 0x04000000.
Definition E1000_TXD_CMD_EOP : Z := 0x01.
Definition E1000_TXD_CMD_RS : Z := 0x08.
Definition E1000_TXD_STAT_DD : Z := 0x00000001.
Definition E1000_RXD_STAT_DD : Z := 0x01.

Record tx_desc := MkTx {
  tx_addr : Z; tx_length : Z; tx_cso : Z; tx_cmd : Z; tx_status : Z; tx_css : Z; tx_special : Z;
}.
Record rx_desc := MkRx {
  rx_addr : Z; rx_length : Z; rx_csum : Z; rx_status : Z; rx_errors : Z; rx_special : Z;
}.
Definition tx0 : tx_desc := MkTx 0 0 0 0 0 0 0.
Definition rx0 : rx_desc := MkRx 0 0 0 0 0 0.
Definition tx_desc_size : Z := 16.
Definition rx_desc_size : Z := 16.

Section e1000.
Context {N : Type} {NL : NetLayer N}.
(** The addresses of [tx_ring] and [rx_ring]. *)
Variables (tx_ring_addr rx_ring_addr : Z).

Record est := MkEst {
  regs : Z → Z;
  tx_ring : list tx_desc;
  tx_mbufs : list Z;
  rx_ring : list rx_desc;
  rx_mbufs : list Z;
  elock : bool;
  net : N;
}.
Definition set_regs (f : (Z → Z) → Z → Z) (s : est) : est :=
  MkEst (f s.(regs)) s.(tx_ring) s.(tx_mbufs) s.(rx_ring) s.(rx_mbufs) s.(elock) s.(net).
Definition set_tx_ring (f : list tx_desc → list tx_desc) (s : est) : est :=
  MkEst s.(regs) (f s.(tx_ring)) s.(tx_mbufs) s.(rx_ring) s.(rx_mbufs) s.(elock) s.(net).
Definition set_tx_mbufs (f : list Z → list Z) (s : est) : est :=
  MkEst s.(regs) s.(tx_ring) (f s.(tx_mbufs)) s.(rx_ring) s.(rx_mbufs) s.(elock) s.(net).
Definition set_rx_ring (f : list rx_desc → list rx_desc) (s : est) : est :=
  MkEst s.(regs) s.(tx_ring) s.(tx_mbufs) (f s.(rx_ring)) s.(rx_mbufs) s.(elock) s.(net).
Definition set_rx_mbufs (f : list Z → list Z) (s : est) : est :=
  MkEst s.(regs) s.(tx_ring) s.(tx_mbufs) s.(rx_ring) (f s.(rx_mbufs)) s.(elock) s.(net).
Definition set_elock (b : bool) (s : est) : est :=
  MkEst s.(regs) s.(tx_ring) s.(tx_mbufs) s.(rx_ring) s.(rx_mbufs) b s.(net).
Definition set_net (n : N) (s : est) : est :=
  MkEst s.(regs) s.(tx_ring) s.(tx_mbufs) s.(rx_ring) s.(rx_mbufs) s.(elock) n.

Definition Nt {A} : M N A → M est A := lift net set_net.
(** Registers are 32 bits wide. *)
Definition wreg (r v : Z) : M est unit := modify (set_regs (λ f x, if x =? r then u32 v else f x)).
Definition rreg (r : Z) : M est Z := gets (λ s, s.(regs) r).
Definition at_index {A} (l : est → list A) (i : Z) : M est A := λ s,
  match l s !! Z.to_nat i with Some x => Ok (x, s) | None => Err (Undef "ring index") end.
Definition acquire_e1000 : M est unit :=
  l ← gets elock; if (l : bool) then panic "acquire" else modify (set_elock true).
Definition release_e1000 : M est unit :=
  l ← gets elock; if (l : bool) then modify (set_elock false) else panic "release".
(** [p->head] of an mbuf pointer. *)
Definition head (p : Z) : M est Z := if p =? 0 then undef "mbuf" else gets (λ s, m_head s.(net) p).

Definition e1000_init : M est unit :=
  modify (set_elock false);;
  wreg E1000_IMS 0;;
  ctl ← rreg E1000_CTL;
  wreg E1000_CTL (Z.lor ctl E1000_CTL_RST);;
  wreg E1000_IMS 0;;
  modify (set_tx_ring (λ _, replicate (Z.to_nat TX_RING_SIZE) tx0));;
  for_each (R := unit) (seq 0 (Z.to_nat TX_RING_SIZE)) (λ i,
    modify (set_tx_ring (alter (λ d, MkTx d.(tx_addr) d.(tx_length) d.(tx_cso) d.(tx_cmd) E1000_TXD_STAT_DD d.(tx_css) d.(tx_special)) i));;
    modify (set_tx_mbufs (alter (λ _, 0) i));;
    mret None);;
  wreg E1000_TDBAL tx_ring_addr;;
  (if negb (TX_RING_SIZE * tx_desc_size mod 128 =? 0) then panic "e1000" else mret tt);;
  wreg E1000_TDLEN (TX_RING_SIZE * tx_desc_size);;
  wreg E1000_TDT 0;;
  wreg E1000_TDH 0;;
  modify (set_rx_ring (λ _, replicate (Z.to_nat RX_RING_SIZE) rx0));;
  for_each (R := unit) (seq 0 (Z.to_nat RX_RING_SIZE)) (λ i,
    m ← Nt (mbufalloc 0);
    modify (set_rx_mbufs (alter (λ _, m) i));;
    if m =? 0 then panic "e1000"
    else
      h ← head m;
      modify (set_rx_ring (alter (λ d, MkRx h d.(rx_length) d.(rx_csum) d.(rx_status) d.(rx_errors) d.(rx_special)) i));;
      mret None);;
  wreg E1000_RDBAL rx_ring_addr;;
  (if negb (RX_RING_SIZE * rx_desc_size mod 128 =? 0) then panic "e1000" else mret tt);;
  wreg E1000_RDH 0;;
  wreg E1000_RDT (RX_RING_SIZE - 1);;
  wreg E1000_RDLEN (RX_RING_SIZE * rx_desc_size);;
  wreg E1000_RA 0x12005452;;
  wreg (E1000_RA + 1) (Z.lor 0x5634 (Z.shiftl 1 31));;
  for_each (R := unit) (seq 0 (Z.to_nat (4096 / 32))) (λ i, wreg (E1000_MTA + Z.of_nat i) 0;; mret None);;
  wreg E1000_TCTL (Z.lor (Z.lor (Z.lor E1000_TCTL_EN E1000_TCTL_PSP) (Z.shiftl 0x10 E1000_TCTL_CT_SHIFT)) (Z.shiftl 0x40 E1000_TCTL_COLD_SHIFT));;
  wreg E1000_TIPG (Z.lor (Z.lor 10 (Z.shiftl 8 10)) (Z.shiftl 6 20));;
  wreg E1000_RCTL (Z.lor (Z.lor (Z.lor E1000_RCTL_EN E1000_RCTL_BAM) E1000_RCTL_SZ_2048) E1000_RCTL_SECRC);;
  wreg E1000_RDTR 0;;
  wreg E1000_RADV 0;;
  wreg E1000_IMS (Z.shiftl 1 7).

Definition e1000_transmit (m : Z) : M est Z :=
  acquire_e1000;;
  next_index ← rreg E1000_TDT;
  d ← at_index tx_ring next_index;
  if Z.land d.(tx_status) E1000_TXD_STAT_DD =? 0 then release_e1000;; mret (-1)
  else
    old ← at_index tx_mbufs next_index;
    when (negb (old =? 0)) (Nt (mbuffree old));;
    h ← head m;
    n ← gets (λ s, m_len s.(net) m);
    let i := Z.to_nat next_index in
    modify (set_tx_ring (alter (λ d, MkTx h (u16 n) d.(tx_cso) (Z.lor E1000_TXD_CMD_EOP E1000_TXD_CMD_RS) d.(tx_status) d.(tx_css) d.(tx_special)) i));;
    modify (set_tx_mbufs (alter (λ _, m) i));;
    wreg E1000_TDT (u32 (next_index + 1) mod TX_RING_SIZE);;
    release_e1000;;
    mret 0.

Definition e1000_recv : M est unit :=
  rdt ← rreg E1000_RDT;
  next_index ← loop (λ next_index,
    d ← at_index rx_ring next_index;
    if negb (Z.land d.(rx_status) E1000_RXD_STAT_DD =? 0) then
      if MBUF_SIZE <? d.(rx_length) then panic "MBUF_SIZE OVERFLOW!"
      else
        m ← at_index rx_mbufs next_index;
        (if m =? 0 then undef "mbuf" else modify (λ s, set_net (set_m_len m d.(rx_length) s.(net)) s));;
        Nt (net_rx m);;
        m' ← Nt (mbufalloc 0);
        let i := Z.to_nat next_index in
        modify (set_rx_mbufs (alter (λ _, m') i));;
        h ← head m';
        modify (set_rx_ring (alter (λ d, MkRx h d.(rx_length) d.(rx_csum) d.(rx_status) d.(rx_errors) d.(rx_special)) i));;
        modify (set_rx_ring (alter (λ d, MkRx d.(rx_addr) d.(rx_length) d.(rx_csum) 0 d.(rx_errors) d.(rx_special)) i));;
        mret (inl (u32 (next_index + 1) mod RX_RING_SIZE))
    else mret (inr next_index)) (u32 (rdt + 1) mod RX_RING_SIZE);
  wreg E1000_RDT (u32 (next_index - 1) mod RX_RING_SIZE).

Definition e1000_intr : M est unit :=
  wreg E1000_ICR 0xffffffff;;
  e1000_recv.
End e1000.
End E1000.
