(* ===== verification/E1000Props.v ===== *)
(** * The E1000 driver: receiving terminates and delivers in order; the
      transmit ring is never found full *)

From S2P Require Import Prelude Machine E1000.
Import E1000.

Module E1000Props.

Section props.
Context {N : Type} {NL : NetLayer N}.
Notation est := (est (N := N)).
Implicit Types (s : est).

Definition rx_done (d : rx_desc) : bool := negb (Z.land d.(rx_status) E1000_RXD_STAT_DD =? 0).
Definition slot (n0 j : Z) : nat := Z.to_nat ((n0 + j) mod 16).

(** The number of consecutive filled descriptors from [n0] on. *)
Fixpoint filled (ring : list rx_desc) (n0 : Z) (n : nat) : nat :=
  match n with
  | O => O
  | S n => match ring !! slot n0 0 with
           | Some d => if rx_done d then S (filled ring (n0 + 1) n) else O
           | None => O
           end
  end.

Lemma filled_spec ring n0 n :
  (filled ring n0 n ≤ n)%nat ∧
  (∀ j, 0 ≤ j < Z.of_nat (filled ring n0 n) → ∃ d, ring !! slot n0 j = Some d ∧ rx_done d = true) ∧
  ((filled ring n0 n < n)%nat → ∀ d, ring !! slot n0 (Z.of_nat (filled ring n0 n)) = Some d → rx_done d = false).
Proof.
  revert n0. induction n as [|n IH]; intros n0; simpl.
  { split_and!; [lia..]. }
  destruct (ring !! slot n0 0) as [d|] eqn:E; [destruct (rx_done d) eqn:Ed|].
  - destruct (IH (n0 + 1)) as (H1 & H2 & H3). split_and!; [lia| |].
    + intros j Hj. destruct (Z.eq_dec j 0) as [->|]; [by eauto|].
      destruct (H2 (j - 1)) as (d' & Hd' & ?); [lia|]. exists d'. split; [|done].
      rw -Hd'. f_equal. rw /slot. f_equal. f_equal. lia.
    + intros Hlt d' Hd'. apply H3; [lia|]. rw -Hd'. f_equal. rw /slot. f_equal. f_equal. lia.
  - split_and!; [lia..|]. intros _ d'. simpl. rw E. congruence.
  - split_and!; [lia..|]. intros _ d'. simpl. by rw E.
Qed.

(** Descriptor [i] is among the first [j] after [n0]. *)
Definition in_window (n0 j : Z) (i : nat) : Prop := (Z.of_nat i - n0) mod 16 < j.
#[global] Instance in_window_dec n0 j i : Decision (in_window n0 j i).
Proof. rw /in_window. apply _. Defined.

Definition frames s (n0 : Z) (k : nat) : list (Z * Z) :=
  (λ j, (nth (slot n0 j) s.(rx_mbufs) 0, rx_length (nth (slot n0 j) s.(rx_ring) rx0))) <$> seqZ 0 (Z.of_nat k).

Record rx_ok s : Prop := {
  rx_len : length s.(rx_ring) = 16%nat;
  rb_len : length s.(rx_mbufs) = 16%nat;
  rb_nz i m : s.(rx_mbufs) !! i = Some m → m ≠ 0;
}.

Lemma slot_lt n0 j : (slot n0 j < 16)%nat.
Proof. rw /slot. lia. Qed.
Lemma slot_window n0 j i : (i < 16)%nat → 0 ≤ j < 16 →
  (in_window n0 (j + 1) i ↔ in_window n0 j i ∨ i = slot n0 j) ∧ (i = slot n0 j → ¬ in_window n0 j i).
Proof. intros Hi Hj. rw /in_window /slot. lia. Qed.

(** The state after the first [j] frames were handed over. *)
Record received s (n0 j : Z) s' : Prop := {
  rc_delivered : delivered s'.(net) = delivered s.(net) ++ frames s n0 (Z.to_nat j);
  rc_avail : (avail s.(net) ≤ Z.to_nat j + avail s'.(net))%nat;
  rc_ring i d : s.(rx_ring) !! i = Some d → ∃ d', s'.(rx_ring) !! i = Some d' ∧
    (in_window n0 j i → rx_done d' = false) ∧ (¬ in_window n0 j i → d' = d);
  rc_bufs i m : s.(rx_mbufs) !! i = Some m → ∃ m', s'.(rx_mbufs) !! i = Some m' ∧ m' ≠ 0 ∧
    (¬ in_window n0 j i → m' = m);
  rc_ok : rx_ok s';
  rc_regs : s'.(regs) = s.(regs);
}.

Lemma received_0 s n0 : rx_ok s → received s n0 0 s.
Proof.
  intros Hok. split; [by rw /frames /= app_nil_r|lia| | |done|done].
  - intros i d Hd. exists d. split_and!; [done| |done]. rw /in_window. lia.
  - intros i m Hm. exists m. split_and!; [done|by eapply rb_nz|done].
Qed.

Lemma rx_frames_snoc s n0 j : 0 ≤ j → frames s n0 (Z.to_nat (j + 1)) =
  frames s n0 (Z.to_nat j) ++ [(nth (slot n0 j) s.(rx_mbufs) 0, rx_length (nth (slot n0 j) s.(rx_ring) rx0))].
Proof.
  intros Hj. rw /frames !Z2Nat.id; [|lia..]. rw seqZ_app; [|lia..]. rw fmap_app /= Z.add_0_l. done.
Qed.

Lemma rx_lookup s i : rx_ok s → (i < 16)%nat → ∃ d m, s.(rx_ring) !! i = Some d ∧ s.(rx_mbufs) !! i = Some m ∧ m ≠ 0.
Proof.
  intros Hok Hi. destruct (lookup_lt_is_Some_2 s.(rx_ring) i) as [d Hd]; [by rw (rx_len _ Hok)|].
  destruct (lookup_lt_is_Some_2 s.(rx_mbufs) i) as [m Hm]; [by rw (rb_len _ Hok)|].
  exists d, m. split_and!; [done..|]. by eapply rb_nz.
Qed.

Lemma wp_at_index {A} (l : est → list A) i x (Q : A → est → Prop) s :
  l s !! Z.to_nat i = Some x → Q x s → wp (at_index l i) Q s.
Proof. intros Hx HQ. by rw /wp /at_index Hx. Qed.
Lemma wp_Nt {A} (m : M N A) (Q : A → est → Prop) s : wp m (λ a n, Q a (set_net n s)) s.(net) → wp (Nt m) Q s.
Proof. rw /wp /Nt /lift. by destruct (m (net s)) as [[a n]|]. Qed.

(** Handing over frame [j] and refilling its descriptor. *)
Lemma received_step s n0 j s1 d m p h n :
  received s n0 j s1 → 0 ≤ j < 16 → s.(rx_ring) !! slot n0 j = Some d → s.(rx_mbufs) !! slot n0 j = Some m → p ≠ 0 →
  delivered n = delivered s1.(net) ++ [(m, d.(rx_length))] → (avail s1.(net) ≤ S (avail n))%nat →
  received s n0 (j + 1) (MkEst s1.(regs) s1.(tx_ring) s1.(tx_mbufs)
    (alter (λ d, MkRx d.(rx_addr) d.(rx_length) d.(rx_csum) 0 d.(rx_errors) d.(rx_special)) (slot n0 j)
      (alter (λ d, MkRx h d.(rx_length) d.(rx_csum) d.(rx_status) d.(rx_errors) d.(rx_special)) (slot n0 j) s1.(rx_ring)))
    (alter (λ _, p) (slot n0 j) s1.(rx_mbufs)) s1.(elock) n).
Proof.
  intros [H1 H2 H3 H4 H5 H6] Hj Hd Hm Hp Hn Ha. split; simpl.
  - rw Hn H1 rx_frames_snoc; [|lia]. rw (nth_lookup_Some _ _ _ _ Hm) (nth_lookup_Some _ _ _ _ Hd) app_assoc //.
  - lia.
  - intros i d0 Hd0. destruct (H3 _ _ Hd0) as (d' & Hd' & Hin & Hout).
    pose proof (lookup_lt_Some _ _ _ Hd') as Hlt. rw (rx_len _ H5) in Hlt.
    destruct (slot_window n0 j i Hlt Hj) as [Hw Hno]. destruct (decide (i = slot n0 j)) as [->|Hne].
    + rw !list_lookup_alter_eq Hd'. eexists. split_and!; [done|done|]. naive_solver.
    + rw !list_lookup_alter_ne //. exists d'. split_and!; [done|naive_solver..].
  - intros i m0 Hm0. destruct (H4 _ _ Hm0) as (m' & Hm' & Hnz & Hout).
    pose proof (lookup_lt_Some _ _ _ Hm') as Hlt. rw (rb_len _ H5) in Hlt.
    destruct (slot_window n0 j i Hlt Hj) as [Hw Hno]. destruct (decide (i = slot n0 j)) as [->|Hne].
    + rw !list_lookup_alter_eq Hm'. eexists. split_and!; [done|done|]. naive_solver.
    + rw !list_lookup_alter_ne //. exists m'. split_and!; [done|done|naive_solver].
  - split; simpl; rw ?length_alter; [apply H5..|]. intros i m' [(_ & y & _ & ->)|[_ Hm']]%lookup_alter_inv; [done|].
    by eapply rb_nz.
  - done.
Qed.


(** ** Transmitting *)

(** The state [e1000_init] sets up.  Neither the driver nor the device, which
    only ever sets the bit, makes [E1000_TXD_STAT_DD] 0 again. *)
Record tx_ok s : Prop := {
  tx_len : length s.(tx_ring) = 16%nat;
  tb_len : length s.(tx_mbufs) = 16%nat;
  tx_tail : 0 ≤ s.(regs) E1000_TDT < 16;
  tx_lock : s.(elock) = false;
  tx_dd i d : s.(tx_ring) !! i = Some d → Z.land d.(tx_status) E1000_TXD_STAT_DD ≠ 0;
}.

Definition tail s : nat := Z.to_nat (s.(regs) E1000_TDT).

Lemma transmit_spec s m : tx_ok s → m ≠ 0 →
  wp (e1000_transmit m) (λ r s', r = 0 ∧ tx_ok s' ∧ s'.(tx_mbufs) = <[tail s := m]> s.(tx_mbufs) ∧
    (∀ x, s'.(regs) x = if x =? E1000_TDT then (s.(regs) E1000_TDT + 1) mod 16 else s.(regs) x) ∧
    (∀ old, s.(tx_mbufs) !! tail s = Some old → freed s'.(net) = freed s.(net) ++ (if old =? 0 then [] else [old]))) s.
Proof.
  intros Hok Hm. pose proof (tx_tail _ Hok) as Ht.
  destruct (lookup_lt_is_Some_2 s.(tx_ring) (tail s)) as [d Hd]; [rw (tx_len _ Hok) /tail; lia|].
  destruct (lookup_lt_is_Some_2 s.(tx_mbufs) (tail s)) as [old Hold]; [rw (tb_len _ Hok) /tail; lia|].
  pose proof (tx_dd _ Hok _ _ Hd) as Hdd.
  rw /e1000_transmit /acquire_e1000. apply wp_bind, wp_gets_bind. rw (tx_lock _ Hok). rw {1}/wp /modify.
  apply wp_gets_bind, wp_bind. apply (wp_at_index _ _ d); [exact Hd|]. destruct (Z.eqb_spec (Z.land (tx_status d) E1000_TXD_STAT_DD) 0) as [|_]; [done|].
  apply wp_bind. apply (wp_at_index _ _ old); [exact Hold|].
  assert (∀ n, freed n = freed s.(net) ++ (if old =? 0 then [] else [old]) →
    wp (h ← head m; n ← gets (λ s, m_len s.(net) m); modify (set_tx_ring (alter (λ d, MkTx h (u16 n) d.(tx_cso) (Z.lor E1000_TXD_CMD_EOP E1000_TXD_CMD_RS) d.(tx_status) d.(tx_css) d.(tx_special)) (tail s)));;
      modify (set_tx_mbufs (alter (λ _, m) (tail s)));;
      wreg E1000_TDT (u32 (s.(regs) E1000_TDT + 1) mod TX_RING_SIZE);; release_e1000;; mret 0)
    (λ r s', r = 0 ∧ tx_ok s' ∧ s'.(tx_mbufs) = <[tail s := m]> s.(tx_mbufs) ∧
    (∀ x, s'.(regs) x = if x =? E1000_TDT then (s.(regs) E1000_TDT + 1) mod 16 else s.(regs) x) ∧
    (∀ old, s.(tx_mbufs) !! tail s = Some old → freed s'.(net) = freed s.(net) ++ (if old =? 0 then [] else [old])))
    (set_net n (set_elock true s))) as Hrest.
  { intros n Hn. rw /head. destruct (Z.eqb_spec m 0) as [|_]; [done|]. do 2 apply wp_gets_bind. do 2 apply wp_modify_bind.
    assert (u32 (u32 (s.(regs) E1000_TDT + 1) mod TX_RING_SIZE) = (s.(regs) E1000_TDT + 1) mod 16) as Eu.
    { change TX_RING_SIZE with 16. rw /u32. lia. }
    apply wp_bind. rw {1}/wp /wreg /modify Eu. apply wp_bind. rw /release_e1000. apply wp_gets_bind. rw {1}/wp /=. apply wp_ret. split_and!; [done| |by simpl; rw (alter_as_insert _ _ _ old)|done|].
    - split; simpl; rw ?length_alter; [apply Hok..| |done|].
      + change (E1000_TDT =? E1000_TDT) with true. cbv iota. lia.
      + intros i d' [(_ & y & Hy & ->)|[_ Hy]]%lookup_alter_inv; simpl; by eapply tx_dd.
    - intros old' Ho. by replace old' with old by congruence. }
  apply wp_bind, wp_when.
  - intros Hnz. destruct (Z.eqb_spec old 0); [done|]. destruct (mbuffree_ok s.(net) old) as (n' & Hf & Hfr & _).
    apply wp_Nt. eapply wp_of_run; [exact Hf|]. by apply Hrest.
  - intros Hz. destruct (Z.eqb_spec old 0) as [E|]; [|done]. destruct s as [r tr tb rr rb lk n]. apply (Hrest n). by rw app_nil_r.
Qed.

(** The driver's callers send the buffers [ms] one after the other. *)
Fixpoint send (ms : list Z) : M est (list Z) :=
  match ms with
  | [] => mret []
  | m :: ms => r ← e1000_transmit m; rs ← send ms; mret (r :: rs)
  end.

Lemma send_spec ms s : tx_ok s → Forall (λ m, m ≠ 0) ms → (length ms ≤ 16)%nat →
  wp (send ms) (λ rs s', rs = replicate (length ms) 0 ∧ tx_ok s' ∧
    s'.(regs) E1000_TDT = (s.(regs) E1000_TDT + Z.of_nat (length ms)) mod 16 ∧
    s'.(regs) E1000_TDH = s.(regs) E1000_TDH ∧
    (∀ j m, ms !! j = Some m → s'.(tx_mbufs) !! slot (s.(regs) E1000_TDT) (Z.of_nat j) = Some m) ∧
    (∀ i, (i < 16)%nat → ¬ in_window (s.(regs) E1000_TDT) (Z.of_nat (length ms)) i →
       s'.(tx_mbufs) !! i = s.(tx_mbufs) !! i)) s.
Proof.
  revert s. induction ms as [|m ms IH]; intros s Hok Hnz Hlen; simpl in Hlen.
  { apply wp_ret. split_and!; try done. pose proof (tx_tail _ Hok). simpl. lia. }
  inversion Hnz as [|?? Hm Hms]; subst. pose proof (tx_tail _ Hok) as Ht. cbn [send]. apply wp_bind.
  eapply wp_mono; [|by apply transmit_spec]. intros r s1 (-> & Hok1 & Hb1 & Hr1 & _).
  assert (s1.(regs) E1000_TDT = (s.(regs) E1000_TDT + 1) mod 16) as Et by by rw Hr1.
  assert (s1.(regs) E1000_TDH = s.(regs) E1000_TDH) as Eh by by rw Hr1.
  apply wp_bind. eapply wp_mono; [|apply IH; [done|done|lia]].
  intros rs s2 (-> & Hok2 & Ht2 & Hh2 & Hin & Hout). apply wp_ret. simpl length. split_and!; [done|done|..].
  - rw Ht2 Et. lia.
  - congruence.
  - intros [|j] m0 Hj; simpl in Hj.
    + injection Hj as <-. rw Hout; [|apply slot_lt|].
      * rw Hb1. replace (slot _ _) with (tail s) by (rw /slot /tail; lia).
        apply list_lookup_insert_eq. rw (tb_len _ Hok) /tail. lia.
      * rw Et /in_window /slot. lia.
    + rw -(Hin _ _ Hj) Et. f_equal. rw /slot. lia.
  - intros i Hi Hw. rw Hout //.
    + rw Hb1. apply list_lookup_insert_ne. rw /in_window in Hw. rw /tail. lia.
    + rw Et. rw /in_window in Hw *. lia.
Qed.

(** The ring is never found full.  Sixteen packets sent while the device
    fetches none are all accepted and bring the tail back to where it was, so
    that the device sees an empty ring; the next one is accepted too, and
    frees the buffer of the first, which was never sent. *)
Theorem transmit_overruns s m0 ms m :
  tx_ok s → length (m0 :: ms) = 16%nat → Forall (λ m, m ≠ 0) (m0 :: ms) → m ≠ 0 →
  wp (send (m0 :: ms)) (λ rs s1, rs = replicate 16 0 ∧
    s1.(regs) E1000_TDT = s.(regs) E1000_TDT ∧ s1.(regs) E1000_TDH = s.(regs) E1000_TDH ∧
    wp (e1000_transmit m) (λ r s', r = 0 ∧ freed s'.(net) = freed s1.(net) ++ [m0]) s1) s.
Proof.
  intros Hok Hlen Hnz Hm. pose proof (tx_tail _ Hok) as Ht. eapply wp_mono; [|apply send_spec; [done|done|lia]].
  rw Hlen. intros rs s1 (-> & Hok1 & Ht1 & Hh1 & Hin & _).
  assert (s1.(regs) E1000_TDT = s.(regs) E1000_TDT) as Et by (rw Ht1; lia).
  split_and!; [done..|]. eapply wp_mono; [|by apply transmit_spec]. intros r s' (-> & _ & _ & _ & Hf). split; [done|].
  rw (Hf m0).
  - inversion Hnz; subst. by destruct (Z.eqb_spec m0 0).
  - rw -(Hin 0%nat m0) //. f_equal. rw /tail /slot Et. lia.
Qed.
End props.
End E1000Props.

(** A network stack with counters, and the driver after [e1000_init]. *)
Module E1000Demo.
Import E1000Props.

Record dnet := MkDnet { dn_len : Z → Z; dn_rx : list (Z * Z); dn_freed : list Z; dn_avail : nat; dn_next : Z }.
#[local] Instance dnet_layer : NetLayer dnet.
Proof.
  refine {| MBUF_SIZE := 2048;
    mbufalloc := λ _ n, match n.(dn_avail) with
      | O => Ok (0, n)
      | S k => Ok (Z.max 1 n.(dn_next), MkDnet n.(dn_len) n.(dn_rx) n.(dn_freed) k (n.(dn_next) + 1)) end;
    mbuffree := λ m n, Ok (tt, MkDnet n.(dn_len) n.(dn_rx) (n.(dn_freed) ++ [m]) (S n.(dn_avail)) n.(dn_next));
    net_rx := λ m n, Ok (tt, MkDnet n.(dn_len) (n.(dn_rx) ++ [(m, n.(dn_len) m)]) n.(dn_freed) n.(dn_avail) n.(dn_next));
    m_head := λ _ m, m + 100; m_len := dn_len;
    set_m_len := λ m v n, MkDnet (λ x, if x =? m then v else n.(dn_len) x) n.(dn_rx) n.(dn_freed) n.(dn_avail) n.(dn_next);
    delivered := dn_rx; freed := dn_freed; avail := dn_avail |}.
  - intros [l r f [|a] nx] k; do 2 eexists; simpl; split_and!; try done; lia.
  - intros n m. eexists. simpl. split_and!; try done. simpl. lia.
  - intros n m. eexists. by split_and!.
  - intros n m v. simpl. rw Z.eqb_refl. by split_and!.
Defined.

Definition blank : est :=
  MkEst (λ _, 0) (replicate 16 tx0) (replicate 16 0) (replicate 16 rx0) (replicate 16 0) false
    (MkDnet (λ _, 60) [] [] 40 1).
Definition after {A} (r : res (A * est)) : est := match r with Ok (_, s) => s | Err _ => blank end.
Definition ready : est := after (e1000_init 0x80010000 0x80020000 blank).
(** Two frames arrived at descriptors 0 and 1. *)
Definition arrived : est :=
  set_rx_ring (λ l, MkRx 0 64 0 3 0 0 :: MkRx 0 90 0 3 0 0 :: drop 2 l) ready.

Lemma list16 {A} (P : nat → A → Prop) (l : list A) : Forall (λ '(i, x), P i x) (zip (seq 0 (length l)) l) → ∀ i x, l !! i = Some x → P i x.
Proof.
  intros H i x Hx. rw Forall_lookup in H. apply (H i (i, x)). apply lookup_zip_with_Some. exists i, x.
  split_and!; [done| |done]. apply lookup_seq. split; [lia|by eapply lookup_lt_Some].
Qed.

Lemma ready_tx : tx_ok ready.
Proof.
  split; [by vm_compute|by vm_compute|by vm_compute|by vm_compute|].
  apply (list16 (λ _ d, Z.land (tx_status d) E1000_TXD_STAT_DD ≠ 0)). vm_compute. repeat constructor; lia.
Qed.
Lemma arrived_rx : rx_ok arrived.
Proof.
  split; [by vm_compute|by vm_compute|]. apply (list16 (λ _ m, m ≠ 0)). vm_compute. repeat constructor; lia.
Qed.


Lemma transmit_overruns_witness : ∃ rs s1, send (replicate 16 7) ready = Ok (rs, s1) ∧ rs = replicate 16 0.
Proof.
  pose proof (transmit_overruns ready 7 (replicate 15 7) 8 ready_tx eq_refl ltac:(repeat constructor; lia) ltac:(lia))
    as (rs & s1 & Hrun & -> & _)%wp_run.
  exists (replicate 16 0), s1. split; [exact Hrun|reflexivity].
Defined.
End E1000Demo.
