(* ===== verification/Trap.v ===== *)
(** * Traps and alarms (traps lab, [trap.c], [sysproc.c])

    Entry from user space, return to it, device interrupts, and the alarm:
    [usertrap] counts timer interrupts for a process that asked for an alarm
    and diverts it to its handler, [sys_sigreturn] puts the saved registers
    back.  The trapframe is in physical memory.  The rest of the kernel
    ([syscall], [yield], [wakeup], the PLIC and the device drivers) is an
    interface; [exit] does not return. *)

From S2P Require Import Prelude Machine.

Module Trap.

Definition SSTATUS_SPP : Z := Z.shiftl 1 8.
Definition SSTATUS_SPIE : Z := Z.shiftl 1 5.
Definition SSTATUS_SIE : Z := Z.shiftl 1 1.
Definition SATP_SV39 : Z := Z.shiftl 8 60.
Definition MAKE_SATP (pagetable : Z) : Z := Z.lor SATP_SV39 (Z.shiftr pagetable 12).
Definition UART0_IRQ : Z := 10.
Definition VIRTIO0_IRQ : Z := 1.

(** Offsets in [struct trapframe], and its size. *)
Definition TF_kernel_satp : Z := 0.
Definition TF_kernel_sp : Z := 8.
Definition TF_kernel_trap : Z := 16.
Definition TF_epc : Z := 24.
Definition TF_kernel_hartid : Z := 32.
Definition TF_a0 : Z := 112.
Definition TF_size : Z := 288.

(** The fields of [struct proc] that traps use. *)
Record tproc := MkTproc {
  t_running : bool;
  t_killed : Z;
  t_pid : Z;
  t_kstack : Z;
  t_pagetable : Z;
  t_trapframe : Z;
  t_alarmticks : Z;
  t_handler : Z;
  t_passedticks : Z;
  t_trapframecopy : Z;
}.
Definition set_killed (v : Z) (p : tproc) : tproc :=
  MkTproc p.(t_running) v p.(t_pid) p.(t_kstack) p.(t_pagetable) p.(t_trapframe) p.(t_alarmticks) p.(t_handler) p.(t_passedticks) p.(t_trapframecopy).
Definition set_alarmticks (v : Z) (p : tproc) : tproc :=
  MkTproc p.(t_running) p.(t_killed) p.(t_pid) p.(t_kstack) p.(t_pagetable) p.(t_trapframe) v p.(t_handler) p.(t_passedticks) p.(t_trapframecopy).
Definition set_handler (v : Z) (p : tproc) : tproc :=
  MkTproc p.(t_running) p.(t_killed) p.(t_pid) p.(t_kstack) p.(t_pagetable) p.(t_trapframe) p.(t_alarmticks) v p.(t_passedticks) p.(t_trapframecopy).
Definition set_passedticks (v : Z) (p : tproc) : tproc :=
  MkTproc p.(t_running) p.(t_killed) p.(t_pid) p.(t_kstack) p.(t_pagetable) p.(t_trapframe) p.(t_alarmticks) p.(t_handler) v p.(t_trapframecopy).
Definition set_trapframecopy (v : Z) (p : tproc) : tproc :=
  MkTproc p.(t_running) p.(t_killed) p.(t_pid) p.(t_kstack) p.(t_pagetable) p.(t_trapframe) p.(t_alarmticks) p.(t_handler) p.(t_passedticks) v.

Inductive csr := Sstatus | Scause | Sepc | Stval | Stvec | Satp | Sip | Tp.
#[export] Instance csr_eq_dec : EqDecision csr.
Proof. solve_decision. Defined.

(** What is printed. *)
Inductive tline :=
  | UnexpectedScause (scause pid : Z)
  | SepcStval (sepc stval : Z)
  | KernelScause (scause : Z)
  | UnexpectedIrq (irq : Z).

Record tst (O : Type) := MkTst {
  tm : mem;
  tcur : option tproc;   (* myproc() *)
  tcsr : csr → Z;
  ticks : Z;
  tickslock : bool;
  tconsole : list tline;
  oth : O;
}.
Arguments MkTst {O} _ _ _ _ _ _ _.
Arguments tm {O} _.
Arguments tcur {O} _.
Arguments tcsr {O} _.
Arguments ticks {O} _.
Arguments tickslock {O} _.
Arguments tconsole {O} _.
Arguments oth {O} _.

Class TrapCalls (O : Type) := {
  syscall : M (tst O) unit;
  yield : M (tst O) unit;
  wakeup_ticks : M (tst O) unit;
  plic_claim : M (tst O) Z;
  plic_complete : Z → M (tst O) unit;
  uartintr : M (tst O) unit;
  virtio_disk_intr : M (tst O) unit;
  (** The addresses of [kernelvec], [usertrap], and of [uservec] and [userret]
      in the trampoline page. *)
  kernelvec : Z;
  usertrap_addr : Z;
  uservec_off : Z;
  userret_off : Z;
}.

Section trap.
Context {O : Type} {TC : TrapCalls O}.
Notation tst := (tst O).

Definition set_tm (f : mem → mem) (s : tst) : tst :=
  MkTst (f s.(tm)) s.(tcur) s.(tcsr) s.(ticks) s.(tickslock) s.(tconsole) s.(oth).
Definition set_tcur (f : tproc → tproc) (s : tst) : tst :=
  MkTst s.(tm) (f <$> s.(tcur)) s.(tcsr) s.(ticks) s.(tickslock) s.(tconsole) s.(oth).
Definition set_ticks (t : Z) (s : tst) : tst :=
  MkTst s.(tm) s.(tcur) s.(tcsr) t s.(tickslock) s.(tconsole) s.(oth).
Definition set_tickslock (b : bool) (s : tst) : tst :=
  MkTst s.(tm) s.(tcur) s.(tcsr) s.(ticks) b s.(tconsole) s.(oth).
Definition rcsr (r : csr) : M tst Z := gets (λ s, s.(tcsr) r).
Definition wcsr (r : csr) (v : Z) : M tst unit := modify (λ s,
  MkTst s.(tm) s.(tcur) (λ x, if bool_decide (x = r) then v else s.(tcsr) x) s.(ticks) s.(tickslock) s.(tconsole) s.(oth)).
Definition print (l : tline) : M tst unit := modify (λ s,
  MkTst s.(tm) s.(tcur) s.(tcsr) s.(ticks) s.(tickslock) (s.(tconsole) ++ [l]) s.(oth)).
(** [myproc()], dereferenced. *)
Definition me : M tst tproc := λ s, match s.(tcur) with Some p => Ok (p, s) | None => Err (Undef "myproc") end.
Definition upd_me (f : tproc → tproc) : M tst unit := me;; modify (set_tcur f).
Definition tf_get (off : Z) : M tst Z := p ← me; gets (λ s, ld64 s.(tm) (p.(t_trapframe) + off)).
Definition tf_put (off v : Z) : M tst unit := p ← me; modify (set_tm (λ m, st64 m (p.(t_trapframe) + off) v)).
Definition acquire_ticks : M tst unit :=
  l ← gets tickslock; if (l : bool) then panic "acquire" else modify (set_tickslock true).
Definition release_ticks : M tst unit :=
  l ← gets tickslock; if (l : bool) then modify (set_tickslock false) else panic "release".

Definition intr_on : M tst unit := x ← rcsr Sstatus; wcsr Sstatus (Z.lor x SSTATUS_SIE).
Definition intr_off : M tst unit := x ← rcsr Sstatus; wcsr Sstatus (Z.land x (Z.lnot SSTATUS_SIE)).
Definition intr_get : M tst bool := x ← rcsr Sstatus; mret (negb (Z.land x SSTATUS_SIE =? 0)).

Definition trapinit : M tst unit := modify (set_tickslock false).
Definition trapinithart : M tst unit := wcsr Stvec kernelvec.

Definition clockintr : M tst unit :=
  acquire_ticks;;
  t ← gets ticks;
  modify (set_ticks (u32 (t + 1)));;
  wakeup_ticks;;
  release_ticks.

Definition devintr : M tst Z :=
  scause ← rcsr Scause;
  if negb (Z.land scause 0x8000000000000000 =? 0) && (Z.land scause 0xff =? 9) then
    irq ← plic_claim;
    (if irq =? UART0_IRQ then uartintr
     else if irq =? VIRTIO0_IRQ then virtio_disk_intr
     else when (negb (irq =? 0)) (print (UnexpectedIrq irq)));;
    when (negb (irq =? 0)) (plic_complete irq);;
    mret 1
  else if scause =? 0x8000000000000001 then
    id ← rcsr Tp;
    when (s32 id =? 0) clockintr;;
    sip ← rcsr Sip;
    wcsr Sip (Z.land sip (Z.lnot 2));;
    mret 2
  else mret 0.

(** The jump to [userret]: its two arguments. *)
Definition usertrapret : M tst (Z * Z) :=
  intr_off;;
  wcsr Stvec (u64 (TRAMPOLINE + uservec_off));;
  p ← me;
  satp ← rcsr Satp;
  tf_put TF_kernel_satp satp;;
  tf_put TF_kernel_sp (u64 (p.(t_kstack) + PGSIZE));;
  tf_put TF_kernel_trap usertrap_addr;;
  hart ← rcsr Tp;
  tf_put TF_kernel_hartid hart;;
  x ← rcsr Sstatus;
  wcsr Sstatus (Z.lor (Z.land x (Z.lnot SSTATUS_SPP)) SSTATUS_SPIE);;
  epc ← tf_get TF_epc;
  wcsr Sepc epc;;
  mret (TRAPFRAME, MAKE_SATP p.(t_pagetable)).

(** [p->trapframe + 512] is pointer arithmetic on [struct trapframe]. *)
Definition copy_area (trapframe : Z) : Z := trapframe + 512 * TF_size.

(** What a timer interrupt does for the alarm of the process. *)
Definition alarm_tick : M tst unit :=
  p ← me;
  if negb (p.(t_alarmticks) =? 0) then
    upd_me (set_passedticks (s32 (p.(t_passedticks) + 1)));;
    p ← me;
    when (p.(t_passedticks) =? p.(t_alarmticks)) (
      upd_me (set_trapframecopy (copy_area p.(t_trapframe)));;
      p ← me;
      modify (set_tm (λ m, memmove m p.(t_trapframecopy) p.(t_trapframe) TF_size));;
      tf_put TF_epc p.(t_handler))
  else mret tt.

(** [None]: the process exits. *)
Definition usertrap : M tst (option (Z * Z)) :=
  sstatus ← rcsr Sstatus;
  if negb (Z.land sstatus SSTATUS_SPP =? 0) then panic "usertrap: not from user mode"
  else
    wcsr Stvec kernelvec;;
    epc ← rcsr Sepc;
    tf_put TF_epc epc;;
    scause ← rcsr Scause;
    w ← (if scause =? 8 then
           p ← me;
           if negb (p.(t_killed) =? 0) then mret None
           else
             e ← tf_get TF_epc;
             tf_put TF_epc (u64 (e + 4));;
             intr_on;;
             syscall;;
             mret (Some 0)
         else
           which_dev ← devintr;
           if negb (which_dev =? 0) then mret (Some which_dev)
           else
             p ← me;
             sc ← rcsr Scause;
             print (UnexpectedScause sc p.(t_pid));;
             e ← rcsr Sepc;
             v ← rcsr Stval;
             print (SepcStval e v);;
             upd_me (set_killed 1);;
             mret (Some 0));
    match w with
    | None => mret None
    | Some which_dev =>
        p ← me;
        if negb (p.(t_killed) =? 0) then mret None
        else
          when (which_dev =? 2) (alarm_tick;; yield);;
          r ← usertrapret;
          mret (Some r)
    end.

Definition kerneltrap : M tst unit :=
  sepc ← rcsr Sepc;
  sstatus ← rcsr Sstatus;
  scause ← rcsr Scause;
  if Z.land sstatus SSTATUS_SPP =? 0 then panic "kerneltrap: not from supervisor mode"
  else
    b ← intr_get;
    if (b : bool) then panic "kerneltrap: interrupts enabled"
    else
      which_dev ← devintr;
      if which_dev =? 0 then
        print (KernelScause scause);;
        e ← rcsr Sepc;
        v ← rcsr Stval;
        print (SepcStval e v);;
        panic "kerneltrap"
      else
        p ← gets tcur;
        when ((which_dev =? 2) && match p with Some p => p.(t_running) | None => false end) yield;;
        wcsr Sepc sepc;;
        wcsr Sstatus sstatus.

(** ** The system calls *)

(** Argument [n] of the current system call; [argint] and [argaddr] never fail. *)
Definition targ (n : Z) : M tst Z := tf_get (TF_a0 + 8 * n).

Definition sys_sigalarm : M tst Z :=
  n ← targ 0;
  upd_me (set_alarmticks (s32 n));;
  h ← targ 1;
  upd_me (set_handler h);;
  mret 0.

Definition sys_sigreturn : M tst Z :=
  p ← me;
  if negb (p.(t_trapframecopy) =? copy_area p.(t_trapframe)) then mret (-1)
  else
    modify (set_tm (λ m, memmove m p.(t_trapframe) p.(t_trapframecopy) TF_size));;
    upd_me (set_passedticks 0);;
    tf_get TF_a0.
End trap.
End Trap.
