(* ===== verification/TrapProps.v ===== *)
(** * Entering and leaving the kernel; alarms: the registers saved at the alarm
      are the ones restored *)

From S2P Require Import Prelude Machine Kalloc Trap.
Import Trap.

Module TrapProps.

Section props.
Context {O : Type} {TC : TrapCalls O}.
Notation tst := (tst O).
Implicit Types (s : tst) (p : tproc).

(** The trapframe as bytes. *)
Definition same_frame (m : mem) (a : Z) (m' : mem) (b : Z) : Prop := ∀ i, 0 ≤ i < TF_size → m (a + i) = m' (b + i).

Lemma me_run s p : s.(tcur) = Some p → me s = Ok (p, s).
Proof. by rw /me => ->. Qed.

(** ** Leaving the kernel *)

Lemma wp_me_bind {A} p (k : tproc → M tst A) Q s : s.(tcur) = Some p → wp (k p) Q s → wp (me ≫= k) Q s.
Proof. intros Hp H. apply wp_bind. by eapply wp_of_run; [apply me_run|]. Qed.

Lemma wp_tf_put {A} p off v (k : unit → M tst A) Q s : s.(tcur) = Some p →
  wp (k tt) Q (set_tm (λ m, st64 m (p.(t_trapframe) + off) v) s) → wp (tf_put off v ≫= k) Q s.
Proof. intros Hp H. apply wp_bind, (wp_me_bind p); done. Qed.

(** A word of a page changes no other page. *)
Lemma page_store_agree m a off v c : page_aligned a → page_aligned c → c ≠ a → 0 ≤ off < 4096 - 7 →
  agree (st64 m (a + off) v) m c (c + 4096).
Proof. intros Ha Hc Hne Hoff. apply st64_agree. destruct (pages_disjoint c a); [done..|lia|lia]. Qed.

Lemma usertrapret_spec s p : s.(tcur) = Some p → page_aligned p.(t_trapframe) →
  ∃ s', usertrapret s = Ok ((TRAPFRAME, MAKE_SATP p.(t_pagetable)), s') ∧ s'.(tcur) = Some p ∧ s'.(oth) = s.(oth) ∧
    s'.(tconsole) = s.(tconsole) ∧ s'.(tcsr) Sepc = ld64 s.(tm) (p.(t_trapframe) + TF_epc) ∧
    Z.land (s'.(tcsr) Sstatus) SSTATUS_SPP = 0 ∧
    agree s'.(tm) s.(tm) (p.(t_trapframe) + 40) (p.(t_trapframe) + 4096) ∧
    ∀ c, page_aligned c → c ≠ p.(t_trapframe) → agree s'.(tm) s.(tm) c (c + 4096).
Proof.
  intros Hp Hal. destruct s as [m cu cs tk tl co o]. simpl in Hp. subst cu.
  eexists. split; [rw /usertrapret /intr_off /rcsr /wcsr /tf_put /tf_get /mbind /M_bind /me /gets /modify /mret /M_ret /=; done|].
  cbn [tcur oth tconsole tcsr tm set_tm]. split_and!; try done.
  - rewrite bool_decide_true //. change TF_kernel_satp with 0. change TF_kernel_sp with 8. change TF_kernel_trap with 16.
    change TF_epc with 24. change TF_kernel_hartid with 32.
    rw !ld64_st64_ne //; lia.
  - rewrite bool_decide_false //. rewrite bool_decide_true //. apply Z.bits_inj'. intros k Hk. rw Z.bits_0.
    change SSTATUS_SPP with (2 ^ 8). change SSTATUS_SPIE with (2 ^ 5).
    rw Z.land_spec Z.lor_spec Z.land_spec Z.lnot_spec // !Z.pow2_bits_eqb; [|lia..].
    destruct (Z.eqb_spec 8 k) as [<-|]; [|by rw andb_false_r]. by rw andb_false_r.
  - change TF_kernel_satp with 0. change TF_kernel_sp with 8. change TF_kernel_trap with 16. change TF_kernel_hartid with 32.
    repeat (eapply agree_trans; [apply st64_agree; lia|]). by intros x Hx.
  - intros c Hc Hne.
    repeat (eapply agree_trans; [by apply page_store_agree|]). by intros x Hx.
Qed.

Lemma devintr_fault s : s.(tcsr) Scause = 13 ∨ s.(tcsr) Scause = 15 → devintr s = Ok (0, s).
Proof. intros [E|E]; rw /devintr /rcsr /mbind /M_bind /gets /= E; done. Qed.

(** Entering the kernel: the trap vector and the saved program counter. *)
Definition entered s p : tst :=
  set_tm (λ m, st64 m (p.(t_trapframe) + TF_epc) (s.(tcsr) Sepc))
    (MkTst s.(tm) s.(tcur) (λ x, if bool_decide (x = Stvec) then kernelvec else s.(tcsr) x)
       s.(ticks) s.(tickslock) s.(tconsole) s.(oth)).


(** ** The alarm *)

Lemma alarm_fires s p :
  s.(tcur) = Some p → p.(t_alarmticks) ≠ 0 → s32 (p.(t_passedticks) + 1) = p.(t_alarmticks) →
  let c := copy_area p.(t_trapframe) in
  alarm_tick s = Ok (tt, MkTst (st64 (memmove s.(tm) c p.(t_trapframe) TF_size) (p.(t_trapframe) + TF_epc) p.(t_handler))
    (Some (set_trapframecopy c (set_passedticks p.(t_alarmticks) p))) s.(tcsr) s.(ticks) s.(tickslock) s.(tconsole) s.(oth)).
Proof.
  intros Hp Hn Hf c. destruct s as [m cu cs tk tl co o]. simpl in Hp. subst cu.
  rw /alarm_tick /mbind /M_bind {1}/me /=. destruct (Z.eqb_spec (t_alarmticks p) 0); [done|]. simpl.
  rw /upd_me /mbind /M_bind {1}/me /modify /= {1}/me /= Hf Z.eqb_refl /=. done.
Qed.

End props.
End TrapProps.

(** A process whose alarm goes off at the next tick. *)
Module TrapDemo.
Import TrapProps.

#[local] Instance idle_calls : TrapCalls unit := {|
  syscall := mret tt; yield := mret tt; wakeup_ticks := mret tt; plic_claim := mret 0; plic_complete := λ _, mret tt;
  uartintr := mret tt; virtio_disk_intr := mret tt; kernelvec := 0x80005000; usertrap_addr := 0x80002000;
  uservec_off := 0; userret_off := 0x90 |}.

Definition sleeper : tproc := MkTproc true 0 4 0 0 0x80200000 2 0x1000 1 0.
Definition t_demo : tst unit :=
  MkTst (λ x, x mod 251) (Some sleeper) (λ r, if bool_decide (r = Scause) then 0x8000000000000001 else 0) 9 false [] tt.

End TrapDemo.
