(* ===== verification/CowTrap.v ===== *)
(** * Write faults of user programs (cow lab, [trap.c])

    [usertrap] of the cow lab: a store to a page that the process may not
    write traps with [scause] 15; [walkcowaddr] gives the process its own copy
    of a shared page, and the process continues at the same instruction.  A
    store that cannot be allowed ends the process.  The rest of [trap.c] is
    that of [Trap.v]; its state is extended by the free list and the reference
    counts of [Cow.v]. *)

From S2P Require Import Prelude Machine Kalloc Vm VmRep VmMap VmProps Cow CowProps CowFork Trap TrapProps.
Import Cow CowProps Trap TrapProps.

Module CowTrap.

(** [kmem.freelist] and [cows[].ref_cnt]. *)
Record crest := MkCrest { c_freelist : Z; c_cows : Z → Z }.
Notation ctst := (tst crest).

Definition to_cst (s : ctst) : cst := MkCst (MkKst s.(tm) s.(oth).(c_freelist)) s.(oth).(c_cows).
Definition of_cst (c : cst) (s : ctst) : ctst :=
  MkTst (cm c) s.(tcur) s.(tcsr) s.(ticks) s.(tickslock) s.(tconsole) (MkCrest (freelist c.(ck)) c.(cows)).
Lemma of_to_cst s : of_cst (to_cst s) s = s.
Proof. by destruct s as [? ? ? ? ? ? []]. Qed.
Definition Kn {A} : M cst A → M ctst A := lift to_cst of_cst.

Section trap.
Context `{KI : KernelImage} {TC : TrapCalls crest}.

(** The label [bad]. *)
Definition bad : M ctst unit :=
  p ← me;
  sc ← rcsr Scause;
  print (UnexpectedScause sc p.(t_pid));;
  e ← rcsr Sepc;
  v ← rcsr Stval;
  print (SepcStval e v);;
  upd_me (set_killed 1).

(** [None]: the process exits. *)
Definition usertrap : M ctst (option (Z * Z)) :=
  sstatus ← rcsr Sstatus;
  if negb (Z.land sstatus SSTATUS_SPP =? 0) then panic "usertrap: not from user mode"
  else
    wcsr Stvec kernelvec;;
    epc ← rcsr Sepc;
    tf_put TF_epc epc;;
    scause ← rcsr Scause;
    w ← (if scause =? 8 then
           p ← me;
           if negb (p.(t_killed) =? 0) then mret None
           else
             e ← tf_get TF_epc;
             tf_put TF_epc (u64 (e + 4));;
             intr_on;;
             syscall;;
             mret (Some 0)
         else
           which_dev ← devintr;
           if negb (which_dev =? 0) then mret (Some which_dev)
           else
             sc ← rcsr Scause;
             (if sc =? 15 then
                p ← me;
                va ← rcsr Stval;
                pa ← Kn (walkcowaddr p.(t_pagetable) va);
                when (pa =? 0) bad
              else bad);;
             mret (Some which_dev));
    match w with
    | None => mret None
    | Some which_dev =>
        p ← me;
        if negb (p.(t_killed) =? 0) then mret None
        else
          when (which_dev =? 2) yield;;
          r ← usertrapret;
          mret (Some r)
    end.

Implicit Types (s : ctst) (p : tproc) (t : gmap (list Z) Z).

(** ** A store to a shared page *)

(** The trapframe of the process is a page of its own. *)
Record own_trapframe p t (l : list Z) (pa : Z) : Prop := {
  tf_aligned : page_aligned p.(t_trapframe);
  tf_used : p.(t_trapframe) ∉ l;
  tf_notable : ∀ q, t !! q ≠ Some p.(t_trapframe);
  tf_private : p.(t_trapframe) ≠ pa;
}.

(** Saving the program counter does not touch what the fault is about. *)
Lemma fault_after_store s p t root l va off v : cow_fault (to_cst s) t root l va →
  own_trapframe p t l (PTE2PA (pte_of s.(tm) t va)) → 0 ≤ off < 4096 - 7 →
  let s1 := set_tm (λ m, st64 m (p.(t_trapframe) + off) v) s in
  cow_fault (to_cst s1) t root l va ∧ ∀ va', pte_of s1.(tm) t va' = pte_of s.(tm) t va'.
Proof.
  intros [Hok Hr Hf Hva Hfl Hm Hc Hnt] [Hal Hu Htn Hpr] Hoff s1.
  assert (∀ c, page_aligned c → c ≠ p.(t_trapframe) → agree s1.(tm) s.(tm) c (c + 4096)) as Hag
    by (intros; by apply page_store_agree).
  assert (∀ q a, t !! q = Some a → agree s1.(tm) s.(tm) a (a + 4096)) as Htab.
  { intros q a Hq. apply Hag; [by destruct (pt_page _ _ _ Hr _ _ Hq)|]. intros ->. by eapply Htn. }
  assert (∀ va', pte_of s1.(tm) t va' = pte_of s.(tm) t va') as Hsp by (by apply same_space_agree).
  split; [|done].
  assert (pte_of (cm (to_cst s1)) t va = pte_of (cm (to_cst s)) t va) as E by apply Hsp.
  split; rewrite ?E; try done.
  - apply (cow_ok_mem (to_cst s)); [done|]. intros a Ha. apply agree_sym, Hag.
    + pose proof (fp_managed _ _ (co_free _ _ Hok)) as HF. rw Forall_forall in HF. by apply HF.
    + by intros ->.
  - eapply pt_rep_agree; [|exact Hr]. intros q a Hq _. apply agree_sym. by eapply Htab.
Qed.

(** What the process and the rest of the kernel find after the trap. *)
Record resumed s t (root : Z) (l : list Z) (va b tf : Z) s' : Prop := {
  rs_rep : pt_rep s'.(tm) t root;
  rs_space : ∀ va', 0 ≤ va' < MAXVA → pte_of s'.(tm) t va' =
    if va' / 4096 =? va / 4096 then cow_pte (pte_of s.(tm) t va) b else pte_of s.(tm) t va';
  rs_copy : page_copy s'.(tm) b s.(tm) (PTE2PA (pte_of s.(tm) t va));
  rs_other : ∀ c, page_aligned c → c ≠ b → c ≠ tf → (∀ q, t !! q ≠ Some c) →
    c ≠ PTE2PA (pte_of s.(tm) t va) ∨ 2 ≤ count (to_cst s) c → agree s'.(tm) s.(tm) c (c + 4096);
  rs_ok : cow_ok (to_cst s') (if count (to_cst s) (PTE2PA (pte_of s.(tm) t va)) =? 1
                              then PTE2PA (pte_of s.(tm) t va) :: l else l);
}.

Lemma wp_store_fault s p (Q : option (Z * Z) → ctst → Prop) :
  s.(tcur) = Some p → Z.land (s.(tcsr) Sstatus) SSTATUS_SPP = 0 → s.(tcsr) Scause = 15 →
  wp (pa ← Kn (walkcowaddr p.(t_pagetable) (s.(tcsr) Stval)); when (pa =? 0) bad;;
      p ← me; if negb (p.(t_killed) =? 0) then mret None else r ← usertrapret; mret (Some r)) Q (entered s p) →
  wp usertrap Q s.
Proof.
  intros Hp Hst Hsc H. rw /usertrap. apply wp_gets_bind. rw Hst. cbn [Z.eqb negb].
  apply wp_modify_bind, wp_gets_bind, (wp_tf_put p); [done|]. apply wp_gets_bind.
  change (tcsr _ Scause) with (s.(tcsr) Scause). rw Hsc. cbn [Z.eqb Pos.eqb].
  apply wp_bind, wp_bind. eapply wp_of_run; [apply devintr_fault; by right|]. cbn [Z.eqb negb]. apply wp_gets_bind.
  change (tcsr _ Scause) with (s.(tcsr) Scause). rw Hsc. cbn [Z.eqb Pos.eqb].
  apply wp_bind, (wp_me_bind p); [done|]. apply wp_gets_bind.
  match goal with |- wp _ _ ?x => change x with (entered s p) end.
  apply wp_bind. apply wp_run in H as (r & s' & Hrun & HQ).
  rw /mbind /M_bind in Hrun. rw /wp. change (tcsr (entered s p) Stval) with (tcsr s Stval).
  destruct (Kn _ (entered s p)) as [[pa s1]|]; [|done]. simpl in Hrun |- *.
  destruct (when (pa =? 0) bad s1) as [[? s2]|]; [|done].
  wp_unfold. simpl in Hrun. destruct (me s2) as [[p' s3]|]; [|done]. simpl in *.
  destruct (negb _); [by injection Hrun as <- <-|].
  destruct (usertrapret s3) as [[??]|]; [|done]. by injection Hrun as <- <-.
Qed.

(** C4: a user store to a shared page is made possible: the process returns to
    user mode at the instruction that faulted, the address is now mapped
    writable to a private page with the old contents, and neither the other
    mappings nor any page but the trapframe changed. *)
Theorem store_fault_resumes s p t l b va :
  s.(tcur) = Some p → p.(t_killed) = 0 →
  Z.land (s.(tcsr) Sstatus) SSTATUS_SPP = 0 → s.(tcsr) Scause = 15 → s.(tcsr) Stval = va →
  0 ≤ s.(tcsr) Sepc < 2 ^ 64 →
  cow_fault (to_cst s) t p.(t_pagetable) (b :: l) va → own_trapframe p t (b :: l) (PTE2PA (pte_of s.(tm) t va)) →
  ∃ s', usertrap s = Ok (Some (TRAPFRAME, MAKE_SATP p.(t_pagetable)), s') ∧
    s'.(tcur) = Some p ∧ s'.(tcsr) Sepc = s.(tcsr) Sepc ∧ Z.land (s'.(tcsr) Sstatus) SSTATUS_SPP = 0 ∧
    s'.(tconsole) = s.(tconsole) ∧ resumed s t p.(t_pagetable) l va b p.(t_trapframe) s'.
Proof.
  intros Hp Hk Hst Hsc Hva Hpc Hcf Htf. set (root := p.(t_pagetable)) in *. set (tf := p.(t_trapframe)) in *.
  destruct (fault_after_store s p t root (b :: l) va TF_epc (s.(tcsr) Sepc) Hcf Htf ltac:(by vm_compute)) as [Hcf1 Hsp1].
  destruct (walkcowaddr_spec _ _ _ _ _ _ Hcf1) as (k & Hrun & Hd).
  pose proof (fp_managed _ _ (co_free _ _ (cf_ok _ _ _ _ _ Hcf))) as [Hbm _]%Forall_cons.
  set (s2 := of_cst k (entered s p)).
  assert (Kn (walkcowaddr root va) (entered s p) = Ok (b, s2)) as HK by (rw /Kn /lift Hrun //).
  assert (s2.(tcur) = Some p) as Hp2 by done.
  destruct (usertrapret_spec s2 p Hp2 (tf_aligned _ _ _ _ Htf)) as (s' & Hret & Hcur & Hoth & Hcon & Hepc & Hmode & _ & Hag).
  assert (wp usertrap (λ r s'', r = Some (TRAPFRAME, MAKE_SATP root) ∧ s'' = s') s) as Hwp.
  { apply (wp_store_fault s p); try done. rw Hva. apply wp_bind. eapply wp_of_run; [exact HK|].
    pose proof (managed_nz b Hbm). zdec. apply wp_ret. apply (wp_me_bind p); [done|]. rw Hk.
    cbn [Z.eqb negb]. apply wp_bind. eapply wp_of_run; [exact Hret|]. done. }
  apply wp_eq_run in Hwp. exists s'. split; [exact Hwp|].
  destruct Htf as [Hal Hu Htn Hpr]. destruct Hd as [Hrep Hspace Hcopy Hother Hok Hcnt].
  set (m1 := (entered s p).(tm)). change (cm (to_cst _)) with m1 in *.
  change (∀ va', pte_of m1 t va' = pte_of s.(tm) t va') in Hsp1.
  assert (∀ c, page_aligned c → c ≠ tf → agree m1 s.(tm) c (c + 4096)) as Hm1
    by (intros; apply page_store_agree; [done..|by vm_compute]).
  assert (∀ c, page_aligned c → c ≠ tf → agree s'.(tm) (cm k) c (c + 4096)) as Hm2 by done.
  rewrite -> Hsp1 in *. set (pa := PTE2PA (pte_of s.(tm) t va)) in *.
  assert (page_aligned pa) as Hpal by apply PTE2PA_aligned.
  assert (∀ q a, t !! q = Some a → agree s'.(tm) (cm k) a (a + 4096)) as Htab.
  { intros q a Hq. apply Hm2; [by destruct (pt_page _ _ _ Hrep _ _ Hq)|]. intros ->. by eapply Htn. }
  assert (tf ≠ b ∧ tf ∉ l) as [Htb Htl] by set_solver.
  split_and!; [done| |done|done|split].
  - rw Hepc. trans (ld64 m1 (tf + TF_epc)); [|by apply ld64_st64_eq].
    apply ld64_agree. eapply agree_sub; [apply (Hother tf); [done..|by left]|change TF_epc with 24; lia..].
  - eapply pt_rep_agree; [|exact Hrep]. intros q a Hq _. apply agree_sym. by eapply Htab.
  - intros va' Hva'. rw (same_space_agree _ _ _ Htab) Hspace // Hsp1. done.
  - destruct Hbm as [Hbal _]. intros x Hx. rw (Hm2 b Hbal) //; [|lia]. rw Hcopy // (Hm1 pa) //. lia.
  - intros c Hc Hcb Hct Hcq Hcase. eapply agree_trans; [by apply Hm2|]. eapply agree_trans; [|by apply Hm1].
    by apply Hother.
  - rw /to_cst Hoth. apply (cow_ok_mem k); [exact Hok|]. intros a Ha. apply agree_sym, Hm2.
    + pose proof (fp_managed _ _ (co_free _ _ Hok)) as HF. rw Forall_forall in HF. by apply HF.
    + intros ->. destruct (_ =? 1); set_solver.
Qed.

(** ** A store that is not allowed *)

(** The address is outside the process, its page is not the user's, or it is
    read-only without being shared; or no page is left for a copy. *)
Definition refused (m : mem) t (l : list Z) (va : Z) : Prop :=
  MAXVA ≤ va ∨ 0 ≤ va < MAXVA ∧
    let v := pte_of m t va in
    has v PTE_V = false ∨ has v PTE_U = false ∨ has v PTE_W = false ∧ (has v PTE_COW = false ∨ l = []).

Lemma walkcowaddr_refuses (k : cst) t root l va : pt_rep (cm k) t root → cow_ok k l → refused (cm k) t l va →
  walkcowaddr root va k = Ok (0, k).
Proof.
  intros Hr Hok [Hva|[Hva Hv]]; apply wp_eq_run; rw /walkcowaddr; zdec; [by apply wp_ret|].
  apply wp_bind. eapply wp_of_run; [exact (walk_run k t root va false Hr Hva (or_introl eq_refl))|].
  destruct (Z.eqb_spec (leaf_addr t va) 0) as [E|Hnz]; [by apply wp_ret|].
  apply wp_gets_bind. rw (pte_of_leaf_addr (cm k) t va Hnz). simpl in Hv.
  destruct (has (pte_of (cm k) t va) PTE_V); [|by apply wp_ret]. destruct Hv as [?|Hv]; [done|].
  destruct (has (pte_of (cm k) t va) PTE_U); [|by apply wp_ret]. destruct Hv as [?|[-> Hv]]; [done|]. simpl.
  destruct (has (pte_of (cm k) t va) PTE_COW); [|by apply wp_ret]. destruct Hv as [?| ->]; [done|]. simpl.
  apply wp_bind. eapply wp_mono; [|by apply cow_kalloc_spec]. intros ? ? [-> ->]. by apply wp_ret.
Qed.

(** Such a store ends the process, and is reported. *)
Theorem store_fault_kills s p t l va :
  s.(tcur) = Some p → Z.land (s.(tcsr) Sstatus) SSTATUS_SPP = 0 → s.(tcsr) Scause = 15 → s.(tcsr) Stval = va →
  pt_rep s.(tm) t p.(t_pagetable) → cow_ok (to_cst s) l →
  page_aligned p.(t_trapframe) → p.(t_trapframe) ∉ l → (∀ q, t !! q ≠ Some p.(t_trapframe)) → refused s.(tm) t l va →
  ∃ s', usertrap s = Ok (None, s') ∧ s'.(tcur) = Some (set_killed 1 p) ∧ s'.(oth) = s.(oth) ∧
    s'.(tconsole) = s.(tconsole) ++ [UnexpectedScause 15 p.(t_pid); SepcStval (s.(tcsr) Sepc) va] ∧
    ∀ c, page_aligned c → c ≠ p.(t_trapframe) → agree s'.(tm) s.(tm) c (c + 4096).
Proof.
  intros Hp Hst Hsc Hva Hr Hok Hal Hu Htn Href.
  assert (∀ c, page_aligned c → c ≠ p.(t_trapframe) → agree (entered s p).(tm) s.(tm) c (c + 4096)) as Hag
    by (intros; apply page_store_agree; [done..|by vm_compute]).
  assert (∀ q a, t !! q = Some a → agree (entered s p).(tm) s.(tm) a (a + 4096)) as Htab.
  { intros q a Hq. apply Hag; [by destruct (pt_page _ _ _ Hr _ _ Hq)|]. intros ->. by eapply Htn. }
  assert (walkcowaddr p.(t_pagetable) va (to_cst (entered s p)) = Ok (0, to_cst (entered s p))) as Hw.
  { eapply walkcowaddr_refuses.
    - eapply pt_rep_agree; [|exact Hr]. intros q a Hq _. apply agree_sym. by eapply Htab.
    - apply (cow_ok_mem (to_cst s)); [done|]. intros a Ha. apply agree_sym, Hag.
      + pose proof (fp_managed _ _ (co_free _ _ Hok)) as HF. rw Forall_forall in HF. by apply HF.
      + by intros ->.
    - rw /refused. change (cm (to_cst (entered s p))) with (entered s p).(tm). by rw (same_space_agree _ _ _ Htab). }
  set (s1 := entered s p) in *.
  set (s' := MkTst s1.(tm) (Some (set_killed 1 p)) s1.(tcsr) s1.(ticks) s1.(tickslock)
    (s.(tconsole) ++ [UnexpectedScause 15 p.(t_pid); SepcStval (s.(tcsr) Sepc) va]) s.(oth)).
  exists s'. split; [|done]. apply wp_eq_run, (wp_store_fault s p); try done. fold s1. rw Hva.
  apply wp_bind. eapply wp_of_run; [by rw /Kn /lift Hw of_to_cst|]. cbn [Z.eqb].
  apply wp_bind. eapply (wp_of_run _ _ _ tt s'); [|by apply (wp_me_bind (set_killed 1 p))].
  assert (s1.(tcur) = Some p) as Hp1 by done. assert (s1.(tcsr) Stval = va) as Hv1 by done.
  assert (s1.(tcsr) Scause = 15) as Hc1 by done. assert (s1.(tcsr) Sepc = s.(tcsr) Sepc) as He1 by done.
  rw /when /bad. apply wp_eq_run. apply (wp_me_bind p); [done|]. apply wp_gets_bind, wp_modify_bind, wp_gets_bind, wp_gets_bind.
  apply wp_modify_bind. apply (wp_me_bind p); [done|]. split; [done|].
  rw /set_tcur. cbn [tm tcur tcsr ticks tickslock tconsole oth]. by rw Hp1 Hc1 He1 Hv1 -app_assoc.
Qed.

End trap.
End CowTrap.

(** ** The hypotheses hold: a process that stores to a shared page *)
Module CowTrapDemo.
Import CowTrap VmProps.Demo CowDemo.
#[local] Existing Instance pgtbl_image.

#[local] Instance quiet : TrapCalls crest := {|
  syscall := mret tt; yield := mret tt; wakeup_ticks := mret tt; plic_claim := mret 0; plic_complete := λ _, mret tt;
  uartintr := mret tt; virtio_disk_intr := mret tt; kernelvec := 0x80005000; usertrap_addr := 0x80002000;
  uservec_off := 0; userret_off := 0x90 |}.

(** Page 0 is mapped copy-on-write to [D]; the trapframe is the page [R2]. *)
Definition m_cow : mem := st64 m_demo (leaf_addr t_demo 0) (Z.lor (PA2PTE D) 0x113).
Definition writer : tproc := MkTproc true 0 4 0 R R2 0 0 0 0.
Definition s_trap : ctst := MkTst m_cow (Some writer)
  (λ r, match r with Scause => 15 | Stval => 16 | Sepc => 0x44 | _ => 0 end) 0 false [] (MkCrest (F 0) cows_demo).

Lemma trap_demo_fault : cow_fault (to_cst s_trap) t_demo R (F 0 :: [F 1; F 2; F 3; F 4]) 16.
Proof.
  destruct (pt_rep_store m_demo t_demo R 0 (Z.lor (PA2PTE D) 0x113) demo_rep) as [Hr _]; [by vm_compute..|].
  split; [|exact Hr|apply demo_ok|by vm_compute..| | |].
  - change (to_cst s_trap) with (MkCst (MkKst m_cow (freelist s_cow.(ck))) s_cow.(cows)).
    apply (cow_ok_mem s_cow); [exact cow_demo_ok|]. intros a Ha. apply agree_sym, st64_agree. left.
    change (leaf_addr t_demo 0) with 0x80202000.
    repeat (apply elem_of_cons in Ha as [->|Ha]; [vm_compute; congruence|]). by apply not_elem_of_nil in Ha.
  - apply managed_demo. change (PTE2PA _) with D. set_solver.
  - by vm_compute.
  - intros p Hp. apply demo_lookup in Hp. by destruct Hp as [[_ H]|[[_ H]|[_ H]]]; vm_compute in H.
Qed.

Lemma trap_demo_frame : own_trapframe writer t_demo (F 0 :: [F 1; F 2; F 3; F 4]) (PTE2PA (pte_of m_cow t_demo 16)).
Proof.
  split.
  - by vm_compute.
  - by apply (bool_decide_unpack _); vm_compute.
  - intros p Hp. apply demo_lookup in Hp. by destruct Hp as [[_ H]|[[_ H]|[_ H]]]; vm_compute in H.
  - change (PTE2PA _) with D. by vm_compute.
Qed.

Lemma store_fault_resumes_witness : ∃ s', usertrap s_trap = Ok (Some (TRAPFRAME, MAKE_SATP R), s') ∧
  s'.(tcur) = Some writer ∧ s'.(tcsr) Sepc = 0x44 ∧ Z.land (s'.(tcsr) Sstatus) SSTATUS_SPP = 0 ∧
  s'.(tconsole) = [] ∧ resumed s_trap t_demo R [F 1; F 2; F 3; F 4] 16 (F 0) R2 s'.
Proof.
  assert (0 ≤ s_trap.(tcsr) Sepc < 2 ^ 64) as Hpc by (simpl; lia).
  exact (store_fault_resumes s_trap writer t_demo [F 1; F 2; F 3; F 4] (F 0) 16
    eq_refl eq_refl eq_refl eq_refl eq_refl Hpc trap_demo_fault trap_demo_frame).
Defined.
End CowTrapDemo.
