(* ===== verification/Ph.v ===== *)
(** * A hash table shared by threads (multithreading lab, [ph.c])

    [put] is cut at every access to shared memory, so that threads interleave
    between any two of them; the bucket locks are pthread mutexes, and
    [malloc] returns any unused address.  A thread runs [put_thread]: its loop
    variable [i] and the position of its current [put]. *)

From S2P Require Import Prelude.

Module Ph.

Definition NBUCKET : nat := 5.

Record entry := MkEntry { e_key : Z; e_value : Z; e_next : Z }.
Definition set_value (v : Z) (e : entry) : entry := MkEntry e.(e_key) v e.(e_next).

Record pst := MkPst {
  heap : gmap Z entry;
  table : list Z;
  locks : list (option nat);
}.

(** [key % NBUCKET]: the remainder of C, an index for keys that are not negative. *)
Definition bucket (key : Z) : nat := Z.to_nat (Z.rem key (Z.of_nat NBUCKET)).

Definition set_heap (f : gmap Z entry → gmap Z entry) (s : pst) : pst := MkPst (f s.(heap)) s.(table) s.(locks).
Definition set_table (f : list Z → list Z) (s : pst) : pst := MkPst s.(heap) (f s.(table)) s.(locks).
Definition set_locks (f : list (option nat) → list (option nat)) (s : pst) : pst := MkPst s.(heap) s.(table) (f s.(locks)).
Definition load (a : Z) : M pst entry := λ s,
  match s.(heap) !! a with Some e => Ok (e, s) | None => Err (Undef "entry") end.
Definition read_table (i : nat) : M pst Z := λ s,
  match s.(table) !! i with Some a => Ok (a, s) | None => Err (Undef "table") end.

(** Where a thread is in [put]; [None] is its return. *)
Inductive ppc :=
  | PLock                (* pthread_mutex_lock(locks + i) *)
  | PHead                (* e = table[i] *)
  | PScan (e : Z)        (* the loop, at entry e *)
  | PUpdate (e : Z)      (* e->value = value *)
  | PInsert              (* insert(key, value, &table[i], table[i]): its arguments *)
  | PMalloc (n : Z)      (* malloc and the fields of the new entry *)
  | PStore (e : Z)       (* *p = e *)
  | PUnlock.             (* pthread_mutex_unlock(locks + i) *)

(** One access of thread [t] in [put(key, value)]; [fresh] is what [malloc]
    returns.  Locking a mutex that is held is not a step. *)
Definition put_step (t : nat) (fresh key value : Z) (pc : ppc) : M pst (option ppc) :=
  let i := bucket key in
  match pc with
  | PLock => λ s,
      match s.(locks) !! i with
      | Some None => Ok (Some PHead, set_locks (alter (λ _, Some t) i) s)
      | _ => Err (Undef "blocked")
      end
  | PHead => a ← read_table i; mret (Some (PScan a))
  | PScan a =>
      if a =? 0 then mret (Some PInsert)
      else
        e ← load a;
        if e.(e_key) =? key then mret (Some (PUpdate a)) else mret (Some (PScan e.(e_next)))
  | PUpdate a => load a;; modify (set_heap (alter (set_value value) a));; mret (Some PUnlock)
  | PInsert => n ← read_table i; mret (Some (PMalloc n))
  | PMalloc n => modify (set_heap (<[fresh := MkEntry key value n]>));; mret (Some (PStore fresh))
  | PStore a => read_table i;; modify (set_table (alter (λ _, a) i));; mret (Some PUnlock)
  | PUnlock => modify (set_locks (alter (λ _, None) i));; mret None
  end.

(** The loop of [get]; [None] is the null pointer. *)
Definition get (key : Z) : M pst (option (Z * entry)) :=
  a ← read_table (bucket key);
  loop (λ a,
    if a =? 0 then mret (inr None)
    else
      e ← load a;
      if e.(e_key) =? key then mret (inr (Some (a, e))) else mret (inl e.(e_next))) a.

(** [get_thread]: the number of keys it misses. *)
Definition get_thread (keys : list Z) : M pst Z :=
  x ← for_acc (R := Empty_set) keys 0 (λ key missing,
    e ← get key;
    mret (inl (match e with None => missing + 1 | Some _ => missing end)));
  match x with inl missing => mret missing | inr r => match (r : Empty_set) with end end.

(** A thread of [put_thread]: its keys [keys[b*n .. b*n+b)], its number as the
    value it stores, and its position. *)
Record thread := MkThread { th_keys : list Z; th_val : Z; th_i : nat; th_pc : ppc }.

(** One step of thread [t]: an access of the current [put], or the return
    from it, after which the loop goes on. *)
Definition thread_step (t : nat) (fresh : Z) (th : thread) : M pst thread :=
  match th.(th_keys) !! th.(th_i) with
  | None => λ _, Err (Undef "finished")
  | Some key =>
      pc ← put_step t fresh key th.(th_val) th.(th_pc);
      match pc with
      | Some pc => mret (MkThread th.(th_keys) th.(th_val) th.(th_i) pc)
      | None => mret (MkThread th.(th_keys) th.(th_val) (S th.(th_i)) PLock)
      end
  end.

Record prog := MkProg { mem : pst; threads : list thread }.

Inductive step : prog → prog → Prop :=
  | Step s s' ths t th th' fresh :
      ths !! t = Some th →
      fresh ≠ 0 → s.(heap) !! fresh = None →
      thread_step t fresh th s = Ok (th', s') →
      step (MkProg s ths) (MkProg s' (<[t := th']> ths)).

(** [main]: empty table, free locks, the threads at their first [put]. *)
Definition put_thread (keys : list Z) (b n : nat) : thread :=
  MkThread (take b (drop (b * n) keys)) (Z.of_nat n) 0 PLock.
Definition start (keys : list Z) (nthread : nat) : prog :=
  MkProg (MkPst ∅ (replicate NBUCKET 0) (replicate NBUCKET None))
    (put_thread keys (length keys / nthread) <$> seq 0 nthread).
Definition finished (p : prog) : Prop := ∀ t th, p.(threads) !! t = Some th → (length th.(th_keys) ≤ th.(th_i))%nat.

(** ** The invariant *)

(** The entries of a list, by address. *)
Fixpoint chain (h : gmap Z entry) (a : Z) (l : list (Z * entry)) : Prop :=
  match l with
  | [] => a = 0
  | (b, e) :: l => a = b ∧ b ≠ 0 ∧ h !! b = Some e ∧ chain h e.(e_next) l
  end.
Definition keys_of (l : list (Z * entry)) : list Z := (λ x, x.2.(e_key)) <$> l.

Definition holds (pc : ppc) : bool := match pc with PLock => false | _ => true end.

(** What thread [t], at [pc] of [put(key, _)], knows of the list [l] of its bucket. *)
Definition at_pc (h : gmap Z entry) (key : Z) (pc : ppc) (l : list (Z * entry)) : Prop :=
  match pc with
  | PLock | PHead => True
  | PScan a => ∃ l1 l2, l = l1 ++ l2 ∧ chain h a l2 ∧ key ∉ keys_of l1
  | PUpdate a => ∃ e, (a, e) ∈ l ∧ e.(e_key) = key
  | PInsert => key ∉ keys_of l
  | PMalloc n => key ∉ keys_of l ∧ chain h n l
  | PStore a => key ∉ keys_of l ∧ a ≠ 0 ∧ a ∉ l.*1 ∧ ∃ v n, h !! a = Some (MkEntry key v n) ∧ chain h n l
  | PUnlock => key ∈ keys_of l
  end.

(** [ls] are the lists of the buckets. *)
Record inv (p : prog) (ls : list (list (Z * entry))) : Prop := {
  i_len : length ls = NBUCKET ∧ length p.(mem).(table) = NBUCKET ∧ length p.(mem).(locks) = NBUCKET;
  i_chain i a l : p.(mem).(table) !! i = Some a → ls !! i = Some l → chain p.(mem).(heap) a l;
  i_nodup i l : ls !! i = Some l → NoDup (keys_of l) ∧ NoDup l.*1;
  i_bucket i l k : ls !! i = Some l → k ∈ keys_of l → bucket k = i ∧ 0 ≤ k < 2 ^ 31;
  i_keys t th : p.(threads) !! t = Some th → Forall (λ k, 0 ≤ k < 2 ^ 31) th.(th_keys);
  i_lock t th k : p.(threads) !! t = Some th → th.(th_keys) !! th.(th_i) = Some k →
    holds th.(th_pc) = true → p.(mem).(locks) !! bucket k = Some (Some t);
  i_pc t th k l : p.(threads) !! t = Some th → th.(th_keys) !! th.(th_i) = Some k →
    ls !! bucket k = Some l → at_pc p.(mem).(heap) k th.(th_pc) l;
  i_done t th k : p.(threads) !! t = Some th → k ∈ take th.(th_i) th.(th_keys) →
    ∃ l, ls !! bucket k = Some l ∧ k ∈ keys_of l;
}.
End Ph.
