(* ===== verification/PhProps.v ===== *)
(** * The shared hash table loses no key *)

From S2P Require Import Prelude Ph.
Import Ph.

Module PhProps.

Implicit Types (h : gmap Z entry) (l : list (Z * entry)) (p : prog).

Lemma chain_mono h h' a l : (∀ b e, h !! b = Some e → h' !! b = Some e) → chain h a l → chain h' a l.
Proof.
  intros Hh. revert a. induction l as [|[b e] l IH]; intros a; simpl; [done|].
  intros (-> & Hnz & Hb & Hc). split_and!; auto.
Qed.

Lemma chain_in h a l b e : chain h a l → (b, e) ∈ l → h !! b = Some e ∧ b ≠ 0.
Proof.
  revert a. induction l as [|[b' e'] l IH]; intros a; simpl; [set_solver|].
  intros (-> & Hnz & Hb & Hc) [Heq|Hin]%elem_of_cons; [by simplify_eq|]. by eapply IH.
Qed.

Lemma chain_dom h a l b : chain h a l → b ∈ l.*1 → is_Some (h !! b).
Proof.
  intros Hc ([b' e] & -> & Hin)%list_elem_of_fmap. destruct (chain_in _ _ _ _ _ Hc Hin) as [? _]. by eexists.
Qed.

(** Assigning [e->value] in every list. *)
Definition upd (a v : Z) (x : Z * entry) : Z * entry := if decide (x.1 = a) then (x.1, set_value v x.2) else x.

Lemma chain_upd h x l a v : chain h x l → chain (alter (set_value v) a h) x (upd a v <$> l).
Proof.
  revert x. induction l as [|[b e] l IH]; intros x; simpl; [done|]. intros (-> & Hnz & Hb & Hc). rw /upd /=.
  destruct (decide (b = a)) as [->|]; simpl; (split_and!; [done..| |by apply IH]).
  - by rw lookup_alter_eq Hb.
  - by rw lookup_alter_ne.
Qed.
Lemma keys_upd l a v : keys_of (upd a v <$> l) = keys_of l.
Proof. rw /keys_of -list_fmap_compose. apply list_fmap_ext. intros _ [b e] _. rw /= /upd. by case_decide. Qed.
Lemma fst_upd l a v : (upd a v <$> l).*1 = l.*1.
Proof. rw -list_fmap_compose. apply list_fmap_ext. intros _ [b e] _. rw /= /upd. by case_decide. Qed.

Lemma at_pc_upd h k pc l a v : at_pc h k pc l → at_pc (alter (set_value v) a h) k pc (upd a v <$> l).
Proof.
  destruct pc as [| |x|x| |n|x|]; simpl; rw ?keys_upd ?fst_upd; try done.
  - intros (l1 & l2 & -> & Hc & Hk). exists (upd a v <$> l1), (upd a v <$> l2). rw fmap_app keys_upd.
    split_and!; [done| |done]. by apply chain_upd.
  - intros (e & Hin & Hk). exists (upd a v (x, e)).2. split.
    + apply list_elem_of_fmap. exists (x, e). split; [|done]. rw /upd /=. by case_decide.
    + rw /upd /=. by case_decide.
  - intros [? Hc]. split; [done|by apply chain_upd].
  - intros (? & ? & ? & v' & n & Hx & Hc). split_and!; [done..|].
    destruct (decide (x = a)) as [->|]; [exists v, n|exists v', n]; (split; [|by apply chain_upd]).
    + by rw lookup_alter_eq Hx.
    + by rw lookup_alter_ne.
Qed.

Lemma at_pc_mono h h' k pc l : (∀ b e, h !! b = Some e → h' !! b = Some e) → at_pc h k pc l → at_pc h' k pc l.
Proof.
  intros Hh. destruct pc; simpl; try done.
  - intros (l1 & l2 & -> & Hc & Hk). exists l1, l2. eauto using chain_mono.
  - intros [? ?]. eauto using chain_mono.
  - intros (? & ? & ? & v & n & ? & ?). split_and!; [done..|]. exists v, n. eauto using chain_mono.
Qed.

Lemma bucket_lt k : 0 ≤ k → (bucket k < NBUCKET)%nat.
Proof. intros Hk. rw /bucket /NBUCKET. pose proof (Z.rem_bound_pos k 5). lia. Qed.

(** Two threads inside [put] work on different buckets. *)
Lemma holders_apart p ls t t' th th' k k' :
  inv p ls → t ≠ t' → p.(threads) !! t = Some th → p.(threads) !! t' = Some th' →
  th.(th_keys) !! th.(th_i) = Some k → th'.(th_keys) !! th'.(th_i) = Some k' →
  holds th.(th_pc) = true → holds th'.(th_pc) = true → bucket k ≠ bucket k'.
Proof.
  intros Hi Hne Ht Ht' Hk Hk' Hh Hh' E. pose proof (i_lock _ _ Hi _ _ _ Ht Hk Hh) as H1.
  pose proof (i_lock _ _ Hi _ _ _ Ht' Hk' Hh') as H2. congruence.
Qed.

(** What a step has to establish. *)
Lemma ph_inv_step p ls ls' t th th' s' :
  inv p ls → p.(threads) !! t = Some th → th'.(th_keys) = th.(th_keys) →
  length ls' = NBUCKET → length s'.(table) = NBUCKET → length s'.(locks) = NBUCKET →
  (∀ i a l, s'.(table) !! i = Some a → ls' !! i = Some l → chain s'.(heap) a l) →
  (∀ i l, ls' !! i = Some l → NoDup (keys_of l) ∧ NoDup l.*1 ∧ ∀ k, k ∈ keys_of l → bucket k = i ∧ 0 ≤ k < 2 ^ 31) →
  (∀ k l, ls !! bucket k = Some l → k ∈ keys_of l → ∃ l', ls' !! bucket k = Some l' ∧ k ∈ keys_of l') →
  (∀ t2 th2 k, t2 ≠ t → p.(threads) !! t2 = Some th2 → th2.(th_keys) !! th2.(th_i) = Some k → holds th2.(th_pc) = true →
     s'.(locks) !! bucket k = Some (Some t2) ∧ ∀ l, ls' !! bucket k = Some l → at_pc s'.(heap) k th2.(th_pc) l) →
  (∀ k, th'.(th_keys) !! th'.(th_i) = Some k → (holds th'.(th_pc) = true → s'.(locks) !! bucket k = Some (Some t)) ∧
     ∀ l, ls' !! bucket k = Some l → at_pc s'.(heap) k th'.(th_pc) l) →
  (∀ k, k ∈ take th'.(th_i) th'.(th_keys) → k ∈ take th.(th_i) th.(th_keys) ∨ ∃ l, ls !! bucket k = Some l ∧ k ∈ keys_of l) →
  inv (MkProg s' (<[t := th']> p.(threads))) ls'.
Proof.
  intros Hi Ht Ek L1 L2 L3 Hc Hn Hmono Hoth Hown Hdone. split; simpl.
  - done.
  - done.
  - intros i l Hl. destruct (Hn _ _ Hl) as (? & ? & _). done.
  - intros i l k Hl. by destruct (Hn _ _ Hl) as (_ & _ & ?); eauto.
  - intros t2 th2 [(<- & -> & _)|[_ H2]]%list_lookup_insert_Some; [rw Ek|]; by eapply i_keys.
  - intros t2 th2 k [(<- & -> & _)|[Hne H2]]%list_lookup_insert_Some Hk Hh; [by eapply Hown|]. by eapply (Hoth t2).
  - intros t2 th2 k l [(<- & -> & _)|[Hne H2]]%list_lookup_insert_Some Hk Hl; [by eapply Hown|].
    destruct (holds (th_pc th2)) eqn:Eh; [by eapply (Hoth t2)|]. by destruct (th_pc th2).
  - intros t2 th2 k [(<- & -> & _)|[Hne H2]]%list_lookup_insert_Some Hk.
    + destruct (Hdone _ Hk) as [Hk'|(l & Hl & Hin)]; [|by eauto].
      destruct (i_done _ _ Hi _ _ _ Ht Hk') as (l & Hl & Hin). eauto.
    + destruct (i_done _ _ Hi _ _ _ H2 Hk) as (l & Hl & Hin). eauto.
Qed.

Section step.
Context (p : prog) (ls : list (list (Z * entry))) (t : nat) (th : thread) (k : Z).
Context (Hi : inv p ls) (Ht : p.(threads) !! t = Some th) (Hk : th.(th_keys) !! th.(th_i) = Some k).
Notation s := p.(mem).
Notation at_ pc := (MkThread th.(th_keys) th.(th_val) th.(th_i) pc).

Lemma own_key : 0 ≤ k < 2 ^ 31.
Proof.
  pose proof (i_keys _ _ Hi _ _ Ht) as Hpos. rw Forall_forall in Hpos. apply Hpos. by eapply list_elem_of_lookup_2.
Qed.

Lemma own_bucket : ∃ a l, s.(table) !! bucket k = Some a ∧ ls !! bucket k = Some l ∧ chain s.(heap) a l
  ∧ at_pc s.(heap) k th.(th_pc) l.
Proof.
  pose proof own_key as Hpos. pose proof (bucket_lt k ltac:(lia)) as Hb.
  destruct (i_len _ _ Hi) as (L1 & L2 & _).
  destruct (lookup_lt_is_Some_2 s.(table) (bucket k)) as [a Ha]; [by rw L2|].
  destruct (lookup_lt_is_Some_2 ls (bucket k)) as [l Hl]; [by rw L1|].
  exists a, l. split_and!; [done..|by eapply i_chain|by eapply i_pc].
Qed.

Lemma lists_ok i l : ls !! i = Some l → NoDup (keys_of l) ∧ NoDup l.*1 ∧ ∀ k, k ∈ keys_of l → bucket k = i ∧ 0 ≤ k < 2 ^ 31.
Proof. intros Hl. destruct (i_nodup _ _ Hi _ _ Hl). split_and!; [done..|]. intros k'. by eapply i_bucket. Qed.

Lemma others_ok t2 th2 k2 : t2 ≠ t → p.(threads) !! t2 = Some th2 → th2.(th_keys) !! th2.(th_i) = Some k2 →
  holds th2.(th_pc) = true →
  s.(locks) !! bucket k2 = Some (Some t2) ∧ ∀ l, ls !! bucket k2 = Some l → at_pc s.(heap) k2 th2.(th_pc) l.
Proof. intros _ H2 Hk2 Hh. split; [by eapply i_lock|]. intros l Hl. by eapply i_pc. Qed.

(** Reads: only the position changes. *)
Lemma ph_inv_read pc : holds th.(th_pc) = true → (∀ l, ls !! bucket k = Some l → at_pc s.(heap) k pc l) →
  inv (MkProg s (<[t := at_ pc]> p.(threads))) ls.
Proof.
  intros Hh Hpc. destruct (i_len _ _ Hi) as (L1 & L2 & L3). apply (ph_inv_step p ls ls t th); try done.
  - intros. by eapply i_chain.
  - apply lists_ok.
  - eauto.
  - apply others_ok.
  - intros k' Hk'. replace k' with k in * by (simpl in Hk'; congruence). split; [intros _; by eapply i_lock|]. apply Hpc.
  - by left.
Qed.

Lemma ph_inv_lock : th.(th_pc) = PLock → s.(locks) !! bucket k = Some None →
  inv (MkProg (set_locks (alter (λ _, Some t) (bucket k)) s) (<[t := at_ PHead]> p.(threads))) ls.
Proof.
  intros Hpc Hfree. destruct (i_len _ _ Hi) as (L1 & L2 & L3). apply (ph_inv_step p ls ls t th); simpl; rw ?length_alter; try done.
  - intros. by eapply i_chain.
  - apply lists_ok.
  - eauto.
  - intros t2 th2 k2 Hne H2 Hk2 Hh2. destruct (others_ok t2 th2 k2 Hne H2 Hk2 Hh2) as [Hl2 Hp2].
    split; [|done]. rw list_lookup_alter_ne //. intros E. rw E in Hfree. congruence.
  - intros k' Hk'. replace k' with k in * by (simpl in Hk'; congruence). split; [|done].
    intros _. by rw list_lookup_alter_eq Hfree.
  - by left.
Qed.

Lemma ph_inv_unlock l : th.(th_pc) = PUnlock → ls !! bucket k = Some l → k ∈ keys_of l →
  inv (MkProg (set_locks (alter (λ _, None) (bucket k)) s)
    (<[t := MkThread th.(th_keys) th.(th_val) (S th.(th_i)) PLock]> p.(threads))) ls.
Proof.
  intros Hpc Hl Hin. destruct (i_len _ _ Hi) as (L1 & L2 & L3). apply (ph_inv_step p ls ls t th); cbn [set_locks table locks heap th_keys th_i th_pc]; rw ?length_alter; try done.
  - intros. by eapply i_chain.
  - apply lists_ok.
  - eauto.
  - intros t2 th2 k2 Hne H2 Hk2 Hh2. destruct (others_ok t2 th2 k2 Hne H2 Hk2 Hh2) as [Hl2 Hp2].
    split; [|done]. rw list_lookup_alter_ne //.
    apply (holders_apart p ls t t2 th th2); try done. by rw Hpc.
  - intros k'. rw (take_S_r _ _ _ Hk). intros [?|E]%elem_of_app; [by left|].
    apply list_elem_of_singleton in E as ->. right. eauto.
Qed.

Lemma ph_inv_update a v : th.(th_pc) = PUpdate a →
  inv (MkProg (set_heap (alter (set_value v) a) s) (<[t := at_ PUnlock]> p.(threads))) ((λ l, upd a v <$> l) <$> ls).
Proof.
  intros Hpc. destruct (i_len _ _ Hi) as (L1 & L2 & L3).
  apply (ph_inv_step p ls _ t th); simpl; rw ?length_fmap; try done.
  - intros i x l Hx (l0 & -> & Hl)%list_lookup_fmap_Some. apply chain_upd. by eapply i_chain.
  - intros i l (l0 & -> & Hl)%list_lookup_fmap_Some. rw keys_upd fst_upd. by apply lists_ok.
  - intros k' l Hl Hin. exists (upd a v <$> l). rw list_lookup_fmap Hl keys_upd. done.
  - intros t2 th2 k2 Hne H2 Hk2 Hh2. destruct (others_ok t2 th2 k2 Hne H2 Hk2 Hh2) as [Hl2 Hp2]. split; [done|].
    intros l (l0 & -> & Hl)%list_lookup_fmap_Some. apply at_pc_upd. by apply Hp2.
  - intros k' Hk'. replace k' with k in * by (simpl in Hk'; congruence). split; [intros _; apply (i_lock _ _ Hi _ _ _ Ht Hk); by rw Hpc|].
    intros l (l0 & -> & Hl)%list_lookup_fmap_Some. rw keys_upd.
    pose proof (i_pc _ _ Hi _ _ _ _ Ht Hk Hl) as H0. rw Hpc in H0. destruct H0 as (e & Hin & <-).
    apply list_elem_of_fmap. by exists (a, e).
  - by left.
Qed.

Lemma ph_inv_malloc n a v : th.(th_pc) = PMalloc n → a ≠ 0 → s.(heap) !! a = None →
  inv (MkProg (set_heap (<[a := MkEntry k v n]>) s) (<[t := at_ (PStore a)]> p.(threads))) ls.
Proof.
  intros Hpc Hnz Hnone. destruct (i_len _ _ Hi) as (L1 & L2 & L3).
  assert (∀ b e, s.(heap) !! b = Some e → <[a := MkEntry k v n]> s.(heap) !! b = Some e) as Hm.
  { intros b e Hb. rw lookup_insert_ne //. congruence. }
  apply (ph_inv_step p ls ls t th); simpl; try done.
  - intros. eapply chain_mono; [exact Hm|]. by eapply i_chain.
  - apply lists_ok.
  - eauto.
  - intros t2 th2 k2 Hne H2 Hk2 Hh2. destruct (others_ok t2 th2 k2 Hne H2 Hk2 Hh2) as [Hl2 Hp2]. split; [done|].
    intros l Hl. eapply at_pc_mono; [exact Hm|]. by apply Hp2.
  - intros k' Hk'. replace k' with k in * by (simpl in Hk'; congruence). split; [intros _; apply (i_lock _ _ Hi _ _ _ Ht Hk); by rw Hpc|].
    intros l Hl. destruct own_bucket as (x & l' & Hx & Hl' & Hc & Hat). replace l' with l in * by congruence.
    rw Hpc in Hat. destruct Hat as [Hnk Hcn]. split_and!; [done|done| |].
    + intros Hin. destruct (chain_dom _ _ _ _ Hc Hin) as [e He]. congruence.
    + exists v, n. rw lookup_insert_eq. split; [done|]. by eapply chain_mono.
  - by left.
Qed.

Lemma ph_inv_store a : th.(th_pc) = PStore a →
  ∃ ls', inv (MkProg (set_table (alter (λ _, a) (bucket k)) s) (<[t := at_ PUnlock]> p.(threads))) ls'.
Proof.
  intros Hpc. destruct (i_len _ _ Hi) as (L1 & L2 & L3). destruct own_bucket as (x & l & Hx & Hl & Hc & Hat).
  rw Hpc in Hat. destruct Hat as (Hnk & Hnz & Hna & v & n & Ha & Hcn). set (e := MkEntry k v n) in *.
  exists (<[bucket k := (a, e) :: l]> ls). destruct (lists_ok _ _ Hl) as (N1 & N2 & Hb).
  apply (ph_inv_step p ls _ t th); simpl; rw ?length_alter ?length_insert; try done.
  - intros i y l' [(<- & z & Hz & ->)|[Hne Hy]]%lookup_alter_inv Hl'.
    + rw list_lookup_insert_eq in Hl'; [|by eapply lookup_lt_Some]. injection Hl' as <-. by split_and!.
    + rw list_lookup_insert_ne // in Hl'. by eapply i_chain.
  - intros i l' [(<- & <- & _)|[_ Hl']]%list_lookup_insert_Some; [|by apply lists_ok]. simpl. split_and!.
    + by apply NoDup_cons.
    + by apply NoDup_cons.
    + intros k' [->|Hin]%elem_of_cons; [split; [done|apply own_key]|by apply Hb].
  - intros k' l' Hl' Hin. destruct (decide (bucket k = bucket k')) as [E|E].
    + exists ((a, e) :: l). rw -E list_lookup_insert_eq; [|by eapply lookup_lt_Some]. split; [done|].
      replace l' with l in * by congruence. set_solver.
    + exists l'. by rw list_lookup_insert_ne.
  - intros t2 th2 k2 Hne H2 Hk2 Hh2. destruct (others_ok t2 th2 k2 Hne H2 Hk2 Hh2) as [Hl2 Hp2]. split; [done|].
    assert (bucket k ≠ bucket k2) as Hb2.
    { apply (holders_apart p ls t t2 th th2); try done. by rw Hpc. }
    intros l' Hl'. rw list_lookup_insert_ne // in Hl'. by apply Hp2.
  - intros k' Hk'. replace k' with k in * by (simpl in Hk'; congruence). split; [intros _; apply (i_lock _ _ Hi _ _ _ Ht Hk); by rw Hpc|].
    intros l' Hl'. rw list_lookup_insert_eq in Hl'; [|by eapply lookup_lt_Some]. injection Hl' as <-. simpl. set_solver.
  - by left.
Qed.
End step.

Lemma chain_zero h l : chain h 0 l → l = [].
Proof. destruct l as [|[b e] l]; [done|]. by intros (<- & ? & _). Qed.

Ltac fin_run H := repeat (progress (try unfold mbind, M_bind in H; try unfold mret, M_ret in H; try unfold modify in H; simpl in H)); injection H as <- <-.

Lemma ph_step_inv p p' ls : inv p ls → step p p' → ∃ ls', inv p' ls'.
Proof.
  intros Hi Hs. destruct Hs as [s s' ths t th th' a Ht Hnz Hnone Hrun].
  rw /thread_step in Hrun. destruct (th_keys th !! th_i th) as [k|] eqn:Hk; [|done].
  destruct (own_bucket (MkProg s ths) ls t th k Hi Ht Hk) as (x & l & Hx & Hl & Hc & Hat). simpl in Hx, Hc, Hat.
  destruct (th_pc th) as [| |e|e| |n|e|] eqn:Hpc; rw /put_step /mbind /M_bind /= in Hrun.
  - destruct (locks s !! bucket k) as [[]|] eqn:Hlk; [done| |done]. fin_run Hrun. exists ls.
    by apply (ph_inv_lock (MkProg _ ths) ls t th k Hi Ht Hk).
  - rw /read_table Hx in Hrun. fin_run Hrun. exists ls.
    apply (ph_inv_read (MkProg _ ths) ls t th k Hi Ht Hk); [by rw Hpc|]. intros l' Hl'. replace l' with l by congruence.
    exists [], l. split_and!; [done|done|set_solver].
  - destruct Hat as (l1 & l2 & -> & Hc2 & Hn1). destruct (Z.eqb_spec e 0) as [->|Hne].
    + fin_run Hrun. exists ls. apply (ph_inv_read (MkProg _ ths) ls t th k Hi Ht Hk); [by rw Hpc|].
      intros l' Hl'. apply chain_zero in Hc2 as ->. rw app_nil_r in Hl. by replace l' with l1 by congruence.
    + destruct l2 as [|[b en] l2]; [done|]. destruct Hc2 as (-> & _ & Hb & Hc2). rw /load Hb in Hrun.
      destruct (Z.eqb_spec (e_key en) k) as [Ek|Ek]; fin_run Hrun; exists ls;
        (apply (ph_inv_read (MkProg _ ths) ls t th k Hi Ht Hk); [by rw Hpc|]); intros l' Hl'; simpl;
        replace l' with (l1 ++ (b, en) :: l2) by congruence.
      * exists en. split; [set_solver|done].
      * exists (l1 ++ [(b, en)]), l2. rw -app_assoc. split_and!; [done..|]. rw /keys_of fmap_app /=. set_solver.
  - destruct Hat as (en & Hin & Ek). destruct (chain_in _ _ _ _ _ Hc Hin) as [He _]. rw /load He in Hrun. fin_run Hrun.
    eexists. by apply (ph_inv_update (MkProg _ ths) ls t th k Hi Ht Hk).
  - rw /read_table Hx in Hrun. fin_run Hrun. exists ls.
    apply (ph_inv_read (MkProg _ ths) ls t th k Hi Ht Hk); [by rw Hpc|]. intros l' Hl'. by replace l' with l by congruence.
  - fin_run Hrun. exists ls. by apply (ph_inv_malloc (MkProg _ ths) ls t th k Hi Ht Hk).
  - rw /read_table Hx in Hrun. fin_run Hrun. by apply (ph_inv_store (MkProg _ ths) ls t th k Hi Ht Hk).
  - fin_run Hrun. exists ls. by apply (ph_inv_unlock (MkProg _ ths) ls t th k Hi Ht Hk l).
Qed.

Lemma ph_start_inv keys nthread : Forall (λ k, 0 ≤ k < 2 ^ 31) keys → inv (start keys nthread) (replicate NBUCKET []).
Proof.
  intros Hk.
  assert (∀ i (l : list (Z * entry)), replicate NBUCKET [] !! i = Some l → l = []) as Hl.
  { intros i l H. by apply lookup_replicate in H as [-> _]. }
  assert (∀ t th, threads (start keys nthread) !! t = Some th → ∃ n, th = put_thread keys (length keys / nthread) n) as Ht.
  { intros t th H. apply list_lookup_fmap_Some in H as (n & -> & _). by exists n. }
  split; cbn [start mem table heap locks].
  - done.
  - intros i a l Ha ->%Hl. apply lookup_replicate in Ha as [-> _]. done.
  - intros i l ->%Hl. split; constructor.
  - intros i l k ->%Hl. set_solver.
  - intros t th (n & ->)%Ht. simpl. by apply Forall_take, Forall_drop.
  - by intros t th k (n & ->)%Ht.
  - intros t th k l (n & ->)%Ht. done.
  - intros t th k (n & ->)%Ht. simpl. set_solver.
Qed.

(** [get] finds a key of its bucket's list. *)
Lemma get_spec s a l k :
  s.(table) !! bucket k = Some a → chain s.(heap) a l → Z.of_nat (length l) < 2 ^ 64 - 1 →
  wp (get k) (λ r s', s' = s ∧ match r with
    | Some (b, e) => (b, e) ∈ l ∧ e.(e_key) = k
    | None => k ∉ keys_of l end) s.
Proof.
  intros Ha Hc Hlen. rw /get. apply wp_bind. rw {1}/wp /read_table Ha.
  apply (wp_loop_n (λ n a s', s' = s ∧ ∃ l1 l2, l = l1 ++ l2 ∧ n = Z.of_nat (length l2) ∧ chain s.(heap) a l2 ∧ k ∉ keys_of l1)
    _ _ (Z.of_nat (length l))).
  - split; [done|]. exists [], l. split_and!; [done..|set_solver].
  - lia.
  - intros n x s' (-> & l1 & l2 & -> & -> & Hc2 & Hn1) _. destruct (Z.eqb_spec x 0) as [->|Hne].
    + apply chain_zero in Hc2 as ->. apply wp_ret. split; [done|]. by rw app_nil_r.
    + destruct l2 as [|[b e] l2]; [done|]. destruct Hc2 as (-> & _ & Hb & Hc2). apply wp_bind. rw {1}/wp /load Hb.
      destruct (Z.eqb_spec (e_key e) k) as [Ek|Ek]; apply wp_ret.
      * split; [done|]. split; [set_solver|done].
      * exists (Z.of_nat (length l2)). split; [simpl; lia|]. split; [done|]. exists (l1 ++ [(b, e)]), l2.
        rw -app_assoc. split_and!; [done..|]. rw /keys_of fmap_app /=. set_solver.
Qed.

Lemma ph_steps_inv p p' ls : inv p ls → rtc step p p' → ∃ ls', inv p' ls'.
Proof.
  intros Hi Hs. revert ls Hi. induction Hs as [|p p1 p' Hst _ IH]; intros ls Hi; [by eauto|].
  destruct (ph_step_inv _ _ _ Hi Hst) as [ls1 H1]. by eapply IH.
Qed.

(** Threads keep their keys. *)
Lemma steps_keys p p' t th : rtc step p p' → p.(threads) !! t = Some th →
  ∃ th', p'.(threads) !! t = Some th' ∧ th'.(th_keys) = th.(th_keys).
Proof.
  intros Hs. revert th. induction Hs as [|p p1 p' Hst _ IH]; intros th Ht; [by eauto|].
  enough (∃ th1, p1.(threads) !! t = Some th1 ∧ th1.(th_keys) = th.(th_keys)) as (th1 & H1 & E1).
  { destruct (IH _ H1) as (th' & ? & ?). exists th'. split; [done|congruence]. }
  destruct Hst as [s s' ths t0 th0 th1 a Ht0 _ _ Hrun]. simpl in *. destruct (decide (t0 = t)) as [->|Hne].
  - exists th1. rw list_lookup_insert_eq; [|by eapply lookup_lt_Some]. split; [done|]. replace th with th0 by congruence.
    rw /thread_step in Hrun. destruct (th_keys th0 !! th_i th0) as [k|]; [|done]. rw /mbind /M_bind in Hrun.
    destruct (put_step _ _ _ _ _ _) as [[[pc|] s1]|]; [| |done]; by injection Hrun as <- <-.
  - exists th. by rw list_lookup_insert_ne.
Qed.

(** Every key is one of some thread's. *)
Lemma key_thread keys nthread k : nthread ≠ 0%nat → (length keys mod nthread = 0)%nat → k ∈ keys →
  ∃ t th, (start keys nthread).(threads) !! t = Some th ∧ k ∈ th.(th_keys).
Proof.
  intros Hn Hdiv [j Hj]%list_elem_of_lookup. pose proof (lookup_lt_Some _ _ _ Hj) as Hlt.
  set (b := (length keys / nthread)%nat). pose proof (Nat.div_mod_eq (length keys) nthread) as Hdm. fold b in Hdm.
  assert (b ≠ 0)%nat as Hb by nia.
  pose proof (Nat.div_mod_eq j b) as Hj2. pose proof (Nat.mod_upper_bound j b Hb) as Hmod.
  exists (j / b)%nat, (put_thread keys b (j / b)). split.
  - cbn [start threads]. rw list_lookup_fmap lookup_seq_lt; [done|]. nia.
  - simpl. apply (list_elem_of_lookup_2 _ (j mod b)). rw lookup_take_lt; [|done]. rw lookup_drop -Hj. f_equal. lia.
Qed.


(** Running a schedule: the thread and the unused address of each step. *)
Fixpoint run_schedule (sched : list (nat * Z)) (p : prog) : option prog :=
  match sched with
  | [] => Some p
  | (t, a) :: sched =>
      th ← p.(threads) !! t;
      if (a =? 0) || bool_decide (is_Some (p.(mem).(heap) !! a)) then None
      else match thread_step t a th p.(mem) with
           | Ok (th', s') => run_schedule sched (MkProg s' (<[t := th']> p.(threads)))
           | Err _ => None
           end
  end.

Lemma ph_schedule_steps sched p p' : run_schedule sched p = Some p' → rtc step p p'.
Proof.
  revert p. induction sched as [|[t a] sched IH]; intros p; simpl; [intros [= ->]; apply rtc_refl|].
  destruct (threads p !! t) as [th|] eqn:Ht; simpl; [|done]. destruct (Z.eqb_spec a 0); [done|]. case_bool_decide as Hh; [done|].
  destruct (thread_step t a th (mem p)) as [[th' s']|] eqn:Hr; [|done]. intros Hp'. eapply rtc_l; [|apply IH; exact Hp'].
  destruct p as [s ths]. eapply (Step s s' ths t th th' a); [exact Ht|done|by apply eq_None_not_Some|exact Hr].
Qed.
End PhProps.

(** Two threads that interleave at every access, with keys of different and
    of the same bucket. *)
Module PhDemo.
Import PhProps.

Definition keys : list Z := [7; 12; 13; 22].
Definition sched : list (nat * Z) :=
  zip (concat (replicate 7 [0%nat; 1%nat]) ++ replicate 8 0%nat ++ replicate 9 1%nat) (seqZ 100 31).
Definition stop : prog := default (start [] 0) (run_schedule sched (start keys 2)).

Lemma ran : run_schedule sched (start keys 2) = Some stop.
Proof.
  rw /stop. assert (match run_schedule sched (start keys 2) with Some _ => true | None => false end = true) as H
    by (vm_compute; reflexivity).
  revert H. generalize (run_schedule sched (start keys 2)). intros [q|] H; [reflexivity|discriminate H].
Qed.

End PhDemo.
