(* ===== verification/Barrier.v ===== *)
(** * A barrier (multithreading lab, [barrier.c])

    The threads of [main] run [thread], which passes [barrier] 20000 times and
    asserts before each passage that the round is its own.  Every access to
    the shared state is a step; the mutex and the condition variable are
    those of POSIX, where a thread may return from [pthread_cond_wait] without
    a signal: [spurious] says whether that happens. *)

From S2P Require Import Prelude.

Module Barrier.

Definition ROUNDS : Z := 20000.

Inductive bpc :=
  | BTop          (* t = bstate.round; assert(i == t) *)
  | BLock         (* pthread_mutex_lock *)
  | BInc          (* bstate.nthread++ *)
  | BTest         (* if(bstate.nthread == nthread) *)
  | BRound        (* bstate.round++ *)
  | BReset        (* bstate.nthread = 0 *)
  | BBroadcast    (* pthread_cond_broadcast *)
  | BUnlock       (* pthread_mutex_unlock, of either branch *)
  | BWait         (* pthread_cond_wait: release the mutex and block *)
  | BBlocked      (* blocked on the condition *)
  | BWoken        (* return from pthread_cond_wait: take the mutex again *)
  | BLeave        (* usleep, i++ *)
  | BDone
  | BFailed.      (* the assertion failed *)
#[export] Instance bpc_eq_dec : EqDecision bpc.
Proof. solve_decision. Defined.

Record bthread := MkB { b_i : Z; b_pc : bpc }.
Record bst := MkBst {
  b_round : Z;              (* bstate.round *)
  b_nthread : Z;            (* bstate.nthread *)
  b_mutex : option nat;     (* bstate.barrier_mutex *)
  b_threads : list bthread;
}.

Definition wake (th : bthread) : bthread :=
  if decide (th.(b_pc) = BBlocked) then MkB th.(b_i) BWoken else th.

(** One step of thread [t]; [nthread] is the number of threads. *)
Definition bstep (t : nat) (s : bst) : option bst :=
  th ← s.(b_threads) !! t;
  let nthread := Z.of_nat (length s.(b_threads)) in
  let go pc := <[t := MkB th.(b_i) pc]> s.(b_threads) in
  match th.(b_pc) with
  | BTop => Some (MkBst s.(b_round) s.(b_nthread) s.(b_mutex)
                    (go (if th.(b_i) =? s.(b_round) then BLock else BFailed)))
  | BLock => match s.(b_mutex) with
             | None => Some (MkBst s.(b_round) s.(b_nthread) (Some t) (go BInc))
             | Some _ => None
             end
  | BInc => Some (MkBst s.(b_round) (s.(b_nthread) + 1) s.(b_mutex) (go BTest))
  | BTest => Some (MkBst s.(b_round) s.(b_nthread) s.(b_mutex)
                     (go (if s.(b_nthread) =? nthread then BRound else BWait)))
  | BRound => Some (MkBst (s.(b_round) + 1) s.(b_nthread) s.(b_mutex) (go BReset))
  | BReset => Some (MkBst s.(b_round) 0 s.(b_mutex) (go BBroadcast))
  | BBroadcast => Some (MkBst s.(b_round) s.(b_nthread) s.(b_mutex) (wake <$> go BUnlock))
  | BUnlock => Some (MkBst s.(b_round) s.(b_nthread) None (go BLeave))
  | BWait => Some (MkBst s.(b_round) s.(b_nthread) None (go BBlocked))
  | BBlocked => None
  | BWoken => match s.(b_mutex) with
              | None => Some (MkBst s.(b_round) s.(b_nthread) (Some t) (go BUnlock))
              | Some _ => None
              end
  | BLeave =>
      let i := th.(b_i) + 1 in
      Some (MkBst s.(b_round) s.(b_nthread) s.(b_mutex)
              (<[t := MkB i (if i <? ROUNDS then BTop else BDone)]> s.(b_threads)))
  | BDone | BFailed => None
  end.

(** A blocked thread wakes up by itself. *)
Definition spurious_wakeup (t : nat) (s : bst) : option bst :=
  th ← s.(b_threads) !! t;
  if decide (th.(b_pc) = BBlocked)
  then Some (MkBst s.(b_round) s.(b_nthread) s.(b_mutex) (<[t := MkB th.(b_i) BWoken]> s.(b_threads)))
  else None.

Inductive step (spurious : bool) : bst → bst → Prop :=
  | StepRun t s s' : bstep t s = Some s' → step spurious s s'
  | StepSpurious t s s' : spurious = true → spurious_wakeup t s = Some s' → step spurious s s'.

(** [barrier_init], and the threads before their first round. *)
Definition start (nthread : nat) : bst := MkBst 0 0 None (replicate nthread (MkB 0 BTop)).

(** ** The invariant *)

Definition in_section (pc : bpc) : bool :=
  match pc with BInc | BTest | BRound | BReset | BBroadcast | BUnlock | BWait => true | _ => false end.
Definition arrived (pc : bpc) : bool :=
  match pc with BTest | BRound | BWait | BBlocked => true | _ => false end.
Definition narrived (l : list bthread) : Z := Z.of_nat (length (filter (λ th, arrived th.(b_pc) = true) l)).
(** The last thread of a round has counted it and not yet woken the others. *)
Definition closing (pc : bpc) : Prop := pc = BReset ∨ pc = BBroadcast.

(** A thread in a round that is still open. *)
Definition in_round (s : bst) (th : bthread) : Prop :=
  match th.(b_pc) with
  | BTop | BLock | BInc | BTest | BRound | BWait | BBlocked => th.(b_i) = s.(b_round) ∧ th.(b_i) < ROUNDS
  | BUnlock | BWoken | BLeave => th.(b_i) + 1 = s.(b_round) ∧ th.(b_i) < ROUNDS
  | BDone => th.(b_i) = s.(b_round) ∧ th.(b_i) = ROUNDS
  | BReset | BBroadcast | BFailed => False
  end.

Record inv (s : bst) : Prop := {
  v_mutex t th : s.(b_threads) !! t = Some th → (in_section th.(b_pc) = true ↔ s.(b_mutex) = Some t);
  v_owner t : s.(b_mutex) = Some t → is_Some (s.(b_threads) !! t);
  v_mode : (∃ t th, s.(b_threads) !! t = Some th ∧ closing th.(b_pc) ∧ th.(b_i) + 1 = s.(b_round) ∧ th.(b_i) < ROUNDS ∧
              s.(b_nthread) = (if decide (th.(b_pc) = BReset) then Z.of_nat (length s.(b_threads)) else 0) ∧
              (∀ t' th', t' ≠ t → s.(b_threads) !! t' = Some th' →
                 th'.(b_pc) = BBlocked ∧ th'.(b_i) + 1 = s.(b_round) ∧ th'.(b_i) < ROUNDS))
    ∨ (Forall (in_round s) s.(b_threads) ∧ s.(b_nthread) = narrived s.(b_threads) ∧
       (∀ t th, s.(b_threads) !! t = Some th → th.(b_pc) = BRound → s.(b_nthread) = Z.of_nat (length s.(b_threads))) ∧
       ((∀ th, th ∈ s.(b_threads) → th.(b_pc) ≠ BTest ∧ th.(b_pc) ≠ BRound) → s.(b_threads) ≠ [] →
          s.(b_nthread) < Z.of_nat (length s.(b_threads))));
}.
End Barrier.
