(* ===== verification/BarrierProps.v ===== *)
(** * The barrier: rounds agree and nobody waits forever, unless a wakeup is
      spurious *)

From S2P Require Import Prelude Barrier.
Import Barrier.

Module BarrierProps.

Implicit Types (s : bst) (l : list bthread) (th : bthread).

Definition mutex_ok (m : option nat) l : Prop :=
  (∀ t th, l !! t = Some th → (in_section th.(b_pc) = true ↔ m = Some t)) ∧ (∀ t, m = Some t → is_Some (l !! t)).

Lemma mutex_same m l t th th' : mutex_ok m l → l !! t = Some th → in_section th'.(b_pc) = in_section th.(b_pc) →
  mutex_ok m (<[t := th']> l).
Proof.
  intros [H1 H2] Ht E. split.
  - intros t' x [(<- & -> & _)|[_ Hx]]%list_lookup_insert_Some; [rw E|]; by apply H1.
  - intros t' Hm. rw list_lookup_insert. case_decide; [by eexists|by apply H2].
Qed.
Lemma mutex_take l t th th' : mutex_ok None l → l !! t = Some th → in_section th'.(b_pc) = true →
  mutex_ok (Some t) (<[t := th']> l).
Proof.
  intros [H1 H2] Ht E. pose proof (lookup_lt_Some _ _ _ Ht) as Hlt. split.
  - intros t' x [(<- & -> & _)|[Hne Hx]]%list_lookup_insert_Some; [done|]. rw (H1 _ _ Hx). naive_solver.
  - intros t' [= <-]. rw list_lookup_insert_eq //.
Qed.
Lemma mutex_drop l t th th' : mutex_ok (Some t) l → l !! t = Some th → in_section th'.(b_pc) = false →
  mutex_ok None (<[t := th']> l).
Proof.
  intros [H1 H2] Ht E. split; [|done].
  intros t' x [(<- & -> & _)|[Hne Hx]]%list_lookup_insert_Some; [rw E; naive_solver|]. rw (H1 _ _ Hx). naive_solver.
Qed.
Lemma mutex_fmap m l f : (∀ th, in_section (f th).(b_pc) = in_section th.(b_pc)) → mutex_ok m l → mutex_ok m (f <$> l).
Proof.
  intros E [H1 H2]. split.
  - intros t x (th & -> & Ht)%list_lookup_fmap_Some. rw E. by apply H1.
  - intros t Hm. rw list_lookup_fmap. destruct (H2 _ Hm) as [x ->]. by eexists.
Qed.

Definition count (b : bool) : Z := if b then 1 else 0.
Lemma narrived_insert l t th th' : l !! t = Some th →
  narrived (<[t := th']> l) = narrived l - count (arrived th.(b_pc)) + count (arrived th'.(b_pc)).
Proof.
  intros Ht.
  assert (∀ l1 l2, narrived (l1 ++ th' :: l2) = narrived (l1 ++ th :: l2) - count (arrived th.(b_pc)) + count (arrived th'.(b_pc))) as H.
  { intros l1 l2. rw /narrived !filter_app !filter_cons !length_app /count.
    destruct (arrived (b_pc th)), (arrived (b_pc th')); repeat case_decide; try done; simpl; lia. }
  rw insert_take_drop; [|by eapply lookup_lt_Some]. by rw H take_drop_middle.
Qed.
Lemma narrived_le l : narrived l ≤ Z.of_nat (length l).
Proof. rw /narrived. pose proof (length_filter (λ th, arrived th.(b_pc) = true) l). lia. Qed.
Lemma narrived_all l t th : narrived l = Z.of_nat (length l) → l !! t = Some th → arrived th.(b_pc) = true.
Proof.
  intros E Ht. destruct (arrived (b_pc th)) eqn:Ea; [done|].
  pose proof (narrived_insert l t th (MkB 0 BTest) Ht) as Hn. rw Ea /= in Hn.
  pose proof (narrived_le (<[t := MkB 0 BTest]> l)) as Hle. rw length_insert in Hle. simpl in Hle. lia.
Qed.
Lemma narrived_none l : Forall (λ th, arrived th.(b_pc) = false) l → narrived l = 0.
Proof.
  intros H. rw /narrived. assert (filter (λ th, arrived th.(b_pc) = true) l = []) as ->; [|done].
  induction H as [|x l Hx _ IH]; [done|]. rw filter_cons IH. case_decide; [congruence|done].
Qed.

(** A step of an open round that stays in it: only thread [t] changes, and the
    round does not. *)
Lemma open_step s t th th' n m :
  Forall (in_round s) s.(b_threads) → s.(b_threads) !! t = Some th →
  in_round (MkBst s.(b_round) n m s.(b_threads)) th' →
  Forall (in_round (MkBst s.(b_round) n m (<[t := th']> s.(b_threads)))) (<[t := th']> s.(b_threads)).
Proof. intros H Ht Hth. apply Forall_insert; [by eapply Forall_impl|done]. Qed.

Definition open_ok s : Prop :=
  Forall (in_round s) s.(b_threads) ∧ s.(b_nthread) = narrived s.(b_threads) ∧
  (∀ t th, s.(b_threads) !! t = Some th → th.(b_pc) = BRound → s.(b_nthread) = Z.of_nat (length s.(b_threads))) ∧
  ((∀ th, th ∈ s.(b_threads) → th.(b_pc) ≠ BTest ∧ th.(b_pc) ≠ BRound) → s.(b_threads) ≠ [] →
     s.(b_nthread) < Z.of_nat (length s.(b_threads))).

Lemma inv_open s : mutex_ok s.(b_mutex) s.(b_threads) → open_ok s → inv s.
Proof. intros [? ?] ?. split; [done..|by right]. Qed.

(** A step of an open round that keeps it open. *)
Lemma open_keep s t th th' n m :
  open_ok s → s.(b_threads) !! t = Some th → mutex_ok m (<[t := th']> s.(b_threads)) →
  in_round s th' → n = s.(b_nthread) - count (arrived th.(b_pc)) + count (arrived th'.(b_pc)) →
  (th'.(b_pc) = BRound → n = Z.of_nat (length s.(b_threads))) →
  (∀ t2 th2, t2 ≠ t → s.(b_threads) !! t2 = Some th2 → th2.(b_pc) = BRound → n = s.(b_nthread)) →
  (n < Z.of_nat (length s.(b_threads)) ∨ th.(b_pc) ≠ BTest ∧ th.(b_pc) ≠ BRound ∧ n = s.(b_nthread) ∨ th'.(b_pc) = BTest ∨ th'.(b_pc) = BRound) →
  inv (MkBst s.(b_round) n m (<[t := th']> s.(b_threads))).
Proof.
  intros (H1 & H2 & H3 & H4) Ht Hm Hr Hn Hround Hoth Hlt. apply inv_open; [done|]. split_and!; simpl; rw ?length_insert.
  - by eapply open_step.
  - by rw (narrived_insert _ _ th) // Hn H2.
  - intros t2 th2 [(<- & -> & _)|[Hne H]]%list_lookup_insert_Some Hpc; [by apply Hround|].
    rw (Hoth t2 th2) //. by eapply H3.
  - intros Hnone Hne. pose proof (Hnone th') as Hth'. rewrite list_elem_of_lookup in Hth'.
    destruct Hth' as [HA HB]; [exists t; rw list_lookup_insert_eq //; by eapply lookup_lt_Some|].
    destruct Hlt as [?|[(HC & HD & ->)|[?|?]]]; [done| |done..]. apply H4.
    + intros x [t2 Hx]%list_elem_of_lookup. destruct (decide (t2 = t)) as [->|Hne2]; [by replace x with th by congruence|].
      apply Hnone. apply list_elem_of_lookup. exists t2. by rw list_lookup_insert_ne.
    + intros E. by rw E in Ht.
Qed.

(** A thread in the critical section is the only one. *)
Lemma section_alone m l t t2 th th2 : mutex_ok m l → l !! t = Some th → l !! t2 = Some th2 →
  in_section th.(b_pc) = true → in_section th2.(b_pc) = true → t2 = t.
Proof. intros [H _] H1 H2 I1 I2. apply (H _ _ H1) in I1. apply (H _ _ H2) in I2. congruence. Qed.

(** The last thread of the round: all others are blocked. *)
Lemma last_closes s t th : mutex_ok s.(b_mutex) s.(b_threads) → open_ok s → s.(b_threads) !! t = Some th →
  th.(b_pc) = BRound →
  inv (MkBst (s.(b_round) + 1) s.(b_nthread) s.(b_mutex) (<[t := MkB th.(b_i) BReset]> s.(b_threads))).
Proof.
  intros Hm (H1 & H2 & H3 & _) Ht Hpc. pose proof (H3 _ _ Ht Hpc) as Hn. pose proof (lookup_lt_Some _ _ _ Ht) as Hlt.
  rw Forall_lookup in H1. pose proof (H1 _ _ Ht) as Hr. rw /in_round Hpc in Hr.
  assert (mutex_ok s.(b_mutex) (<[t := MkB th.(b_i) BReset]> s.(b_threads))) as [M1 M2]
    by (apply (mutex_same _ _ _ th); rewrite ?Hpc; done).
  split; [done..|]. left. exists t, (MkB th.(b_i) BReset). simpl. rw length_insert. split_and!; try done; try lia.
  - by rw list_lookup_insert_eq.
  - by left.
  - intros t' th' Hne. rw list_lookup_insert_ne; [|done]. intros H'.
    pose proof (narrived_all _ _ _ (eq_trans (eq_sym H2) Hn) H') as Ha. pose proof (H1 _ _ H') as Hr'.
    assert (in_section th'.(b_pc) = false) as Hsec.
    { destruct (in_section (b_pc th')) eqn:E; [|done]. exfalso. apply Hne.
      apply (section_alone _ _ _ _ th th' Hm Ht H'); [by rw Hpc|done]. }
    rw /in_round in Hr'. destruct (b_pc th'); try done. split_and!; [done|lia..].
Qed.

Ltac keep th Hpc := apply (open_keep _ _ th); rewrite ?Hpc; try done; try (rewrite /in_round /=; lia); try naive_solver.

Lemma open_step_inv s s' t : mutex_ok s.(b_mutex) s.(b_threads) → open_ok s → bstep t s = Some s' → inv s'.
Proof.
  intros Hm Ho Hs. rw /bstep in Hs. destruct (s.(b_threads) !! t) as [th|] eqn:Ht; [|done]. cbn [mbind option_bind] in Hs. cbv zeta in Hs.
  assert (in_round s th) as Hr. { destruct Ho as [Ho _]. rw Forall_lookup in Ho. by eapply Ho. }
  assert (∀ pc, th.(b_pc) = pc → in_section pc = true → s.(b_mutex) = Some t) as Hown.
  { intros pc <- Hp. by apply Hm in Ht as [Ht _]; apply Ht. }
  assert (∀ t2 th2, in_section th.(b_pc) = true → t2 ≠ t → s.(b_threads) !! t2 = Some th2 → th2.(b_pc) = BRound → False) as Hno.
  { intros t2 th2 Hp Hne H2 Hpc. apply Hne. apply (section_alone _ _ _ _ th th2 Hm Ht H2 Hp). by rw Hpc. }
  rw /in_round in Hr. destruct (b_pc th) eqn:Hpc; try done.
  - injection Hs as <-. destruct Hr as [Hr Hlt]. rw Hr Z.eqb_refl. keep th Hpc. by apply (mutex_same _ _ _ th); rewrite ?Hpc.
  - destruct (b_mutex s) eqn:Em; [done|]. injection Hs as <-. keep th Hpc. by eapply mutex_take.
  - injection Hs as <-. keep th Hpc. by apply (mutex_same _ _ _ th); rewrite ?Hpc.
  - injection Hs as <-. destruct (Z.eqb_spec s.(b_nthread) (Z.of_nat (length s.(b_threads)))) as [E|E].
    + keep th Hpc. by apply (mutex_same _ _ _ th); rewrite ?Hpc.
    + keep th Hpc; [by apply (mutex_same _ _ _ th); rewrite ?Hpc|].
      left. destruct Ho as (_ & Hn & _). pose proof (narrived_le s.(b_threads)). lia.
  - injection Hs as <-. by apply (last_closes s t th).
  - injection Hs as <-. keep th Hpc. eapply mutex_drop; [|done|done]. by rw -(Hown BUnlock).
  - injection Hs as <-. keep th Hpc. eapply mutex_drop; [|done|done]. by rw -(Hown BWait).
  - destruct (b_mutex s) eqn:Em; [done|]. injection Hs as <-. keep th Hpc. by eapply mutex_take.
  - injection Hs as <-. destruct (Z.ltb_spec (b_i th + 1) ROUNDS);
      keep th Hpc; by apply (mutex_same _ _ _ th); rewrite ?Hpc.
Qed.

Lemma wake_section th : in_section (wake th).(b_pc) = in_section th.(b_pc).
Proof. rw /wake. case_decide as E; [by rw E|done]. Qed.

Lemma bar_step_inv s s' t : inv s → bstep t s = Some s' → inv s'.
Proof.
  intros [M1 M2 Hmode] Hs. assert (mutex_ok s.(b_mutex) s.(b_threads)) as Hm by done.
  destruct Hmode as [(c & th & Hc & Hcl & Hi & Hlt & Hn & Hoth)|Ho]; [|by eapply open_step_inv].
  destruct (decide (t = c)) as [->|Hne]; last first.
  { rw /bstep in Hs. destruct (s.(b_threads) !! t) as [th'|] eqn:Ht; [|done].
    destruct (Hoth _ _ Hne Ht) as [Hb _]. cbn [mbind option_bind] in Hs. cbv zeta in Hs. by rw Hb in Hs. }
  rw /bstep Hc in Hs. cbn [mbind option_bind] in Hs. cbv zeta in Hs. pose proof (lookup_lt_Some _ _ _ Hc) as Hlen.
  destruct Hcl as [Hpc|Hpc]; rw Hpc in Hs; injection Hs as <-.
  - destruct (mutex_same s.(b_mutex) s.(b_threads) c th (MkB th.(b_i) BBroadcast)) as [N1 N2]; [done|done|by rw Hpc|].
    split; [done..|]. left. exists c, (MkB th.(b_i) BBroadcast). simpl. split_and!; try done.
    + by rw list_lookup_insert_eq.
    + by right.
    + intros t' th' Hne'. rw list_lookup_insert_ne //. by apply Hoth.
  - apply inv_open; simpl.
    { apply mutex_fmap; [apply wake_section|]. by apply (mutex_same _ _ _ th); rewrite ?Hpc. }
    assert (∀ x, x ∈ wake <$> <[c := MkB th.(b_i) BUnlock]> s.(b_threads) →
      (x.(b_pc) = BUnlock ∨ x.(b_pc) = BWoken) ∧ x.(b_i) + 1 = s.(b_round) ∧ x.(b_i) < ROUNDS) as Hall.
    { intros x (y & -> & [t' Hy]%list_elem_of_lookup)%list_elem_of_fmap.
      apply list_lookup_insert_Some in Hy as [(<- & <- & _)|[Hne Hy]]; [by auto|].
      destruct (Hoth t' y ltac:(done) Hy) as (Hb & ? & ?). rw /wake. destruct (decide (b_pc y = BBlocked)); [by auto|done]. }
    destruct (decide (b_pc th = BReset)) as [E|_]; [congruence|]. split_and!; simpl.
    + apply Forall_forall. intros x (Hp & ? & ?)%Hall. rw /in_round. by destruct Hp as [-> | ->].
    + rw Hn narrived_none //. apply Forall_forall. by intros x ([-> | ->] & _)%Hall.
    + intros t' x Hx Hp. apply list_elem_of_lookup_2 in Hx. apply Hall in Hx as ([Hx|Hx] & _); congruence.
    + intros _ _. rw length_fmap length_insert Hn. lia.
Qed.

Lemma bar_start_inv n : inv (start n).
Proof.
  assert (∀ t th, (start n).(b_threads) !! t = Some th → th = MkB 0 BTop) as Ht.
  { intros t th H. by apply lookup_replicate in H as [-> _]. }
  apply inv_open.
  - split; [|done]. intros t th ->%Ht. done.
  - split_and!.
    + apply Forall_lookup. intros t th ->%Ht. by split.
    + simpl. rw narrived_none //. apply Forall_lookup. by intros t th ->%Ht.
    + by intros t th ->%Ht.
    + intros _ Hne. simpl in *. rw length_replicate. destruct n; [done|lia].
Qed.

Lemma bar_steps_inv s s' : inv s → rtc (step false) s s' → inv s'.
Proof.
  intros Hi Hs. induction Hs as [|s s1 s2 Hst _ IH]; [done|]. apply IH. destruct Hst as [t s s1 Hb|]; [|done].
  by eapply bar_step_inv.
Qed.

Lemma bar_not_failed s th : inv s → th ∈ s.(b_threads) → th.(b_pc) ≠ BFailed ∧ th.(b_i) ≤ s.(b_round) ≤ th.(b_i) + 1.
Proof.
  intros [_ _ Hmode] [t Ht]%list_elem_of_lookup.
  destruct Hmode as [(c & x & Hc & Hcl & Hi & _ & _ & Hoth)|(Ho & _)].
  - destruct (decide (t = c)) as [->|Hne].
    + replace th with x by congruence. split; [|lia]. destruct Hcl; congruence.
    + destruct (Hoth t th Hne Ht) as (Hb & ? & _). split; [congruence|lia].
  - rw Forall_lookup in Ho. pose proof (Ho _ _ Ht) as Hr. rw /in_round in Hr. destruct (b_pc th); (done || (split; [done|lia])).
Qed.

(** Positions from which a thread can always go on when the mutex is free. *)
Definition free_to_go (pc : bpc) : bool := match pc with BTop | BLock | BWoken | BLeave => true | _ => false end.

Lemma narrived_blocked l : Forall (λ th, th.(b_pc) = BBlocked) l → narrived l = Z.of_nat (length l).
Proof.
  intros H. rw /narrived. f_equal. f_equal. induction H as [|x l Hx _ IH]; [done|].
  rw filter_cons IH. by destruct (decide (arrived (b_pc x) = true)) as [|E]; [|rw Hx in E].
Qed.

Lemma bar_can_step s : inv s → (∃ th, th ∈ s.(b_threads) ∧ th.(b_pc) ≠ BDone) → ∃ t s', bstep t s = Some s'.
Proof.
  intros Hi (th0 & Hin0 & Hnd). pose proof Hi as [M1 M2 Hmode].
  destruct s.(b_mutex) as [t|] eqn:Em.
  { destruct (M2 t eq_refl) as [th Ht]. pose proof (proj2 (M1 _ _ Ht) eq_refl) as Hsec.
    exists t. rw /bstep Ht /=. destruct (b_pc th); try done; by eexists. }
  destruct (decide (Exists (λ th, free_to_go th.(b_pc) = true) s.(b_threads))) as [[th [[t Ht]%list_elem_of_lookup Hf]]%Exists_exists|Hno].
  { exists t. rw /bstep Ht Em /=. destruct (b_pc th); try done; by eexists. }
  exfalso. rw Exists_exists in Hno.
  assert (∀ t th, s.(b_threads) !! t = Some th → in_section th.(b_pc) = false ∧ free_to_go th.(b_pc) = false) as Hst.
  { intros t th Ht. split.
    - destruct (in_section (b_pc th)) eqn:E; [|done]. by apply (M1 _ _ Ht) in E.
    - destruct (free_to_go (b_pc th)) eqn:E; [|done]. exfalso. apply Hno. exists th. split; [by eapply list_elem_of_lookup_2|done]. }
  destruct Hmode as [(c & x & Hc & Hcl & _)|(Ho & Hn & _ & Hlt)].
  { destruct (Hst _ _ Hc) as [Hx _]. by destruct Hcl as [E|E]; rw E in Hx. }
  rw Forall_forall in Ho.
  assert (∀ th, th ∈ s.(b_threads) → th.(b_pc) = BBlocked ∨ th.(b_pc) = BDone) as Hpc.
  { intros th Hin. pose proof (Ho _ Hin) as Hr. apply list_elem_of_lookup in Hin as [t Ht]. destruct (Hst _ _ Ht) as [Hs Hf].
    rw /in_round in Hr. destruct (b_pc th); auto; done. }
  assert (Forall (λ th, th.(b_pc) = BBlocked) s.(b_threads)) as Hall.
  { apply Forall_forall. intros th Hin. destruct (Hpc _ Hin) as [|E]; [done|]. pose proof (Ho _ Hin) as Hr. rw /in_round E in Hr.
    pose proof (Ho _ Hin0) as Hr0. destruct (Hpc _ Hin0) as [E0|]; [|done]. rw /in_round E0 in Hr0. lia. }
  rw Forall_forall in Hall. apply (Z.lt_irrefl s.(b_nthread)). rewrite {2}Hn narrived_blocked; [|by apply Forall_forall].
  apply Hlt; [|by destruct s.(b_threads); [set_solver|]]. intros th Hin. by rw (Hall _ Hin).
Qed.

(** C28: when [pthread_cond_wait] returns only after a broadcast, any number
    of threads in any interleaving passes the barrier in step: no assertion
    fails, no two threads are more than one round apart, and as long as a
    thread has not finished its 20000 rounds some thread can go on. *)
Theorem barrier_in_step n s : rtc (step false) (start n) s →
  (∀ th, th ∈ s.(b_threads) → th.(b_pc) ≠ BFailed) ∧
  (∀ th th', th ∈ s.(b_threads) → th' ∈ s.(b_threads) → Z.abs (th.(b_i) - th'.(b_i)) ≤ 1) ∧
  ((∃ th, th ∈ s.(b_threads) ∧ th.(b_pc) ≠ BDone) → ∃ t s', bstep t s = Some s').
Proof.
  intros Hs. assert (inv s) as Hi by (eapply bar_steps_inv; [apply bar_start_inv|done]). split_and!.
  - intros th Hth. by destruct (bar_not_failed s th Hi Hth).
  - intros th th' H1 H2. destruct (bar_not_failed _ _ Hi H1), (bar_not_failed _ _ Hi H2). lia.
  - by apply bar_can_step.
Qed.

(** ** Schedules *)

(** [inl t]: a step of thread [t]; [inr t]: it wakes up by itself. *)
Fixpoint run_schedule (sched : list (nat + nat)) s : option bst :=
  match sched with
  | [] => Some s
  | inl t :: sched => s' ← bstep t s; run_schedule sched s'
  | inr t :: sched => s' ← spurious_wakeup t s; run_schedule sched s'
  end.

Lemma bar_schedule_steps b sched s s' : (b = true ∨ Forall (λ x : nat + nat, if x is inl _ then True else False) sched) →
  run_schedule sched s = Some s' → rtc (step b) s s'.
Proof.
  intros Hb. revert s. induction sched as [|[t|t] sched IH]; intros s; simpl; [intros [= ->]; apply rtc_refl|..].
  - destruct (bstep t s) as [s1|] eqn:E; [|done]. intros H. eapply rtc_l; [by apply (StepRun b t s s1)|]. apply IH; [|done].
    destruct Hb as [?|Hb]; [by left|right]. by inversion Hb.
  - destruct (spurious_wakeup t s) as [s1|] eqn:E; [|done]. intros H. destruct Hb as [->|Hb]; [|by inversion Hb].
    eapply rtc_l; [by apply (StepSpurious true t s s1)|]. apply IH; [by left|done].
Qed.

(** With a spurious wakeup the assertion can fail: the waiting thread leaves
    the barrier of round 0 alone and finds the round still 0. *)
Lemma barrier_spurious_fails : ∃ s th, rtc (step true) (start 2) s ∧ th ∈ s.(b_threads) ∧ th.(b_pc) = BFailed.
Proof.
  exists (MkBst 0 1 None [MkB 1 BFailed; MkB 0 BTop]), (MkB 1 BFailed). split_and!; [|set_solver|done].
  by apply (bar_schedule_steps true (replicate 5 (inl 0%nat) ++ [inr 0%nat] ++ replicate 4 (inl 0%nat))); [left|].
Qed.

Lemma barrier_in_step_witness : ∃ s, rtc (step false) (start 2) s ∧ s.(b_round) = 1 ∧ ∀ th, th ∈ s.(b_threads) → th.(b_pc) ≠ BFailed.
Proof.
  assert (rtc (step false) (start 2) (MkBst 1 0 None [MkB 0 BWoken; MkB 1 BTop])) as Hs.
  { apply (bar_schedule_steps false (replicate 5 (inl 0%nat) ++ replicate 9 (inl 1%nat))); [right|by vm_compute].
    repeat constructor. }
  eexists. split; [exact Hs|]. split; [done|]. destruct (barrier_in_step 2 _ Hs) as (H & _). exact H.
Defined.
End BarrierProps.
