(* ===== verification/Umalloc.v ===== *)
(** * The user-level allocator (pagetables lab, [user/umalloc.c])

    Kernighan and Ritchie's allocator: the free blocks form a ring in address
    order, each starting with a header of 16 bytes (the next block and the
    block's size in headers).  The memory is the process's own, bytes
    [[0, brk)]; an access outside it is a page fault.  [sbrk] is the system
    call, an interface here. *)

From Stdlib Require Import Sorted.
From S2P Require Import Prelude Machine.

Module Umalloc.

(** [sizeof(Header)]: the pointer, the size, padding. *)
Definition HDR : Z := 16.

Record ust := MkU {
  u_mem : mem;
  u_freep : Z;      (* static Header *freep *)
  u_brk : Z;        (* the size of the process *)
}.

(** [padd p k] is the C expression [p + k] for a [Header *p]. *)
Definition padd (p k : Z) : Z := u64 (p + HDR * k).

Definition mapped (s : ust) (a n : Z) : bool := (0 <=? a) && (a + n <=? s.(u_brk)).

Definition get_ptr (p : Z) : M ust Z := λ s,
  if mapped s p 8 then Ok (ld64 s.(u_mem) p, s) else Err (Undef "page fault").
Definition get_size (p : Z) : M ust Z := λ s,
  if mapped s (p + 8) 4 then Ok (ld32 s.(u_mem) (p + 8), s) else Err (Undef "page fault").
Definition set_ptr (p v : Z) : M ust unit := λ s,
  if mapped s p 8 then Ok (tt, MkU (st64 s.(u_mem) p v) s.(u_freep) s.(u_brk))
  else Err (Undef "page fault").
Definition set_size (p v : Z) : M ust unit := λ s,
  if mapped s (p + 8) 4 then Ok (tt, MkU (st32 s.(u_mem) (p + 8) v) s.(u_freep) s.(u_brk))
  else Err (Undef "page fault").
Definition set_freep (p : Z) : M ust unit := λ s, Ok (tt, MkU s.(u_mem) p s.(u_brk)).

(** What the program has from its image and from the kernel: the address of
    the static header [base], and [sbrk], which for a size that is not negative
    either fails and changes nothing, or returns the old end of memory and
    extends it.  A process stays below 2 GiB: the machine has 128 MiB. *)
Class Process := {
  base : Z;
  sbrk : Z → M ust Z;
  base_ok : 0 < base < 2 ^ 31;
  sbrk_ok n s : 0 ≤ n < 2 ^ 31 → 0 ≤ s.(u_brk) < 2 ^ 31 →
    wp (sbrk n) (λ r s',
      (r = u64 (-1) ∧ s' = s) ∨
      (r = s.(u_brk) ∧ s'.(u_brk) = s.(u_brk) + n ∧ s'.(u_brk) < 2 ^ 31 ∧ s'.(u_freep) = s.(u_freep)
       ∧ agree s'.(u_mem) s.(u_mem) 0 s.(u_brk))) s;
}.

Section code.
Context {P : Process}.

(** The search of [free] for the block before [bp]. *)
Definition free_find (bp : Z) (p : Z) : M ust (Z + Z) :=
  q ← get_ptr p;
  if (p <? bp) && (bp <? q) then mret (inr p)
  else if (q <=? p) && ((p <? bp) || (bp <? q)) then mret (inr p)
  else mret (inl q).

(** Merge [bp] with the block [q] after it, or point it there. *)
Definition join_next (bp q : Z) : M ust unit :=
  bsz ← get_size bp;
  if padd bp bsz =? q then
    qsz ← get_size q;
    set_size bp (u32 (bsz + qsz));;
    qq ← get_ptr q;
    set_ptr bp qq
  else set_ptr bp q.

(** Merge [bp] into the block [p] before it, or link it there. *)
Definition join_prev (p bp : Z) : M ust unit :=
  psz ← get_size p;
  if padd p psz =? bp then
    bsz ← get_size bp;
    set_size p (u32 (psz + bsz));;
    bq ← get_ptr bp;
    set_ptr p bq
  else set_ptr p bp.

Definition free (ap : Z) : M ust unit :=
  let bp := padd ap (-1) in
  f ← gets u_freep;
  p ← loop (free_find bp) f;
  q ← get_ptr p;
  join_next bp q;;
  join_prev p bp;;
  set_freep p.

(** The product is computed in 64 bits and passed as an [int]. *)
Definition morecore (nu : Z) : M ust Z :=
  let nu := if nu <? 4096 then 4096 else nu in
  p ← sbrk (s32 (u64 (nu * HDR)));
  if p =? u64 (-1) then mret 0
  else
    set_size p nu;;
    free (padd p 1);;
    gets u_freep.

Definition units (nbytes : Z) : Z := u32 (u64 (nbytes + HDR - 1) / HDR + 1).

(** Take [nunits] units from the block [p], whose predecessor is [prevp]. *)
Definition carve (nunits prevp p sz : Z) : M ust Z :=
  p ← (if sz =? nunits then
         q ← get_ptr p;
         set_ptr prevp q;;
         mret p
       else
         set_size p (u32 (sz - nunits));;
         sz ← get_size p;
         let p := padd p sz in
         set_size p nunits;;
         mret p);
  set_freep prevp;;
  mret (padd p 1).

Definition malloc_round (nunits : Z) (a : Z * Z) : M ust (Z * Z + Z) :=
  let '(prevp, p) := a in
  sz ← get_size p;
  if nunits <=? sz then
    r ← carve nunits prevp p sz;
    mret (inr r)
  else
    f ← gets u_freep;
    p ← (if p =? f then morecore nunits else mret p);
    if p =? 0 then mret (inr 0)
    else
      q ← get_ptr p;
      mret (inl (p, q)).

Definition malloc (nbytes : Z) : M ust Z :=
  let nunits := units nbytes in
  f ← gets u_freep;
  prevp ← (if f =? 0 then
             set_freep base;;
             set_ptr base base;;
             set_size base 0;;
             mret base
           else mret f);
  p ← get_ptr prevp;
  loop (malloc_round nunits) (prevp, p).
End code.

(** ** The heap

    [fl] lists the free blocks in address order, the static header first; [al]
    maps the header of every live block to its size. *)

Definition fnext (e : Z) (l : list (Z * Z)) : Z :=
  match l with [] => e | (a, _) :: _ => a end.

(** The headers of [l] in memory, the last pointing to [e]. *)
Fixpoint chain (m : mem) (l : list (Z * Z)) (e : Z) : Prop :=
  match l with
  | [] => True
  | (a, n) :: l => ld64 m a = fnext e l ∧ ld32 m (a + 8) = n ∧ chain m l e
  end.

(** Free blocks never touch: adjacent ones have been merged. *)
Definition apart (x y : Z * Z) : Prop := x.1 + HDR * Z.max 1 x.2 < y.1.

Definition disj (a n b k : Z) : Prop := a + HDR * n ≤ b ∨ b + HDR * k ≤ a.

(** Where the blocks lie below the end [brk] of memory. *)
Record geo `{P : Process} (brk : Z) (fl : list (Z * Z)) (al : gmap Z Z) : Prop := {
  g_brk : base + HDR < brk < 2 ^ 31;
  g_head : ∃ bl, fl = (base, 0) :: bl ∧ ∀ a n, (a, n) ∈ bl → 1 ≤ n;
  g_sorted : StronglySorted apart fl;
  g_in a n : (a, n) ∈ fl → 0 ≤ n ∧ base ≤ a ∧ a + HDR * Z.max 1 n ≤ brk;
  g_al c k : al !! c = Some k → 1 ≤ k ∧ base + HDR < c ∧ c + HDR * k ≤ brk;
  g_al_fl c k a n : al !! c = Some k → (a, n) ∈ fl → disj a (Z.max 1 n) c k;
  g_al_al c k c' k' : al !! c = Some k → al !! c' = Some k' → c ≠ c' → disj c k c' k';
}.

Record heap `{P : Process} (s : ust) (fl : list (Z * Z)) (al : gmap Z Z) : Prop := {
  h_geo : geo s.(u_brk) fl al;
  h_chain : chain s.(u_mem) fl base;
  h_freep : ∃ n, (s.(u_freep), n) ∈ fl;
  h_size c k : al !! c = Some k → ld32 s.(u_mem) (c + 8) = k;
}.

(** Before the first call nothing is allocated and [freep] is null. *)
Definition heap_ok `{P : Process} (s : ust) (al : gmap Z Z) : Prop :=
  (s.(u_freep) = 0 ∧ al = ∅ ∧ base + HDR < s.(u_brk) < 2 ^ 31) ∨ ∃ fl, heap s fl al.

(** The bytes a client may use of the block with header [c] and size [k]. *)
Definition payload (s : ust) (c k : Z) : list Z :=
  mem_read s.(u_mem) (c + HDR) (Z.to_nat (HDR * (k - 1))).

(** What a client sees: every live pointer with the contents of its block. *)
Definition live `{P : Process} (s : ust) (H : gmap Z (list Z)) : Prop :=
  ∃ al, heap_ok s al ∧
    ∀ r bs, H !! r = Some bs ↔ ∃ k, al !! (r - HDR) = Some k ∧ bs = payload s (r - HDR) k.

(** ** Clients

    A client allocates, frees pointers it holds, and stores bytes in its
    blocks. *)
Inductive uop :=
  | UMalloc (nbytes : Z)
  | UFree (r : Z)
  | UStore (r off v : Z).

Definition store (a v : Z) : M ust unit := λ s,
  if mapped s a 1 then Ok (tt, MkU (st8 s.(u_mem) a v) s.(u_freep) s.(u_brk))
  else Err (Undef "page fault").

Definition run `{P : Process} (op : uop) : M ust Z :=
  match op with
  | UMalloc nbytes => malloc nbytes
  | UFree r => free r;; mret 0
  | UStore r off v => store (r + off) v;; mret 0
  end.

(** What a client may do, and what it is promised, in terms of its pointers. *)
Definition legal (op : uop) (H : gmap Z (list Z)) : Prop :=
  match op with
  | UMalloc nbytes => 0 ≤ nbytes < 2 ^ 31 - 32
  | UFree r => is_Some (H !! r)
  | UStore r off v => ∃ bs, H !! r = Some bs ∧ 0 ≤ off < Z.of_nat (length bs)
  end.

Definition spec (op : uop) (H : gmap Z (list Z)) (res : Z) (H' : gmap Z (list Z)) : Prop :=
  match op with
  | UMalloc nbytes =>
      (res = 0 ∧ H' = H) ∨
      (res ≠ 0 ∧ ∃ bs, H' = <[res := bs]> H ∧ nbytes ≤ Z.of_nat (length bs) ∧
         ∀ r bs', H !! r = Some bs' →
           res + Z.of_nat (length bs) < r ∨ r + Z.of_nat (length bs') < res)
  | UFree r => H' = delete r H
  | UStore r off v => ∃ bs, H !! r = Some bs ∧ H' = <[r := <[Z.to_nat off := u8 v]> bs]> H
  end.

(** What a client can observe by itself: the pointers it got and the sizes it
    asked for. *)
Definition legal_for (op : uop) (L : gmap Z Z) : Prop :=
  match op with
  | UMalloc nbytes => 0 ≤ nbytes < 2 ^ 31 - 32
  | UFree r => is_Some (L !! r)
  | UStore r off v => ∃ n, L !! r = Some n ∧ 0 ≤ off < n
  end.

Definition track (op : uop) (L : gmap Z Z) (res : Z) : gmap Z Z :=
  match op with
  | UMalloc nbytes => if res =? 0 then L else <[res := nbytes]> L
  | UFree r => delete r L
  | UStore _ _ _ => L
  end.

Inductive reach `{P : Process} : ust → gmap Z Z → Prop :=
  | ReachInit s : s.(u_freep) = 0 → base + HDR < s.(u_brk) < 2 ^ 31 → reach s ∅
  | ReachStep s L op res s' : reach s L → legal_for op L → run op s = Ok (res, s') →
      reach s' (track op L res).
End Umalloc.
