(* ===== verification/UmallocGeo.v ===== *)
(** * Where the blocks of the user-level allocator lie

    Chains of headers in memory, and the pure part of the allocator's
    invariant: what inserting, merging, splitting and removing a block does to
    the sorted list of free blocks and the map of live ones. *)

From Stdlib Require Import Sorted.
From stdpp Require Import sorting.
From S2P Require Import Prelude Machine Umalloc.
Import Umalloc.

Module UmallocGeo.

(** ** Chains of headers *)

Lemma chain_app m l1 l2 e :
  chain m (l1 ++ l2) e ↔ chain m l1 (fnext e l2) ∧ chain m l2 e.
Proof.
  induction l1 as [|[a n] l1 IH]; simpl; [naive_solver|]. rw IH.
  destruct l1 as [|[b k] l1]; simpl; naive_solver.
Qed.

(** Headers keep their meaning when their 16 bytes do. *)
Lemma ld_header m m' a : agree m' m a (a + HDR) → ld64 m' a = ld64 m a ∧ ld32 m' (a + 8) = ld32 m (a + 8).
Proof.
  change HDR with 16. intros H. split.
  - apply ld64_agree. eapply agree_sub; [done|lia..].
  - apply ld32_ext. intros x Hx. apply H. lia.
Qed.

Lemma hchain_agree m m' l e :
  (∀ a n, (a, n) ∈ l → agree m' m a (a + HDR)) → chain m l e → chain m' l e.
Proof.
  induction l as [|[a n] l IH]; simpl; [done|]. intros H (H1 & H2 & H3).
  destruct (ld_header m m' a) as [E1 E2]; [apply (H a n); set_solver|].
  rw E1 E2. split; [done|]. split; [done|]. apply IH; [|done]. intros b k Hb. apply (H b k). set_solver.
Qed.

Lemma chain_lookup m l e j a n :
  chain m l e → l !! j = Some (a, n) → ld64 m a = fnext e (drop (S j) l) ∧ ld32 m (a + 8) = n.
Proof.
  revert j. induction l as [|[b k] l IH]; intros j Hc Hj; [done|]. simpl in Hc.
  destruct Hc as (H1 & H2 & H3). destruct j as [|j]; simplify_eq/=; [by rw drop_0|]. by apply IH.
Qed.

Lemma fnext_drop e l j : fnext e (drop j l) = match l !! j with Some (a, _) => a | None => e end.
Proof.
  destruct (l !! j) as [[a n]|] eqn:E.
  - by rw (drop_S _ _ _ E).
  - apply lookup_ge_None in E. by rw drop_ge.
Qed.

Lemma st64_header m a v b : b + HDR ≤ a ∨ a + HDR ≤ b → agree (st64 m a v) m b (b + HDR).
Proof. intros H x Hx. change HDR with 16 in *. rw /st64. zbool; lia || done. Qed.

Lemma st32_agree m a v lo hi : hi ≤ a ∨ a + 4 ≤ lo → agree (st32 m a v) m lo hi.
Proof. intros H. apply mem_write_agree. by rw length_le_bytes. Qed.

(** ** Sorted free lists *)

Lemma apart_app l1 l2 :
  StronglySorted apart (l1 ++ l2) ↔
    StronglySorted apart l1 ∧ StronglySorted apart l2 ∧ ∀ x y, x ∈ l1 → y ∈ l2 → apart x y.
Proof. rw StronglySorted_app. naive_solver. Qed.

Lemma apart_cons x l : StronglySorted apart (x :: l) ↔ StronglySorted apart l ∧ ∀ y, y ∈ l → apart x y.
Proof.
  split.
  - intros [H1 H2]%StronglySorted_inv. split; [done|]. by apply Forall_forall.
  - intros [H1 H2]. constructor; [done|]. by apply Forall_forall.
Qed.

Lemma sorted_lt l i j a n b k : StronglySorted apart l → l !! i = Some (a, n) → l !! j = Some (b, k) →
  (i < j)%nat → a + HDR * Z.max 1 n < b.
Proof.
  intros Hs Hi Hj Hij. rw -(take_drop_middle _ _ _ Hi) in Hs. apply apart_app in Hs as (_ & Hs & _).
  apply apart_cons in Hs as [_ Hs]. apply (Hs (b, k)). apply list_elem_of_lookup.
  exists (j - S i)%nat. rw lookup_drop. rewrite <- Hj. f_equal. lia.
Qed.

(** The block before an address, in a list that starts below it. *)
Lemma split_at l bp : StronglySorted apart l → fnext bp l < bp → (∀ a n, (a, n) ∈ l → a ≠ bp) →
  ∃ l1 p n l2, l = l1 ++ (p, n) :: l2 ∧ p < bp ∧ (∀ a k, (a, k) ∈ l2 → bp < a).
Proof.
  induction l as [|[a n] l IH]; simpl; [lia|]. intros [Hs Ha]%apart_cons Hlt Hne.
  destruct l as [|[b k] l]; [exists [], a, n, []; split_and!; [done..|by intros ?? ?%not_elem_of_nil]|].
  destruct (Z.lt_ge_cases b bp) as [Hb|Hb].
  - destruct (IH Hs Hb) as (l1 & p & n' & l2 & -> & ? & ?); [set_solver|].
    by exists ((a, n) :: l1), p, n', l2.
  - exists [], a, n, ((b, k) :: l). split; [done|]. split; [done|]. intros c k' [Hc|Hc]%elem_of_cons.
    + simplify_eq. assert (b ≠ bp) by (apply (Hne b k); set_solver). lia.
    + apply apart_cons in Hs as [_ Hs]. specialize (Hs _ Hc). rw /apart /= in Hs. change HDR with 16 in Hs. lia.
Qed.

Section props.
Context {P : Process}.

Lemma geo_bound brk fl al : geo brk fl al → Z.of_nat (length fl) ≤ brk.
Proof.
  intros Hg. pose proof base_ok as Hb.
  enough (∀ l lo, StronglySorted apart l → (∀ a n, (a, n) ∈ l → lo ≤ a < brk) → lo ≤ brk → Z.of_nat (length l) ≤ brk - lo) as H.
  { specialize (H fl 0 (g_sorted _ _ _ Hg)). pose proof (g_brk _ _ _ Hg). change HDR with 16 in *.
    assert (Z.of_nat (length fl) ≤ brk - 0); [|lia]. apply H; [|lia]. intros a n Ha.
    apply (g_in _ _ _ Hg) in Ha. change HDR with 16 in *. lia. }
  induction l as [|[a n] l IH]; intros lo Hs Hin Hlo; [simpl; lia|]. apply apart_cons in Hs as [Hs Ha].
  specialize (IH (a + 1) Hs). assert (lo ≤ a < brk) by (apply (Hin a n); set_solver).
  assert (Z.of_nat (length l) ≤ brk - (a + 1)); [|simpl; lia]. apply IH; [|lia]. intros b k Hb'.
  specialize (Ha _ Hb'). rw /apart /= in Ha. change HDR with 16 in Ha.
  assert (lo ≤ b < brk) by (apply (Hin b k); set_solver). lia.
Qed.

Lemma geo_first brk fl al a n : geo brk fl al → fl !! 0%nat = Some (a, n) → a = base ∧ n = 0.
Proof. intros Hg. destruct (g_head _ _ _ Hg) as (bl & -> & _). simpl. intros. by simplify_eq. Qed.

Lemma geo_pos brk fl al a n : geo brk fl al → (a, n) ∈ fl → n = 0 ∧ a = base ∨ 1 ≤ n.
Proof.
  intros Hg. destruct (g_head _ _ _ Hg) as (bl & -> & Hb). intros [H|H]%elem_of_cons; simplify_eq; eauto.
Qed.

(** The list after merging a block with its successor. *)
Definition up (bp k : Z) (l2 : list (Z * Z)) : list (Z * Z) :=
  match l2 with
  | (q, n) :: l2' => if bp + HDR * k =? q then (bp, k + n) :: l2' else (bp, k) :: l2
  | [] => [(bp, k)]
  end.
(** And the result with its predecessor. *)
Definition down (p n : Z) (l : list (Z * Z)) : list (Z * Z) :=
  match l with
  | (bp, k) :: l2 => if p + HDR * n =? bp then (p, n + k) :: l2 else (p, n) :: l
  | [] => [(p, n)]
  end.

(** A block fits below [brk], beside the free and the live blocks. *)
Record fits (brk : Z) (fl : list (Z * Z)) (al : gmap Z Z) (bp k : Z) : Prop := {
  f_size : 1 ≤ k;
  f_in : base + HDR < bp ∧ bp + HDR * k ≤ brk;
  f_fl a n : (a, n) ∈ fl → disj a (Z.max 1 n) bp k;
  f_al c k' : al !! c = Some k' → disj bp k c k';
}.

(** The successor list after [up]: its head is [bp], its elements lie where
    [bp] or the old elements did. *)
Lemma up_spec bp k l2 brk :
  StronglySorted apart l2 → 1 ≤ k → bp + HDR * k ≤ brk →
  (∀ a n, (a, n) ∈ l2 → 1 ≤ n ∧ bp + HDR * k ≤ a ∧ a + HDR * n ≤ brk) →
  ∃ k' l2', up bp k l2 = (bp, k') :: l2' ∧ k ≤ k' ∧ bp + HDR * k' ≤ brk ∧
    StronglySorted apart ((bp, k') :: l2') ∧ (∀ x, x ∈ l2' → x ∈ l2) ∧
    (k' = k ∧ l2' = l2 ∨ ∃ q n, l2 = (q, n) :: l2' ∧ k' = k + n ∧ q = bp + HDR * k).
Proof.
  intros Hs Hk Hb Hin. destruct l2 as [|[q n] l2]; simpl.
  { exists k, []. split_and!; [done|lia|lia| |done|by left].
    apply apart_cons. split; [constructor|]. by intros y ?%not_elem_of_nil. }
  pose proof Hs as Hs0. apply apart_cons in Hs as [Hs Hq].
  destruct (Hin q n) as (H1 & H2 & H3); [set_solver|]. rw /apart /= in Hq. change HDR with 16 in *.
  destruct (Z.eqb_spec (bp + 16 * k) q) as [E|E].
  - exists (k + n), l2. split_and!; [done|lia|lia| |set_solver|by right; eauto].
    apply apart_cons. split; [done|]. intros [a m] Ha. specialize (Hq _ Ha). rw /apart /= . change HDR with 16. simpl in Hq. lia.
  - exists k, ((q, n) :: l2). split_and!; [done|lia|lia| |set_solver|by left].
    apply apart_cons. split; [done|]. intros [a m] [Ha|Ha]%elem_of_cons; rw /apart /=; change HDR with 16.
    + simplify_eq. lia.
    + specialize (Hq _ Ha). simpl in Hq. lia.
Qed.

(** Replacing the free blocks from [p] on. *)
Lemma geo_tail brk l1 p n l2 al N L :
  geo brk (l1 ++ (p, n) :: l2) al → (N = n ∨ 1 ≤ n ∧ 1 ≤ N) →
  StronglySorted apart ((p, N) :: L) → p + HDR * Z.max 1 N ≤ brk →
  (∀ c k, al !! c = Some k → disj p (Z.max 1 N) c k) →
  (∀ a m, (a, m) ∈ L → 1 ≤ m ∧ a + HDR * m ≤ brk ∧ ∀ c k, al !! c = Some k → disj a m c k) →
  geo brk (l1 ++ (p, N) :: L) al.
Proof.
  intros Hg HN Hs Hb Hpd HL.
  destruct (g_in _ _ _ Hg p n) as (Hn0 & Hpb & _); [set_solver|].
  pose proof (g_sorted _ _ _ Hg) as Hs0. apply apart_app in Hs0 as (Hs1 & _ & Hs12).
  pose proof Hs as Hs'. apply apart_cons in Hs' as [_ HpL]. rw /apart /= in Hs12 HpL. split.
  - apply (g_brk _ _ _ Hg).
  - destruct (g_head _ _ _ Hg) as (bl & Hbl & Hbl1). destruct l1 as [|x l1]; simplify_eq/=.
    + exists L. split; [f_equal; f_equal; lia|]. intros a m Ha. by apply HL in Ha as [??].
    + exists (l1 ++ (p, N) :: L). split; [done|].
      intros a m [Ha|[Ha|Ha]%elem_of_cons]%elem_of_app; [apply (Hbl1 a m); set_solver| |by apply HL in Ha as [??]].
      simplify_eq. assert (1 ≤ n) by (apply (Hbl1 p n); set_solver). lia.
  - apply apart_app. split_and!; [done..|].
    intros x y Hx Hy. specialize (Hs12 x (p, n) Hx ltac:(set_solver)). simpl in Hs12.
    apply elem_of_cons in Hy as [->|Hy]; rw /apart /=; [done|]. specialize (HpL y Hy). change HDR with 16 in *. lia.
  - intros a m [Ha|[Ha|Ha]%elem_of_cons]%elem_of_app; [apply (g_in _ _ _ Hg); set_solver|simplify_eq; lia|].
    specialize (HpL _ Ha). destruct (HL _ _ Ha) as (? & ? & _). change HDR with 16 in *. simpl in HpL. lia.
  - apply (g_al _ _ _ Hg).
  - intros c kc a m Hc [Ha|[Ha|Ha]%elem_of_cons]%elem_of_app;
      [apply (g_al_fl _ _ _ Hg); set_solver|simplify_eq; by apply Hpd|].
    destruct (HL _ _ Ha) as (? & _ & H). rewrite -> Z.max_r by lia. by apply H.
  - apply (g_al_al _ _ _ Hg).
Qed.

(** What lies between the found block and its successor. *)
Lemma fits_between brk l1 p n l2 al bp k :
  geo brk (l1 ++ (p, n) :: l2) al → fits brk (l1 ++ (p, n) :: l2) al bp k →
  p < bp → (∀ a m, (a, m) ∈ l2 → bp < a) →
  p + HDR * Z.max 1 n ≤ bp ∧ ∀ a m, (a, m) ∈ l2 → 1 ≤ m ∧ bp + HDR * k ≤ a ∧ a + HDR * m ≤ brk.
Proof.
  intros Hg Hf Hp Hl2. pose proof (f_size _ _ _ _ _ Hf) as Hk. pose proof (f_in _ _ _ _ _ Hf) as [Hbp Hbk].
  change HDR with 16 in *. split.
  { destruct (g_in _ _ _ Hg p n); [set_solver|].
    destruct (f_fl _ _ _ _ _ Hf p n) as [|]; [set_solver|..]; change HDR with 16 in *; lia. }
  intros a m Ha. pose proof (Hl2 _ _ Ha). destruct (geo_pos _ _ _ a m Hg) as [[-> ->]|]; [set_solver|lia|].
  destruct (g_in _ _ _ Hg a m) as (_ & _ & ?); [set_solver|].
  destruct (f_fl _ _ _ _ _ Hf a m) as [|]; [set_solver|..]; change HDR with 16 in *; lia.
Qed.

Lemma geo_insert brk l1 p n l2 al bp k :
  geo brk (l1 ++ (p, n) :: l2) al → fits brk (l1 ++ (p, n) :: l2) al bp k →
  p < bp → (∀ a m, (a, m) ∈ l2 → bp < a) →
  geo brk (l1 ++ down p n (up bp k l2)) al.
Proof.
  intros Hg Hf Hp Hl2. destruct (fits_between _ _ _ _ _ _ _ _ Hg Hf Hp Hl2) as [Hpbp Hin2].
  pose proof (g_sorted _ _ _ Hg) as Hs. apply apart_app in Hs as (_ & Hs2 & _). apply apart_cons in Hs2 as [Hs2 Hpl].
  pose proof (f_size _ _ _ _ _ Hf) as Hk. pose proof (f_in _ _ _ _ _ Hf) as [Hbp Hbk].
  pose proof (geo_pos _ _ _ p n Hg ltac:(set_solver)) as Hn.
  destruct (up_spec bp k l2 brk Hs2 Hk Hbk Hin2) as (k' & l2' & -> & Hkk & Hbk' & Hs' & Hsub & Hcase).
  assert (∀ c kc, al !! c = Some kc → disj bp k' c kc) as Hal.
  { intros c kc Hc. pose proof (f_al _ _ _ _ _ Hf _ _ Hc) as H1.
    destruct Hcase as [[-> _]|(q & m & -> & -> & ->)]; [done|].
    pose proof (g_al_fl _ _ _ Hg c kc (bp + HDR * k) m Hc ltac:(set_solver)) as H2.
    pose proof (g_al _ _ _ Hg c kc Hc). rw /disj in H1 H2 |- *. change HDR with 16 in *.
    assert (1 ≤ m) by (apply (Hin2 (bp + 16 * k) m); set_solver). lia. }
  assert (∀ c kc, al !! c = Some kc → disj p (Z.max 1 n) c kc) as Hpal
    by (intros; apply (g_al_fl _ _ _ Hg); set_solver).
  assert (∀ a m, (a, m) ∈ l2' → 1 ≤ m ∧ a + HDR * m ≤ brk ∧ ∀ c k, al !! c = Some k → disj a m c k) as Hl2'.
  { intros a m Ha%Hsub. destruct (Hin2 _ _ Ha) as (Hm & ? & ?). split_and!; [done..|]. intros c kc Hc.
    pose proof (g_al_fl _ _ _ Hg c kc a m Hc ltac:(set_solver)). by rewrite -> Z.max_r in H1 by lia. }
  pose proof Hs' as Hbl. apply apart_cons in Hbl as [Hs2' Hbl]. rw /apart /= in Hpl Hbl. simpl.
  destruct (Z.eqb_spec (p + HDR * n) bp) as [E|E]; eapply geo_tail; try done.
  - change HDR with 16 in *. lia.
  - apply apart_cons. split; [done|]. intros y Hy. specialize (Hbl y Hy). rw /apart /=. change HDR with 16 in *. lia.
  - change HDR with 16 in *. lia.
  - intros c kc Hc. specialize (Hal _ _ Hc). specialize (Hpal _ _ Hc). pose proof (g_al _ _ _ Hg c kc Hc).
    rw /disj in Hal Hpal |- *. change HDR with 16 in *. lia.
  - by left.
  - apply apart_cons. split; [done|]. intros y [->|Hy]%elem_of_cons; rw /apart /=; [change HDR with 16 in *; lia|].
    by apply Hpl, Hsub.
  - change HDR with 16 in *. lia.
  - intros a m [Ha|Ha]%elem_of_cons; [|by apply Hl2']. simplify_eq. split_and!; [lia|done..].
Qed.

(** Taking and giving a live block. *)
Lemma geo_alloc brk fl al c k : geo brk fl al → fits brk fl al c k → geo brk fl (<[c := k]> al).
Proof.
  intros Hg Hf. pose proof (f_in _ _ _ _ _ Hf). pose proof (f_size _ _ _ _ _ Hf).
  destruct Hg. split; try done.
  - intros c' k' [[<- <-]|[_ Hc]]%lookup_insert_Some; [by split|eauto].
  - intros c' k' a n [[<- <-]|[_ Hc]]%lookup_insert_Some Ha; [by apply (f_fl _ _ _ _ _ Hf)|eauto].
  - intros c1 k1 c2 k2 [[<- <-]|[_ H1]]%lookup_insert_Some [[<- <-]|[_ H2]]%lookup_insert_Some Hne; try done; [| |eauto].
    + by apply (f_al _ _ _ _ _ Hf).
    + apply (f_al _ _ _ _ _ Hf) in H1. rw /disj in H1 |- *. lia.
Qed.

Lemma geo_dealloc brk fl al c k : geo brk fl al → al !! c = Some k →
  geo brk fl (delete c al) ∧ fits brk fl (delete c al) c k.
Proof.
  intros Hg Hc. destruct (g_al _ _ _ Hg c k Hc) as (? & ? & ?). split.
  - destruct Hg. split; try done; [|setoid_rewrite lookup_delete_Some; naive_solver..].
    intros c' k' [_ H']%lookup_delete_Some. eauto.
  - split; [done..| |].
    + intros a n Ha. by apply (g_al_fl _ _ _ Hg).
    + intros c' k' [Hne Hc']%lookup_delete_Some. by apply (g_al_al _ _ _ Hg).
Qed.

(** A block is disjoint from the blocks around it in the list. *)
Lemma sorted_disj l1 p n l2 a m c k : StronglySorted apart (l1 ++ (p, n) :: l2) → (a, m) ∈ l1 ++ l2 →
  p ≤ c → c + HDR * k ≤ p + HDR * Z.max 1 n → disj a (Z.max 1 m) c k.
Proof.
  intros (_ & Hs2 & Hs12)%apart_app Ha Hc Hk. apply apart_cons in Hs2 as [_ Hs2].
  rw /apart /= in Hs2 Hs12. rw /disj. apply elem_of_app in Ha as [Ha|Ha].
  - specialize (Hs12 _ (p, n) Ha ltac:(set_solver)). simpl in Hs12. lia.
  - specialize (Hs2 _ Ha). simpl in Hs2. lia.
Qed.

(** The two ways to take units from a free block. *)
Lemma geo_exact brk l1 pp pn p n l2 al : geo brk (l1 ++ (pp, pn) :: (p, n) :: l2) al →
  geo brk (l1 ++ (pp, pn) :: l2) al ∧ fits brk (l1 ++ (pp, pn) :: l2) al p n.
Proof.
  intros Hg. pose proof (g_sorted _ _ _ Hg) as Hs.
  assert ((pp, pn) ∈ l1 ++ (pp, pn) :: (p, n) :: l2 ∧ (p, n) ∈ l1 ++ (pp, pn) :: (p, n) :: l2) as [Hi Hi'] by set_solver.
  destruct (g_in _ _ _ Hg pp pn Hi) as (? & ? & ?). destruct (g_in _ _ _ Hg p n Hi') as (? & ? & ?).
  pose proof Hs as (_ & Hs1 & _)%apart_app. apply apart_cons in Hs1 as [Hs1 Hpp].
  pose proof (Hpp (p, n) ltac:(set_solver)) as Hlt. rw /apart /= in Hlt. apply apart_cons in Hs1 as [Hs1 _].
  assert (1 ≤ n) by (destruct (geo_pos _ _ _ p n Hg Hi') as [[-> ->]|]; change HDR with 16 in *; lia).
  assert (∀ a m, (a, m) ∈ l2 → 1 ≤ m) as Hpos.
  { intros a m Ha. destruct (geo_pos _ _ _ a m Hg) as [[-> ->]|]; [set_solver| |done].
    specialize (Hpp (base, 0) ltac:(set_solver)). rw /apart /= in Hpp. change HDR with 16 in *. lia. }
  split.
  - eapply geo_tail; [done|by left|..].
    + apply apart_cons. split; [done|]. intros y Hy. apply Hpp. set_solver.
    + done.
    + intros c k Hc. apply (g_al_fl _ _ _ Hg); set_solver.
    + intros a m Ha. pose proof (Hpos _ _ Ha). destruct (g_in _ _ _ Hg a m) as (_ & _ & Hb); [set_solver|].
      rewrite -> Z.max_r in Hb by lia. split_and!; [done..|]. intros c k Hc.
      pose proof (g_al_fl _ _ _ Hg c k a m Hc ltac:(set_solver)) as Hd. by rewrite -> Z.max_r in Hd by lia.
  - split; [done|change HDR with 16 in *; lia|..].
    + intros a m Ha. eapply (sorted_disj (l1 ++ [(pp, pn)])); [rw -app_assoc; exact Hs|rw -app_assoc; exact Ha|lia|change HDR with 16 in *; lia].
    + intros c k Hc. pose proof (g_al_fl _ _ _ Hg c k p n Hc ltac:(set_solver)) as Hd. by rewrite -> Z.max_r in Hd by lia.
Qed.

Lemma geo_split brk l1 p n l2 al nu : geo brk (l1 ++ (p, n) :: l2) al → 1 ≤ nu < n →
  geo brk (l1 ++ (p, n - nu) :: l2) al ∧ fits brk (l1 ++ (p, n - nu) :: l2) al (p + HDR * (n - nu)) nu.
Proof.
  intros Hg Hnu. pose proof (g_sorted _ _ _ Hg) as Hs.
  pose proof Hs as (_ & Hs1 & _)%apart_app. apply apart_cons in Hs1 as [Hs1 Hp].
  assert ((p, n) ∈ l1 ++ (p, n) :: l2) as Hi by set_solver.
  destruct (g_in _ _ _ Hg p n Hi) as (? & ? & ?). rw /apart /= in Hp.
  assert (∀ c k, al !! c = Some k → disj p n c k) as Hpd.
  { intros c k Hc. pose proof (g_al_fl _ _ _ Hg c k p n Hc Hi) as Hd. by rewrite -> Z.max_r in Hd by lia. }
  split.
  - eapply geo_tail; [done|right; lia|..].
    + apply apart_cons. split; [done|]. intros y Hy. specialize (Hp y Hy). rw /apart /=. change HDR with 16 in *. lia.
    + change HDR with 16 in *. lia.
    + intros c k Hc. specialize (Hpd _ _ Hc). pose proof (g_al _ _ _ Hg _ _ Hc). rw /disj in Hpd |- *. change HDR with 16 in *. lia.
    + intros a m Ha. specialize (Hp _ Ha). simpl in Hp. destruct (geo_pos _ _ _ a m Hg) as [[-> ->]|]; [set_solver|change HDR with 16 in *; lia|].
      destruct (g_in _ _ _ Hg a m) as (_ & _ & Hb); [set_solver|]. rewrite -> Z.max_r in Hb by lia.
      split_and!; [done..|]. intros c k Hc.
      pose proof (g_al_fl _ _ _ Hg c k a m Hc ltac:(set_solver)) as Hd. by rewrite -> Z.max_r in Hd by lia.
  - assert (n = 0 ∧ p = base ∨ p = base ∧ l1 = [] ∨ base + HDR < p) as Hb.
    { destruct (g_head _ _ _ Hg) as (bl & Hbl & _). destruct l1 as [|[a m] l1]; simplify_eq/=; [by left|].
      right; right. apply apart_cons in Hs as [_ Hs]. specialize (Hs (p, n) ltac:(set_solver)). by rw /apart /= in Hs. }
    assert (base + HDR < p) as Hbp.
    { destruct Hb as [[-> _]|[[-> ->]|?]]; [lia| |done]. destruct (g_head _ _ _ Hg) as (bl & Hbl & _). simplify_eq/=. lia. }
    split; [lia|change HDR with 16 in *; lia|..].
    + intros a m [Ha|[Ha|Ha]%elem_of_cons]%elem_of_app.
      * eapply sorted_disj; [exact Hs|set_solver|change HDR with 16 in *; lia..].
      * simplify_eq. rw /disj. change HDR with 16. lia.
      * eapply sorted_disj; [exact Hs|set_solver|change HDR with 16 in *; lia..].
    + intros c k Hc. specialize (Hpd _ _ Hc). pose proof (g_al _ _ _ Hg _ _ Hc). rw /disj in Hpd |- *. change HDR with 16 in *. lia.
Qed.
End props.
End UmallocGeo.
