(* ===== verification/UmallocProps.v ===== *)
(** * Correctness of the user-level allocator

    Every call of [malloc] and [free] terminates, touches only its own headers
    and keeps the ring of free blocks sorted, disjoint from the live blocks and
    fully merged; seen by a client, the heap is a map from pointers to bytes. *)

From Stdlib Require Import Sorted.
From S2P Require Import Prelude Machine Umalloc UmallocGeo.
Import Umalloc UmallocGeo.

Module UmallocProps.

Ltac hdr := change HDR with 16 in *.
(** Bounds of header addresses. *)
Ltac hlia := hdr; cbn [u_brk] in *; lia.

(** ** Header accesses *)

Lemma padd_small p k : 0 ≤ p + HDR * k < 2 ^ 64 → padd p k = p + HDR * k.
Proof. apply u64_small. Qed.

Section wp.
Context (s : ust) (p : Z) (Hp : 0 ≤ p) (Hs : p + HDR ≤ s.(u_brk)).

Lemma wp_get_ptr (Q : Z → ust → Prop) : Q (ld64 s.(u_mem) p) s → wp (get_ptr p) Q s.
Proof. hdr. rw /wp /get_ptr /mapped. by zdec. Qed.
Lemma wp_get_size (Q : Z → ust → Prop) : Q (ld32 s.(u_mem) (p + 8)) s → wp (get_size p) Q s.
Proof. hdr. rw /wp /get_size /mapped. by zdec. Qed.
Lemma wp_set_ptr v (Q : unit → ust → Prop) :
  Q tt (MkU (st64 s.(u_mem) p v) s.(u_freep) s.(u_brk)) → wp (set_ptr p v) Q s.
Proof. hdr. rw /wp /set_ptr /mapped. by zdec. Qed.
Lemma wp_set_size v (Q : unit → ust → Prop) :
  Q tt (MkU (st32 s.(u_mem) (p + 8) v) s.(u_freep) s.(u_brk)) → wp (set_size p v) Q s.
Proof. hdr. rw /wp /set_size /mapped. by zdec. Qed.
End wp.

(** Only the header at [a] differs. *)
Definition only (m m' : mem) (a : Z) : Prop := ∀ x, x < a ∨ a + HDR ≤ x → m' x = m x.

Lemma only_st64 m a v : only m (st64 m a v) a.
Proof. intros x Hx. hdr. rw /st64. zbool; lia || done. Qed.
Lemma only_st32 m a v : only m (st32 m (a + 8) v) a.
Proof. intros x Hx. hdr. rw /st32 /mem_write length_le_bytes. change (Z.of_nat 4) with 4. zbool; lia || done. Qed.
Lemma only_trans m1 m2 m3 a : only m1 m2 a → only m2 m3 a → only m1 m3 a.
Proof. intros H1 H2 x Hx. by rw H2 // H1. Qed.
Lemma only_agree m m' a lo hi : only m m' a → hi ≤ a ∨ a + HDR ≤ lo → agree m' m lo hi.
Proof. intros H Hx x ?. apply H. hdr. lia. Qed.
#[local] Hint Resolve only_st64 only_st32 : core.

(** Reading back the two fields of a header. *)
Lemma ld64_set_size m a v b : b = a ∨ b + HDR ≤ a ∨ a + HDR ≤ b → ld64 (st32 m (a + 8) v) b = ld64 m b.
Proof. intros. hdr. apply ld64_agree, st32_agree. lia. Qed.
Lemma ld32_set_ptr m a v b : b = a ∨ b + HDR ≤ a ∨ a + HDR ≤ b → ld32 (st64 m a v) (b + 8) = ld32 m (b + 8).
Proof. intros. hdr. apply ld32_ext. intros x Hx. rw /st64. zbool; lia || done. Qed.

Section props.
Context {P : Process}.

Lemma base_pos : 0 < base < 2 ^ 31.
Proof. apply base_ok. Qed.

Lemma heap_lookup s fl al j a n : heap s fl al → fl !! j = Some (a, n) →
  ld64 s.(u_mem) a = match fl !! S j with Some (b, _) => b | None => base end ∧ ld32 s.(u_mem) (a + 8) = n
  ∧ base ≤ a ∧ a + HDR * Z.max 1 n ≤ s.(u_brk).
Proof.
  intros Hh Hj. destruct (chain_lookup _ _ _ _ _ _ (h_chain _ _ _ Hh) Hj) as [-> ->]. rw fnext_drop.
  split_and!; try done; eapply (g_in _ _ _ (h_geo _ _ _ Hh)), list_elem_of_lookup_2, Hj.
Qed.

(** How many steps lead from position [j] of a ring of [n] to [i]. *)
Definition cyc (n j i : nat) : Z :=
  if decide (j ≤ i)%nat then Z.of_nat (i - j) else Z.of_nat (i + n - j).

Lemma cyc_next n j i : (j < n)%nat → (i < n)%nat → j ≠ i →
  cyc n (if decide (S j < n)%nat then S j else 0%nat) i = cyc n j i - 1.
Proof. intros. rw /cyc. repeat case_decide; lia. Qed.

Lemma cyc_nonneg n j i : (j ≤ n)%nat → 0 ≤ cyc n j i.
Proof. intros. rw /cyc. case_decide; lia. Qed.

(** ** [free] *)

Lemma find_ok s fl al bp k : heap s fl al → fits s.(u_brk) fl al bp k →
  wp (loop (free_find bp) s.(u_freep)) (λ p s', s' = s ∧
    ∃ l1 n l2, fl = l1 ++ (p, n) :: l2 ∧ p < bp ∧ ∀ a m, (a, m) ∈ l2 → bp < a) s.
Proof.
  intros Hh Hf. pose proof (h_geo _ _ _ Hh) as Hg. pose proof base_pos as Hb0.
  pose proof (f_in _ _ _ _ _ Hf) as [Hb _]. pose proof (f_size _ _ _ _ _ Hf) as Hk.
  assert (∀ a n, (a, n) ∈ fl → a ≠ bp) as Hne.
  { intros a n Ha. pose proof (f_fl _ _ _ _ _ Hf a n Ha) as [|]; hdr; lia. }
  destruct (split_at fl bp) as (l1 & p & n & l2 & Hfl & Hp & Hl2);
    [apply (g_sorted _ _ _ Hg)|destruct (g_head _ _ _ Hg) as (bl & -> & _); hdr; simpl; lia|done|].
  assert (fl !! length l1 = Some (p, n)) as Ht by (rw Hfl; apply list_lookup_middle; done).
  set (t := length l1) in *. destruct (h_freep _ _ _ Hh) as [fn [i Hi]%list_elem_of_lookup].
  apply (wp_loop_n (λ r p s', s' = s ∧ ∃ j n, fl !! j = Some (p, n) ∧ r = cyc (length fl) j t) _ _
           (cyc (length fl) i t)).
  - eauto.
  - pose proof (geo_bound _ _ _ Hg). pose proof (g_brk _ _ _ Hg). apply lookup_lt_Some in Hi, Ht. rw /cyc. case_decide; lia.
  - clear i Hi. intros r q s' [-> (j & m & Hj & ->)] Hr. rw /free_find. apply wp_bind.
    destruct (heap_lookup _ _ _ _ _ _ Hh Hj) as (Hld & _ & Hjb & Hje). apply wp_get_ptr. 1,2: by hdr; lia. rw Hld.
    pose proof (lookup_lt_Some _ _ _ Hj) as Hjl. pose proof (lookup_lt_Some _ _ _ Ht) as Htl.
    assert (∀ j' a m', fl !! j' = Some (a, m') → (j' < t)%nat → a < p) as Hlt.
    { intros j' a m' H' ?. pose proof (sorted_lt _ _ _ _ _ _ _ (g_sorted _ _ _ Hg) H' Ht ltac:(done)). hdr. lia. }
    assert (∀ j' a m', fl !! j' = Some (a, m') → (t < j')%nat → bp < a) as Hgt.
    { intros j' a m' H' ?. apply (Hl2 a m'), list_elem_of_lookup. exists (j' - S t)%nat. rewrite <- H', Hfl.
      rewrite -> lookup_app_r by lia. rewrite -> lookup_cons_ne_0 by lia. f_equal. subst t. lia. }
    pose proof (cyc_next (length fl) j t Hjl Htl) as Hnext.
    destruct (fl !! S j) as [[b m']|] eqn:EQ.
    + pose proof (lookup_lt_Some _ _ _ EQ) as Hl'. rewrite -> decide_True in Hnext by done.
      pose proof (sorted_lt _ _ _ _ _ _ _ (g_sorted _ _ _ Hg) Hj EQ ltac:(lia)) as Hqb. hdr.
      destruct (Nat.lt_trichotomy j t) as [H|[H|H]].
      * pose proof (Hlt _ _ _ Hj H). assert (b ≤ p).
        { destruct (decide (S j = t)) as [E|]; [rw E Ht in EQ; simplify_eq; lia|].
          assert (S j < t)%nat as H' by lia. specialize (Hlt _ _ _ EQ). lia. }
        specialize (Hnext ltac:(lia)). pose proof (cyc_nonneg (length fl) (S j) t ltac:(lia)).
        zdec. apply wp_ret. exists (cyc (length fl) (S j) t). split; [lia|]. split; [done|]. by exists (S j), m'.
      * assert (q = p ∧ m = n) as [-> ->] by (rw H Ht in Hj; by simplify_eq).
        assert (bp < b) by (eapply Hgt; [exact EQ|lia]). zdec. apply wp_ret. split; [done|]. by exists l1, n, l2.
      * pose proof (Hgt _ _ _ Hj H). assert (bp < b) by (eapply Hgt; [exact EQ|lia]). specialize (Hnext ltac:(lia)). pose proof (cyc_nonneg (length fl) (S j) t ltac:(lia)).
        zdec. apply wp_ret. exists (cyc (length fl) (S j) t). split; [lia|]. split; [done|]. by exists (S j), m'.
    + apply lookup_ge_None in EQ. rewrite -> decide_False in Hnext by lia. hdr.
      destruct (decide (j = t)) as [H|H].
      * assert (q = p ∧ m = n) as [-> ->] by (rw H Ht in Hj; by simplify_eq).
        zdec. apply wp_ret. split; [done|]. by exists l1, n, l2.
      * assert (t < j)%nat as H' by lia. specialize (Hgt _ _ _ Hj H'). specialize (Hnext H).
        pose proof (cyc_nonneg (length fl) 0 t ltac:(lia)). zdec. apply wp_ret.
        destruct (g_head _ _ _ Hg) as (bl & Hbl & _).
        exists (cyc (length fl) 0 t). split; [lia|].
        split; [done|]. exists 0%nat, 0. split; [by rw Hbl|done].
Qed.

(** Merging upwards writes only the header of [bp]. *)
Lemma join_next_ok s l2 bp k :
  base < bp → 1 ≤ k → bp + HDR * k ≤ s.(u_brk) → s.(u_brk) < 2 ^ 31 →
  (∀ a m, (a, m) ∈ l2 → 1 ≤ m ∧ bp + HDR * k ≤ a ∧ a + HDR * m ≤ s.(u_brk)) →
  chain s.(u_mem) l2 base → ld32 s.(u_mem) (bp + 8) = k →
  wp (join_next bp (fnext base l2)) (λ _ s', ∃ m', s' = MkU m' s.(u_freep) s.(u_brk) ∧
    only s.(u_mem) m' bp ∧ chain m' (up bp k l2) base) s.
Proof.
  intros Hb Hk Hbk Hbrk Hin Hc Hsz. pose proof base_pos as Hb0. rw /join_next. hdr.
  apply wp_bind, wp_get_size; [hlia..|]. rw Hsz padd_small; [|hdr; lia]. hdr.
  assert (∀ m', only s.(u_mem) m' bp → chain m' l2 base) as Hfr.
  { intros m' Hm. eapply hchain_agree; [|done]. intros a m Ha. destruct (Hin _ _ Ha). eapply only_agree; [done|]. hdr. lia. }
  destruct l2 as [|[q n] l2]; simpl; hdr.
  { zdec. apply wp_set_ptr; [hlia..|]. eexists. split; [done|]. split; [done|].
    rw ld64_st64_eq ?ld32_set_ptr //; [tauto|lia]. }
  destruct (Hin q n) as (Hn & Hq & Hqe); [set_solver|]. simpl in Hc. destruct Hc as (Hc1 & Hc2 & Hc3).
  destruct (Z.eqb_spec (bp + 16 * k) q) as [E|E].
  - apply wp_bind, wp_get_size; [hlia..|]. rw Hc2 u32_small; [|lia].
    apply wp_bind, wp_set_size; [hlia..|]. cbn [u_mem u_freep u_brk].
    apply wp_bind, wp_get_ptr; [hlia..|]. cbn [u_mem u_freep u_brk].
    apply wp_set_ptr; [hlia..|]. cbn [u_mem u_freep u_brk].
    rw ld64_set_size; [|hdr; lia]. rw Hc1.
    assert (0 ≤ fnext base l2 < 2 ^ 64).
    { destruct l2 as [|[a m] l2]; simpl; [lia|]. destruct (Hin a m) as (? & ? & ?); [set_solver|]. lia. }
    assert (only s.(u_mem) (st64 (st32 s.(u_mem) (bp + 8) (k + n)) bp (fnext base l2)) bp) as Ho
      by (eapply only_trans; auto).
    eexists. split; [done|]. split; [done|]. cbn [chain]. rw ld64_st64_eq // ld32_set_ptr; [|by left].
    rw ld32_st32_eq; [|lia]. split; [done|]. split; [done|]. by apply Hfr in Ho as (_ & _ & ?).
  - apply wp_set_ptr; [hlia..|]. eexists. split; [done|]. split; [done|]. cbn [chain fnext].
    rw ld64_st64_eq; [|lia]. rw ld32_set_ptr; [|by left]. split; [done|]. split; [done|]. by apply Hfr.
Qed.

(** Merging downwards writes only the header of [p]. *)
Lemma join_prev_ok s l p n bp k :
  base ≤ p → 0 ≤ n → 1 ≤ k → p + HDR * Z.max 1 n ≤ bp → bp + HDR * k ≤ s.(u_brk) → s.(u_brk) < 2 ^ 31 →
  (∀ a m, (a, m) ∈ l → bp < a < s.(u_brk)) →
  chain s.(u_mem) ((bp, k) :: l) base → ld32 s.(u_mem) (p + 8) = n →
  wp (join_prev p bp) (λ _ s', ∃ m', s' = MkU m' s.(u_freep) s.(u_brk) ∧
    only s.(u_mem) m' p ∧ chain m' (down p n ((bp, k) :: l)) base) s.
Proof.
  intros Hp Hn Hk Hpb Hbk Hbrk Hin Hc Hsz. pose proof base_pos as Hb0. rw /join_prev. hdr.
  apply wp_bind, wp_get_size; [hlia..|]. rw Hsz padd_small; [|hdr; lia]. hdr.
  assert (∀ m', only s.(u_mem) m' p → chain m' ((bp, k) :: l) base) as Hfr.
  { intros m' Hm. eapply hchain_agree; [|done]. intros a m Ha. eapply only_agree; [done|]. hdr.
    apply elem_of_cons in Ha as [Ha|Ha]; [simplify_eq; lia|]. specialize (Hin _ _ Ha). lia. }
  pose proof Hc as (Hc1 & Hc2 & Hc3). cbn [down]. hdr.
  destruct (Z.eqb_spec (p + 16 * n) bp) as [E|E].
  - apply wp_bind, wp_get_size; [hlia..|]. rw Hc2 u32_small; [|lia].
    apply wp_bind, wp_set_size; [hlia..|]. cbn [u_mem u_freep u_brk].
    apply wp_bind, wp_get_ptr; [hlia..|]. cbn [u_mem u_freep u_brk].
    apply wp_set_ptr; [hlia..|]. cbn [u_mem u_freep u_brk].
    rw ld64_set_size; [|hdr; lia]. rw Hc1.
    assert (0 ≤ fnext base l < 2 ^ 64).
    { destruct l as [|[a m] l]; simpl; [lia|]. destruct (Hin a m) as (? & ?); [set_solver|]. lia. }
    assert (only s.(u_mem) (st64 (st32 s.(u_mem) (p + 8) (n + k)) p (fnext base l)) p) as Ho
      by (eapply only_trans; auto).
    eexists. split; [done|]. split; [done|]. cbn [chain]. rw ld64_st64_eq // ld32_set_ptr; [|by left].
    rw ld32_st32_eq; [|lia]. split; [done|]. split; [done|]. by apply Hfr in Ho as (_ & _ & ?).
  - apply wp_set_ptr; [hlia..|]. eexists. split; [done|]. split; [done|].
    change (chain ?m ((p, n) :: ?l') ?e) with (ld64 m p = bp ∧ ld32 m (p + 8) = n ∧ chain m l' e).
    rw ld64_st64_eq; [|lia]. rw ld32_set_ptr; [|by left]. split; [done|]. split; [done|]. by apply Hfr.
Qed.

(** The live blocks, headers included, are as they were. *)
Definition keeps (s s' : ust) (al : gmap Z Z) : Prop :=
  ∀ c k, al !! c = Some k → agree s'.(u_mem) s.(u_mem) c (c + HDR * k).

Lemma heap_keeps_refl s al : keeps s s al.
Proof. by intros c k _ x _. Qed.
Lemma heap_keeps_trans s1 s2 s3 al : keeps s1 s2 al → keeps s2 s3 al → keeps s1 s3 al.
Proof. intros H1 H2 c k Hc. eapply agree_trans; [by apply H2|by apply H1]. Qed.

(** A heap survives a change of memory outside its headers. *)
Lemma heap_size_keeps s s' fl al : heap s fl al → keeps s s' al →
  ∀ c k, al !! c = Some k → ld32 s'.(u_mem) (c + 8) = k.
Proof.
  intros Hh Hk c k Hc. rw -(h_size _ _ _ Hh _ _ Hc). apply ld_header. eapply agree_sub; [by apply Hk|lia|].
  pose proof (g_al _ _ _ (h_geo _ _ _ Hh) _ _ Hc). hlia.
Qed.

Lemma free_block_ok s fl al bp k : heap s fl al → fits s.(u_brk) fl al bp k → ld32 s.(u_mem) (bp + 8) = k →
  wp (free (bp + HDR)) (λ _ s', ∃ fl', heap s' fl' al ∧ s'.(u_brk) = s.(u_brk) ∧ keeps s s' al ∧
    ∃ a n, (a, n) ∈ fl' ∧ k ≤ n) s.
Proof.
  intros Hh Hf Hsz. pose proof base_pos as Hb0. pose proof (h_geo _ _ _ Hh) as Hg. pose proof (g_brk _ _ _ Hg) as Hbrk.
  pose proof (f_in _ _ _ _ _ Hf) as [Hbp Hbk]. pose proof (f_size _ _ _ _ _ Hf) as Hk.
  rw /free padd_small; [|hlia]. replace (bp + HDR + HDR * -1) with bp by lia.
  apply wp_gets_bind, wp_bind. eapply wp_mono; [|by apply (find_ok s fl al bp k)].
  intros p s0 (-> & l1 & n & l2 & -> & Hp & Hl2).
  destruct (fits_between _ _ _ _ _ _ _ _ Hg Hf Hp Hl2) as [Hpb Hin2].
  pose proof (h_chain _ _ _ Hh) as Hc. apply chain_app in Hc as [Hc1 (Hcp & Hcn & Hc2)].
  destruct (g_in _ _ _ Hg p n) as (Hn & Hpbase & _); [set_solver|].
  apply wp_bind, wp_get_ptr; [hlia..|]. rw Hcp. apply wp_bind.
  eapply wp_mono; [|apply (join_next_ok s l2 bp k); [hlia..|done|done|done]].
  intros _ s1 (m1 & -> & Ho1 & Hch1). apply wp_bind.
  pose proof (g_sorted _ _ _ Hg) as Hs. apply apart_app in Hs as (_ & Hs & Hs12). apply apart_cons in Hs as [Hs _].
  destruct (up_spec bp k l2 s.(u_brk) Hs Hk Hbk Hin2) as (k' & l2' & Hup & Hkk & Hbk' & _ & Hsub & _).
  pose proof (geo_insert _ _ _ _ _ _ _ _ Hg Hf Hp Hl2) as Hg'. rw Hup in Hch1 Hg'.
  eapply wp_mono; [|apply (join_prev_ok (MkU m1 s.(u_freep) s.(u_brk)) l2' p n bp k')]; cbn [u_mem u_brk u_freep];
    [|hlia..|by intros a m Ha%Hsub; destruct (Hin2 _ _ Ha); split; [by eapply Hl2|hlia]|done|].
  2: { rw -Hcn. apply ld_header. eapply only_agree; [done|hlia]. }
  intros _ s2 (m2 & -> & Ho2 & Hch2).
  assert (∀ lo hi, (hi ≤ bp ∨ bp + HDR ≤ lo) → (hi ≤ p ∨ p + HDR ≤ lo) → agree m2 s.(u_mem) lo hi) as Hag.
  { intros lo hi H1 H2. eapply agree_trans; [by eapply only_agree|by eapply only_agree]. }
  assert (keeps s (MkU m2 p s.(u_brk)) al) as Hkeep.
  { intros c kc Hcal. pose proof (f_al _ _ _ _ _ Hf _ _ Hcal) as H1.
    pose proof (g_al_fl _ _ _ Hg c kc p n Hcal ltac:(set_solver)) as H2. rw /disj in H1 H2.
    pose proof (g_al _ _ _ Hg c kc Hcal). apply Hag; hlia. }
  exists (l1 ++ down p n ((bp, k') :: l2')). split_and!; [|done|done|].
  - split; cbn [u_mem u_brk u_freep].
    + done.
    + apply chain_app. split; [|done]. replace (fnext base (down p n ((bp, k') :: l2'))) with p by (simpl; by case_match).
      eapply hchain_agree; [|exact Hc1]. intros a m Ha. specialize (Hs12 _ (p, n) Ha ltac:(set_solver)).
      rw /apart /= in Hs12. apply Hag; hlia.
    + exists (if p + HDR * n =? bp then n + k' else n). apply elem_of_app. right. simpl. case_match; set_solver.
    + exact (heap_size_keeps _ _ _ _ Hh Hkeep).
  - simpl. destruct (p + HDR * n =? bp); [exists p, (n + k')|exists bp, k']; (split; [set_solver|lia]).
Qed.

(** [free] of a live block. *)
Lemma free_ok s al c k : heap_ok s al → al !! c = Some k →
  wp (free (c + HDR)) (λ _ s', heap_ok s' (delete c al) ∧ s'.(u_brk) = s.(u_brk) ∧ keeps s s' (delete c al)) s.
Proof.
  intros [(_ & -> & _)|[fl Hh]] Hc; [done|].
  destruct (geo_dealloc _ _ _ _ _ (h_geo _ _ _ Hh) Hc) as [Hg' Hf].
  eapply wp_mono; [|apply (free_block_ok s fl (delete c al) c k); [|done|by apply (h_size _ _ _ Hh)]].
  - intros _ s' (fl' & ? & ? & ? & _). split; [by right; exists fl'|done].
  - destruct Hh. split; [done..|]. intros c' k' [_ ?]%lookup_delete_Some. eauto.
Qed.

(** ** [malloc] *)

Lemma heap_grow s s' fl al : heap s fl al → s.(u_brk) ≤ s'.(u_brk) < 2 ^ 31 → s'.(u_freep) = s.(u_freep) →
  agree s'.(u_mem) s.(u_mem) 0 s.(u_brk) → heap s' fl al ∧ keeps s s' al.
Proof.
  intros Hh Hb Hfp Hm. pose proof (h_geo _ _ _ Hh) as Hg. pose proof base_pos as Hb0.
  assert (keeps s s' al) as Hk.
  { intros c k Hc. pose proof (g_al _ _ _ Hg _ _ Hc). eapply agree_sub; [done|hlia..]. }
  split; [|done]. split.
  - destruct Hg as [? ? ? Hgi Hga ? ?]. split; try done; [lia| |].
    + intros a n Ha. apply Hgi in Ha. lia.
    + intros c k Hc. apply Hga in Hc. lia.
  - eapply hchain_agree; [|apply (h_chain _ _ _ Hh)]. intros a n Ha. apply (g_in _ _ _ Hg) in Ha.
    eapply agree_sub; [done|hlia..].
  - rw Hfp. apply (h_freep _ _ _ Hh).
  - exact (heap_size_keeps _ _ _ _ Hh Hk).
Qed.

Lemma heap_freep_pos s fl al : heap s fl al → 0 < s.(u_freep).
Proof.
  intros Hh. destruct (h_freep _ _ _ Hh) as [n Hn]. apply (g_in _ _ _ (h_geo _ _ _ Hh)) in Hn.
  pose proof base_pos. lia.
Qed.

(** Writing a header at the end of a heap that has just grown. *)
Lemma heap_set_size s fl al a v : heap s fl al → (∀ b n, (b, n) ∈ fl → b + HDR * Z.max 1 n ≤ a) →
  (∀ c k, al !! c = Some k → c + HDR * k ≤ a) →
  heap (MkU (st32 s.(u_mem) (a + 8) v) s.(u_freep) s.(u_brk)) fl al ∧
  keeps s (MkU (st32 s.(u_mem) (a + 8) v) s.(u_freep) s.(u_brk)) al.
Proof.
  intros Hh Hfl Hal.
  assert (keeps s (MkU (st32 s.(u_mem) (a + 8) v) s.(u_freep) s.(u_brk)) al) as Hk.
  { intros c k Hc. eapply only_agree; [apply only_st32|]. left. by apply (Hal c k). }
  split; [|done]. split; cbn [u_mem u_freep u_brk].
  - apply (h_geo _ _ _ Hh).
  - eapply hchain_agree; [|apply (h_chain _ _ _ Hh)]. intros b n Hb. eapply only_agree; [apply only_st32|].
    specialize (Hfl _ _ Hb). hlia.
  - apply (h_freep _ _ _ Hh).
  - exact (heap_size_keeps _ _ _ _ Hh Hk).
Qed.

Lemma morecore_ok s fl al nu : heap s fl al → 1 ≤ nu → nu * HDR < 2 ^ 31 →
  wp (morecore nu) (λ r s', ∃ fl', heap s' fl' al ∧ keeps s s' al ∧
    (r = 0 ∨ r = s'.(u_freep) ∧ r ≠ 0 ∧ ∃ a n, (a, n) ∈ fl' ∧ nu ≤ n)) s.
Proof.
  intros Hh H1 Hnu. rw /morecore. set (n := if nu <? 4096 then 4096 else nu).
  assert (nu ≤ n ∧ 1 ≤ n ∧ n * HDR < 2 ^ 31) as (Hn & Hn1 & Hn2) by (subst n; hdr; zbool; lia).
  pose proof (h_geo _ _ _ Hh) as Hg. pose proof (g_brk _ _ _ Hg) as Hbrk. pose proof base_pos as Hb0.
  rewrite -> (u64_small (n * HDR)) by hlia. rewrite -> (s32_small (n * HDR)) by hlia. apply wp_bind.
  eapply wp_mono; [|apply (sbrk_ok (n * HDR) s); hlia].
  intros r s1 [[-> ->]|(-> & Hb1 & Hlt & Hfp & Hm)].
  { rw Z.eqb_refl. apply wp_ret. exists fl. split; [done|]. split; [apply heap_keeps_refl|by left]. }
  change (u64 (-1)) with (2 ^ 64 - 1). rewrite -> (proj2 (Z.eqb_neq _ _)) by hlia.
  destruct (heap_grow s s1 fl al Hh ltac:(hlia) Hfp Hm) as [Hh1 Hk1].
  apply wp_bind, wp_set_size; [hlia..|].
  destruct (heap_set_size s1 fl al s.(u_brk) n Hh1) as [Hh2 Hk2].
  { intros b m Hb. by apply (g_in _ _ _ Hg) in Hb as (_ & _ & ?). }
  { intros c k Hc. by apply (g_al _ _ _ Hg) in Hc as (_ & _ & ?). }
  apply wp_bind. rw padd_small; [|hlia]. rw Z.mul_1_r.
  eapply wp_mono; [|apply (free_block_ok _ fl al s.(u_brk) n); [done| |cbn [u_mem]; apply ld32_st32_eq; hlia]].
  - intros _ s3 (fl' & Hh3 & _ & Hk3 & a & m & Ha & Hm'). apply wp_of_run with (a := s3.(u_freep)) (s' := s3); [done|].
    exists fl'. split; [done|]. split; [by do 2 (eapply heap_keeps_trans; [done|])|]. right.
    pose proof (heap_freep_pos _ _ _ Hh3). split; [done|]. split; [lia|]. exists a, m. split; [done|lia].
  - cbn [u_brk]. split; [done|hlia|..].
    + intros b m Hb. apply (g_in _ _ _ Hg) in Hb as (_ & _ & ?). by left.
    + intros c k Hc. apply (g_al _ _ _ Hg) in Hc as (_ & _ & ?). by right.
Qed.

(** A live block at its place in the heap. *)
Lemma heap_alloc s fl al c k : heap s fl al → fits s.(u_brk) fl al c k → ld32 s.(u_mem) (c + 8) = k →
  heap s fl (<[c := k]> al) ∧ al !! c = None.
Proof.
  intros Hh Hf Hsz. split.
  - pose proof (geo_alloc _ _ _ _ _ (h_geo _ _ _ Hh) Hf). destruct Hh. split; try done.
    intros c' k' [[<- <-]|[_ Hc]]%lookup_insert_Some; [done|eauto].
  - destruct (al !! c) as [k'|] eqn:E; [|done]. pose proof (f_al _ _ _ _ _ Hf _ _ E) as [|];
      pose proof (f_size _ _ _ _ _ Hf); pose proof (g_al _ _ _ (h_geo _ _ _ Hh) _ _ E); hlia.
Qed.

(** Building the heap that is left after the free list was changed from [p] on. *)
Lemma heap_change s l1 p n l2 al m' N L : heap s (l1 ++ (p, n) :: l2) al → geo s.(u_brk) (l1 ++ (p, N) :: L) al →
  (∀ a m, (a, m) ∈ l1 → agree m' s.(u_mem) a (a + HDR)) → chain m' ((p, N) :: L) base →
  (∀ c k, al !! c = Some k → agree m' s.(u_mem) c (c + HDR * k)) →
  ∀ f k, (f, k) ∈ l1 ++ (p, N) :: L → heap (MkU m' f s.(u_brk)) (l1 ++ (p, N) :: L) al ∧ keeps s (MkU m' f s.(u_brk)) al.
Proof.
  intros Hh Hg Hl1 Hc Hk f k Hf. split; [|done]. split; cbn [u_mem u_freep u_brk]; [done| |by eexists|].
  - apply chain_app. split; [|done]. pose proof (h_chain _ _ _ Hh) as Hc0. apply chain_app in Hc0 as [Hc0 _].
    by eapply hchain_agree.
  - exact (heap_size_keeps s (MkU m' f s.(u_brk)) _ _ Hh Hk).
Qed.

Lemma carve_exact_ok s l1 pp pn p n l2 al : heap s (l1 ++ (pp, pn) :: (p, n) :: l2) al → 1 ≤ n →
  wp (carve n pp p n) (λ r s', ∃ fl' c, r = c + HDR ∧ heap s' fl' (<[c := n]> al) ∧ keeps s s' al ∧
    al !! c = None) s.
Proof.
  intros Hh Hn. pose proof (h_geo _ _ _ Hh) as Hg. pose proof (g_brk _ _ _ Hg) as Hbrk. pose proof base_pos as Hb0.
  destruct (geo_exact _ _ _ _ _ _ _ _ Hg) as [Hg' Hf]. pose proof (f_in _ _ _ _ _ Hf) as [Hp Hpe].
  pose proof (h_chain _ _ _ Hh) as Hc. apply chain_app in Hc as [Hc1 (Hq1 & Hq2 & Hp1 & Hp2 & Hc2)].
  destruct (g_in _ _ _ Hg pp pn) as (Hpn & Hppb & Hppe); [set_solver|].
  pose proof (g_sorted _ _ _ Hg') as Hs. apply apart_app in Hs as (_ & Hs & Hs12). apply apart_cons in Hs as [_ Hs].
  rw /apart /= in Hs Hs12. rw /carve Z.eqb_refl. apply wp_bind, wp_bind, wp_get_ptr; [hlia..|]. rw Hp1.
  apply wp_bind, wp_set_ptr; [hlia..|]. apply wp_ret. cbn [u_brk u_mem u_freep].
  set (m' := st64 s.(u_mem) pp (fnext base l2)).
  assert (only s.(u_mem) m' pp) as Ho by apply only_st64.
  assert (0 ≤ fnext base l2 < 2 ^ 64).
  { destruct l2 as [|[a m] l2]; simpl; [lia|]. destruct (g_in _ _ _ Hg a m) as (? & ? & ?); [set_solver|hlia]. }
  destruct (heap_change s l1 pp pn ((p, n) :: l2) al m' pn l2 Hh Hg') with (f := pp) (k := pn) as [Hh' Hk'].
  - intros a m Ha. eapply only_agree; [done|]. specialize (Hs12 _ (pp, pn) Ha ltac:(set_solver)). simpl in Hs12. hlia.
  - simpl. subst m'. rw ld64_st64_eq // ld32_set_ptr; [|by left]. split; [done|]. split; [done|].
    eapply hchain_agree; [|done]. intros a m Ha. eapply only_agree; [done|]. specialize (Hs _ Ha). simpl in Hs. hlia.
  - intros c k Hck. eapply only_agree; [done|]. pose proof (g_al_fl _ _ _ Hg c k pp pn Hck ltac:(set_solver)) as Hd.
    rw /disj in Hd. hlia.
  - set_solver.
  - destruct (heap_alloc _ _ _ p n Hh' Hf) as [Hh2 Hnone].
    { cbn [u_mem]. subst m'. rw ld32_set_ptr //.
      pose proof (f_fl _ _ _ _ _ Hf pp pn ltac:(set_solver)) as Hd. rw /disj in Hd. hlia. }
    apply wp_of_run with (a := padd p 1) (s' := MkU m' pp s.(u_brk)); [done|]. rw padd_small; [|hlia]. rw Z.mul_1_r.
    by exists (l1 ++ (pp, pn) :: l2), p.
Qed.

Lemma carve_split_ok s l1 pp pn p n l2 al nu : heap s (l1 ++ (pp, pn) :: (p, n) :: l2) al → 1 ≤ nu < n →
  wp (carve nu pp p n) (λ r s', ∃ fl' c, r = c + HDR ∧ heap s' fl' (<[c := nu]> al) ∧ keeps s s' al ∧
    al !! c = None) s.
Proof.
  intros Hh Hn. pose proof (h_geo _ _ _ Hh) as Hg. pose proof (g_brk _ _ _ Hg) as Hbrk. pose proof base_pos as Hb0.
  rw (app_assoc l1 [_] (_ :: _)) in Hh Hg. set (l1' := l1 ++ [(pp, pn)]) in *.
  destruct (geo_split _ _ _ _ _ _ nu Hg Hn) as [Hg' Hf]. pose proof (f_in _ _ _ _ _ Hf) as [Hp Hpe].
  pose proof (h_chain _ _ _ Hh) as Hc. apply chain_app in Hc as [Hc1 (Hp1 & Hp2 & Hc2)].
  destruct (g_in _ _ _ Hg p n) as (_ & Hpb & Hpe'); [set_solver|].
  pose proof (g_sorted _ _ _ Hg) as Hs. apply apart_app in Hs as (_ & Hs & Hs12). apply apart_cons in Hs as [_ Hs].
  rw /apart /= in Hs Hs12. rw /carve. rewrite -> (proj2 (Z.eqb_neq _ _)) by lia.
  apply wp_bind, wp_bind, wp_set_size; [hlia..|]. rw u32_small; [|hlia].
  apply wp_bind, wp_get_size; [hlia..|]. cbn [u_brk u_mem u_freep]. rw ld32_st32_eq; [|hlia].
  rw padd_small; [|hlia]. set (c := p + HDR * (n - nu)) in *.
  apply wp_bind, wp_set_size; [hlia..|]. cbn [u_brk u_mem u_freep]. apply wp_ret.
  set (m' := st32 (st32 s.(u_mem) (p + 8) (n - nu)) (c + 8) nu).
  assert (p + HDR ≤ c ∧ c + HDR * nu = p + HDR * n) as [Hpc Hcn] by (subst c; hlia).
  assert (∀ lo hi, (hi ≤ p ∨ p + HDR * n ≤ lo) → agree m' s.(u_mem) lo hi) as Ho.
  { intros lo hi H. eapply agree_trans; [eapply only_agree; [apply only_st32|]|eapply only_agree; [apply only_st32|]]; hlia. }
  destruct (heap_change s l1' p n l2 al m' (n - nu) l2 Hh Hg') with (f := pp) (k := pn) as [Hh' Hk'].
  - intros a m Ha. apply Ho. specialize (Hs12 _ (p, n) Ha ltac:(set_solver)). simpl in Hs12. hlia.
  - simpl. subst m'. rw !ld64_set_size; [|by left|hlia]. rw Hp1. split; [done|]. split.
    + rw ld32_st32_ne; [|hlia]. rw ld32_st32_eq //. hlia.
    + eapply hchain_agree; [|done]. intros a m Ha. apply Ho. specialize (Hs _ Ha). simpl in Hs. hlia.
  - intros c' k Hck. apply Ho. pose proof (g_al_fl _ _ _ Hg c' k p n Hck ltac:(set_solver)) as Hd. rw /disj in Hd. hlia.
  - subst l1'. set_solver.
  - destruct (heap_alloc _ _ _ c nu Hh' Hf) as [Hh2 Hnone].
    { cbn [u_mem]. apply ld32_st32_eq. hlia. }
    apply wp_of_run with (a := padd c 1) (s' := MkU m' pp s.(u_brk)); [done|]. rw padd_small; [|hlia]. rw Z.mul_1_r.
    by exists (l1' ++ (p, n - nu) :: l2), c.
Qed.

Lemma carve_ok s l1 pp pn p n l2 al nu : heap s (l1 ++ (pp, pn) :: (p, n) :: l2) al → 1 ≤ nu ≤ n →
  wp (carve nu pp p n) (λ r s', ∃ fl' c, r = c + HDR ∧ heap s' fl' (<[c := nu]> al) ∧ keeps s s' al ∧
    al !! c = None) s.
Proof.
  intros Hh Hn. destruct (Z.eq_dec nu n) as [->|]; [apply (carve_exact_ok s l1 pp pn p n l2); [done|lia]|].
  apply (carve_split_ok s l1 pp pn p n l2); [done|lia].
Qed.

(** The ring position after [j], and the one before it. *)
Definition rnext (n j : nat) : nat := if decide (S j < n)%nat then S j else 0%nat.
Definition rprev (n j : nat) : nat := if decide (j = 0)%nat then (n - 1)%nat else (j - 1)%nat.

Lemma heap_next s fl al j p n : heap s fl al → fl !! j = Some (p, n) →
  ∃ m, fl !! rnext (length fl) j = Some (ld64 s.(u_mem) p, m) ∧ rprev (length fl) (rnext (length fl) j) = j.
Proof.
  intros Hh Hj. destruct (heap_lookup _ _ _ _ _ _ Hh Hj) as (-> & _ & _ & _).
  pose proof (lookup_lt_Some _ _ _ Hj) as Hl. rw /rnext /rprev. case_decide as Hd.
  - destruct (lookup_lt_is_Some_2 fl (S j) Hd) as [[b m] Hb]. rw Hb. exists m. split; [done|].
    case_decide; lia.
  - rewrite -> (lookup_ge_None_2 fl (S j)) by lia. destruct (g_head _ _ _ (h_geo _ _ _ Hh)) as (bl & Hbl & _).
    exists 0. split; [by rw Hbl|]. case_decide; lia.
Qed.

Lemma heap_inj s fl al i j p n m : heap s fl al → fl !! i = Some (p, n) → fl !! j = Some (p, m) → i = j.
Proof.
  intros Hh Hi Hj. pose proof (g_sorted _ _ _ (h_geo _ _ _ Hh)) as Hs.
  destruct (Nat.lt_trichotomy i j) as [H|[H|H]]; [|done|].
  - pose proof (sorted_lt _ _ _ _ _ _ _ Hs Hi Hj H). hlia.
  - pose proof (sorted_lt _ _ _ _ _ _ _ Hs Hj Hi H). hlia.
Qed.

(** Where the loop of [malloc] is: [p] at [j] after [prevp], [freep] at [i]. *)
Definition at_pos (s : ust) (fl : list (Z * Z)) (j i : nat) (prevp p : Z) : Prop :=
  (∃ n, fl !! j = Some (p, n)) ∧ (∃ n, fl !! rprev (length fl) j = Some (prevp, n)) ∧
  (∃ n, fl !! i = Some (s.(u_freep), n)).

(** A block of [nu] units lies on the way from [j] to [i]. *)
Definition ahead (fl : list (Z * Z)) (nu : Z) (j i : nat) : Prop :=
  ∃ b a m, fl !! b = Some (a, m) ∧ nu ≤ m ∧ cyc (length fl) j b ≤ cyc (length fl) j i.

Lemma cyc_zero n j i : (i < n)%nat → cyc n j i = 0 → j = i ∨ (n ≤ j)%nat.
Proof. rw /cyc. case_decide; lia. Qed.
Lemma cyc_last n i b : (i < n)%nat → (b < n)%nat → cyc n (rnext n i) b ≤ cyc n (rnext n i) i.
Proof. intros. rw /cyc /rnext. repeat case_decide; lia. Qed.
Lemma cyc_lt n j i : (j < n)%nat → (i < n)%nat → cyc n j i < Z.of_nat n.
Proof. intros. rw /cyc. case_decide; lia. Qed.

(** The invariant of the loop of [malloc] that started in [s], with the number
    of rounds left: at most once round before [morecore], once after it. *)
Definition minv (s : ust) (al : gmap Z Z) (nu r : Z) (a : Z * Z) (s' : ust) : Prop :=
  ∃ fl j i, heap s' fl al ∧ keeps s s' al ∧ at_pos s' fl j i a.1 a.2 ∧
    (r = 2 ^ 32 + cyc (length fl) j i ∨ r = cyc (length fl) j i ∧ ahead fl nu j i).

Definition mpost (s : ust) (al : gmap Z Z) (nu r : Z) (s' : ust) : Prop :=
  keeps s s' al ∧ ((r = 0 ∧ ∃ fl, heap s' fl al) ∨
    ∃ fl c, r = c + HDR ∧ heap s' fl (<[c := nu]> al) ∧ al !! c = None).

Definition mround (s : ust) (al : gmap Z Z) (nu r : Z) (x : Z * Z + Z) (s' : ust) : Prop :=
  match x with
  | inl a => ∃ r', 0 ≤ r' < r ∧ minv s al nu r' a s'
  | inr v => mpost s al nu v s'
  end.

(** Starting a lap at [freep]. *)
Lemma minv_start s s' fl al i n : heap s' fl al → keeps s s' al → fl !! i = Some (s'.(u_freep), n) →
  at_pos s' fl (rnext (length fl) i) i s'.(u_freep) (ld64 s'.(u_mem) s'.(u_freep)) ∧
  0 ≤ cyc (length fl) (rnext (length fl) i) i < 2 ^ 31.
Proof.
  intros Hh Hk Hi. destruct (heap_next _ _ _ _ _ _ Hh Hi) as (m & Hm & Hp). split.
  { split; [by eexists|]. rw Hp. by split; eexists. }
  pose proof (geo_bound _ _ _ (h_geo _ _ _ Hh)). pose proof (g_brk _ _ _ (h_geo _ _ _ Hh)).
  pose proof (lookup_lt_Some _ _ _ Hi). pose proof (lookup_lt_Some _ _ _ Hm).
  pose proof (cyc_lt (length fl) (rnext (length fl) i) i ltac:(lia) ltac:(lia)).
  pose proof (cyc_nonneg (length fl) (rnext (length fl) i) i ltac:(lia)). lia.
Qed.

(** The round that has come back to [freep]: it asks the kernel for memory. *)
Lemma round_grow s s1 fl al nu r : heap s1 fl al → keeps s s1 al → 1 ≤ nu → nu * HDR < 2 ^ 31 → 2 ^ 32 ≤ r →
  wp (p ← morecore nu;
      if p =? 0 then mret (inr 0) else q ← get_ptr p; mret (inl (p, q))) (mround s al nu r) s1.
Proof.
  intros Hh Hk Hnu Hnu2 Hr. pose proof base_pos as Hb0. apply wp_bind. eapply wp_mono; [|by apply (morecore_ok _ fl al nu)].
  intros r' s2 (fl' & Hh2 & Hk2 & [->|(-> & Hne & a & m & Ha & Hm)]).
  { apply wp_ret. split; [by eapply heap_keeps_trans|]. left. eauto. }
  rewrite -> (proj2 (Z.eqb_neq _ _)) by done. destruct (h_freep _ _ _ Hh2) as [fn' [i' Hi']%list_elem_of_lookup].
  destruct (heap_lookup _ _ _ _ _ _ Hh2 Hi') as (_ & _ & Hfb & Hfe).
  apply wp_bind, wp_get_ptr; [hlia..|]. apply wp_ret.
  destruct (minv_start s s2 fl' al i' fn' Hh2 (heap_keeps_trans _ _ _ _ Hk Hk2) Hi') as [Hpos Hc].
  exists (cyc (length fl') (rnext (length fl') i') i'). split; [lia|].
  exists fl', (rnext (length fl') i'), i'. split; [done|]. split; [by eapply heap_keeps_trans|]. split; [done|].
  right. split; [done|]. apply list_elem_of_lookup in Ha as [b Hb]. exists b, a, m. split; [done|]. split; [done|].
  apply cyc_last; by eapply lookup_lt_Some.
Qed.

(** A round that passes over a block that is too small. *)
Lemma round_skip s s1 fl al nu r j i prevp p n : heap s1 fl al → keeps s s1 al → at_pos s1 fl j i prevp p →
  (r = 2 ^ 32 + cyc (length fl) j i ∨ r = cyc (length fl) j i ∧ ahead fl nu j i) →
  fl !! j = Some (p, n) → n < nu → p ≠ s1.(u_freep) →
  wp (q ← get_ptr p; mret (inl (p, q))) (mround s al nu r) s1.
Proof.
  intros Hh Hk (_ & _ & [fn Hi]) Hr Hj Hgt E.
  destruct (heap_lookup _ _ _ _ _ _ Hh Hj) as (_ & Hsz & Hpb & Hpe). pose proof base_pos as Hb0.
  pose proof (lookup_lt_Some _ _ _ Hj) as Hjl. pose proof (lookup_lt_Some _ _ _ Hi) as Hil.
  apply wp_bind, wp_get_ptr; [hlia..|]. apply wp_ret.
  destruct (heap_next _ _ _ _ _ _ Hh Hj) as (m' & Hm' & Hp').
  assert (j ≠ i) as Hji by (intros ->; rw Hi in Hj; by simplify_eq).
  pose proof (cyc_next _ _ _ Hjl Hil Hji) as Hnx. rw -/(rnext (length fl) j) in Hnx.
  pose proof (lookup_lt_Some _ _ _ Hm'). pose proof (cyc_nonneg (length fl) (rnext (length fl) j) i ltac:(lia)).
  exists (r - 1). split; [lia|]. exists fl, (rnext (length fl) j), i. split; [done|]. split; [done|]. split.
  { split; [by eexists|]. rw Hp'. by split; eexists. }
  destruct Hr as [->|[-> (b' & a' & n' & Hb' & Hn' & Hc)]]; [left; lia|]. right. split; [lia|].
  exists b', a', n'. split; [done|]. split; [done|].
  assert (j ≠ b') as Hjb by (intros ->; rw Hb' in Hj; simplify_eq; lia).
  pose proof (cyc_next _ _ _ Hjl (lookup_lt_Some _ _ _ Hb') Hjb) as Hnb. rw -/(rnext (length fl) j) in Hnb. lia.
Qed.

Lemma malloc_round_ok s al nu r a s1 : minv s al nu r a s1 → 1 ≤ nu → nu * HDR < 2 ^ 31 →
  wp (malloc_round nu a) (mround s al nu r) s1.
Proof.
  destruct a as [prevp p]. intros (fl & j & i & Hh & Hk & Hpos & Hr) Hnu Hnu2.
  pose proof Hpos as ([n Hj] & [pn Hpj] & [fn Hi]). cbn [fst snd] in *.
  destruct (heap_lookup _ _ _ _ _ _ Hh Hj) as (_ & Hsz & Hpb & Hpe). pose proof base_pos as Hb0.
  rw /malloc_round. apply wp_bind, wp_get_size; [hlia..|]. rw Hsz. destruct (Z.leb_spec nu n) as [Hle|Hgt].
  - assert (j ≠ 0)%nat as Hj0.
    { intros ->. destruct (geo_first _ _ _ _ _ (h_geo _ _ _ Hh) Hj). lia. }
    rw /rprev in Hpj. rewrite -> decide_False in Hpj by done. apply wp_bind.
    rw -(take_drop_middle _ _ _ Hpj) in Hh. replace (S (j - 1)) with j in Hh by lia. rw (drop_S _ _ _ Hj) in Hh.
    eapply wp_mono; [|apply (carve_ok _ _ _ _ _ _ _ _ nu Hh); lia].
    intros r' s2 (fl' & c & -> & Hh2 & Hk2 & Hnone). apply wp_ret. split; [by eapply heap_keeps_trans|]. right. eauto.
  - apply wp_gets_bind. destruct (Z.eqb_spec p s1.(u_freep)) as [E|E].
    + rw -E in Hi. assert (j = i) as -> by (by eapply heap_inj). eapply round_grow; try done.
      pose proof (lookup_lt_Some _ _ _ Hi) as Hil. pose proof (cyc_nonneg (length fl) i i ltac:(lia)).
      destruct Hr as [Hr|[Hr (b' & a' & n' & Hb' & Hn' & Hc)]]; [lia|].
      pose proof (cyc_nonneg (length fl) i b' ltac:(lia)). assert (cyc (length fl) i i = 0) by (rw /cyc; case_decide; lia).
      destruct (cyc_zero (length fl) i b') as [<-|]; [by eapply lookup_lt_Some|lia| |lia].
      rw Hj in Hb'. simplify_eq. lia.
    + apply wp_bind, wp_ret. rewrite -> (proj2 (Z.eqb_neq _ _)) by lia. by eapply round_skip.
Qed.

Lemma malloc_loop_ok s fl al nu : heap s fl al → 1 ≤ nu → nu * HDR < 2 ^ 31 →
  wp (loop (malloc_round nu) (s.(u_freep), ld64 s.(u_mem) s.(u_freep))) (mpost s al nu) s.
Proof.
  intros Hh Hnu Hnu2. destruct (h_freep _ _ _ Hh) as [fn [i Hi]%list_elem_of_lookup].
  destruct (minv_start s s fl al i fn Hh (heap_keeps_refl _ _) Hi) as [Hpos Hc].
  apply (wp_loop_n (minv s al nu) _ _ (2 ^ 32 + cyc (length fl) (rnext (length fl) i) i)); [|lia|].
  - exists fl, (rnext (length fl) i), i. split; [done|]. split; [apply heap_keeps_refl|]. split; [done|by left].
  - intros r a s1 Hi1 _. by apply malloc_round_ok.
Qed.

Lemma units_eq nbytes : 0 ≤ nbytes < 2 ^ 31 - 32 → units nbytes = (nbytes + 15) / 16 + 1
  ∧ 1 ≤ units nbytes ∧ units nbytes * HDR < 2 ^ 31 ∧ nbytes ≤ HDR * (units nbytes - 1).
Proof.
  intros H. rw /units. hdr. rewrite -> (u64_small (nbytes + 16 - 1)) by lia. rewrite -> u32_small by lia. lia.
Qed.

(** The first call of [malloc] makes the ring of the static header. *)
Lemma heap_init s : base + HDR < s.(u_brk) < 2 ^ 31 →
  heap (MkU (st32 (st64 s.(u_mem) base base) (base + 8) 0) base s.(u_brk)) [(base, 0)] ∅.
Proof.
  intros Hb. pose proof base_pos as Hb0. split; cbn [u_mem u_freep u_brk].
  - split; try done.
    + exists []. split; [done|]. by intros ?? ?%not_elem_of_nil.
    + apply apart_cons. split; [constructor|]. by intros ? ?%not_elem_of_nil.
    + intros a n [=->->]%list_elem_of_singleton. hlia.
  - simpl. rw ld64_set_size; [|by left]. rw ld64_st64_eq; [|lia]. split; [done|]. split; [|done]. by apply ld32_st32_eq.
  - exists 0. set_solver.
  - done.
Qed.

Lemma malloc_ok s al nbytes : heap_ok s al → 0 ≤ nbytes < 2 ^ 31 - 32 →
  wp (malloc nbytes) (λ r s', keeps s s' al ∧ ((r = 0 ∧ heap_ok s' al) ∨
    ∃ c, r = c + HDR ∧ heap_ok s' (<[c := units nbytes]> al) ∧ al !! c = None)) s.
Proof.
  intros Hok Hn. destruct (units_eq nbytes Hn) as (_ & Hu1 & Hu2 & _). pose proof base_pos as Hb0.
  rw /malloc. apply wp_gets_bind. apply wp_bind.
  assert (∀ s1 fl, heap s1 fl al → wp (p ← get_ptr s1.(u_freep); loop (malloc_round (units nbytes)) (s1.(u_freep), p))
    (mpost s1 al (units nbytes)) s1) as Hl.
  { intros s1 fl Hh. destruct (h_freep _ _ _ Hh) as [n Hf]. apply (g_in _ _ _ (h_geo _ _ _ Hh)) in Hf.
    apply wp_bind, wp_get_ptr; [hlia..|]. by eapply malloc_loop_ok. }
  destruct Hok as [(Hf & -> & Hb)|[fl Hh]].
  - rw Hf /=. apply wp_bind, wp_of_run with (a := tt) (s' := MkU s.(u_mem) base s.(u_brk)); [done|].
    apply wp_bind, wp_set_ptr; [hlia..|]. apply wp_bind, wp_set_size; [hlia..|]. apply wp_ret. cbn [u_mem u_freep u_brk].
    eapply wp_mono; [|exact (Hl _ _ (heap_init s Hb))].
    intros r s' [_ [[-> [fl' H']]|(fl' & c & -> & H' & Hc)]]; (split; [done|]); [left|right]; rw /heap_ok; eauto 10.
  - pose proof (heap_freep_pos _ _ _ Hh). rewrite -> (proj2 (Z.eqb_neq _ _)) by lia. apply wp_ret.
    eapply wp_mono; [|by eapply Hl].
    intros r s' [Hk [[-> [fl' H']]|(fl' & c & -> & H' & Hc)]]; (split; [done|]); [left|right]; rw /heap_ok; eauto 10.
Qed.

(** ** What clients see *)

Lemma heap_ok_al s al c k : heap_ok s al → al !! c = Some k →
  1 ≤ k ∧ base + HDR < c ∧ c + HDR * k ≤ s.(u_brk) ∧ s.(u_brk) < 2 ^ 31.
Proof.
  intros [(_ & -> & _)|[fl Hh]] Hc; [done|]. pose proof (g_al _ _ _ (h_geo _ _ _ Hh) _ _ Hc) as (? & ? & ?).
  pose proof (g_brk _ _ _ (h_geo _ _ _ Hh)). tauto.
Qed.

Lemma heap_ok_disj s al c k c' k' : heap_ok s al → al !! c = Some k → al !! c' = Some k' → c ≠ c' → disj c k c' k'.
Proof.
  intros [(_ & -> & _)|[fl Hh]] Hc; [done|]. by apply (g_al_al _ _ _ (h_geo _ _ _ Hh)).
Qed.

Lemma payload_length s c k : 1 ≤ k → Z.of_nat (length (payload s c k)) = HDR * (k - 1).
Proof. intros. rw /payload /mem_read length_fmap length_seq. hlia. Qed.

Lemma payload_keeps s s' al c k : keeps s s' al → al !! c = Some k → payload s' c k = payload s c k.
Proof.
  intros Hk Hc. apply list_fmap_ext. intros i x [-> Hx]%lookup_seq. rw /ld8 (Hk _ _ Hc) //. hlia.
Qed.

(** A store into a block keeps the heap. *)
Lemma heap_store s al c k a v : heap_ok s al → al !! c = Some k → c + HDR ≤ a < c + HDR * k →
  heap_ok (MkU (st8 s.(u_mem) a v) s.(u_freep) s.(u_brk)) al.
Proof.
  intros [(? & -> & ?)|[fl Hh]] Hc Ha; [done|]. right. exists fl. pose proof (h_geo _ _ _ Hh) as Hg.
  assert (∀ lo hi, hi ≤ a ∨ a < lo → agree (st8 s.(u_mem) a v) s.(u_mem) lo hi) as Hag.
  { intros lo hi H x Hx. rw /st8. rewrite -> (proj2 (Z.eqb_neq _ _)) by lia. done. }
  split; cbn [u_mem u_freep u_brk]; [done| |apply (h_freep _ _ _ Hh)|].
  - eapply hchain_agree; [|apply (h_chain _ _ _ Hh)]. intros b n Hb. apply Hag.
    pose proof (g_al_fl _ _ _ Hg c k b n Hc Hb) as Hd. rw /disj in Hd. hlia.
  - intros c' k' Hc'. rw -(h_size _ _ _ Hh _ _ Hc'). apply ld_header, Hag.
    pose proof (g_al _ _ _ Hg _ _ Hc'). destruct (decide (c' = c)) as [->|Hne]; [hlia|].
    pose proof (g_al_al _ _ _ Hg _ _ _ _ Hc' Hc Hne) as Hd. rw /disj in Hd. hlia.
Qed.

Lemma wp_store s a v (Q : unit → ust → Prop) : 0 ≤ a < s.(u_brk) →
  Q tt (MkU (st8 s.(u_mem) a v) s.(u_freep) s.(u_brk)) → wp (store a v) Q s.
Proof. intros. rw /wp /store /mapped. by zdec. Qed.

(** Bytes of a block after a store. *)
Lemma payload_store s c k a v : c + HDR ≤ a < c + HDR * k →
  payload (MkU (st8 s.(u_mem) a v) s.(u_freep) s.(u_brk)) c k = <[Z.to_nat (a - (c + HDR)) := u8 v]> (payload s c k).
Proof.
  intros Ha. apply list_eq_same_length with (n := Z.to_nat (HDR * (k - 1))).
  - rw length_insert /payload /mem_read length_fmap length_seq //.
  - rw /payload /mem_read length_fmap length_seq //.
  - intros i x y Hi. rw /payload /mem_read. cbn [u_mem]. intros Hx%list_lookup_fmap_Some_1 Hy.
    destruct Hx as (i' & -> & [-> Hi']%lookup_seq). simplify_eq/=. rw /ld8 /st8.
    destruct (decide (Z.to_nat (a - (c + HDR)) = i)) as [<-|Hne].
    + rw list_lookup_insert_eq in Hy; [|rw length_fmap length_seq; lia]. simplify_eq.
      rewrite -> (proj2 (Z.eqb_eq _ _)) by lia. by rw u8_u8.
    + rw list_lookup_insert_ne // list_lookup_fmap lookup_seq_lt // in Hy. simplify_eq/=.
      rewrite -> (proj2 (Z.eqb_neq _ _)) by hlia. done.
Qed.

Lemma payload_store_ne s al c k c' k' a v : heap_ok s al → al !! c = Some k → al !! c' = Some k' → c ≠ c' →
  c + HDR ≤ a < c + HDR * k → payload (MkU (st8 s.(u_mem) a v) s.(u_freep) s.(u_brk)) c' k' = payload s c' k'.
Proof.
  intros Hok Hc Hc' Hne Ha. destruct (heap_ok_al _ _ _ _ Hok Hc') as (? & ? & _).
  pose proof (heap_ok_disj _ _ _ _ _ _ Hok Hc Hc' Hne) as Hd. rw /disj in Hd.
  apply list_fmap_ext. intros i x [-> Hx]%lookup_seq. cbn [u_mem]. rw /ld8 /st8.
  rewrite -> (proj2 (Z.eqb_neq _ _)) by hlia. done.
Qed.

(** How [live] follows the heap. *)
Lemma live_keeps s s' (al al' : gmap Z Z) (H H' : gmap Z (list Z)) :
  heap_ok s' al' → keeps s s' al →
  (∀ r bs, H !! r = Some bs ↔ ∃ k, al !! (r - HDR) = Some k ∧ bs = payload s (r - HDR) k) →
  (∀ r bs, H' !! r = Some bs ↔
     (al' !! (r - HDR) = al !! (r - HDR) ∧ H !! r = Some bs) ∨
     (al !! (r - HDR) = None ∧ ∃ k, al' !! (r - HDR) = Some k ∧ bs = payload s' (r - HDR) k)) →
  (∀ c k, al' !! c = Some k → al !! c = Some k ∨ al !! c = None) → live s' H'.
Proof.
  intros Hok Hk HH HH' Hsub. exists al'. split; [done|]. intros r bs. rw HH'. split.
  - intros [[E Hr]|[_ ?]]; [|done]. apply HH in Hr as (k & Hk' & ->). exists k. rw E. split; [done|].
    symmetry. by eapply payload_keeps.
  - intros (k & Hk' & ->). destruct (Hsub _ _ Hk') as [E|E]; [left|right; eauto].
    rw E Hk'. split; [done|]. apply HH. exists k. split; [done|]. by eapply payload_keeps.
Qed.

Lemma malloc_refines s H nbytes : live s H → 0 ≤ nbytes < 2 ^ 31 - 32 →
  wp (malloc nbytes) (λ r s', ∃ H', spec (UMalloc nbytes) H r H' ∧ live s' H') s.
Proof.
  intros (al & Hok & HH) Hn. eapply wp_mono; [|by apply (malloc_ok s al)].
  intros r s' [Hk [[-> Hok']|(c & -> & Hok' & Hnone)]].
  - exists H. split; [by left|]. eapply live_keeps; [done|done|done| |by left]. intros r bs. split; [by left|].
    intros [[_ ?]|[E (k & Hk' & _)]]; [done|]. by rw E in Hk'.
  - set (k := units nbytes) in *. destruct (units_eq nbytes Hn) as (_ & Hu1 & _ & Hu). rw -/k in Hu1 Hu.
    assert (<[c := k]> al !! c = Some k) as Hc by apply lookup_insert_eq.
    destruct (heap_ok_al _ _ _ _ Hok' Hc) as (? & Hcb & _ & _). pose proof base_pos.
    exists (<[c + HDR := payload s' c k]> H). split.
    + right. split; [hlia|]. eexists. split; [done|]. rw payload_length; [|done]. split; [done|].
      intros r bs' (k' & Hk' & ->)%HH. assert (c ≠ r - HDR) as Hne by (intros E; rw -E in Hk'; congruence).
      assert (<[c := k]> al !! (r - HDR) = Some k') as Hr by (by rw lookup_insert_ne).
      pose proof (heap_ok_disj _ _ _ _ _ _ Hok' Hc Hr Hne) as Hd. rw /disj in Hd.
      destruct (heap_ok_al _ _ _ _ Hok' Hr) as (? & _). rw payload_length; [|done]. hlia.
    + eapply (live_keeps s); [done|done|done| |].
      * intros r bs. rw !lookup_insert. destruct (decide (c + HDR = r)) as [<-|Hne].
        { replace (c + HDR - HDR) with c by lia. rw decide_True //. rw Hnone. naive_solver. }
        rewrite -> (decide_False (P := c = r - HDR)) by lia.
        split; [by left|]. intros [[_ ?]|[E (k' & Hk' & _)]]; [done|]. by rw E in Hk'.
      * intros c' k' [[<- <-]|[_ ?]]%lookup_insert_Some; [by right|by left].
Qed.

Lemma free_refines s H r : live s H → is_Some (H !! r) →
  wp (free r) (λ _ s', live s' (delete r H)) s.
Proof.
  intros (al & Hok & HH) [bs Hr]. apply HH in Hr as (k & Hk & ->).
  replace r with (r - HDR + HDR) by lia. eapply wp_mono; [|by apply (free_ok s al (r - HDR) k)].
  replace (r - HDR + HDR) with r by lia. intros _ s' (Hok' & _ & Hkeep). exists (delete (r - HDR) al). split; [done|].
  intros r' bs'. rw lookup_delete_Some HH. setoid_rewrite lookup_delete_Some. split.
  - intros (Hne & k' & Hk' & ->). exists k'. split; [split; [lia|done]|]. symmetry. eapply payload_keeps; [done|].
    apply lookup_delete_Some. split; [lia|done].
  - intros (k' & [Hne Hk'] & ->). split; [congruence|]. exists k'. split; [done|]. eapply payload_keeps; [done|].
    by apply lookup_delete_Some.
Qed.

Lemma store_refines s H r bs off v : live s H → H !! r = Some bs → 0 ≤ off < Z.of_nat (length bs) →
  wp (store (r + off) v) (λ _ s', live s' (<[r := <[Z.to_nat off := u8 v]> bs]> H)) s.
Proof.
  intros (al & Hok & HH) Hr Hoff. pose proof Hr as (k & Hk & Hbs)%HH. pose proof base_pos.
  destruct (heap_ok_al _ _ _ _ Hok Hk) as (Hk1 & Hb & He & _). rw Hbs payload_length // in Hoff.
  apply wp_store; [hlia|]. exists al. split; [apply (heap_store s al (r - HDR) k); [done|done|hlia]|].
  intros r' bs'. rw lookup_insert_Some. split.
  - intros [[<- <-]|[Hne (k' & Hk' & ->)%HH]].
    + exists k. split; [done|]. rw payload_store; [|hlia]. rw -Hbs. do 2 f_equal. lia.
    + exists k'. split; [done|]. symmetry. apply (payload_store_ne _ al (r - HDR) k); [done..|lia|hlia].
  - intros (k' & Hk' & ->). destruct (decide (r = r')) as [<-|Hne]; [left|right].
    + simplify_eq. split; [done|]. rw payload_store; [|hlia]. do 2 f_equal. lia.
    + split; [done|]. apply HH. exists k'. split; [done|].
      apply (payload_store_ne _ al (r - HDR) k); [done..|lia|hlia].
Qed.

(** C36: the allocator implements a map from pointers to contents.  From a
    heap whose live blocks are [H], [malloc] of any size below 2 GiB returns
    null and changes nothing, or a new block at least as large as asked for
    that overlaps no live block; [free] of a live pointer removes just that
    block; a byte stored in a block changes just that byte; no call faults or
    runs on, and every other live block keeps its contents. *)
Theorem umalloc_refines (op : uop) (s : ust) (H : gmap Z (list Z)) :
  live s H → legal op H →
  ∃ res s' H', run op s = Ok (res, s') ∧ spec op H res H' ∧ live s' H'.
Proof.
  intros Hl Hop. enough (wp (run op) (λ res s', ∃ H', spec op H res H' ∧ live s' H') s) as Hwp.
  { apply wp_run in Hwp as (r & s' & Hr & H2 & Hs & Hl2). by exists r, s', H2. }
  destruct op as [nbytes|r|r off v]; simpl in Hop |- *.
  - by apply malloc_refines.
  - apply wp_bind. eapply wp_mono; [|by apply free_refines]. intros u s' Hl'. apply wp_ret. by eexists.
  - destruct Hop as (bs & Hr & Hoff). apply wp_bind. eapply wp_mono; [|by apply (store_refines s H r bs)].
    intros u s' Hl'. apply wp_ret. eexists. split; [by exists bs|done].
Qed.

(** The blocks behind a client's pointers. *)
Definition holds (s : ust) (L : gmap Z Z) : Prop :=
  ∃ al, heap_ok s al ∧
    ∀ r n, L !! r = Some n → 0 ≤ n < 2 ^ 31 - 32 ∧ al !! (r - HDR) = Some (units n).

Lemma run_holds op s L : holds s L → legal_for op L → wp (run op) (λ res s', holds s' (track op L res)) s.
Proof.
  intros (al & Hok & HL) Hop. pose proof base_pos as Hb0. destruct op as [nbytes|r|r off v]; simpl in Hop |- *.
  - eapply wp_mono; [|by apply (malloc_ok s al)]. intros res s' [_ [[-> Hok']|(c & -> & Hok' & Hnone)]]; [by exists al|].
    destruct (heap_ok_al _ _ _ _ Hok' (lookup_insert_eq al c _)) as (_ & Hc & _ & _).
    rewrite -> (proj2 (Z.eqb_neq _ _)) by hlia. exists (<[c := units nbytes]> al). split; [done|].
    intros r n [[<- <-]|[Hne Hr]]%lookup_insert_Some.
    + split; [done|]. replace (c + HDR - HDR) with c by lia. apply lookup_insert_eq.
    + destruct (HL _ _ Hr) as [? Hal]. split; [done|]. rw lookup_insert_ne //. lia.
  - destruct Hop as [n Hr]. destruct (HL _ _ Hr) as [_ Hal]. apply wp_bind.
    replace (free r) with (free (r - HDR + HDR)) by (f_equal; lia). eapply wp_mono; [|exact (free_ok s al (r - HDR) (units n) Hok Hal)].
    intros u s' (Hok' & _ & _). apply wp_ret. exists (delete (r - HDR) al). split; [done|].
    intros r' n' [Hne Hr']%lookup_delete_Some. destruct (HL _ _ Hr') as [? Hal']. split; [done|].
    rw lookup_delete_ne //. lia.
  - destruct Hop as (n & Hr & Hoff). destruct (HL _ _ Hr) as [Hn Hal]. destruct (units_eq n Hn) as (_ & _ & _ & Hu).
    destruct (heap_ok_al _ _ _ _ Hok Hal) as (? & ? & ? & ?). apply wp_bind, wp_store; [hlia|]. apply wp_ret.
    exists al. split; [|done]. apply (heap_store s al (r - HDR) (units n)); [done|done|hlia].
Qed.

Lemma reach_holds s L : reach s L → holds s L.
Proof.
  induction 1 as [s Hf Hb|s L op res s' _ IH Hop Hrun].
  - exists ∅. split; [by left|done].
  - pose proof (run_holds op s L IH Hop) as Hwp. by rw /wp Hrun in Hwp.
Qed.

(** C34: the heap stays well typed.  After any calls a client can make from
    the start (allocate below 2 GiB, free what it holds, store within what it
    asked for) the free list is null or a closed ring of headers that starts at
    [base], lies in address order below the end of memory and has no two
    touching blocks ([heap_ok]); every pointer the client holds has a block of
    the size asked for, rounded up, inside memory and disjoint from every other;
    and no next call of such a client faults or fails to return. *)
Theorem umalloc_sound (s : ust) (L : gmap Z Z) : reach s L →
  (∃ al, heap_ok s al ∧ ∀ r n, L !! r = Some n → al !! (r - HDR) = Some (units n)) ∧
  (∀ r n, L !! r = Some n → 0 < r ∧ r + n ≤ s.(u_brk)) ∧
  (∀ r n r' n', L !! r = Some n → L !! r' = Some n' → r ≠ r' → r + n < r' ∨ r' + n' < r) ∧
  (∀ op, legal_for op L → ∃ res s', run op s = Ok (res, s')).
Proof.
  intros Hr. pose proof (reach_holds _ _ Hr) as Hh. pose proof Hh as (al & Hok & HL). pose proof base_pos as Hb0.
  split; [|split; [|split]].
  - exists al. split; [done|]. intros r n Hn. by apply HL.
  - intros r n Hn. destruct (HL _ _ Hn) as [Hb Hal]. destruct (units_eq n Hb) as (_ & _ & _ & Hu).
    destruct (heap_ok_al _ _ _ _ Hok Hal). hlia.
  - intros r n r' n' Hn Hn' Hne. destruct (HL _ _ Hn) as [Hb Hal]. destruct (HL _ _ Hn') as [Hb' Hal'].
    destruct (units_eq n Hb) as (_ & _ & _ & Hu). destruct (units_eq n' Hb') as (_ & _ & _ & Hu').
    pose proof (heap_ok_disj _ _ _ _ _ _ Hok Hal Hal' ltac:(lia)) as Hd. rw /disj in Hd. hlia.
  - intros op Hop. destruct (wp_run _ _ _ (run_holds op s L Hh Hop)) as (res & s' & ? & _). by exists res, s'.
Qed.
End props.

(** ** A concrete process *)

(** [base] in the data segment, memory up to 128 MiB, new memory zero. *)
Definition demo_sbrk (n : Z) : M ust Z := λ s,
  if s.(u_brk) + n <? 0x8000000
  then Ok (s.(u_brk), MkU s.(u_mem) s.(u_freep) (s.(u_brk) + n))
  else Ok (u64 (-1), s).

#[local] Program Instance demo_process : Process := { base := 0x1000; sbrk := demo_sbrk }.
Next Obligation. done. Qed.
Next Obligation.
  intros n s Hn Hb. rw /wp /demo_sbrk. destruct (Z.ltb_spec (s.(u_brk) + n) 0x8000000); [right|by left].
  cbn [u_brk u_mem u_freep]. split_and!; [done..|lia|done|apply agree_refl].
Qed.

Definition demo_start : ust := MkU (λ _, 0) 0 0x4000.

Lemma umalloc_refines_witness : live demo_start ∅ ∧ legal (UMalloc 10) ∅ ∧
  ∃ res s' H', run (UMalloc 10) demo_start = Ok (res, s') ∧ spec (UMalloc 10) ∅ res H' ∧ live s' H'.
Proof.
  assert (live demo_start ∅) as Hl.
  { exists ∅. split; [left; by split_and!|]. intros r bs. split; [done|]. by intros (k & ? & _). }
  assert (legal (UMalloc 10) ∅) as Hop by (simpl; lia).
  split; [done|]. split; [done|]. exact (umalloc_refines (UMalloc 10) demo_start ∅ Hl Hop).
Defined.

Lemma umalloc_sound_witness : reach demo_start ∅ ∧
  ∃ res s', run (UMalloc 10) demo_start = Ok (res, s').
Proof.
  assert (reach demo_start ∅) as Hr by (by apply ReachInit).
  assert (legal_for (UMalloc 10) ∅) as Hop by (simpl; lia).
  split; [done|]. exact (proj2 (proj2 (proj2 (umalloc_sound demo_start ∅ Hr))) (UMalloc 10) Hop).
Defined.

(** Two blocks, the first freed, and taken again. *)
Example demo_reuse :
  match (p ← malloc 100; q ← malloc 40; free p;; r ← malloc 100; mret (p, q, r)) demo_start with
  | Ok (x, _) => x
  | Err _ => (0, 0, 0)
  end = (81808, 81744, 81808).
Proof. vm_compute. reflexivity. Qed.

(** [malloc] of 4 GiB less one byte: [morecore] passes the number of bytes as
    an [int], gets 16 of them, and [malloc] returns the end of memory. *)
Example malloc_huge_overruns :
  match malloc (2 ^ 32 - 1) demo_start with
  | Ok (r, s') => (r, s'.(u_brk))
  | Err _ => (0, 0)
  end = (0x4010, 0x4010).
Proof. vm_compute. reflexivity. Qed.
End UmallocProps.
