(* ===== verification/VmBoot.v ===== *)
(** * The kernel's page table and the page-table printer (pagetables lab)

    [kvmmake] of [kernel/vm.c] with the macros of [memlayout.h] it maps,
    [proc_mapstacks] of [proc.c], and [vmprint].  Printing appends to a list of
    lines: the numbers each [printf] is given. *)

From S2P Require Import Prelude Machine Kalloc Vm.

Module VmBoot.

Definition UART0 : Z := 0x10000000.
Definition VIRTIO0 : Z := 0x10001000.
Definition PLIC : Z := 0x0c000000.
Definition NPROC : nat := 64.

Section boot.
Context `{KI : KernelImage}.

(** A page for each process's kernel stack, a hole below each. *)
Definition proc_mapstacks (kpgtbl : Z) : M kst (option unit) :=
  for_each (seq 0 NPROC) (λ i,
    pa ← kalloc;
    if pa =? 0 then panic "kalloc" else
    kvmmap kpgtbl (KSTACK (Z.of_nat i)) pa PGSIZE (Z.lor PTE_R PTE_W);;
    mret None).

Definition kvmmake : M kst Z :=
  kpgtbl ← kalloc;
  modify (set_km (λ m, memset m kpgtbl 0 PGSIZE));;
  kvmmap kpgtbl UART0 UART0 PGSIZE (Z.lor PTE_R PTE_W);;
  kvmmap kpgtbl VIRTIO0 VIRTIO0 PGSIZE (Z.lor PTE_R PTE_W);;
  kvmmap kpgtbl PLIC PLIC 0x400000 (Z.lor PTE_R PTE_W);;
  kvmmap kpgtbl KERNBASE KERNBASE (etext - KERNBASE) (Z.lor PTE_R PTE_X);;
  kvmmap kpgtbl etext etext (PHYSTOP - etext) (Z.lor PTE_R PTE_W);;
  kvmmap kpgtbl TRAMPOLINE trampoline PGSIZE (Z.lor PTE_R PTE_X);;
  proc_mapstacks kpgtbl;;
  mret kpgtbl.

(** A line of [vmprint]: the title, or an entry with its depth. *)
Inductive line :=
  | LTable (pagetable : Z)
  | LEntry (level i pte pa : Z).

(** [_vmprint] recurses once per level; [depth] bounds the recursion. *)
Fixpoint _vmprint (depth : nat) (pagetable level : Z) : M kst (list line) :=
  match depth with
  | O => out_of_fuel
  | S depth =>
      loop (λ '(i, out),
        if i <? 512 then
          pte ← gets (λ s, ld64 s.(km) (pagetable + 8 * i));
          if has pte PTE_V then
            let child := PTE2PA pte in
            let out := out ++ [LEntry level i pte child] in
            if Z.land pte (Z.lor (Z.lor PTE_R PTE_W) PTE_X) =? 0 then
              sub ← _vmprint depth child (level + 1);
              mret (inl (i + 1, out ++ sub))
            else mret (inl (i + 1, out))
          else mret (inl (i + 1, out))
        else mret (inr out)) (0, [])
  end.

Definition vmprint (pagetable : Z) : M kst (list line) :=
  out ← _vmprint 3 pagetable 1;
  mret (LTable pagetable :: out).
End boot.
End VmBoot.
