(* ===== verification/VmBootProps.v ===== *)
(** * The kernel's address space

    [kvmmake] needs 136 pages, 72 for tables and 64 for the kernel stacks; with
    one more it never panics and builds the address space of [memlayout.h]:
    devices and RAM at their own addresses, the kernel's code read-only and
    executable, everything else writable and not executable, a guard page
    below every kernel stack.  [vmprint] lists the valid entries of a table in
    order, each table right after the entry that points to it. *)

From S2P Require Import Prelude Machine Kalloc Vm VmRep VmMap VmProps VmBoot.
Import VmBoot.

Module VmBootProps.
Section boot.
Context `{KI : KernelImage}.
Implicit Types (t : gmap (list Z) Z) (s : kst) (l fs : list Z).

(** The 2 MB regions [kvmmake] maps something in, and the tables they need. *)
Definition regions : list Z := [128; 96; 97; 131071] ++ seqZ 1024 64.
Definition kpaths : list (list Z) := [[]; [0]; [2]; [255]] ++ ((λ q, [q mod 512; q / 512]) <$> regions).

Lemma kpaths_size t : (∀ p a, t !! p = Some a → p ∈ kpaths) → (size t ≤ 72)%nat.
Proof.
  intros Hp. rw -length_map_to_list -(length_fmap fst). change 72%nat with (length kpaths).
  apply submseteq_length, NoDup_submseteq; [apply NoDup_fst_map_to_list|].
  intros p (x & -> & Hx)%list_elem_of_fmap. destruct x as [p a]. apply elem_of_map_to_list in Hx. by eapply Hp.
Qed.

Lemma elem_of_regions q : q ∈ regions ↔ q = 128 ∨ q = 96 ∨ q = 97 ∨ q = 131071 ∨ 1024 ≤ q < 1088.
Proof. rw /regions elem_of_app elem_of_seqZ !elem_of_cons. split; [|tauto]. intros [?|?]; [set_solver|lia]. Qed.

Lemma PX_regions va p : 0 ≤ va < MAXVA → va / 2 ^ 21 ∈ regions → on_path va p → p ∈ kpaths.
Proof.
  intros Hva Hq.
  assert (PX 2 va = va / 2 ^ 21 / 512 ∧ PX 1 va = va / 2 ^ 21 mod 512) as [E2 E1].
  { rw !PX_eq; [|lia..]. change (2 ^ (12 + 9 * 2)) with (2 ^ 21 * 512). change (12 + 9 * 1) with 21.
    rw -Z.div_div; [|lia..]. split; [|done]. apply Z.mod_small. consts. lia. }
  intros [->| ->].
  - rw E2. apply elem_of_app. left. apply elem_of_regions in Hq.
    assert (va / 2 ^ 21 / 512 = 0 ∨ va / 2 ^ 21 / 512 = 2 ∨ va / 2 ^ 21 / 512 = 255) as [->|[->| ->]] by lia; set_solver.
  - rw /leaf_path E1 E2. apply elem_of_app. right. apply list_elem_of_fmap. by exists (va / 2 ^ 21).
Qed.

(** Building the space: the pages [fs] are the stacks so far, no page is both
    free and in use, and none of the 137 pages there were has been lost. *)
Record building s t l (root : Z) (sp : Z → Z) fs : Prop := {
  b_rep : pt_rep (km s) t root;
  b_space : ∀ va, 0 ≤ va < MAXVA → pte_of (km s) t va = sp va;
  b_free : free_pages s l;
  b_tab : pt_free t l;
  b_nodup : NoDup (fs ++ l);
  b_fs : ∀ p a, t !! p = Some a → a ∉ fs;
  b_managed : Forall managed fs;
  b_paths : ∀ p a, t !! p = Some a → p ∈ kpaths;
  b_pages : (137 ≤ size t + length l + length fs)%nat;
}.

Lemma building_ext s t l root sp sp' fs : (∀ va, 0 ≤ va < MAXVA → sp va = sp' va) →
  building s t l root sp fs → building s t l root sp' fs.
Proof. intros Heq []. split; try done. intros va Hva. rw -Heq //. auto. Qed.

(** A mapping is made without running out of pages. *)
Lemma kvmmap_builds s t l root sp fs va pa sz perm :
  building s t l root sp fs → (length fs ≤ 64)%nat →
  page_aligned va → page_aligned sz → 0 ≤ va → 0 < sz → va + sz ≤ MAXVA →
  0 ≤ pa → pa + sz + 4096 < 2 ^ 56 → 0 ≤ perm < 1024 →
  (∀ va', va ≤ va' < va + sz → sp va' = 0 ∧ va' / 2 ^ 21 ∈ regions) →
  wp (kvmmap root va pa sz perm) (λ _ s', ∃ t' l', building s' t' l' root (map_range sp va (sz / 4096) pa perm) fs) s.
Proof.
  intros [Hr Hsp Hfp Hft Hnd Hfs Hman Hpaths Hpages] Hlen Hal Hsal Hva Hsz Hmax Hpa Hpa2 Hperm Hun.
  rw /page_aligned in Hal Hsal.
  assert (PGROUNDDOWN va = va) as Ha by (rw PGROUNDDOWN_eq; lia).
  assert ((PGROUNDDOWN (va + sz - 1) - PGROUNDDOWN va) / 4096 + 1 = sz / 4096) as Hnp
    by (rw !PGROUNDDOWN_eq; lia).
  pose proof (mappages_grows _ _ _ _ _ _ _ _ va sz pa perm (evolves_refl s t l root Hr Hfp Hft)
    Hva Hsz Hmax Hpa Hpa2 Hperm) as Hspec. cbv zeta in Hspec. rw Hnp Ha in Hspec.
  apply wp_bind. eapply wp_mono; [|apply Hspec].
  2:{ intros va' Hva'. rw Hsp; [|lia]. destruct (Hun va') as [-> _]; [lia|apply has_0]. }
  intros r s' (t' & l' & n & Hg & [u ->] & Hcase & [Hcnt Hnew]).
  assert (∀ p a, t' !! p = Some a → p ∈ kpaths) as Hpaths'.
  { intros p a Hp. destruct (Hnew p a Hp) as [[b Hb]|(va' & Hva' & Hon)]; [by eapply Hpaths|].
    eapply PX_regions; [..|exact Hon]; [lia|]. apply Hun. lia. }
  destruct Hcase as [[-> ->]|(-> & _ & ->)].
  2:{ pose proof (kpaths_size t' Hpaths'). simpl in *. lia. }
  apply wp_ret. exists t', l'. split.
  - apply Hg.
  - intros va' Hva'. rw (g_space _ _ _ _ _ _ _ _ Hg) // /map_range. zbool; (done || (apply Hsp; lia)).
  - apply Hg.
  - apply Hg.
  - apply NoDup_app in Hnd as (? & Hd & Hnd). apply NoDup_app in Hnd as (_ & _ & ?). apply NoDup_app.
    split_and!; try done. intros x Hx Hx'. eapply Hd; [done|]. set_solver.
  - intros p a Hp Hin. destruct (g_new _ _ _ _ _ _ _ _ Hg p a Hp) as [Hp'|Hl]; [by eapply Hfs|].
    apply NoDup_app in Hnd as (_ & Hd & _). by eapply Hd.
  - done.
  - done.
  - lia.
Qed.

(** The root: a page of zeros maps nothing. *)
Lemma root_builds s l root :
  free_pages s l → managed root → root ∉ l → (136 ≤ length l)%nat →
  building (set_km (λ m, memset m root 0 PGSIZE) s) {[ [] := root ]} l root (λ _, 0) [].
Proof.
  intros Hfp Hman Hnin Hlen. destruct (managed_bounds root Hman) as (Hal & _ & _). split; simpl.
  - split.
    + apply lookup_singleton_eq.
    + intros p a [<- _]%lookup_singleton_Some. simpl. lia.
    + by intros i p a [? _]%lookup_singleton_Some.
    + intros p q a [<- _]%lookup_singleton_Some [<- _]%lookup_singleton_Some. done.
    + by intros p a [_ <-]%lookup_singleton_Some.
    + intros p a i [<- <-]%lookup_singleton_Some _ Hi. rw lookup_singleton_ne; [|done].
      apply ld64_memset_0; consts; lia.
  - intros va _. rw /pte_of lookup_singleton_ne //.
  - eapply free_pages_agree; [..|exact Hfp]; [done|]. intros b Hb x Hx. simpl. rw /memset.
    pose proof (fp_managed _ _ Hfp) as Hm. rw Forall_forall in Hm. destruct (Hm b Hb) as [Hbal _].
    destruct (pages_disjoint b root); try done; [by intros ->|consts..]; zbool; (done || lia).
  - by intros p a [_ <-]%lookup_singleton_Some.
  - apply Hfp.
  - intros. apply not_elem_of_nil.
  - constructor.
  - intros p a [<- _]%lookup_singleton_Some. by left.
  - rw map_size_singleton. simpl. lia.
Qed.

(** ** The address space of [memlayout.h] *)

Definition RW : Z := Z.lor PTE_R PTE_W.
Definition RX : Z := Z.lor PTE_R PTE_X.
Definition page (va : Z) : Z := va - va mod 4096.
Definition within (lo hi va : Z) : bool := (lo <=? va) && (va <? hi).

(** The kernel stacks lie below the trampoline, two pages apart. *)
Definition stack_pte fs (va : Z) : Z :=
  let d := KSTACK 0 + 4095 - va in
  if (0 <=? d) && (d mod 8192 <? 4096) then
    match fs !! Z.to_nat (d / 8192) with Some b => mk_pte b RW | None => 0 end
  else 0.

Definition kspace fs (va : Z) : Z :=
  if within UART0 (UART0 + 4096) va || within VIRTIO0 (VIRTIO0 + 4096) va || within PLIC (PLIC + 0x400000) va
  then mk_pte (page va) RW
  else if within KERNBASE etext va then mk_pte (page va) RX
  else if within etext PHYSTOP va then mk_pte (page va) RW
  else if within TRAMPOLINE MAXVA va then mk_pte trampoline RX
  else stack_pte fs va.

Ltac layout := change UART0 with 268435456 in *; change VIRTIO0 with 268439552 in *; change PLIC with 201326592 in *;
  change (KSTACK 0) with 274877890560 in *; consts.

(** One more stack. *)
Lemma stack_push fs b va :
  map_range (stack_pte fs) (KSTACK (Z.of_nat (length fs))) 1 b RW va = stack_pte (fs ++ [b]) va.
Proof.
  rw /map_range /stack_pte.
  replace (KSTACK (Z.of_nat (length fs))) with (KSTACK 0 - 8192 * Z.of_nat (length fs)) by (rw /KSTACK; consts; lia).
  layout. remember (274877890560 + 4095 - va) as d eqn:Ed.
  destruct (decide (d / 8192 = Z.of_nat (length fs) ∧ d mod 8192 < 4096)) as [[Hd Hm]|Hd].
  - rw Hd Nat2Z.id lookup_app_r; [|lia]. rw Nat.sub_diag /=. zdec. rw /mk_pte. do 3 f_equal. lia.
  - assert ((274877890560 - 8192 * Z.of_nat (length fs) <=? va) &&
      (va <? 274877890560 - 8192 * Z.of_nat (length fs) + 1 * 4096) = false) as -> by (zbool; (done || lia)).
    destruct (Z.leb_spec 0 d); [|done]. destruct (Z.ltb_spec (d mod 8192) 4096); [|done]. simpl.
    destruct (Z.lt_ge_cases (d / 8192) (Z.of_nat (length fs))).
    + rw lookup_app_l //. lia.
    + rw !lookup_ge_None_2 //; rewrite ?length_app /=; lia.
Qed.

Lemma kspace_push fs b va : (length fs < 64)%nat →
  map_range (kspace fs) (KSTACK (Z.of_nat (length fs))) 1 b RW va = kspace (fs ++ [b]) va.
Proof.
  intros Hlen. pose proof (stack_push fs b va) as Hp.
  assert (KSTACK (Z.of_nat (length fs)) = KSTACK 0 - 8192 * Z.of_nat (length fs)) as Ek by (rw /KSTACK; consts; lia).
  destruct etext_ok as [_ He]. pose proof kend_hi. revert Hp. rw /map_range Ek. layout.
  destruct (Z.leb_spec (274877890560 - 8192 * Z.of_nat (length fs)) va); simpl;
    [destruct (Z.ltb_spec va (274877890560 - 8192 * Z.of_nat (length fs) + 1 * 4096)); simpl|];
    intros Hp; rw /kspace /within; layout; [|rw Hp //..].
  rw Hp. clear Hp Ek. by zdec.
Qed.

(** Addresses mapped by none of the ranges so far. *)
Lemma map_range_out sp a n pa perm va : va < a ∨ a + n * 4096 ≤ va → map_range sp a n pa perm va = sp va.
Proof. intros Hva. rw /map_range. zbool; (done || lia). Qed.
Lemma map_range_in sp a n pa perm va : a ≤ va < a + n * 4096 →
  map_range sp a n pa perm va = mk_pte (pa + (va / 4096 - a / 4096) * 4096) perm.
Proof. intros Hva. rw /map_range. by zdec. Qed.

(** The space before the stacks. *)
Definition fixed_space : Z → Z :=
  map_range (map_range (map_range (map_range (map_range (map_range (λ _, 0)
    UART0 1 UART0 RW) VIRTIO0 1 VIRTIO0 RW) PLIC 1024 PLIC RW)
    KERNBASE ((etext - KERNBASE) / 4096) KERNBASE RX) etext ((PHYSTOP - etext) / 4096) etext RW)
    TRAMPOLINE 1 trampoline RX.

Lemma fixed_kspace va : 0 ≤ va < MAXVA → fixed_space va = kspace [] va.
Proof.
  intros Hva. destruct etext_ok as [Hal He], trampoline_ok as [_ Ht]. pose proof kend_hi. rw /page_aligned in Hal.
  assert (stack_pte [] va = 0) as Hst by (rw /stack_pte; by destruct (_ && _)).
  rw /fixed_space /kspace /within Hst /page. layout.
  assert (∀ a, a mod 4096 = 0 → a ≤ va → a + (va / 4096 - a / 4096) * 4096 = va - va mod 4096) as Hpg by lia.
  destruct (Z.ltb_spec va 201326592); [rw !map_range_out; [|lia..]; by zdec|].
  destruct (Z.ltb_spec va (201326592 + 4194304)).
  { do 3 (rw map_range_out; [|lia]). rw map_range_in; [|lia]. rw Hpg; [|lia..]. clear Hal Hpg. by zdec. }
  destruct (Z.ltb_spec va 268435456); [rw !map_range_out; [|lia..]; by zdec|].
  destruct (Z.ltb_spec va (268435456 + 4096)).
  { do 5 (rw map_range_out; [|lia]). rw map_range_in; [|lia]. rw Hpg; [|lia..]. clear Hal Hpg. by zdec. }
  destruct (Z.ltb_spec va (268439552 + 4096)).
  { do 4 (rw map_range_out; [|lia]). rw map_range_in; [|lia]. rw Hpg; [|lia..]. clear Hal Hpg. by zdec. }
  destruct (Z.ltb_spec va 2147483648); [rw !map_range_out; [|lia..]; by zdec|].
  destruct (Z.ltb_spec va etext).
  { do 2 (rw map_range_out; [|lia]). rw map_range_in; [|lia]. rw Hpg; [|lia..]. clear Hal Hpg. by zdec. }
  destruct (Z.ltb_spec va 2281701376).
  { rw map_range_out; [|lia]. rw map_range_in; [|lia]. rw Hpg; [|lia..]. clear Hal Hpg. by zdec. }
  destruct (Z.ltb_spec va 274877902848); [rw !map_range_out; [|lia..]; by zdec|].
  rw map_range_in; [|lia]. zdec. f_equal. lia.
Qed.

(** One [kvmmap] of a range nothing was mapped in: the side conditions are
    arithmetic on the layout. *)
Ltac kvmmap_step H :=
  eapply wp_mono; [|eapply kvmmap_builds; [exact H|simpl; lia|..]; layout; rewrite /page_aligned; try lia];
  [|intros va' Hva'; split; [by repeat (rw map_range_out; [|lia])|apply elem_of_regions; lia]].

Lemma fixed_builds {A} (k : M kst A) (Q : A → kst → Prop) s t l root :
  building s t l root (λ _, 0) [] → etext < PHYSTOP →
  (∀ s' t' l', building s' t' l' root (kspace []) [] → wp k Q s') →
  wp (kvmmap root UART0 UART0 PGSIZE RW;;
      kvmmap root VIRTIO0 VIRTIO0 PGSIZE RW;;
      kvmmap root PLIC PLIC 0x400000 RW;;
      kvmmap root KERNBASE KERNBASE (etext - KERNBASE) RX;;
      kvmmap root etext etext (PHYSTOP - etext) RW;;
      kvmmap root TRAMPOLINE trampoline PGSIZE RX;;
      k) Q s.
Proof.
  intros Hb Hram Hk. destruct etext_ok as [Hal He], trampoline_ok as [Htal Ht]. rw /page_aligned in Hal Htal.
  assert (0 ≤ RW < 1024 ∧ 0 ≤ RX < 1024) as [Hrw Hrx] by (by vm_compute).
  layout.
  apply wp_bind. kvmmap_step Hb. intros _ s1 (t1 & l1 & H1).
  apply wp_bind. kvmmap_step H1. intros _ s2 (t2 & l2 & H2).
  apply wp_bind. kvmmap_step H2. intros _ s3 (t3 & l3 & H3).
  apply wp_bind. kvmmap_step H3. intros _ s4 (t4 & l4 & H4).
  apply wp_bind. kvmmap_step H4. intros _ s5 (t5 & l5 & H5).
  apply wp_bind. kvmmap_step H5. intros _ s6 (t6 & l6 & H6).
  apply (Hk s6 t6 l6). eapply building_ext; [|exact H6]. intros va Hva. by rw -fixed_kspace.
Qed.

(** Below the stacks there is nothing yet. *)
Lemma stack_hole fs va : (length fs < 64)%nat →
  274877890560 - 8192 * Z.of_nat (length fs) ≤ va < 274877890560 - 8192 * Z.of_nat (length fs) + 4096 →
  kspace fs va = 0 ∧ va / 2 ^ 21 ∈ regions.
Proof.
  intros Hlen Hva. destruct etext_ok as [_ He]. pose proof kend_hi. split; [|apply elem_of_regions; lia].
  rw /kspace /within /stack_pte. layout. zdec.
  by rw (lookup_ge_None_2 fs); [|lia].
Qed.

(** The stacks: each takes a page no table and no other stack uses. *)
Lemma kalloc_builds s t b l root sp fs : building s t (b :: l) root sp fs →
  wp kalloc (λ r s', r = b ∧ managed b ∧ building s' t l root sp (fs ++ [b])) s.
Proof.
  intros [Hr Hsp Hfp Hft Hnd Hfs Hman Hpaths Hpages].
  eapply wp_mono; [|apply (evolves_kalloc _ _ _ _ _ _ _ _ (evolves_refl s t (b :: l) root Hr Hfp Hft))].
  intros r s' (-> & Hb & Hbl & Hg & _). split; [done|]. split; [done|]. split.
  - apply Hg.
  - intros va Hva. rw (g_space _ _ _ _ _ _ _ _ Hg) //. by apply Hsp.
  - apply Hg.
  - apply Hg.
  - by rw -assoc.
  - intros p a Hp [Hx| ->%list_elem_of_singleton]%elem_of_app; [by eapply Hfs|]. eapply Hft; [exact Hp|]. by left.
  - apply Forall_app. by split; [|constructor].
  - done.
  - rw length_app /=. simpl in Hpages. lia.
Qed.

Lemma mapstacks_builds s t l root : building s t l root (kspace []) [] →
  wp (proc_mapstacks root) (λ _ s', ∃ t' l' fs, length fs = NPROC ∧ building s' t' l' root (kspace fs) fs) s.
Proof.
  intros Hb. eapply wp_mono; [|apply (wp_for_each (λ dn s', ∃ t' l' fs, length fs = length dn ∧
    building s' t' l' root (kspace fs) fs) (λ _ _, False))].
  - intros [r|] s' H; [done|]. destruct H as (t' & l' & fs & Hl & H). exists t', l', fs. by rw Hl length_seq.
  - by exists t, l, [].
  - intros dn i td s1 Hseq (t1 & l1 & fs & Hlen & H1).
    apply seq_prefix in Hseq as (Hi & -> & _). change NPROC with 64%nat in Hi.
    destruct l1 as [|b l1].
    { pose proof (kpaths_size t1 (b_paths _ _ _ _ _ _ H1)). pose proof (b_pages _ _ _ _ _ _ H1). simpl in *. lia. }
    apply wp_bind. eapply wp_mono; [|by apply kalloc_builds]. intros r s2 (-> & Hman & H2).
    pose proof (managed_nz b Hman). destruct (managed_bounds b Hman) as (_ & _ & Hhi). zdec. rw -Hlen.
    assert (KSTACK (Z.of_nat (length fs)) = KSTACK 0 - 8192 * Z.of_nat (length fs)) as Ek by (rw /KSTACK; consts; lia).
    apply wp_bind. eapply wp_mono; [|eapply kvmmap_builds; [exact H2|..]]; rw ?Ek; layout; try (rw /page_aligned; lia).
    + intros _ s3 (t3 & l3 & H3). apply wp_ret. exists t3, l3, (fs ++ [b]). rw !length_app Hlen. split; [done|].
      eapply building_ext; [|exact H3]. intros va Hva. rw -kspace_push; [|lia]. by rw Ek.
    + rw length_app /=. lia.
    + by vm_compute.
    + intros va' Hva'. apply stack_hole; lia.
Qed.

(** Every entry is empty or a kernel page, writable or executable but not both. *)
Lemma kspace_entry fs va : Forall managed fs → 0 ≤ va < MAXVA →
  kspace fs va = 0 ∨ ∃ b f, 0 ≤ b < 2 ^ 56 ∧ (f = RW ∨ f = RX) ∧ kspace fs va = mk_pte b f.
Proof.
  intros Hman Hva. destruct trampoline_ok as [_ Ht], etext_ok as [_ He]. pose proof kend_hi.
  assert (0 ≤ page va < 2 ^ 56) as Hp by (rw /page; consts; lia).
  assert (0 ≤ trampoline < 2 ^ 56) as Htr by (consts; lia). rw /kspace.
  destruct (_ || _); [right; by eauto 10|]. do 2 (destruct (within _ _ va); [right; by eauto 10|]).
  destruct (within _ _ va); [right; by eauto 10|]. rw /stack_pte.
  destruct (_ && _); [|by left]. destruct (fs !! _) as [b|] eqn:Hb; [|by left]. right.
  pose proof (proj1 (Forall_lookup _ _) Hman _ _ Hb) as Hm. destruct (managed_bounds b Hm) as (_ & ? & ?).
  exists b, RW. split_and!; [consts; lia..|by left|done].
Qed.

Lemma has_mk_pte b f k : 0 ≤ b < 2 ^ 56 → f = RW ∨ f = RX → 0 ≤ k < 10 →
  has (mk_pte b f) (Z.shiftl 1 k) = Z.testbit (Z.lor f PTE_V) k.
Proof.
  intros Hb Hf Hk. rw has_testbit /mk_pte -?Z.lor_assoc; [|lia]. rw testbit_mk //. by destruct Hf as [->| ->].
Qed.

Lemma entry_safe pte : pte = 0 ∨ (∃ b f, 0 ≤ b < 2 ^ 56 ∧ (f = RW ∨ f = RX) ∧ pte = mk_pte b f) →
  ¬ (has pte PTE_W = true ∧ has pte PTE_X = true) ∧ has pte PTE_U = false.
Proof.
  intros [->|(b & f & Hb & Hf & ->)]; [by rw !has_0; split; [intros []|]|].
  change PTE_W with (Z.shiftl 1 2). change PTE_X with (Z.shiftl 1 3). change PTE_U with (Z.shiftl 1 4).
  rw !has_mk_pte //. destruct Hf as [->| ->]; (split; [by intros []|done]).
Qed.

Lemma guard_page fs va i : 0 ≤ i < 64 → KSTACK i - PGSIZE ≤ va < KSTACK i → kspace fs va = 0.
Proof.
  intros Hi. assert (KSTACK i = KSTACK 0 - 8192 * i) as -> by (rw /KSTACK; consts; lia).
  destruct etext_ok as [_ He]. pose proof kend_hi. rw /kspace /within /stack_pte. layout. intros Hva. by zdec.
Qed.

(** ** [kvmmake] *)

(** With 137 free pages [kvmmake] never runs out. *)
Lemma kvmmake_builds s l : free_pages s l → (137 ≤ length l)%nat →
  wp kvmmake (λ root s', ∃ t' l' fs, length fs = NPROC ∧ building s' t' l' root (kspace fs) fs) s.
Proof.
  intros Hfp Hlen. destruct l as [|root l]; [simpl in Hlen; lia|].
  pose proof (fp_managed _ _ Hfp) as [Hroot Hml]%Forall_cons. pose proof (fp_nodup _ _ Hfp) as [Hnin _]%NoDup_cons.
  assert (etext < PHYSTOP) as Hram by (destruct Hroot, etext_ok as [_ ?]; consts; lia).
  apply wp_bind. eapply wp_mono; [|by apply kalloc_spec]. intros r s1 (-> & Hfp1 & _). apply wp_modify_bind.
  eapply fixed_builds; [apply root_builds; [done..|simpl in Hlen; lia]|done|]. intros s2 t2 l2 H2.
  apply wp_bind. eapply wp_mono; [|exact (mapstacks_builds _ _ _ _ H2)]. intros ? s3 H3. by apply wp_ret.
Qed.

(** C29: boot builds the kernel's address space: from any contents of memory,
    [kinit] and then [kvmmake] never panic when 138 pages lie between the kernel
    image and the end of RAM, and return the root of a page table in which
    every virtual address has the entry [memlayout.h] asks for.  Devices and
    RAM are at their own addresses, the kernel's code is readable and
    executable, its data and the rest of RAM readable and writable, the
    trampoline is at the top, and the 64 kernel stacks are distinct pages no
    longer free.  So nothing is both writable and executable, nothing is
    accessible to user code, and the page below every stack is unmapped. *)
Theorem boot_maps_kernel (m : mem) :
  kend + 138 * PGSIZE ≤ PHYSTOP →
  ∃ root s' l' fs, (kinit;; kvmmake) (MkKst m 0) = Ok (root, s') ∧
    free_pages s' l' ∧ length fs = NPROC ∧ NoDup (fs ++ l') ∧
    ∀ va, 0 ≤ va < MAXVA → ∃ pte, lookup_pte root va s' = Ok (pte, s') ∧ pte = kspace fs va ∧
      ¬ (has pte PTE_W = true ∧ has pte PTE_X = true) ∧ has pte PTE_U = false ∧
      (∀ i, 0 ≤ i < 64 → KSTACK i - PGSIZE ≤ va < KSTACK i → pte = 0).
Proof.
  intros Hram. pose proof kend_lo.
  assert (PGROUNDUP kend = kend + 4095 - (kend + 4095) mod 4096) as Hup by (apply PGROUNDUP_eq; consts; lia).
  assert (wp (kinit;; kvmmake) (λ root s', ∃ t' l' fs, length fs = NPROC ∧ building s' t' l' root (kspace fs) fs)
    (MkKst m 0)) as Hwp.
  { apply wp_bind. eapply wp_mono; [|exact (kinit_spec (MkKst m 0) eq_refl)]. intros ? s Hfp. eapply kvmmake_builds; [exact Hfp|].
    rw length_reverse /range_pages length_fmap length_seqZ. consts. lia. }
  destruct (wp_run _ _ _ Hwp) as (root & s' & Hrun & t' & l' & fs & Hfs & [Hr Hsp Hfp' Hft Hnd Hfst Hman _ _]).
  exists root, s', l', fs. split_and!; [done..|]. intros va Hva. exists (pte_of (km s') t' va).
  rw (lookup_pte_spec s' t' root va Hr Hva) (Hsp va Hva). split; [done|]. split; [done|].
  destruct (entry_safe _ (kspace_entry fs va Hman Hva)). split_and!; [done..|]. intros i Hi. by apply guard_page.
Qed.

(** ** [vmprint] *)

(** What [vmprint] should print below the table [a] at path [p]. *)
Fixpoint listing (d : nat) (m : mem) t (p : list Z) (a level : Z) : list line :=
  seqZ 0 512 ≫= λ i,
    match t !! (i :: p) with
    | Some b =>
        LEntry level i (Z.lor (PA2PTE b) PTE_V) b ::
        match d with O => [] | S d => listing d m t (i :: p) b (level + 1) end
    | None =>
        let pte := ld64 m (a + 8 * i) in
        if has pte PTE_V then [LEntry level i pte (PTE2PA pte)] else []
    end.

(** Valid leaf entries give some access, as those of [mappages] do. *)
Definition leaves_ok (m : mem) t : Prop := ∀ p a i, t !! p = Some a → length p = 2%nat → 0 ≤ i < 512 →
  has (ld64 m (a + 8 * i)) PTE_V = true →
  Z.land (ld64 m (a + 8 * i)) (Z.lor (Z.lor PTE_R PTE_W) PTE_X) ≠ 0.

Lemma child_no_access b : managed b → (Z.land (Z.lor (PA2PTE b) PTE_V) (Z.lor (Z.lor PTE_R PTE_W) PTE_X) =? 0) = true.
Proof.
  intros Hb. destruct (managed_bounds b Hb) as (_ & ? & ?). apply Z.eqb_eq, Z.bits_inj'. intros k Hk.
  rw Z.land_spec Z.bits_0. destruct (Z.lt_ge_cases k 10).
  - rw testbit_mk; [|consts; lia|by vm_compute|lia].
    assert (k = 0 ∨ k = 1 ∨ k = 2 ∨ k = 3 ∨ k = 4 ∨ k = 5 ∨ k = 6 ∨ k = 7 ∨ k = 8 ∨ k = 9) as Hc by lia.
    by destruct Hc as [->|[->|[->|[->|[->|[->|[->|[->|[->| ->]]]]]]]]].
  - apply andb_false_intro2, Z.bits_above_log2; [by vm_compute|]. change (Z.log2 _) with 3. lia.
Qed.

(** The loop over a table collects its rows. *)
Lemma table_loop (row : Z → list line) (body : Z * list line → M kst (Z * list line + list line)) s :
  (∀ i out, 0 ≤ i < 512 → body (i, out) s = Ok (inl (i + 1, out ++ row i), s)) →
  (∀ out, body (512, out) s = Ok (inr out, s)) →
  loop body (0, []) s = Ok (seqZ 0 512 ≫= row, s).
Proof.
  intros Hrow Hend. apply wp_eq_run.
  apply (wp_loop (λ '(i, out) s', 0 ≤ i ≤ 512 ∧ s' = s ∧ out = seqZ 0 i ≫= row) (λ '(i, _), 512 - i));
    [by split; [lia|]|lia|].
  intros [i out] s' (Hi & -> & ->) _. destruct (Z.eq_dec i 512) as [->|Hne].
  - by eapply wp_of_run; [apply Hend|].
  - eapply wp_of_run; [apply Hrow; lia|]. split; [|lia]. split_and!; [lia..|done|].
    rw seqZ_app; [|lia..]. rw bind_app Z.add_0_l. f_equal. symmetry. apply app_nil_r.
Qed.

Lemma _vmprint_unfold d pagetable level : _vmprint (S d) pagetable level =
  loop (λ '(i, out),
    if i <? 512 then
      pte ← gets (λ s, ld64 s.(km) (pagetable + 8 * i));
      if has pte PTE_V then
        let child := PTE2PA pte in
        let out := out ++ [LEntry level i pte child] in
        if Z.land pte (Z.lor (Z.lor PTE_R PTE_W) PTE_X) =? 0 then
          sub ← _vmprint d child (level + 1);
          mret (inl (i + 1, out ++ sub))
        else mret (inl (i + 1, out))
      else mret (inl (i + 1, out))
    else mret (inr out)) (0, []).
Proof. done. Qed.

Lemma _vmprint_lists d s t root p a level : pt_rep (km s) t root → leaves_ok (km s) t →
  t !! p = Some a → (length p + d = 2)%nat →
  _vmprint (S d) a level s = Ok (listing d (km s) t p a level, s).
Proof.
  intros Hr Hleaf. revert p a level. induction d as [|d IH]; intros p a level Hp Hlen.
  all: rw _vmprint_unfold; cbn [listing]; apply table_loop; [|done]; intros i out Hi;
    rewrite -> (proj2 (Z.ltb_lt i 512)) by lia; rw /mbind /M_bind /gets /mret /M_ret.
  - rewrite -> Nat.add_0_r in Hlen. destruct (t !! (i :: p)) as [b|] eqn:Hb.
    { pose proof (pt_len _ _ _ Hr _ _ Hb) as H. simpl in H. lia. }
    destruct (has _ PTE_V) eqn:HV; [|by rw app_nil_r].
    by rw (proj2 (Z.eqb_neq _ _) (Hleaf p a i Hp Hlen Hi HV)).
  - rw (pt_node _ _ _ Hr _ _ i Hp); [|lia|done]. destruct (t !! (i :: p)) as [b|] eqn:Hb.
    + destruct (child_pte b) as [-> ->]; [by eapply pt_page|]. rw child_no_access; [|by eapply pt_page].
      rw (IH (i :: p) b (level + 1) Hb); [|simpl; lia]. by rw -app_assoc.
    + by rw has_0 app_nil_r.
Qed.

(** [vmprint] prints the table and every valid entry below it, each once, in
    order, and changes nothing. *)
Theorem vmprint_lists (s : kst) t (root : Z) : pt_rep (km s) t root → leaves_ok (km s) t →
  vmprint root s = Ok (LTable root :: listing 2 (km s) t [] root 1, s).
Proof.
  intros Hr Hl. rw /vmprint /mbind /M_bind (_vmprint_lists 2 s t root [] root 1 Hr Hl) //. apply Hr.
Qed.
End boot.

(** The image of the pagetables lab leaves far more than 138 pages. *)
Lemma boot_maps_kernel_witness : let KI := pgtbl_image in
  ∃ root s' l' fs, (kinit;; kvmmake) (MkKst (λ _, 5) 0) = Ok (root, s') ∧
    free_pages s' l' ∧ length fs = NPROC ∧ NoDup (fs ++ l') ∧
    ∀ va, 0 ≤ va < MAXVA → ∃ pte, lookup_pte root va s' = Ok (pte, s') ∧ pte = kspace fs va ∧
      ¬ (has pte PTE_W = true ∧ has pte PTE_X = true) ∧ has pte PTE_U = false ∧
      (∀ i, 0 ≤ i < 64 → KSTACK i - PGSIZE ≤ va < KSTACK i → pte = 0).
Proof. intros KI. apply boot_maps_kernel. vm_compute. congruence. Defined.
End VmBootProps.
