(* ===== verification/Exec.v ===== *)
(** * Program execution (pagetables lab, [kernel/exec.c])

    [exec] builds a new address space with the page-table operations of [Vm],
    loads the segments of the program file and pushes the arguments on the new
    stack.  The file system, [proc_pagetable] and [proc_freepagetable], the
    layout of ELF headers ([elf.h]) and [safestrcpy] are not in this lab's
    directory: they are the class [ExecCalls].  A C string is the list of its
    bytes without the NUL. *)

From S2P Require Import Prelude Machine Kalloc Vm VmBoot.
Import VmBoot.

Module Exec.

Definition MAXARG : Z := 32.

(** The fields of [struct proc] and its trapframe that [exec] uses. *)
Record eproc := MkEp {
  ep_pid : Z; ep_pagetable : Z; ep_sz : Z; ep_name : list Z;
  ep_a1 : Z; ep_epc : Z; ep_sp : Z;
}.

Record elfhdr := MkElf { elf_magic : Z; elf_entry : Z; elf_phoff : Z; elf_phnum : Z }.
Record proghdr := MkPh {
  ph_type : Z; ph_off : Z; ph_vaddr : Z; ph_filesz : Z; ph_memsz : Z;
}.

Class ExecCalls (F I : Type) := {
  begin_op : M F unit;
  end_op : M F unit;
  namei : list Z → M F (option I);
  ilock : I → M F unit;
  iunlockput : I → M F unit;
  readi : I → Z → Z → M F (Z * list Z);     (* offset, size: result and bytes *)
  proc_pagetable : eproc → M kst Z;
  proc_freepagetable : Z → Z → M kst unit;
  safestrcpy : list Z → Z → list Z;
  sizeof_elf : Z;
  sizeof_ph : Z;
  elf_of : list Z → elfhdr;
  ph_of : list Z → proghdr;
  ELF_MAGIC : Z;
  ELF_PROG_LOAD : Z;
}.

Section exec.
Context `{KI : KernelImage} {F I : Type} `{EC : ExecCalls F I}.

Record est := MkE { e_k : kst; e_fs : F; e_proc : eproc; e_out : list line }.

Definition K {A} (m : M kst A) : M est A :=
  lift e_k (λ k s, MkE k s.(e_fs) s.(e_proc) s.(e_out)) m.
Definition Fs {A} (m : M F A) : M est A :=
  lift e_fs (λ f s, MkE s.(e_k) f s.(e_proc) s.(e_out)) m.
Definition set_proc (f : eproc → eproc) (s : est) : est := MkE s.(e_k) s.(e_fs) (f s.(e_proc)) s.(e_out).
Definition print (ls : list line) (s : est) : est := MkE s.(e_k) s.(e_fs) s.(e_proc) (s.(e_out) ++ ls).

(** [uint] arguments: [offset + i] and [sz - i] wrap at 32 bits. *)
Definition loadseg (pagetable va : Z) (ip : I) (offset sz : Z) : M est Z :=
  loop (λ i,
    if i <? sz then
      pa ← K (walkaddr pagetable (u64 (va + i)));
      if pa =? 0 then panic "loadseg: address should exist" else
      let n := if u32 (sz - i) <? PGSIZE then u32 (sz - i) else PGSIZE in
      '(r, bs) ← Fs (readi ip (u32 (offset + i)) n);
      modify (λ s, MkE (set_km (λ m, mem_write m pa bs) s.(e_k)) s.(e_fs) s.(e_proc) s.(e_out));;
      if negb (r =? n) then mret (inr (-1))
      else mret (inl (u32 (i + PGSIZE)))
    else mret (inr 0)) 0.

(** The loop over program headers: [inl sz] is [goto bad] with the size so
    far, [inr sz] the size of the loaded image. *)
Definition load_segments (ip : I) (elf : elfhdr) (pagetable : Z) : M est (Z + Z) :=
  loop (λ '(i, off, sz),
    if i <? elf.(elf_phnum) then
      '(r, bs) ← Fs (readi ip (u32 off) sizeof_ph);
      if negb (r =? sizeof_ph) then mret (inr (inl sz)) else
      let ph := ph_of bs in
      let next sz := mret (inl (i + 1, s32 (off + sizeof_ph), sz)) in
      if negb (ph.(ph_type) =? ELF_PROG_LOAD) then next sz
      else if ph.(ph_memsz) <? ph.(ph_filesz) then mret (inr (inl sz))
      else if u64 (ph.(ph_vaddr) + ph.(ph_memsz)) <? ph.(ph_vaddr) then mret (inr (inl sz))
      else
        sz1 ← K (uvmalloc pagetable sz (u64 (ph.(ph_vaddr) + ph.(ph_memsz))));
        if sz1 =? 0 then mret (inr (inl sz)) else
        let sz := sz1 in
        if negb (ph.(ph_vaddr) mod PGSIZE =? 0) then mret (inr (inl sz)) else
        l ← loadseg pagetable ph.(ph_vaddr) ip (u32 ph.(ph_off)) (u32 ph.(ph_filesz));
        if l <? 0 then mret (inr (inl sz)) else next sz
    else mret (inr (inr sz))) (0, s32 elf.(elf_phoff), 0).

(** Pushing the argument strings: the addresses of the strings pushed and the
    stack pointer, or [None] for [goto bad]. *)
Definition push_strings (pagetable stackbase sp : Z) (argv : list (list Z)) : M kst (Z * list Z + unit) :=
  for_acc argv (sp, []) (λ s '(sp, ustack),
    if MAXARG <=? Z.of_nat (length ustack) then mret (inr tt) else
    let n := Z.of_nat (length s) + 1 in
    let sp := u64 (sp - n) in
    let sp := u64 (sp - sp mod 16) in
    if sp <? stackbase then mret (inr tt) else
    r ← copyout pagetable sp (s ++ [0]) n;
    if r <? 0 then mret (inr tt)
    else mret (inl (sp, ustack ++ [sp]))).

(** Then the array of pointers; [ustack] has room for [MAXARG] of them. *)
Definition push_args (pagetable stackbase sp : Z) (argv : list (list Z)) : M kst (option (Z * Z)) :=
  x ← push_strings pagetable stackbase sp argv;
  match x with
  | inr _ => mret None
  | inl (sp, ustack) =>
      let argc := Z.of_nat (length ustack) in
      if MAXARG <=? argc then undef "ustack[argc] past the end of ustack" else
      let ustack := ustack ++ [0] in
      let sp := u64 (sp - (argc + 1) * 8) in
      let sp := u64 (sp - sp mod 16) in
      if sp <? stackbase then mret None else
      r ← copyout pagetable sp (mjoin (le_bytes 8 <$> ustack)) ((argc + 1) * 8);
      if r <? 0 then mret None else mret (Some (argc, sp))
  end.

(** The two pages above the image, the lower one closed to the user, and the
    arguments: [inl sz] is [goto bad], [inr (argc, sp, sz)] success. *)
Definition setup_stack (pagetable sz : Z) (argv : list (list Z)) : M kst (Z + Z * Z * Z) :=
  let sz := PGROUNDUP sz in
  sz1 ← uvmalloc pagetable sz (u64 (sz + 2 * PGSIZE));
  if sz1 =? 0 then mret (inl sz) else
  let sz := sz1 in
  uvmclear pagetable (u64 (sz - 2 * PGSIZE));;
  let sp := sz in
  let stackbase := u64 (sp - PGSIZE) in
  x ← push_args pagetable stackbase sp argv;
  match x with
  | None => mret (inl sz)
  | Some (argc, sp) => mret (inr (argc, sp, sz))
  end.

(** The path after its last slash: [last] starts at [path] and moves past
    every slash the scan [s] meets. *)
Fixpoint last_elem (last s : list Z) : list Z :=
  match s with
  | [] => last
  | c :: s' => if c =? 47 then last_elem s' s' else last_elem last s'
  end.

(** The label [bad]; [pagetable] is 0 and [ip] [None] as long as they are not
    set. *)
Definition bad (pagetable sz : Z) (ip : option I) : M est Z :=
  when (negb (pagetable =? 0)) (K (proc_freepagetable pagetable sz));;
  match ip with
  | Some ip => Fs (iunlockput ip);; Fs end_op
  | None => mret tt
  end;;
  mret (-1).

(** The commit, from the registers on; it cannot fail. *)
Definition commit (path : list Z) (elf : elfhdr) (pagetable oldsz argc sp sz : Z) : M est Z :=
  modify (set_proc (λ p, MkEp p.(ep_pid) p.(ep_pagetable) p.(ep_sz) p.(ep_name) sp p.(ep_epc) p.(ep_sp)));;
  modify (set_proc (λ p, MkEp p.(ep_pid) p.(ep_pagetable) p.(ep_sz) (safestrcpy (last_elem path path) 16)
                           p.(ep_a1) p.(ep_epc) p.(ep_sp)));;
  oldpagetable ← gets (λ s, s.(e_proc).(ep_pagetable));
  modify (set_proc (λ p, MkEp p.(ep_pid) pagetable sz p.(ep_name) p.(ep_a1) elf.(elf_entry) sp));;
  K (proc_freepagetable oldpagetable oldsz);;
  pid ← gets (λ s, s.(e_proc).(ep_pid));
  when (pid =? 1) (ls ← K (vmprint pagetable); modify (print ls));;
  mret (s32 argc).

Definition exec (path : list Z) (argv : list (list Z)) : M est Z :=
  Fs begin_op;;
  ip ← Fs (namei path);
  match ip with
  | None => Fs end_op;; mret (-1)
  | Some ip =>
      Fs (ilock ip);;
      '(r, bs) ← Fs (readi ip 0 sizeof_elf);
      if negb (r =? sizeof_elf) then bad 0 0 (Some ip) else
      let elf := elf_of bs in
      if negb (elf.(elf_magic) =? ELF_MAGIC) then bad 0 0 (Some ip) else
      p ← gets e_proc;
      pagetable ← K (proc_pagetable p);
      if pagetable =? 0 then bad 0 0 (Some ip) else
      x ← load_segments ip elf pagetable;
      match x with
      | inl sz => bad pagetable sz (Some ip)
      | inr sz =>
          Fs (iunlockput ip);;
          Fs end_op;;
          oldsz ← gets (λ s, s.(e_proc).(ep_sz));
          y ← K (setup_stack pagetable sz argv);
          match y with
          | inl sz => bad pagetable sz None
          | inr (argc, sp, sz) => commit path elf pagetable oldsz argc sp sz
          end
      end
  end.
End exec.
Arguments est F : clear implicits.
End Exec.
