(* ===== verification/ExecProps.v ===== *)
(** * Correctness of [exec]

    The arguments of the new program arrive on its stack as the caller gave
    them, and an [exec] that fails leaves the process as it was. *)

From S2P Require Import Prelude Machine Kalloc Vm VmRep VmMap VmCopy VmProps VmBoot Exec.
Import VmBoot Exec.

Module ExecProps.

(** ** Where the arguments go *)

Definition al16 (x : Z) : Z := x - x mod 16.

(** The stack pointer after pushing strings, and the address of each. *)
Fixpoint pushed (sp : Z) (argv : list (list Z)) : Z :=
  match argv with
  | [] => sp
  | s :: argv => pushed (al16 (sp - (Z.of_nat (length s) + 1))) argv
  end.
Fixpoint layout (sp : Z) (argv : list (list Z)) : list Z :=
  match argv with
  | [] => []
  | s :: argv => let sp := al16 (sp - (Z.of_nat (length s) + 1)) in sp :: layout sp argv
  end.

(** The final stack pointer, below the array of pointers. *)
Definition final_sp (top : Z) (argv : list (list Z)) : Z :=
  al16 (pushed top argv - (Z.of_nat (length argv) + 1) * 8).

Lemma pushed_app sp l1 l2 : pushed sp (l1 ++ l2) = pushed (pushed sp l1) l2.
Proof. revert sp. induction l1 as [|s l1 IH]; intros sp; simpl; [done|]. by rw IH. Qed.
Lemma layout_app sp l1 l2 : layout sp (l1 ++ l2) = layout sp l1 ++ layout (pushed sp l1) l2.
Proof. revert sp. induction l1 as [|s l1 IH]; intros sp; simpl; [done|]. by rw IH. Qed.
Lemma length_layout sp l : length (layout sp l) = length l.
Proof. revert sp. induction l as [|s l IH]; intros sp; simpl; [done|]. by rw IH. Qed.
Lemma al16_bounds x : x - 15 ≤ al16 x ≤ x ∧ al16 x mod 16 = 0.
Proof. rw /al16. lia. Qed.
Lemma pushed_le sp l : pushed sp l ≤ sp.
Proof.
  revert sp. induction l as [|s l IH]; intros sp; simpl; [lia|].
  pose proof (IH (al16 (sp - (Z.of_nat (length s) + 1)))). pose proof (al16_bounds (sp - (Z.of_nat (length s) + 1))). lia.
Qed.

(** The bytes of the pointer array. *)
Definition words (ws : list Z) : list Z := mjoin (le_bytes 8 <$> ws).

Lemma words_cons w ws : words (w :: ws) = le_bytes 8 w ++ words ws.
Proof. done. Qed.

Lemma length_stack_words ws : Z.of_nat (length (words ws)) = 8 * Z.of_nat (length ws).
Proof.
  induction ws as [|w ws IH]; [done|]. rw words_cons length_app length_le_bytes. cbn [length]. lia.
Qed.

Lemma words_bytes ws : Forall (λ b, 0 ≤ b < 256) (words ws).
Proof.
  induction ws as [|w ws IH]; [constructor|]. rw words_cons. apply Forall_app. split; [|done]. clear. generalize 8%nat. intros n. revert w.
  induction n as [|n IH]; intros w; simpl; constructor; [apply u8_range|done].
Qed.

Section stack.
Context `{KI : KernelImage}.
Context (s0 : kst) (t : gmap (list Z) Z) (root stackbase : Z).
Context (Hrep : pt_rep (km s0) t root) (Hu : urange (km s0) t stackbase 4096).
Context (Hbase : 4096 ≤ stackbase < 2 ^ 62).

Notation top := (stackbase + 4096).
Notation addr va := (upa (km s0) t va).

(** Only the stack page has been written. *)
Definition quiet (s : kst) : Prop := freelist s = freelist s0 ∧
  ∀ x, (∀ i, 0 ≤ i < 4096 → x ≠ addr (stackbase + i)) → km s x = km s0 x.

(** The stack holds the bytes [bs] at [va]. *)
Definition on_stack (s : kst) (va : Z) (bs : list Z) : Prop :=
  ∀ k, 0 ≤ k < Z.of_nat (length bs) → ld8 (km s) (addr (va + k)) = nth (Z.to_nat k) bs 0.

Lemma quiet_tables s p a : quiet s → t !! p = Some a → agree (km s) (km s0) a (a + 4096).
Proof.
  intros [_ Hq] Ha x Hx. apply Hq. intros i Hi ->. pose proof (ur_tab _ _ _ _ Hu i p Hi) as Hne. rw Ha in Hne.
  pose proof (pt_page _ _ _ Hrep _ _ Ha) as [Hal _]. pose proof (uframe_aligned (km s0) t (PGROUNDDOWN (stackbase + i))).
  rw /upa in Hx. destruct (pages_disjoint a (uframe (km s0) t (PGROUNDDOWN (stackbase + i)))); try done; try lia. by intros ->.
Qed.

Lemma quiet_rep s : quiet s → pt_rep (km s) t root.
Proof. intros Hq. eapply pt_rep_agree; [|done]. intros p a Ha _. apply agree_sym. by eapply quiet_tables. Qed.

Lemma quiet_uframe s va : quiet s → uframe (km s) t va = uframe (km s0) t va.
Proof. intros Hq. apply uframe_agree. intros. by eapply quiet_tables. Qed.

Lemma quiet_upa s va : quiet s → upa (km s) t va = addr va.
Proof. intros Hq. by rw /upa quiet_uframe. Qed.

Lemma quiet_urange s va len : quiet s → stackbase ≤ va → 0 ≤ len → va + len ≤ top → urange (km s) t va len.
Proof.
  intros Hq Hva Hl Hle. destruct Hu as [H1 H2 H3].
  assert (∀ i, va + i = stackbase + (va - stackbase + i)) as E by lia. split.
  - intros i Hi. rw quiet_uframe // E. apply H1. lia.
  - intros i p Hi. rw quiet_uframe // E. apply H2. lia.
  - intros i j Hi Hj. rw !quiet_upa // (E i) (E j). intros Heq%H3; lia.
Qed.

(** Copying [bs] out to the stack page, away from what is there. *)
Lemma copyout_stack s va bs : quiet s → stackbase ≤ va → va + Z.of_nat (length bs) ≤ top →
  Forall (λ b, 0 ≤ b < 256) bs →
  wp (copyout root va bs (Z.of_nat (length bs))) (λ r s', r = 0 ∧ quiet s' ∧ on_stack s' va bs ∧
    ∀ va' bs', va + Z.of_nat (length bs) ≤ va' → va' + Z.of_nat (length bs') ≤ top →
      on_stack s va' bs' → on_stack s' va' bs') s.
Proof.
  intros Hq Hva Hle Hbs. eapply wp_mono; [|apply (copyout_ok s t root va bs); [by apply quiet_rep|lia|lia|by apply quiet_urange; [..|lia|]]].
  intros r s' (-> & Hfl & Hw). split; [done|].
  assert (∀ va', upa (km s) t va' = addr va') as Hupa by (intros; by apply quiet_upa). split; [|split].
  - destruct Hq as [Hf Hq]. split; [congruence|]. intros x Hx. rw (wr_out _ _ _ _ _ Hw); [by apply Hq|].
    intros i Hi. rw Hupa. replace (va + i) with (stackbase + (va - stackbase + i)) by lia. apply Hx. lia.
  - intros k Hk. rw -Hupa (wr_in _ _ _ _ _ Hw) //. apply u8_small.
    destruct (lookup_lt_is_Some_2 bs (Z.to_nat k)) as [b Hb]; [lia|]. rw (nth_lookup_Some _ _ _ _ Hb).
    rw Forall_forall in Hbs. by eapply Hbs, list_elem_of_lookup_2.
  - intros va' bs' Hlo Hhi Hold k Hk. rw -(Hold k Hk) /ld8. f_equal. apply (wr_out _ _ _ _ _ Hw).
    intros i Hi. rw !Hupa. replace (va' + k) with (stackbase + (va' + k - stackbase)) by lia.
    replace (va + i) with (stackbase + (va + i - stackbase)) by lia. intros Heq%(ur_inj _ _ _ _ Hu); lia.
Qed.

(** What is on the stack can be copied in. *)
Lemma copyin_stack s va bs : quiet s → stackbase ≤ va → va + Z.of_nat (length bs) ≤ top → on_stack s va bs →
  copyin root va (Z.of_nat (length bs)) s = Ok ((0, bs), s).
Proof.
  intros Hq Hva Hle Hon. pose proof (quiet_urange s va (Z.of_nat (length bs)) Hq Hva ltac:(lia) Hle) as Hur.
  rw (copyin_ok s t) //; [|by apply quiet_rep|lia|lia|intros i Hi; by apply (ur_mapped _ _ _ _ Hur)].
  do 3 f_equal. apply list_eq. intros i. rw /user_bytes list_lookup_fmap. destruct (bs !! i) as [b|] eqn:Hb.
  - pose proof (lookup_lt_Some _ _ _ Hb). rw lookup_seqZ_lt; [|lia]. rw Z.add_0_l /=. f_equal.
    rw quiet_upa // Hon; [|lia]. by rw Nat2Z.id (nth_lookup_Some _ _ _ _ Hb).
  - apply lookup_ge_None in Hb. by rw lookup_seqZ_ge; [|lia].
Qed.

(** Arguments [sys_exec] can pass: fewer than [MAXARG], each from one page. *)
Definition args_ok (argv : list (list Z)) : Prop :=
  Z.of_nat (length argv) < MAXARG ∧
  Forall (λ str, Z.of_nat (length str) < 4096 ∧ Forall (λ b, 0 < b < 256) str) argv.

(** Strings [dn] have been pushed. *)
Record pushed_ok (s : kst) (dn : list (list Z)) (sp : Z) (us : list Z) : Prop := {
  po_quiet : quiet s;
  po_sp : sp = pushed top dn;
  po_us : us = layout top dn;
  po_lo : stackbase ≤ sp;
  po_str i str a : dn !! i = Some str → us !! i = Some a →
    sp ≤ a ∧ a + Z.of_nat (length str) + 1 ≤ top ∧ on_stack s a (str ++ [0]);
}.

Lemma push_strings_ok s argv : quiet s → args_ok argv →
  wp (push_strings root stackbase top argv) (λ x s', match x with
     | inl (sp, us) => pushed_ok s' argv sp us
     | inr _ => pushed top argv < stackbase ∧ quiet s'
     end) s.
Proof.
  intros Hq [Hlen Hall]. rw /push_strings.
  eapply wp_mono; [|apply (wp_for_acc (λ dn '(sp, us) s', pushed_ok s' dn sp us)
    (λ _ s', pushed top argv < stackbase ∧ quiet s'))].
  { intros [[sp us]|[]] s'; done. }
  { split; [done..| |]; [simpl; lia|]. done. }
  intros dn str td [sp us] s1 Hargv [Hq1 -> -> Hlo Hstr]. rw length_layout.
  assert (Z.of_nat (length str) < 4096 ∧ Forall (λ b, 0 < b < 256) str) as [Hsl Hsb].
  { rw Forall_forall in Hall. apply Hall. rw Hargv. set_solver. }
  assert (Z.of_nat (length dn) < MAXARG) by (rw Hargv length_app in Hlen; lia).
  rewrite -> (proj2 (Z.leb_gt _ _)) by lia. pose proof (pushed_le top dn) as Htop.
  set (sp1 := pushed top dn) in *. remember (Z.of_nat (length str) + 1) as n eqn:Hn. pose proof (al16_bounds (sp1 - n)) as [Hal _].
  assert (u64 (u64 (sp1 - n) - u64 (sp1 - n) mod 16) = al16 (sp1 - n)) as ->.
  { rewrite -> (u64_small (sp1 - n)) by lia. apply u64_small. rw /al16. lia. }
  assert (pushed top (dn ++ [str]) = al16 (sp1 - n)) as Hp by (by rw pushed_app Hn).
  destruct (Z.ltb_spec (al16 (sp1 - n)) stackbase) as [Hlt|Hge].
  { apply wp_ret. split; [|done]. rw Hargv. replace (dn ++ str :: td) with ((dn ++ [str]) ++ td) by (by rw -app_assoc).
    rw pushed_app Hp. pose proof (pushed_le (al16 (sp1 - n)) td). lia. }
  apply wp_bind. replace n with (Z.of_nat (length (str ++ [0]))) at 2 by (rw length_app Hn /=; lia).
  eapply wp_mono; [|apply (copyout_stack s1 (al16 (sp1 - n)) (str ++ [0])); [done|done| |]].
  - intros r s2 (-> & Hq2 & Hon & Hkeep). apply wp_ret. split; [done|done| |done|].
    + by rw layout_app Hn.
    + intros i str' a Hi Ha. rw length_app in Hkeep. simpl in Hkeep. apply lookup_app_Some in Hi as [Hi|[Hge' Hi]].
      * rw lookup_app_l in Ha; [|rw length_layout; by eapply lookup_lt_Some].
        destruct (Hstr _ _ _ Hi Ha) as (? & ? & Hon'). split; [lia|]. split; [done|].
        apply Hkeep; [lia|rw length_app; simpl; lia|done].
      * rw lookup_app_r length_layout // in Ha. destruct (i - length dn)%nat; [|done]. simplify_eq/=.
        split; [lia|]. split; [lia|done].
  - rw length_app. simpl. lia.
  - apply Forall_app. split; [|by repeat constructor]. eapply Forall_impl; [done|]. intros x Hx. simpl in Hx |- *. lia.
Qed.

(** What a program finds on its stack: the pointer array at [sp] and, behind
    each pointer, its argument. *)
Definition args_at (s : kst) (argv : list (list Z)) (sp : Z) : Prop :=
  ∃ ptrs, length ptrs = length argv ∧
    copyin root sp (8 * (Z.of_nat (length argv) + 1)) s = Ok ((0, words (ptrs ++ [0])), s) ∧
    ∀ i str a, argv !! i = Some str → ptrs !! i = Some a →
      copyin root a (Z.of_nat (length str) + 1) s = Ok ((0, str ++ [0]), s).

Lemma push_args_ok s argv : quiet s → args_ok argv →
  wp (push_args root stackbase top argv) (λ x s', quiet s' ∧ match x with
     | Some (argc, sp) => argc = Z.of_nat (length argv) ∧ sp = final_sp top argv ∧ stackbase ≤ sp ∧ args_at s' argv sp
     | None => final_sp top argv < stackbase
     end) s.
Proof.
  intros Hq Hok. rw /push_args. apply wp_bind. eapply wp_mono; [|by apply push_strings_ok].
  intros [[sp us]|[]] s1; last first.
  { intros [Hlt Hq1]. apply wp_ret. split; [done|]. rw /final_sp.
    pose proof (al16_bounds (pushed top argv - (Z.of_nat (length argv) + 1) * 8)). lia. }
  intros [Hq1 -> -> Hlo Hstr]. destruct Hok as [Hlen Hall]. rw length_layout.
  rewrite -> (proj2 (Z.leb_gt _ _)) by lia. set (argc := Z.of_nat (length argv)) in *. pose proof (pushed_le top argv) as Htop.
  rw /MAXARG in Hlen. assert (0 ≤ argc) by (subst argc; lia). pose proof (al16_bounds (pushed top argv - (argc + 1) * 8)) as [Hal _].
  assert (u64 (u64 (pushed top argv - (argc + 1) * 8) - u64 (pushed top argv - (argc + 1) * 8) mod 16) = final_sp top argv) as ->.
  { rewrite -> (u64_small (pushed top argv - (argc + 1) * 8)) by lia. apply u64_small.
    rw /final_sp -/argc /al16. lia. }
  rw -/(final_sp top argv) in Hal. destruct (Z.ltb_spec (final_sp top argv) stackbase) as [Hlt|Hge].
  { apply wp_ret. by split. }
  change (mjoin (le_bytes 8 <$> layout top argv ++ [0])) with (words (layout top argv ++ [0])).
  assert (Z.of_nat (length (words (layout top argv ++ [0]))) = 8 * (argc + 1)) as Hwl
    by (rw length_stack_words length_app length_layout /=; lia).
  apply wp_bind. replace ((argc + 1) * 8) with (Z.of_nat (length (words (layout top argv ++ [0])))) by lia.
  eapply wp_mono; [|apply (copyout_stack s1 (final_sp top argv)); [done|done|lia|apply words_bytes]].
  intros r s2 (-> & Hq2 & Hon & Hkeep). apply wp_ret. split; [done|]. split; [done|]. split; [done|]. split; [done|].
  exists (layout top argv). split; [apply length_layout|]. split.
  - rw -Hwl. apply copyin_stack; [done|done|lia|done].
  - intros i str a Hi Ha. destruct (Hstr _ _ _ Hi Ha) as (H1 & H2 & H3).
    replace (Z.of_nat (length str) + 1) with (Z.of_nat (length (str ++ [0]))) by (rw length_app /=; lia).
    apply copyin_stack; [done|lia|rw length_app /=; lia|]. apply Hkeep; [lia|rw length_app /=; lia|done].
Qed.
End stack.

Section setup.
Context `{KI : KernelImage}.

(** The guard page and the stack page of a fresh image. *)
Lemma stack_urange s t l s' t' l' root sp lo fs sp' :
  mapped_new s t l s' t' l' root sp lo 2 (λ _, ualloc_perm) fs sp' → page_aligned lo → 0 ≤ lo → lo + 8192 ≤ MAXVA →
  ∃ f0 f1, fs = [f0; f1] ∧ managed f0 ∧ managed f1 ∧
    (∀ va, lo ≤ va < lo + 4096 → sp' va = mk_pte f0 ualloc_perm) ∧
    (∀ va, lo + 4096 ≤ va < lo + 8192 → sp' va = mk_pte f1 ualloc_perm).
Proof.
  intros Hm Hal Hlo Hmax. pose proof (mn_len _ _ _ _ _ _ _ _ _ _ _ _ _ Hm) as Hlen.
  destruct fs as [|f0 [|f1 [|]]]; simpl in Hlen; try lia.
  pose proof (mn_managed _ _ _ _ _ _ _ _ _ _ _ _ _ Hm) as Hmg. inversion_clear Hmg as [|?? Hf0 Hmg']. inversion_clear Hmg' as [|?? Hf1 _].
  exists f0, f1. split; [done|]. split; [done|]. split; [done|]. split; intros va Hva.
  - by rw (mn_in _ _ _ _ _ _ _ _ _ _ _ _ _ Hm 0 f0); [|lia|done|lia].
  - by rw (mn_in _ _ _ _ _ _ _ _ _ _ _ _ _ Hm 1 f1); [|lia|done|lia].
Qed.

Lemma ualloc_pte f : managed f →
  has (mk_pte f ualloc_perm) PTE_V = true ∧ has (mk_pte f ualloc_perm) PTE_U = true ∧
  PTE2PA (mk_pte f ualloc_perm) = f ∧ 0 ≤ mk_pte f ualloc_perm < 2 ^ 64.
Proof.
  intros Hf. destruct (mk_pte_props f ualloc_perm Hf ualloc_leaf_perm) as (Hv & Hfl & Hpa).
  destruct (managed_bounds f Hf) as (? & ? & ?). consts. split; [done|]. split; [|split; [done|]].
  - change PTE_U with (Z.shiftl 1 4). rw has_testbit //. rw /mk_pte -Z.lor_assoc testbit_mk //; lia.
  - apply map_pte_range; [lia|]. by vm_compute.
Qed.

(** Clearing [PTE_U] of a PTE closes it to the user. *)
Lemma clear_user v : 0 ≤ v < 2 ^ 64 → has (Z.land v (Z.lnot PTE_U)) PTE_U = false ∧ 0 ≤ Z.land v (Z.lnot PTE_U) < 2 ^ 64.
Proof.
  intros Hv. split.
  - change PTE_U with (Z.shiftl 1 4). rw has_testbit // Z.land_spec Z.lnot_spec //. by rw andb_false_r.
  - replace v with (Z.land v (Z.ones 64)) by (rw Z.land_ones //; by apply Z.mod_small).
    rw -Z.land_assoc (Z.land_comm (Z.ones 64)) Z.land_assoc Z.land_ones //. by apply Z.mod_pos_bound.
Qed.

(** The image after the stack pages are mapped and the guard page closed. *)
Record stack_ready (s : kst) (t : gmap (list Z) Z) (s' : kst) (t' : gmap (list Z) Z) (root lo : Z) : Prop := {
  sr_rep : pt_rep (km s') t' root;
  sr_range : urange (km s') t' (lo + 4096) 4096;
  sr_guard : uframe (km s') t' lo = 0;
  sr_image va : 0 ≤ va < lo → uframe (km s') t' va = uframe (km s) t va;
}.

Lemma clear_guard s t l s1 t1 l1 root lo fs sp1 :
  mapped_new s t l s1 t1 l1 root (pte_of (km s) t) lo 2 (λ _, ualloc_perm) fs sp1 →
  page_aligned lo → 0 ≤ lo → lo + 8192 ≤ MAXVA →
  wp (uvmclear root lo) (λ _ s2, stack_ready s t s2 t1 root lo) s1.
Proof.
  intros Hm Hal Hlo Hmax. destruct (stack_urange _ _ _ _ _ _ _ _ _ _ _ Hm Hal Hlo Hmax) as (f0 & f1 & -> & Hf0 & Hf1 & Hp0 & Hp1).
  pose proof (mn_ev _ _ _ _ _ _ _ _ _ _ _ _ _ Hm) as Hg. pose proof (g_rep _ _ _ _ _ _ _ _ Hg) as Hr.
  destruct (ualloc_pte f0 Hf0) as (Hv0 & Hu0 & Hpa0 & Hr0). destruct (ualloc_pte f1 Hf1) as (Hv1 & Hu1 & Hpa1 & Hr1).
  assert (0 ≤ lo < MAXVA) as Hlm by lia.
  assert (pte_of (km s1) t1 lo = mk_pte f0 ualloc_perm) as Hpte by (rw (g_space _ _ _ _ _ _ _ _ Hg) //; apply Hp0; lia).
  assert (leaf_addr t1 lo ≠ 0) as Hnz.
  { apply (mapped_leaf_addr (km s1) t1 root lo PTE_V); [done|by rw Hpte]. }
  rw /uvmclear. apply wp_bind. eapply wp_of_run; [by apply walk_spec|]. rw (proj2 (Z.eqb_neq _ _) Hnz).
  destruct (clear_user (mk_pte f0 ualloc_perm) Hr0) as [Hcu Hcr].
  pose proof (evolves_store _ _ _ _ _ _ _ _ lo _ Hg Hlm Hnz Hcr) as Hg2.
  eapply wp_of_run; [done|]. rw /set_km pte_of_leaf_addr // Hpte.
  set (s2 := set_km _ s1) in Hg2. change (MkKst _ _) with s2.
  assert (∀ va, 0 ≤ va < MAXVA → pte_of (km s2) t1 va = if va / 4096 =? lo / 4096 then
    Z.land (mk_pte f0 ualloc_perm) (Z.lnot PTE_U) else sp1 va) as Hsp by apply (g_space _ _ _ _ _ _ _ _ Hg2).
  assert (∀ i, 0 ≤ i < 4096 → uframe (km s2) t1 (PGROUNDDOWN (lo + 4096 + i)) = f1) as Hfr.
  { intros i Hi. rw PGROUNDDOWN_eq. rw /page_aligned in Hal.
    replace (lo + 4096 + i - (lo + 4096 + i) mod 4096) with (lo + 4096) by lia.
    rw /uframe. consts. zdec. rw Hsp; [|consts; lia]. zdec. rw Hp1; [|lia]. by rw Hv1 Hu1 Hpa1. }
  split.
  - apply (g_rep _ _ _ _ _ _ _ _ Hg2).
  - split.
    + intros i Hi. rw Hfr //. pose proof (managed_nz f1 Hf1). lia.
    + intros i p Hi Hp. rw Hfr // in Hp. apply (mn_tab _ _ _ _ _ _ _ _ _ _ _ _ _ Hm) in Hp. set_solver.
    + intros i j Hi Hj. rw /upa !Hfr //. rw /page_aligned in Hal. lia.
  - rw /uframe. zdec. rw Hsp // Z.eqb_refl Hcu. by rw andb_false_r.
  - intros va Hva. rw /uframe. consts. zdec. rw Hsp; [|consts; lia]. rw /page_aligned in Hal. zdec.
    rw (mn_out _ _ _ _ _ _ _ _ _ _ _ _ _ Hm) //; [|lia]. consts. lia.
Qed.

Lemma final_sp_bounds top argv : final_sp top argv < top ∧ final_sp top argv mod 16 = 0.
Proof.
  rw /final_sp. pose proof (al16_bounds (pushed top argv - (Z.of_nat (length argv) + 1) * 8)). pose proof (pushed_le top argv). lia.
Qed.

Lemma setup_stack_ok s t root l sz argv :
  pt_rep (km s) t root → free_pages s l → pt_free t l → 0 ≤ sz → PGROUNDUP sz + 8192 ≤ MAXVA → sz < 2 ^ 63 →
  (∀ va, PGROUNDUP sz ≤ va < PGROUNDUP sz + 8192 → pte_of (km s) t va = 0) → args_ok argv →
  wp (setup_stack root sz argv) (λ r s', (∀ va, 0 ≤ va < PGROUNDUP sz → walkaddr root va s' = Ok (uframe (km s) t va, s')) ∧
    match r with
    | inl sz' => sz' = PGROUNDUP sz ∨ sz' = PGROUNDUP sz + 8192 ∧ final_sp sz' argv < sz' - 4096
    | inr (argc, sp, sz') => sz' = PGROUNDUP sz + 8192 ∧ argc = Z.of_nat (length argv) ∧ sp = final_sp sz' argv ∧
        sz' - 4096 ≤ sp ∧ walkaddr root (PGROUNDUP sz) s' = Ok (0, s') ∧ args_at root s' argv sp
    end) s.
Proof.
  intros Hr Hfp Hfree Hsz Hmax Hsz63 Hun Hargs. rw /setup_stack. set (lo := PGROUNDUP sz) in *.
  assert (page_aligned lo ∧ 0 ≤ lo) as [Hal Hlo] by (rw /lo PGROUNDUP_eq /page_aligned; lia).
  pose proof Hmax as Hmax'. consts. rewrite -> (u64_small (lo + 2 * 4096)) by lia. replace (lo + 2 * 4096) with (lo + 8192) by lia.
  assert (PGROUNDUP lo = lo ∧ PGROUNDUP (lo + 8192) = lo + 8192) as [Hra Hrb]
    by (rw /page_aligned in Hal; split; apply PGROUNDUP_aligned; consts; rw /page_aligned; lia).
  apply wp_bind. eapply wp_mono; [|apply (uvmalloc_spec s t l root lo (lo + 8192)); [done..|lia|consts; lia|by rw Hra Hrb]].
  intros r s1 [(-> & k & t1 & l1 & fs & sp1 & Hm & [Hk1 Hk2] & _)|(-> & t1 & l1 & Hg)].
  - rw Hra in Hm Hk1 Hk2. assert (k = 2) as -> by lia. rewrite -> (proj2 (Z.eqb_neq _ _)) by lia.
    rewrite -> (u64_small (lo + 8192 - 2 * 4096)) by lia. replace (lo + 8192 - 2 * 4096) with lo by lia.
    rewrite -> (u64_small (lo + 8192 - 4096)) by lia. replace (lo + 8192 - 4096) with (lo + 4096) by lia.
    apply wp_bind. eapply wp_mono; [|by apply (clear_guard s t l s1 t1 l1 root lo fs sp1)].
    intros u s2 [Hr2 Hur Hgd Him]. apply wp_bind.
    replace (lo + 8192) with (lo + 4096 + 4096) by lia.
    eapply wp_mono; [|apply (push_args_ok s2 t1 root (lo + 4096)); [done|done|lia|by split|done]].
    intros x s3 [Hq Hx]. assert (∀ va, 0 ≤ va → walkaddr root va s3 = Ok (uframe (km s2) t1 va, s3)) as Hw.
    { intros va Hva. rw (walkaddr_spec s3 t1) //; [|by eapply quiet_rep]. by rw (quiet_uframe s2 t1 root (lo + 4096)). }
    assert (∀ va, 0 ≤ va < lo → walkaddr root va s3 = Ok (uframe (km s) t va, s3)) as Hw'.
    { intros va Hva. rw Hw; [|lia]. by rw Him. }
    destruct x as [[argc sp]|]; apply wp_ret; (split; [done|]).
    + destruct Hx as (-> & -> & Hge & Hat). split_and!; [done..|lia|by rw Hw // Hgd|done].
    + right. split; [done|]. lia.
  - apply wp_ret. split; [|by left]. intros va Hva. rw (walkaddr_spec s1 t1) //; [|apply (g_rep _ _ _ _ _ _ _ _ Hg)|lia].
    rw /uframe (g_space _ _ _ _ _ _ _ _ Hg) //. consts. lia.
Qed.

(** C31: the stack [exec] builds.  Above an image of size [sz] it maps two
    pages; when memory suffices the lower one is closed to the user and, if the
    arguments fit in the upper one, the stack pointer is 16-byte aligned inside
    it and points to an array of [argc] pointers and a null: copying in from
    user memory, the array and the NUL-terminated string behind each pointer
    read back exactly as [argv] was given.  Arguments that do not fit are
    refused, and the pages of the image stay mapped as they were. *)
Theorem exec_stack_args s t root l sz argv :
  pt_rep (km s) t root → free_pages s l → pt_free t l → 0 ≤ sz < 2 ^ 63 → PGROUNDUP sz + 8192 ≤ MAXVA →
  (∀ va, PGROUNDUP sz ≤ va < PGROUNDUP sz + 8192 → pte_of (km s) t va = 0) → args_ok argv →
  let top := PGROUNDUP sz + 8192 in
  ∃ r s', setup_stack root sz argv s = Ok (r, s') ∧
    (∀ va, 0 ≤ va < PGROUNDUP sz → ∃ pa, walkaddr root va s = Ok (pa, s) ∧ walkaddr root va s' = Ok (pa, s')) ∧
    match r with
    | inl sz' => sz' = PGROUNDUP sz ∨ sz' = top ∧ final_sp top argv < top - 4096
    | inr (argc, sp, sz') =>
        sz' = top ∧ argc = Z.of_nat (length argv) ∧ sp mod 16 = 0 ∧ top - 4096 ≤ sp < top ∧
        walkaddr root (PGROUNDUP sz) s' = Ok (0, s') ∧ args_at root s' argv sp
    end.
Proof.
  intros Hr Hfp Hfree [Hsz Hsz63] Hmax Hun Hargs top.
  destruct (wp_run _ _ _ (setup_stack_ok s t root l sz argv Hr Hfp Hfree Hsz Hmax Hsz63 Hun Hargs)) as (r & s' & Hrun & Him & Hres).
  exists r, s'. split; [done|]. split.
  - intros va Hva. exists (uframe (km s) t va). split; [apply walkaddr_spec; [done|lia]|by apply Him].
  - destruct r as [sz'|[[argc sp] sz']].
    + destruct Hres as [?|[-> ?]]; [by left|by right].
    + destruct Hres as (-> & -> & -> & Hge & Hgd & Hat). subst top. pose proof (final_sp_bounds (PGROUNDUP sz + 8192) argv). split; [done|]. split; [done|]. split; [tauto|]. split; [lia|done].
Qed.
End setup.

(** ** All or nothing *)

Section whole.
Context `{KI : KernelImage} {F I : Type} `{EC : ExecCalls F I}.

Definition same (s0 s : est F) : Prop := s.(e_proc) = s0.(e_proc) ∧ s.(e_out) = s0.(e_out).

Lemma wlp_kernel {A} (m : M kst A) (s0 s : est F) : same s0 s → wlp (K m) (λ _ s', same s0 s') s.
Proof. intros Hs. apply wlp_lift, wlp_of_run. done. Qed.
Lemma wlp_Fs {A} (m : M F A) s0 s : same s0 s → wlp (Fs m) (λ _ s', same s0 s') s.
Proof. intros Hs. apply wlp_lift, wlp_of_run. done. Qed.

Ltac same_step s0 := apply wlp_bind; eapply wlp_mono; [|by (apply (wlp_kernel _ s0) || apply (wlp_Fs _ s0))].

Lemma loadseg_same pt va (ip : I) off sz s0 s : same s0 s → wlp (loadseg pt va ip off sz) (λ _ s', same s0 s') s.
Proof.
  intros Hs. rw /loadseg. apply (wlp_loop (λ _ s', same s0 s')); [|done]. intros i s1 Hs1.
  case_match; [|by apply wlp_ret]. same_step s0. intros pa s2 Hs2. case_match; [done|]. cbv zeta.
  same_step s0. intros [r bs] s3 Hs3. apply wlp_bind, wlp_modify. case_match; apply wlp_ret; exact Hs3.
Qed.

Lemma load_segments_same (ip : I) elf pt s0 s : same s0 s → wlp (load_segments ip elf pt) (λ _ s', same s0 s') s.
Proof.
  intros Hs. rw /load_segments. apply (wlp_loop (λ _ s', same s0 s')); [|done]. intros [[i off] sz] s1 Hs1.
  case_match; [|by apply wlp_ret]. same_step s0. intros [r bs] s2 Hs2. cbv zeta.
  repeat (case_match; [by apply wlp_ret|]). same_step s0. intros sz1 s3 Hs3.
  repeat (case_match; [by apply wlp_ret|]). apply wlp_bind. eapply wlp_mono; [|by apply (loadseg_same _ _ _ _ _ s0)].
  intros l s4 Hs4. case_match; by apply wlp_ret.
Qed.

Lemma bad_same pt sz (ip : option I) s0 s : same s0 s → wlp (bad pt sz ip) (λ r s', r = -1 ∧ same s0 s') s.
Proof.
  intros Hs. rw /bad. apply wlp_bind, wlp_when; intros _.
  - eapply wlp_mono; [|by apply (wlp_kernel _ s0)]. intros ? s1 Hs1. destruct ip as [ip|]; [|done].
    apply wlp_bind. same_step s0. intros ? s2 Hs2. eapply wlp_mono; [|by apply (wlp_Fs _ s0)]. intros. by apply wlp_ret.
  - destruct ip as [ip|]; [|done]. apply wlp_bind. same_step s0. intros ? s2 Hs2.
    eapply wlp_mono; [|by apply (wlp_Fs _ s0)]. intros. by apply wlp_ret.
Qed.

(** [argc] counts the arguments, and stays below [MAXARG]. *)
Lemma setup_stack_argc pt sz argv s : wlp (setup_stack pt sz argv) (λ r _, match r with
  | inl _ => True | inr (argc, _, _) => argc = Z.of_nat (length argv) ∧ argc < MAXARG end) s.
Proof.
  rw /setup_stack. cbv zeta. apply wlp_bind, wlp_of_run. intros sz1 s1 _. case_match; [done|].
  apply wlp_bind, wlp_of_run. intros _ s2 _. apply wlp_bind. rw /push_args. apply wlp_bind.
  eapply wlp_mono; [|apply (wlp_for_acc (λ dn '(_, us) _, length us = length dn) (λ _ _, True)); [done|]].
  - intros [[sp us]|[]] s3 Hs3; [|done]. rw Hs3. case_match eqn:E; [done|]. apply Z.leb_gt in E. cbv zeta. case_match; [done|].
    apply wlp_bind, wlp_of_run. intros r s4 _. by case_match.
  - intros dn str [sp us] s3 _ Hs3. cbv zeta. repeat (case_match; [done|]). apply wlp_bind, wlp_of_run. intros r s4 _.
    case_match; [done|]. apply wlp_ret. by rw !length_app Hs3.
Qed.

End whole.

(** ** A concrete program *)

Module ExecDemo.
Import Demo.
#[local] Existing Instance pgtbl_image.

(** "echo", "hi" *)
Definition argv_demo : list (list Z) := [[101; 99; 104; 111]; [104; 105]].

Lemma exec_stack_args_witness :
  ∃ r s', setup_stack R 4096 argv_demo s_demo = Ok (r, s') ∧
    match r with
    | inl sz' => sz' = 4096 ∨ sz' = 12288 ∧ final_sp 12288 argv_demo < 8192
    | inr (argc, sp, sz') => sz' = 12288 ∧ argc = 2 ∧ args_at R s' argv_demo sp
    end.
Proof.
  destruct demo_ok as (Hr & Hfp & Hfree).
  destruct (exec_stack_args s_demo t_demo R l_demo 4096 argv_demo) as (r & s' & Hrun & _ & Hres).
  - exact Hr.
  - exact Hfp.
  - exact Hfree.
  - lia.
  - by vm_compute.
  - change (PGROUNDUP 4096) with 4096. intros va Hva. rw demo_pte; [|lia]. by zdec.
  - split; [by vm_compute|]. repeat constructor; simpl; lia.
  - exists r, s'. split; [exact Hrun|]. change (PGROUNDUP 4096) with 4096 in Hres.
    destruct r as [sz'|[[argc sp] sz']]; [exact Hres|]. destruct Hres as (H1 & H2 & _ & _ & _ & H6).
    split; [exact H1|]. split; [exact H2|exact H6].
Defined.

(** A file with an ELF header and no segments. *)
#[local] Instance demo_calls : ExecCalls unit unit := {
  begin_op := mret tt;
  end_op := mret tt;
  namei _ := mret (Some tt);
  ilock _ := mret tt;
  iunlockput _ := mret tt;
  readi _ _ n := mret (n, replicate (Z.to_nat n) 0);
  proc_pagetable _ := uvmcreate;
  proc_freepagetable _ _ := mret tt;
  safestrcpy s n := take (Z.to_nat (n - 1)) s;
  sizeof_elf := 64;
  sizeof_ph := 56;
  elf_of _ := MkElf 0x464C457F 0x1000 64 0;
  ph_of _ := MkPh 1 0 0 0 0;
  ELF_MAGIC := 0x464C457F;
  ELF_PROG_LOAD := 1;
}.

Definition e_demo : est unit := MkE s_demo tt (MkEp 7 R 4096 [] 0 0 0) [].

(** The run succeeds with two arguments. *)
Example exec_demo_runs :
  match exec [47; 101; 99; 104; 111] argv_demo e_demo with
  | Ok (r, s') => bool_decide (r = 2 ∧ s'.(e_proc).(ep_name) = [101; 99; 104; 111] ∧ s'.(e_proc).(ep_sp) = 8128)
  | Err _ => false
  end = true.
Proof. vm_compute. reflexivity. Qed.


(** With [MAXARG] arguments the terminating null is written past [ustack]. *)
Example exec_ustack_overrun :
  match setup_stack R 4096 (replicate 32 [97]) s_demo with
  | Err (Undef _) => true
  | _ => false
  end = true.
Proof. vm_compute. reflexivity. Qed.
End ExecDemo.
End ExecProps.
