(* ===== verification/Mmap.v ===== *)
(** * Memory-mapped files (mmap lab)

    [sys_mmap] and [sys_munmap] of [sysfile.c], the page-fault branch of
    [usertrap] in [trap.c], and the two page-table operations that the lab
    changes in [vm.c], over the page tables of [Vm] (the rest of the lab's
    [vm.c] and [kalloc.c] is that of the pagetables lab).  Files are the class
    [MmapCalls].  [struct vma] and [VMASIZE] are declared in headers that the
    lab's directory does not have: the fields are those the code uses, at the
    width of the values it stores, the table size is a parameter. *)

From S2P Require Import Prelude Machine Kalloc Vm.

Module Mmap.

Definition PROT_READ : Z := 1.
Definition PROT_WRITE : Z := 2.
Definition PROT_EXEC : Z := 4.
Definition MAP_SHARED : Z := 1.
Definition NOFILE : Z := 16.

(** Page rounding of an [int]: the macro [PGROUNDUP] at that width. *)
Definition PGROUNDUP_int (n : Z) : Z := Z.land (s32 (n + 4096 - 1)) (Z.lnot (4096 - 1)).

Record vma := MkVma {
  v_used : Z; v_addr : Z; v_length : Z; v_prot : Z; v_flags : Z;
  v_fd : Z; v_file : nat; v_offset : Z;
}.

Record mproc := MkMp {
  mp_pagetable : Z; mp_sz : Z; mp_killed : Z;
  mp_args : list Z;             (* a0 to a5 of the trapframe *)
  mp_tfsp : Z;                  (* sp of the trapframe *)
  mp_ofile : list (option nat);
  mp_vmas : list vma;
}.

(** Files by their index; [filewrite] reads the user memory it is given. *)
Class MmapCalls (F : Type) := {
  VMASIZE : nat;
  filedup : nat → M F unit;
  fileclose : nat → M F unit;
  filewrite : nat → Z → Z → kst → M F Z;
  writable : F → nat → bool;
  ilock : nat → M F unit;
  iunlock : nat → M F unit;
  readi : nat → Z → Z → M F (Z * list Z);     (* offset, size: result and bytes *)
}.

Section mmap.
Context `{KI : KernelImage} {F : Type} `{MC : MmapCalls F}.

Record mst := MkM { m_k : kst; m_p : mproc; m_f : F }.

Definition K {A} (m : M kst A) : M mst A := lift m_k (λ k s, MkM k s.(m_p) s.(m_f)) m.
Definition Fl {A} (m : M F A) : M mst A := lift m_f (λ f s, MkM s.(m_k) s.(m_p) f) m.
Definition set_p (f : mproc → mproc) (s : mst) : mst := MkM s.(m_k) (f s.(m_p)) s.(m_f).

Definition set_sz (z : Z) (p : mproc) : mproc :=
  MkMp p.(mp_pagetable) z p.(mp_killed) p.(mp_args) p.(mp_tfsp) p.(mp_ofile) p.(mp_vmas).
Definition kill (p : mproc) : mproc :=
  MkMp p.(mp_pagetable) p.(mp_sz) 1 p.(mp_args) p.(mp_tfsp) p.(mp_ofile) p.(mp_vmas).
Definition set_vmas (f : list vma → list vma) (p : mproc) : mproc :=
  MkMp p.(mp_pagetable) p.(mp_sz) p.(mp_killed) p.(mp_args) p.(mp_tfsp) p.(mp_ofile) (f p.(mp_vmas)).

(** ** The page-table operations of the lab *)

(** Pages that are not present are skipped. *)
Definition uvmunmap (pagetable va npages : Z) (do_free : bool) : M kst unit :=
  if negb (va mod PGSIZE =? 0) then panic "uvmunmap: not aligned" else
  loop (λ a,
    if a <? u64 (va + npages * PGSIZE) then
      pte ← walk pagetable a false;
      if pte =? 0 then panic "uvmunmap: walk" else
      v ← gets (λ s, ld64 s.(km) pte);
      if negb (has v PTE_V) then mret (inl (u64 (a + PGSIZE))) else
      if PTE_FLAGS v =? PTE_V then panic "uvmunmap: not a leaf" else
      when do_free (kfree (PTE2PA v));;
      modify (set_km (λ m, st64 m pte 0));;
      mret (inl (u64 (a + PGSIZE)))
    else mret (inr tt)) va.

Definition uvmcopy (old new sz : Z) : M kst Z :=
  loop (λ i,
    let err := uvmunmap new 0 (i / PGSIZE) true;; mret (inr (-1)) in
    if i <? sz then
      pte ← walk old i false;
      if pte =? 0 then panic "uvmcopy: pte should exist" else
      v ← gets (λ s, ld64 s.(km) pte);
      if negb (has v PTE_V) then mret (inl (u64 (i + PGSIZE))) else
      let pa := PTE2PA v in
      let flags := PTE_FLAGS v in
      mem ← kalloc;
      if mem =? 0 then err else
      modify (set_km (λ m, memmove m mem pa PGSIZE));;
      r ← mappages new i PGSIZE mem flags;
      if negb (r =? 0) then kfree mem;; err
      else mret (inl (u64 (i + PGSIZE)))
    else mret (inr 0)) 0.

(** ** System calls *)

Definition argraw (n : nat) : M mst Z :=
  if (n <? 6)%nat then gets (λ s, default 0 (s.(m_p).(mp_args) !! n)) else panic "argraw".
Definition argint (n : nat) : M mst Z := a ← argraw n; mret (s32 a).
Definition argaddr (n : nat) : M mst Z := argraw n.
Definition argfd (n : nat) : M mst (option (Z * nat)) :=
  fd ← argint n;
  if (fd <? 0) || (NOFILE <=? fd) then mret None else
  o ← gets (λ s, s.(m_p).(mp_ofile));
  match o !! Z.to_nat fd with
  | Some (Some f) => mret (Some (fd, f))
  | _ => mret None
  end.

Definition sys_mmap : M mst Z :=
  argaddr 0;;
  length ← argint 1;
  prot ← argint 2;
  flags ← argint 3;
  ff ← argfd 4;
  match ff with
  | None => mret (-1)
  | Some (fd, file) =>
      offset ← argint 5;
      w ← gets (λ s, writable s.(m_f) file);
      if negb w && negb (Z.land prot PROT_WRITE =? 0) && (flags =? MAP_SHARED) then mret (-1) else
      let length := PGROUNDUP_int length in
      sz ← gets (λ s, s.(m_p).(mp_sz));
      if u64 (MAXVA - length) <? sz then mret (-1) else
      r ← for_each (seq 0 VMASIZE) (λ i,
        vs ← gets (λ s, s.(m_p).(mp_vmas));
        match vs !! i with
        | None => undef "vmas"
        | Some v =>
            if v.(v_used) =? 0 then
              modify (set_p (set_vmas (<[i := MkVma 1 sz length prot flags fd file offset]>)));;
              Fl (filedup file);;
              modify (set_p (set_sz (u64 (sz + length))));;
              mret (Some sz)
            else mret None
        end);
      mret (default (-1) r)
  end.

(** The search loop of [sys_munmap]. *)
Definition munmap_find (addr : Z) (vs : list vma) : option nat :=
  fst <$> list_find (λ v, (v.(v_addr) <=? addr) || (addr <? u64 (v.(v_addr) + v.(v_length))) = true) vs.

Definition sys_munmap : M mst Z :=
  addr ← argaddr 0;
  length ← argint 1;
  let addr := PGROUNDDOWN addr in
  let length := PGROUNDUP_int length in
  vs ← gets (λ s, s.(m_p).(mp_vmas));
  match munmap_find addr (take VMASIZE vs) with
  | None => mret 0
  | Some i =>
      match vs !! i with
      | None => undef "vmas"
      | Some v =>
          if v.(v_addr) =? addr then
            let v := MkVma v.(v_used) (u64 (v.(v_addr) + length)) (s32 (v.(v_length) - length)) v.(v_prot) v.(v_flags)
                       v.(v_fd) v.(v_file) v.(v_offset) in
            modify (set_p (set_vmas (<[i := v]>)));;
            when (negb (Z.land v.(v_flags) MAP_SHARED =? 0))
              (k ← gets m_k; Fl (filewrite v.(v_file) addr length k);; mret tt);;
            pt ← gets (λ s, s.(m_p).(mp_pagetable));
            K (uvmunmap pt addr (u64 (Z.quot length PGSIZE)) true);;
            when (v.(v_length) =? 0)
              (Fl (fileclose v.(v_file));;
               modify (set_p (set_vmas (<[i := MkVma 0 v.(v_addr) v.(v_length) v.(v_prot) v.(v_flags)
                                                 v.(v_fd) v.(v_file) v.(v_offset)]>))));;
            mret 0
          else mret 0
      end
  end.

(** ** Page faults *)

(** The search loop of the handler. *)
Definition fault_find (va : Z) (vs : list vma) : option nat :=
  fst <$> list_find (λ v, (v.(v_used) =? 1) && (v.(v_addr) <=? va) && (va <? u64 (v.(v_addr) + v.(v_length))) = true) vs.

(** [PTE_U] and the permissions of the mapping. *)
Definition prot_flags (prot : Z) : Z :=
  let flag := PTE_U in
  let flag := if negb (Z.land prot PROT_READ =? 0) then Z.lor flag PTE_R else flag in
  let flag := if negb (Z.land prot PROT_WRITE =? 0) then Z.lor flag PTE_W else flag in
  if negb (Z.land prot PROT_EXEC =? 0) then Z.lor flag PTE_X else flag.

(** The branch for load and store page faults; [va] is [stval]. *)
Definition page_fault (va : Z) : M mst unit :=
  p ← gets m_p;
  if (p.(mp_sz) <=? va) || (MAXVA <? va) || (PGROUNDUP va =? PGROUNDDOWN p.(mp_tfsp))
  then modify (set_p kill)
  else
    match fault_find va (take VMASIZE p.(mp_vmas)) with
    | None => mret tt
    | Some i =>
        match p.(mp_vmas) !! i with
        | None => undef "vmas"
        | Some v =>
            let va := PGROUNDDOWN va in
            let offset := u64 (va - v.(v_addr)) in
            mem ← K kalloc;
            if mem =? 0 then modify (set_p kill)
            else
              K (modify (set_km (λ m, memset m mem 0 PGSIZE)));;
              Fl (ilock v.(v_file));;
              '(_, bs) ← Fl (readi v.(v_file) (u32 offset) PGSIZE);
              K (modify (set_km (λ m, mem_write m mem bs)));;
              Fl (iunlock v.(v_file));;
              r ← K (mappages p.(mp_pagetable) va PGSIZE mem (prot_flags v.(v_prot)));
              if negb (r =? 0) then
                K (kfree mem);;
                modify (set_p kill)
              else mret tt
        end
    end.
End mmap.
Arguments mst F : clear implicits.
End Mmap.
