(* ===== verification/MmapProps.v ===== *)
(** * Correctness of memory-mapped files

    A page fault in a mapping brings in the page of the file; [mmap] reserves
    fresh addresses; what [munmap] really does. *)

From S2P Require Import Prelude Machine Kalloc Vm VmRep VmMap VmCopy VmProps Mmap.
Import Mmap.

Module MmapProps.

(** What the handler relies on in the file system: locking and reading a file
    succeed and return its bytes. *)
Class MmapLaws (F : Type) `{MC : MmapCalls F} := {
  content : F → nat → list Z;
  filedup_ok f i : ∃ f', filedup i f = Ok (tt, f');
  ilock_ok f i : ∃ f', ilock i f = Ok (tt, f') ∧ content f' = content f;
  iunlock_ok f i : ∃ f', iunlock i f = Ok (tt, f') ∧ content f' = content f;
  readi_ok f i off n : 0 ≤ off → 0 ≤ n → ∃ f' r, content f' = content f ∧
    readi i off n f = Ok ((r, take (Z.to_nat n) (drop (Z.to_nat off) (content f i))), f');
}.

(** The page of a file at [off], zero beyond its end. *)
Definition file_page (bs : list Z) (off : Z) : list Z :=
  (λ k, nth (Z.to_nat (off + k)) bs 0) <$> seqZ 0 4096.

Section props.
Context `{KI : KernelImage} {F : Type} `{ML : MmapLaws F}.

Lemma wp_lift {S T A} (get : S → T) (set : T → S → S) (m : M T A) (Q : A → S → Prop) s :
  wp m (λ a x, Q a (set x s)) (get s) → wp (lift get set m) Q s.
Proof. rw /wp /lift. by destruct (m (get s)) as [[??]|]. Qed.

Lemma prot_flags_ok prot : leaf_perm (prot_flags prot) ∧ has (prot_flags prot) PTE_U = true.
Proof. rw /prot_flags /leaf_perm. by repeat case_match; (split; [split; [by vm_compute|by intros ?%(f_equal (λ z, z =? 1))]|by vm_compute]). Qed.

(** A fresh page of the file in memory: zeroed, then written. *)
Lemma page_contents m b bs off i :
  Forall (λ b, 0 ≤ b < 256) bs → 0 ≤ off → 0 ≤ i < 4096 →
  ld8 (mem_write (memset m b 0 4096) b (take 4096 (drop (Z.to_nat off) bs))) (b + i) = nth (Z.to_nat (off + i)) bs 0.
Proof.
  intros Hbs Hoff Hi. rw ld8_mem_write. replace (Z.to_nat (b + i - b)) with (Z.to_nat i) by lia.
  assert (∀ k, 0 ≤ nth k bs 0 < 256) as Hb.
  { intros k. destruct (bs !! k) as [x|] eqn:E.
    - rw (nth_lookup_Some _ _ _ _ E). rw Forall_forall in Hbs. by eapply Hbs, list_elem_of_lookup_2.
    - rw nth_overflow; [lia|]. by apply lookup_ge_None. }
  destruct (Z.ltb_spec i (Z.of_nat (length (take 4096 (drop (Z.to_nat off) bs))))) as [Hlt|Hge].
  - rewrite -> (proj2 (Z.leb_le b (b + i))) by lia. rewrite -> (proj2 (Z.ltb_lt (b + i) _)) by lia. simpl.
    rw nth_take; [|lia]. rw nth_drop u8_small //. do 2 f_equal. lia.
  - rewrite -> (proj2 (Z.ltb_ge (b + i) _)) by lia. rw andb_false_r /ld8 /memset.
    rewrite -> (proj2 (Z.leb_le b (b + i))), (proj2 (Z.ltb_lt (b + i) _)) by lia. simpl. change (u8 (u8 0)) with 0.
    rw length_take length_drop in Hge. rw nth_overflow //. lia.
Qed.

(** What the handler leaves for the faulting page at [va0]: the page of the
    file, or a killed process and the page table as it was. *)
Definition loaded (k : kst) t (root va0 : Z) (perm : Z) (page : list Z) (k' : kst) : Prop :=
  (∃ f, f ≠ 0 ∧ lookup_pte root va0 k' = Ok (mk_pte f perm, k')) ∧
  copyin root va0 4096 k' = Ok ((0, page), k') ∧
  (∀ va, 0 ≤ va < MAXVA → va / 4096 ≠ va0 / 4096 → lookup_pte root va k' = Ok (pte_of (km k) t va, k')).
Definition unmapped (k : kst) t (root : Z) (k' : kst) : Prop :=
  ∀ va, 0 ≤ va < MAXVA → lookup_pte root va k' = Ok (pte_of (km k) t va, k').

Lemma unmapped_evolves k t l k' t' l' root sp :
  evolves k t l k' t' l' root sp → (∀ va, 0 ≤ va < MAXVA → sp va = pte_of (km k) t va) → unmapped k t root k'.
Proof.
  intros Hg Hsp va Hva. rw (lookup_pte_spec _ t') //; [|apply Hg]. by rw (g_space _ _ _ _ _ _ _ _ Hg) // Hsp.
Qed.

(** The space with one new page. *)
Lemma loaded_mapped k t l k' t' l' root va0 perm b sp' page :
  mapped_new k t l k' t' l' root (pte_of (km k) t) va0 1 (λ _, perm) [b] sp' → leaf_perm perm → has perm PTE_U = true →
  page_aligned va0 → 0 ≤ va0 → va0 + 4096 ≤ MAXVA → length page = 4096%nat →
  (∀ i, 0 ≤ i < 4096 → ld8 (km k') (b + i) = nth (Z.to_nat i) page 0) →
  loaded k t root va0 perm page k'.
Proof.
  intros Hm Hp Hpu Hal H0 Hmax Hlen Hpage. pose proof (mn_ev _ _ _ _ _ _ _ _ _ _ _ _ _ Hm) as Hg.
  pose proof (mn_managed _ _ _ _ _ _ _ _ _ _ _ _ _ Hm) as Hmg. inversion_clear Hmg as [|?? Hb _].
  assert (∀ va, va0 ≤ va < va0 + 4096 → pte_of (km k') t' va = mk_pte b perm) as Hin.
  { intros va Hva. rw (g_space _ _ _ _ _ _ _ _ Hg); [|consts; lia].
    by rw (mn_in _ _ _ _ _ _ _ _ _ _ _ _ _ Hm 0 b); [|lia|done|lia]. }
  destruct (mk_pte_props b perm Hb Hp) as (Hv & Hfl & Hpa). pose proof (managed_nz b Hb) as Hbz.
  assert (has (mk_pte b perm) PTE_U = true) as Hu.
  { change PTE_U with (Z.shiftl 1 4) in Hpu |- *. rw has_testbit // in Hpu. rw has_testbit // /mk_pte.
    destruct (managed_bounds b Hb) as (_ & ? & ?). destruct Hp as [Hp _]. consts.
    rw Z.lor_spec testbit_mk; [|lia..]. by rw Hpu. }
  assert (∀ i, 0 ≤ i < 4096 → uframe (km k') t' (PGROUNDDOWN (va0 + i)) = b) as Hfr.
  { intros i Hi. rw PGROUNDDOWN_eq. rw /page_aligned in Hal. replace (va0 + i - (va0 + i) mod 4096) with va0 by lia.
    rw /uframe. rewrite -> (proj2 (Z.leb_gt MAXVA va0)) by (consts; lia). rw Hin; [|lia]. by rw Hv Hu Hpa. }
  split_and!.
  - exists b. split; [lia|]. rw (lookup_pte_spec _ t') //; [|apply Hg|consts; lia]. by rw Hin; [|lia].
  - rw (copyin_ok k' t') //; [|apply Hg|intros i Hi; rw Hfr //; lia]. do 3 f_equal. apply list_eq. intros i.
    rw /user_bytes list_lookup_fmap. destruct (page !! i) as [x|] eqn:Hx.
    + pose proof (lookup_lt_Some _ _ _ Hx). rw lookup_seqZ_lt; [|lia]. rw Z.add_0_l /= /upa Hfr; [|lia].
      rw /page_aligned in Hal. replace ((va0 + Z.of_nat i) mod 4096) with (Z.of_nat i) by lia.
      rw Hpage; [|lia]. by rw Nat2Z.id (nth_lookup_Some _ _ _ _ Hx).
    + apply lookup_ge_None in Hx. by rw lookup_seqZ_ge; [|lia].
  - intros va Hva Hne. rw (lookup_pte_spec _ t') //; [|apply Hg]. rw (g_space _ _ _ _ _ _ _ _ Hg) //.
    rw (mn_out _ _ _ _ _ _ _ _ _ _ _ _ _ Hm) //. rw /page_aligned in Hal. lia.
Qed.

(** Mapping the prepared page [b], or giving it back. *)
Lemma map_prepared k t l root va0 perm b k1 l1 page :
  pt_rep (km k) t root → free_pages k (b :: l1) → pt_free t (b :: l1) → l = b :: l1 →
  evolves k t l k1 t l1 root (pte_of (km k) t) →
  leaf_perm perm → has perm PTE_U = true → page_aligned va0 → 0 ≤ va0 → va0 + 4096 ≤ MAXVA →
  (∀ va, va0 ≤ va < va0 + 4096 → pte_of (km k) t va = 0) → length page = 4096%nat →
  (∀ i, 0 ≤ i < 4096 → ld8 (km k1) (b + i) = nth (Z.to_nat i) page 0) →
  wp (mappages root va0 PGSIZE b perm) (λ r k2, r = 0 ∧ loaded k t root va0 perm page k2 ∨
    r = -1 ∧ wp (kfree b) (λ _ k3, unmapped k t root k3) k2) k1.
Proof.
  intros Hr Hfp Hfree -> Hg1 Hp Hpu Hal H0 Hmax Hun Hlen Hpage.
  assert (mapped_new k t (b :: l1) k t (b :: l1) root (pte_of (km k) t) va0 0 (λ _, perm) [] (pte_of (km k) t)) as Hm0.
  { split; simpl; [by apply evolves_refl|done|apply Hfp|constructor|set_solver|set_solver|done|intros; lia]. }
  destruct (mapped_new_private _ _ _ _ _ _ _ _ _ _ _ _ _ b b Hm0) as ([Hbal _] & _ & Hbl & Hbt & _); [by left|].
  replace va0 with (va0 + 4096 * 0) at 1 by lia.
  eapply wp_mono; [|eapply (mapped_new_extend _ _ _ _ _ _ _ _ _ _ (λ _, perm));
    [exact Hm0|exact Hg1|done|done|lia|lia|done|intros va Hva; apply Hun; lia]].
  intros r k2 (t2 & l2 & Hfr & [[-> [sp2 Hm]]|(-> & Hm & Hbm & Hbn & Hbp & Hbt2)]); simpl.
  - left. split; [done|]. apply (loaded_mapped _ _ _ _ _ _ _ _ _ b _ _ Hm); try done. intros i Hi. rw -Hpage // /ld8. f_equal.
    apply (Hfr b); [done|done|done|lia].
  - right. split; [done|]. eapply wp_mono; [|eapply evolves_kfree; [apply Hm|done|by rw app_nil_l in Hbn|done|done]].
    intros u k3 [Hg3 _]. eapply unmapped_evolves; [exact Hg3|done].
Qed.

Lemma length_file_page bs off : length (file_page bs off) = 4096%nat.
Proof. by rw /file_page length_fmap length_seqZ. Qed.
Lemma nth_file_page bs off i : 0 ≤ i < 4096 → nth (Z.to_nat i) (file_page bs off) 0 = nth (Z.to_nat (off + i)) bs 0.
Proof.
  intros Hi. apply nth_lookup_Some. rw /file_page list_lookup_fmap lookup_seqZ_lt; [|lia]. simpl. do 2 f_equal. lia.
Qed.


(** ** [mmap] *)

(** The used mappings lie below the size of the process and do not overlap. *)
Record regions_ok (p : mproc) : Prop := {
  ro_sz : 0 ≤ p.(mp_sz) ≤ MAXVA;
  ro_len : length p.(mp_vmas) = VMASIZE;
  ro_in i v : p.(mp_vmas) !! i = Some v → v.(v_used) ≠ 0 →
    0 ≤ v.(v_addr) ∧ 0 ≤ v.(v_length) ∧ v.(v_addr) + v.(v_length) ≤ p.(mp_sz);
  ro_disj i j v v' : i ≠ j → p.(mp_vmas) !! i = Some v → p.(mp_vmas) !! j = Some v' →
    v.(v_used) ≠ 0 → v'.(v_used) ≠ 0 →
    v.(v_addr) + v.(v_length) ≤ v'.(v_addr) ∨ v'.(v_addr) + v'.(v_length) ≤ v.(v_addr);
}.

Lemma PGROUNDUP_int_eq n : 0 ≤ n ≤ 2 ^ 31 - 4096 →
  PGROUNDUP_int n = n + 4095 - (n + 4095) mod 4096 ∧ n ≤ PGROUNDUP_int n < 2 ^ 31.
Proof.
  intros Hn. rw /PGROUNDUP_int. rewrite -> (s32_small (n + 4096 - 1)) by lia.
  change (4096 - 1) with (2 ^ 12 - 1). rw land_lnot_ones //. change (2 ^ 12) with 4096.
  replace (n + 4096 - 1) with (n + 4095) by lia. lia.
Qed.

(** A mapping added at the end of the process. *)
Lemma regions_add p i len prot flags fd file off : regions_ok p → 0 ≤ len → p.(mp_sz) + len ≤ MAXVA →
  regions_ok (set_sz (p.(mp_sz) + len) (set_vmas (<[i := MkVma 1 p.(mp_sz) len prot flags fd file off]>) p)).
Proof.
  intros [Hsz Hl Hin Hd] Hlen Hmax. split; cbn [set_sz set_vmas mp_sz mp_vmas].
  - lia.
  - by rw length_insert.
  - intros j v Hj Hu. destruct (decide (i = j)) as [->|Hne].
    + pose proof (lookup_lt_Some _ _ _ Hj) as Hlt. rw length_insert in Hlt. rewrite -> list_lookup_insert_eq in Hj by done. simplify_eq/=. lia.
    + rw list_lookup_insert_ne // in Hj. specialize (Hin _ _ Hj Hu). lia.
  - intros j j' v v' Hne Hj Hj' Hu Hu'.
    assert (∀ x, <[i := MkVma 1 p.(mp_sz) len prot flags fd file off]> p.(mp_vmas) !! i = Some x → v_addr x = p.(mp_sz)) as Hnew.
    { intros x Hx. pose proof (lookup_lt_Some _ _ _ Hx) as Hlt. rw length_insert in Hlt.
      rewrite -> list_lookup_insert_eq in Hx by done. by simplify_eq. }
    destruct (decide (i = j)) as [->|H1]; [|destruct (decide (i = j')) as [->|H2]].
    + rw list_lookup_insert_ne // in Hj'. specialize (Hin _ _ Hj' Hu'). rw (Hnew _ Hj). lia.
    + rw list_lookup_insert_ne // in Hj. specialize (Hin _ _ Hj Hu). rw (Hnew _ Hj'). lia.
    + rw !list_lookup_insert_ne // in Hj, Hj'. by eapply (Hd j j').
Qed.

(** [mmap] of a length that is not negative never panics; it fails and
    changes nothing, or reserves addresses above every mapping and above the
    old size of the process, rounded up to pages. *)
Theorem mmap_reserves (s : mst F) len : regions_ok s.(m_p) →
  s32 (default 0 (s.(m_p).(mp_args) !! 1%nat)) = len → 0 ≤ len ≤ 2 ^ 31 - 4096 →
  ∃ r s', sys_mmap s = Ok (r, s') ∧ regions_ok s'.(m_p) ∧
    (r = -1 ∧ s' = s ∨
     r = s.(m_p).(mp_sz) ∧ s'.(m_p).(mp_sz) = r + PGROUNDUP_int len ∧
     ∃ i v, s'.(m_p).(mp_vmas) = <[i := v]> s.(m_p).(mp_vmas) ∧ v.(v_addr) = r ∧ v.(v_length) = PGROUNDUP_int len).
Proof.
  intros Hok Hlen Hn. destruct (PGROUNDUP_int_eq len Hn) as [_ Hup].
  set (Q := λ (r : Z) (s' : mst F), regions_ok s'.(m_p) ∧ (r = -1 ∧ s' = s ∨
     r = s.(m_p).(mp_sz) ∧ s'.(m_p).(mp_sz) = r + PGROUNDUP_int len ∧
     ∃ i v, s'.(m_p).(mp_vmas) = <[i := v]> s.(m_p).(mp_vmas) ∧ v.(v_addr) = r ∧ v.(v_length) = PGROUNDUP_int len)).
  enough (wp sys_mmap Q s) as (r & s' & Hrun & HQ)%wp_run by (by exists r, s').
  assert (Q (-1) s) as Hfail by (split; [done|by left]).
  rw /sys_mmap. apply wp_gets_bind. do 3 apply wp_bind, wp_gets_bind, wp_ret. rw Hlen.
  apply wp_bind. rw /argfd. apply wp_bind, wp_gets_bind, wp_ret. case_match; [by apply wp_ret|].
  apply wp_gets_bind. case_match; [|by apply wp_ret]. case_match; [|by apply wp_ret]. apply wp_ret.
  apply wp_bind, wp_gets_bind, wp_ret. apply wp_gets_bind. case_match; [by apply wp_ret|]. apply wp_gets_bind.
  destruct (ro_sz _ Hok) as [Hs0 Hs1]. consts. rewrite -> (u64_small (274877906944 - PGROUNDUP_int len)) by lia.
  destruct (Z.ltb_spec (274877906944 - PGROUNDUP_int len) s.(m_p).(mp_sz)) as [|Hfit]; [by apply wp_ret|].
  apply wp_bind. eapply wp_mono; [|apply (wp_for_each (λ _ s', s' = s) Q); [done|]].
  { intros [r|] s' H'; apply wp_ret; [done|by subst s']. }
  intros dn i td s1 Hseq ->. apply wp_gets_bind.
  assert (i < VMASIZE)%nat as Hi by (by apply seq_prefix in Hseq as [? _]).
  destruct (lookup_lt_is_Some_2 s.(m_p).(mp_vmas) i) as [v Hv]; [by rw (ro_len _ Hok)|]. rw Hv.
  case_match; [|by apply wp_ret]. apply wp_modify_bind. apply wp_bind, wp_lift. cbn [m_f set_p].
  match goal with |- context [filedup ?f] => destruct (filedup_ok s.(m_f) f) as (f' & Hf') end.
  eapply wp_of_run; [exact Hf'|]. apply wp_modify_bind, wp_ret. rewrite -> u64_small by lia. split.
  - cbn [m_p set_p]. by apply regions_add; [|lia|consts; lia].
  - right. split; [done|]. split; [done|]. by eexists i, _.
Qed.

(** ** [munmap] *)

(** Only the mapping in the first entry of the table can be unmapped: the test
    [addr >= start || addr < end] holds of that entry for every address, so
    for any address but its start the call returns 0 and does nothing. *)
Theorem munmap_only_first (s : mst F) v : (0 < VMASIZE)%nat → s.(m_p).(mp_vmas) !! 0%nat = Some v →
  0 ≤ v.(v_addr) → 0 ≤ v.(v_length) → v.(v_addr) + v.(v_length) < 2 ^ 64 →
  PGROUNDDOWN (default 0 (s.(m_p).(mp_args) !! 0%nat)) ≠ v.(v_addr) →
  sys_munmap s = Ok (0, s).
Proof.
  intros Hsize Hv Ha Hl Hs Hne. rw /sys_munmap /argaddr /argint /argraw. wp_unfold.
  set (addr := PGROUNDDOWN _) in *. assert (munmap_find addr (take VMASIZE s.(m_p).(mp_vmas)) = Some 0%nat) as ->.
  { destruct (mp_vmas (m_p s)) as [|v0 vs]; [done|]. destruct VMASIZE; [lia|]. simplify_eq/=. rw /munmap_find /=.
    rewrite -> decide_True; [done|]. rw u64_small; [|lia]. zbool; (done || lia). }
  rw Hv. by rewrite -> (proj2 (Z.eqb_neq _ _)) by done.
Qed.
End props.

(** ** A mapped file of three bytes *)

Module MmapDemo.
Import Demo.
#[local] Existing Instance pgtbl_image.

Definition demo_file : list Z := [104; 105; 10].

#[local] Instance demo_calls : MmapCalls unit := {
  VMASIZE := 16;
  filedup _ := mret tt;
  fileclose _ := mret tt;
  filewrite _ _ n _ := mret n;
  writable _ _ := true;
  ilock _ := mret tt;
  iunlock _ := mret tt;
  readi _ off n := mret (n, take (Z.to_nat n) (drop (Z.to_nat off) demo_file));
}.

#[local] Program Instance demo_laws : MmapLaws unit := { content _ _ := demo_file }.
Next Obligation. intros [] ?. by exists tt. Qed.
Next Obligation. intros [] ?. by exists tt. Qed.
Next Obligation. intros [] ?. by exists tt. Qed.
Next Obligation. intros [] i off n _ _. by exists tt, n. Qed.

Definition no_vma : vma := MkVma 0 0 0 0 0 0 0 0.
Definition vma_demo : vma := MkVma 1 4096 4096 3 1 3 0 0.
Definition mm_demo : mst unit :=
  MkM s_demo (MkMp R 8192 0 [4096; 4096; 3; 1; 3; 0] 0x4000 [] (vma_demo :: replicate 15 no_vma)) tt.


(** The page is really brought in. *)
Example demo_fault_runs :
  match page_fault 4100 mm_demo with
  | Ok (_, s') => match copyin R 4096 4 s'.(m_k) with Ok ((r, bs), _) => (s'.(m_p).(mp_killed), r, bs) | Err _ => (1, 1, []) end
  | Err _ => (1, 1, [])
  end = (0, 0, [104; 105; 10; 0]).
Proof. vm_compute. reflexivity. Qed.

(** A mapping whose leaf page table was never made cannot be unmapped:
    [uvmunmap] panics in [walk]. *)
Example munmap_untouched_panics :
  match sys_munmap (MkM (MkKst (st64 (λ _, 0) 0x80100000 0) 0x80100000)
          (MkMp R 8192 0 [4096; 4096] 0x4000 [] (vma_demo :: replicate 15 no_vma)) tt) with
  | Err (Panic msg) => msg
  | _ => EmptyString
  end = "uvmunmap: walk"%string.
Proof. vm_compute. reflexivity. Qed.
End MmapDemo.
End MmapProps.
