(* ===== verification/MmapTrap.v ===== *)
(** * Traps of the mmap lab ([trap.c])

    [usertrap] of the mmap lab: page faults go to the handler of [Mmap.v],
    other traps are treated as in the traps lab ([Trap.v]).  The state of the
    handler is read off the machine: memory, the trapframe in it, and what the
    process keeps about its mappings.  A fault that no mapping explains is
    neither resolved nor fatal: the process returns to the same instruction
    with nothing changed, and faults again. *)

From S2P Require Import Prelude Machine Kalloc Vm Trap TrapProps Mmap.
Import Trap TrapProps Mmap.

Module MmapTrap.

(** [p->trapframe->sp] *)
Definition TF_sp : Z := 48.

(** [kmem.freelist], what [struct proc] has for mappings, and the files. *)
Record mrest (F : Type) := MkRest {
  x_freelist : Z; x_sz : Z; x_ofile : list (option nat); x_vmas : list vma; x_files : F;
}.
Arguments MkRest {F} _ _ _ _ _.
Arguments x_freelist {F} _.
Arguments x_sz {F} _.
Arguments x_ofile {F} _.
Arguments x_vmas {F} _.
Arguments x_files {F} _.

Section trap.
Context `{KI : KernelImage} {F : Type} {MC : MmapCalls F} {TC : TrapCalls (mrest F)}.
Notation mtst := (tst (mrest F)).
Implicit Types (s : mtst) (p : tproc).

Definition to_mst (p : tproc) (s : mtst) : mst F :=
  MkM (MkKst s.(tm) s.(oth).(x_freelist))
    (MkMp p.(t_pagetable) s.(oth).(x_sz) p.(t_killed)
       ((λ n, ld64 s.(tm) (p.(t_trapframe) + TF_a0 + 8 * n)) <$> seqZ 0 6)
       (ld64 s.(tm) (p.(t_trapframe) + TF_sp)) s.(oth).(x_ofile) s.(oth).(x_vmas))
    s.(oth).(x_files).
Definition of_mst (p : tproc) (m : mst F) (s : mtst) : mtst :=
  MkTst (km m.(m_k)) (Some (set_killed m.(m_p).(mp_killed) p)) s.(tcsr) s.(ticks) s.(tickslock) s.(tconsole)
    (MkRest (freelist m.(m_k)) m.(m_p).(mp_sz) m.(m_p).(mp_ofile) m.(m_p).(mp_vmas) m.(m_f)).
Definition Mm {A} (m : M (mst F) A) : M mtst A := p ← me; lift (to_mst p) (of_mst p) m.

(** [None]: the process exits. *)
Definition usertrap : M mtst (option (Z * Z)) :=
  sstatus ← rcsr Sstatus;
  if negb (Z.land sstatus SSTATUS_SPP =? 0) then panic "usertrap: not from user mode"
  else
    wcsr Stvec kernelvec;;
    epc ← rcsr Sepc;
    tf_put TF_epc epc;;
    scause ← rcsr Scause;
    w ← (if scause =? 8 then
           p ← me;
           if negb (p.(t_killed) =? 0) then mret None
           else
             e ← tf_get TF_epc;
             tf_put TF_epc (u64 (e + 4));;
             intr_on;;
             syscall;;
             mret (Some 0)
         else
           which_dev ← devintr;
           if negb (which_dev =? 0) then mret (Some which_dev)
           else
             sc ← rcsr Scause;
             (if (sc =? 13) || (sc =? 15) then
                va ← rcsr Stval;
                Mm (page_fault va)
              else
                p ← me;
                sc ← rcsr Scause;
                print (UnexpectedScause sc p.(t_pid));;
                e ← rcsr Sepc;
                v ← rcsr Stval;
                print (SepcStval e v);;
                upd_me (set_killed 1));;
             mret (Some which_dev));
    match w with
    | None => mret None
    | Some which_dev =>
        p ← me;
        if negb (p.(t_killed) =? 0) then mret None
        else
          when (which_dev =? 2) yield;;
          r ← usertrapret;
          mret (Some r)
    end.

Lemma wp_page_fault s p (Q : option (Z * Z) → mtst → Prop) :
  s.(tcur) = Some p → Z.land (s.(tcsr) Sstatus) SSTATUS_SPP = 0 → s.(tcsr) Scause = 13 ∨ s.(tcsr) Scause = 15 →
  wp (Mm (page_fault (s.(tcsr) Stval));;
      p ← me; if negb (p.(t_killed) =? 0) then mret None else r ← usertrapret; mret (Some r)) Q (entered s p) →
  wp usertrap Q s.
Proof.
  intros Hp Hst Hsc H. rw /usertrap. apply wp_gets_bind. rw Hst. cbn [Z.eqb negb].
  apply wp_modify_bind, wp_gets_bind, (wp_tf_put p); [done|]. apply wp_gets_bind.
  change (tcsr _ Scause) with (s.(tcsr) Scause). assert (s.(tcsr) Scause =? 8 = false) as -> by (by destruct Hsc as [-> | ->]).
  apply wp_bind, wp_bind. eapply wp_of_run; [by apply devintr_fault|]. cbn [Z.eqb negb]. apply wp_gets_bind.
  change (tcsr _ Scause) with (s.(tcsr) Scause).
  assert ((s.(tcsr) Scause =? 13) || (s.(tcsr) Scause =? 15) = true) as -> by (by destruct Hsc as [-> | ->]).
  apply wp_bind, wp_gets_bind.
  match goal with |- wp _ _ ?x => change x with (entered s p) end.
  apply wp_run in H as (r & s' & Hrun & HQ).
  rw /mbind /M_bind in Hrun. rw /wp. change (tcsr (entered s p) Stval) with (tcsr s Stval).
  destruct (Mm _ (entered s p)) as [[[] s1]|]; [|done]. simpl in Hrun |- *.
  wp_unfold. destruct (me s1) as [[p' s3]|]; [|done]. simpl in *.
  destruct (negb _); [by injection Hrun as <- <-|].
  destruct (usertrapret s3) as [[??]|]; [|done]. by injection Hrun as <- <-.
Qed.

(** ** A fault that no mapping explains *)

(** The address is below the size of the process and away from its stack, but
    in no mapping. *)
Record unexplained s p (va : Z) : Prop := {
  un_cur : s.(tcur) = Some p;
  un_alive : p.(t_killed) = 0;
  un_mode : Z.land (s.(tcsr) Sstatus) SSTATUS_SPP = 0;
  un_cause : s.(tcsr) Scause = 13 ∨ s.(tcsr) Scause = 15;
  un_stval : s.(tcsr) Stval = va;
  un_pc : 0 ≤ s.(tcsr) Sepc < 2 ^ 64;
  un_frame : page_aligned p.(t_trapframe);
  un_range : va < s.(oth).(x_sz) ∧ va ≤ MAXVA;
  un_stack : PGROUNDUP va ≠ PGROUNDDOWN (ld64 s.(tm) (p.(t_trapframe) + TF_sp));
  un_none : fault_find va (take VMASIZE s.(oth).(x_vmas)) = None;
}.

(** The process runs on with nothing changed but kernel words of the trapframe. *)
Record unchanged s p s' : Prop := {
  uc_cur : s'.(tcur) = Some p;
  uc_pc : s'.(tcsr) Sepc = s.(tcsr) Sepc;
  uc_mode : Z.land (s'.(tcsr) Sstatus) SSTATUS_SPP = 0;
  uc_oth : s'.(oth) = s.(oth);
  uc_regs : agree s'.(tm) s.(tm) (p.(t_trapframe) + 40) (p.(t_trapframe) + 4096);
  uc_mem : ∀ c, page_aligned c → c ≠ p.(t_trapframe) → agree s'.(tm) s.(tm) c (c + 4096);
}.

Lemma unexplained_returns s p va : unexplained s p va →
  ∃ s', usertrap s = Ok (Some (TRAPFRAME, MAKE_SATP p.(t_pagetable)), s') ∧ unchanged s p s'.
Proof.
  intros [Hp Hk Hst Hsc Hva Hpc Hal [Hsz Hmax] Hsp Hnone]. set (tf := p.(t_trapframe)) in *. set (s1 := entered s p).
  assert (agree s1.(tm) s.(tm) (tf + 40) (tf + 4096)) as Hr1 by (apply st64_agree; change TF_epc with 24; lia).
  assert (∀ c, page_aligned c → c ≠ tf → agree s1.(tm) s.(tm) c (c + 4096)) as Hm1
    by (intros; apply page_store_agree; [done..|by vm_compute]).
  assert (Mm (page_fault va) s1 = Ok (tt, s1)) as Hpf.
  { rw /Mm /mbind /M_bind (me_run s1 p) // /lift.
    assert (page_fault va (to_mst p s1) = Ok (tt, to_mst p s1)) as ->.
    { apply wp_eq_run. rw /page_fault. apply wp_gets_bind. cbn [mp_sz mp_tfsp mp_vmas m_p to_mst].
      assert (ld64 s1.(tm) (tf + TF_sp) = ld64 s.(tm) (tf + TF_sp)) as E
        by (apply ld64_agree; eapply agree_sub; [exact Hr1|change TF_sp with 48; lia..]).
      fold tf. rw E.
      change (x_sz (oth s1)) with (x_sz (oth s)). change (x_vmas (oth s1)) with (x_vmas (oth s)).
      rewrite -> (proj2 (Z.leb_gt _ _) Hsz), (proj2 (Z.ltb_ge _ _) Hmax), (proj2 (Z.eqb_neq _ _) Hsp). cbn [orb].
      rw Hnone. by apply wp_ret. }
    do 2 f_equal. rw /of_mst /s1 /entered. destruct s as [? ? ? ? ? ? []]. simpl in *. subst tcur0. do 2 f_equal.
    by destruct p. }
  destruct (usertrapret_spec s1 p Hp Hal) as (s' & Hret & Hcur & Hoth & Hcon & Hepc & Hmode & Hregs & Hag).
  exists s'. split.
  - apply wp_eq_run, (wp_page_fault s p); try done. rw Hva. apply wp_bind. eapply wp_of_run; [exact Hpf|].
    apply (wp_me_bind p); [done|]. rw Hk. cbn [Z.eqb negb]. apply wp_bind. eapply wp_of_run; [exact Hret|]. done.
  - split; try done.
    + rw Hepc. by apply ld64_st64_eq.
    + eapply agree_trans; [exact Hregs|exact Hr1].
    + intros c Hc Hne. eapply agree_trans; [by apply Hag|by apply Hm1].
Qed.

(** The instruction runs again and faults again. *)
Definition refault (cause va : Z) s : mtst :=
  MkTst s.(tm) s.(tcur) (λ r, match r with Scause => cause | Stval => va | _ => s.(tcsr) r end)
    s.(ticks) s.(tickslock) s.(tconsole) s.(oth).

Fixpoint rounds (n : nat) s : option mtst :=
  match n with
  | O => Some s
  | S n =>
      match usertrap s with
      | Ok (Some _, s') => rounds n (refault (s.(tcsr) Scause) (s.(tcsr) Stval) s')
      | _ => None
      end
  end.

(** The process never gets past the instruction and is never killed: after any
    number of faults it is where it was. *)
Theorem unexplained_fault_loops n : ∀ s p va, unexplained s p va →
  ∃ s', rounds n s = Some s' ∧ s'.(tcur) = Some p ∧ s'.(tcsr) Sepc = s.(tcsr) Sepc ∧ s'.(oth) = s.(oth).
Proof.
  induction n as [|n IH]; intros s p va Hun; [exists s; split_and!; try done; apply Hun|].
  destruct (unexplained_returns s p va Hun) as (s1 & Hrun & [Hcur Hpc Hmode Hoth Hregs Hmem]).
  cbn [rounds]. rw Hrun. destruct Hun as [Hp Hk Hst Hsc Hva Hpc0 Hal Hr Hsp Hnone].
  destruct (IH (refault (s.(tcsr) Scause) (s.(tcsr) Stval) s1) p va) as (s' & Hs' & Hc' & He' & Ho').
  - split; try done; simpl; rewrite ?Hoth ?Hpc //.
    rw (ld64_agree s1.(tm) s.(tm)) //. eapply agree_sub; [exact Hregs|change TF_sp with 48; lia..].
  - exists s'. split_and!; [done|done|by rw He'|by rw Ho'].
Qed.

End trap.
End MmapTrap.

(** A process of eight pages without mappings that loads from its unmapped
    page 5. *)
Module MmapTrapDemo.
Import MmapTrap.

#[local] Instance no_files : MmapCalls unit := {|
  VMASIZE := 0; filedup := λ _, mret tt; fileclose := λ _, mret tt; filewrite := λ _ _ _ _, mret (-1);
  writable := λ _ _, false; ilock := λ _, mret tt; iunlock := λ _, mret tt; readi := λ _ _ _, mret (0, []) |}.
#[local] Instance quiet : TrapCalls (mrest unit) := {|
  syscall := mret tt; yield := mret tt; wakeup_ticks := mret tt; plic_claim := mret 0; plic_complete := λ _, mret tt;
  uartintr := mret tt; virtio_disk_intr := mret tt; kernelvec := 0x80005000; usertrap_addr := 0x80002000;
  uservec_off := 0; userret_off := 0x90 |}.

Definition loader : tproc := MkTproc true 0 4 0 0x80200000 0x80204000 0 0 0 0.
Definition s_load : tst (mrest unit) := MkTst (λ _, 0) (Some loader)
  (λ r, match r with Scause => 13 | Stval => 0x5010 | Sepc => 0x44 | _ => 0 end) 0 false []
  (MkRest 0 0x8000 [] [] tt).

Example loader_stuck `{KI : KernelImage} : ∃ s', rounds 1000 s_load = Some s' ∧ s'.(tcur) = Some loader ∧
  s'.(tcsr) Sepc = 0x44 ∧ s'.(oth) = s_load.(oth).
Proof. apply (unexplained_fault_loops 1000 s_load loader 0x5010). split; try (by vm_compute). by left. Qed.
End MmapTrapDemo.
