(* ===== verification/Uthread.v ===== *)
(** * User-level threads (multithreading lab, [uthread.c], [uthread_switch.S])

    The table [all_thread], [current_thread] and the registers that
    [thread_switch] saves: [ra], [sp], [s0] to [s11], in that order.  [exit]
    ends the process: [None].  A thread is an index of the table. *)

From S2P Require Import Prelude.

Module Uthread.

Definition FREE : Z := 0.
Definition RUNNING : Z := 1.
Definition RUNNABLE : Z := 2.
Definition STACK_SIZE : Z := 8192.
Definition MAX_THREAD : nat := 4.

(** [struct thread]: the address of its stack, its state, its context. *)
Record thread := MkT { t_stack : Z; t_state : Z; t_ctx : list Z }.

Record uts := MkUts {
  all_thread : list thread;
  current_thread : nat;
  regs : list Z;          (* the registers of the processor *)
}.

Definition set_threads (f : list thread → list thread) (s : uts) : uts :=
  MkUts (f s.(all_thread)) s.(current_thread) s.(regs).
Definition set_current (t : nat) (s : uts) : uts := MkUts s.(all_thread) t s.(regs).
Definition with_state (x : Z) (t : thread) : thread := MkT t.(t_stack) x t.(t_ctx).
Definition with_ctx (c : list Z) (t : thread) : thread := MkT t.(t_stack) t.(t_state) c.

(** Save the registers in the context of [old], load those of [new]. *)
Definition thread_switch (old new : nat) : M uts unit := λ s,
  match s.(all_thread) !! old with
  | None => Err (Undef "thread_switch")
  | Some _ =>
      let ts := alter (with_ctx s.(regs)) old s.(all_thread) in
      match ts !! new with
      | None => Err (Undef "thread_switch")
      | Some t => Ok (tt, MkUts ts s.(current_thread) t.(t_ctx))
      end
  end.

Definition thread_init : M uts unit :=
  modify (set_current 0%nat);;
  modify (set_threads (alter (with_state RUNNING) 0%nat)).

(** The search loop: the first [RUNNABLE] thread at or after [t], in ring
    order, among [n] candidates. *)
Fixpoint find_next (n : nat) (t : nat) (ts : list thread) : option nat :=
  match n with
  | O => None
  | S n =>
      let t := if (MAX_THREAD <=? t)%nat then 0%nat else t in
      match ts !! t with
      | Some th => if th.(t_state) =? RUNNABLE then Some t else find_next n (S t) ts
      | None => None
      end
  end.

Definition thread_schedule : M uts (option unit) :=
  cur ← gets current_thread;
  ts ← gets all_thread;
  match find_next MAX_THREAD (S cur) ts with
  | None => mret None                               (* exit(-1) *)
  | Some next_thread =>
      if bool_decide (cur ≠ next_thread) then
        modify (set_threads (alter (with_state RUNNING) next_thread));;
        modify (set_current next_thread);;
        thread_switch cur next_thread;;
        mret (Some tt)
      else mret (Some tt)
  end.

(** The search for a free slot ends past the table when there is none. *)
Definition thread_create (func : Z) : M uts unit :=
  ts ← gets all_thread;
  match list_find (λ t, t.(t_state) = FREE) (take MAX_THREAD ts) with
  | None => undef "all_thread[MAX_THREAD]"
  | Some (i, t) =>
      modify (set_threads (<[i := MkT t.(t_stack) RUNNABLE
                (<[1%nat := t.(t_stack) + STACK_SIZE]> (<[0%nat := func]> t.(t_ctx)))]>))
  end.

Definition thread_yield : M uts (option unit) :=
  cur ← gets current_thread;
  modify (set_threads (alter (with_state RUNNABLE) cur));;
  thread_schedule.

(** The end of a thread's function: [current_thread->state = FREE] and a call
    of [thread_schedule] that does not return. *)
Definition thread_exit : M uts (option unit) :=
  cur ← gets current_thread;
  modify (set_threads (alter (with_state FREE) cur));;
  thread_schedule.

(** What the running thread does, on its own or by a call. *)
Inductive uact :=
  | ACompute (r : list Z)     (* change the registers *)
  | AYield
  | AExit
  | ACreate (func : Z).

Definition act (a : uact) : M uts (option unit) :=
  match a with
  | ACompute r => modify (λ s, MkUts s.(all_thread) s.(current_thread) r);; mret (Some tt)
  | AYield => thread_yield
  | AExit => thread_exit
  | ACreate f => thread_create f;; mret (Some tt)
  end.

Inductive step : uts → uact → uts → Prop :=
  | Step s a s' : act a s = Ok (Some tt, s') → step s a s'.

(** Runs in which thread [u] does not run. *)
Inductive without (u : nat) : uts → list uact → uts → Prop :=
  | WithoutNil s : s.(current_thread) ≠ u → without u s [] s
  | WithoutCons s a s1 l s2 : s.(current_thread) ≠ u → step s a s1 → without u s1 l s2 → without u s (a :: l) s2.

(** The actions that give up the processor. *)
Definition gives_up (a : uact) : bool := match a with AYield | AExit => true | _ => false end.
Definition switches (l : list uact) : Z := Z.of_nat (length (filter (λ a, gives_up a = true) l)).

(** The table has its size and the current thread is in it. *)
Definition wf (s : uts) : Prop :=
  length s.(all_thread) = MAX_THREAD ∧ (s.(current_thread) < MAX_THREAD)%nat.
End Uthread.
