(* ===== verification/UthreadProps.v ===== *)
(** * Correctness of user-level threads

    The scheduler takes the next runnable thread in ring order, so that a
    thread that yields runs again after at most two other turns, and it finds
    its registers as it left them. *)

From S2P Require Import Prelude Uthread.
Import Uthread.

Module UthreadProps.

(** The position [k] places after [cur] in the ring. *)
Definition ring (cur k : nat) : nat := ((cur + k) mod MAX_THREAD)%nat.

Definition runnable (ts : list thread) (t : nat) : Prop := ∃ th, ts !! t = Some th ∧ th.(t_state) = RUNNABLE.

Lemma find_next_spec n t ts : length ts = MAX_THREAD → (t ≤ MAX_THREAD)%nat →
  match find_next n t ts with
  | Some r => ∃ k, (k < n)%nat ∧ r = ring t k ∧ runnable ts r ∧ ∀ j, (j < k)%nat → ¬ runnable ts (ring t j)
  | None => ∀ j, (j < n)%nat → ¬ runnable ts (ring t j)
  end.
Proof.
  intros Hlen. revert t. induction n as [|n IH]; intros t Ht; [simpl; lia|]. cbn [find_next].
  set (t' := if (MAX_THREAD <=? t)%nat then 0%nat else t).
  assert (t' < MAX_THREAD ∧ ring t 0 = t' ∧ ∀ k, ring t (S k) = ring (S t') k)%nat as (Ht' & H0 & HS).
  { subst t'. rw /ring. change MAX_THREAD with 4%nat in *. destruct (Nat.leb_spec 4 t) as [|].
    - assert (t = 4%nat) as -> by lia. split_and!; [lia|done|]. intros k. replace (4 + S k)%nat with (1 + k + 1 * 4)%nat by lia.
      by rw Nat.Div0.mod_add.
    - split_and!; [lia|rw Nat.add_0_r; by apply Nat.mod_small|]. intros k. f_equal. lia. }
  destruct (lookup_lt_is_Some_2 ts t') as [th Hth]; [lia|]. rw Hth.
  destruct (Z.eqb_spec th.(t_state) RUNNABLE) as [Hr|Hr].
  - exists 0%nat. split; [lia|]. split; [done|]. split; [by exists th|]. intros j Hj. lia.
  - assert (¬ runnable ts (ring t 0)) as Hn0 by (rw H0; intros (th' & ? & ?); simplify_eq).
    specialize (IH (S t') ltac:(lia)). destruct (find_next n (S t') ts) as [r|].
    + destruct IH as (k & Hk & -> & Hrun & Hno). exists (S k). split; [lia|]. split; [by rw HS|]. split; [done|].
      intros [|j] Hj; [done|]. rw HS. apply Hno. lia.
    + intros [|j] Hj; [done|]. rw HS. apply IH. lia.
Qed.

(** How far [u] is behind [cur] in the ring. *)
Definition dist (cur u : nat) : nat := ((u + 2 * MAX_THREAD - cur - 1) mod MAX_THREAD)%nat.

Lemma ring_dist cur u : (cur < MAX_THREAD)%nat → (u < MAX_THREAD)%nat → ring (S cur) (dist cur u) = u ∧
  (dist cur u < MAX_THREAD)%nat ∧ (cur ≠ u → (dist cur u ≤ 2)%nat).
Proof.
  rw /ring /dist. change MAX_THREAD with 4%nat. intros Hc Hu.
  do 4 (destruct cur as [|cur]; [do 4 (destruct u as [|u]; [cbn; lia|]); lia|]). lia.
Qed.

(** Passing on to [r] before [u] brings [u] nearer. *)
Lemma dist_ring cur u k : (cur < MAX_THREAD)%nat → (u < MAX_THREAD)%nat → (k < dist cur u)%nat →
  (dist (ring (S cur) k) u < dist cur u)%nat.
Proof.
  rw /ring /dist. change MAX_THREAD with 4%nat. intros Hc Hu.
  do 4 (destruct cur as [|cur]; [do 4 (destruct u as [|u]; [do 4 (destruct k as [|k]; [cbn; lia|]); cbn; lia|]); lia|]). lia.
Qed.

Lemma ring_ne cur k : (cur < MAX_THREAD)%nat → (k ≤ 2)%nat → ring (S cur) k ≠ cur ∧ (ring (S cur) k < MAX_THREAD)%nat.
Proof.
  rw /ring. change MAX_THREAD with 4%nat. intros Hc Hk. split; [|apply Nat.mod_upper_bound; lia].
  do 4 (destruct cur as [|cur]; [do 3 (destruct k as [|k]; [done|]); lia|]). lia.
Qed.

(** While [u] waits with context [c]. *)
Definition waits (s : uts) (u : nat) (c : list Z) : Prop :=
  ∃ th, s.(all_thread) !! u = Some th ∧ th.(t_state) = RUNNABLE ∧ th.(t_ctx) = c.

(** Either [u] runs, with its registers, or it waits and is nearer. *)
Definition progress (s s' : uts) (u : nat) (c : list Z) : Prop :=
  wf s' ∧ ((s'.(current_thread) = u ∧ s'.(regs) = c) ∨
    (s'.(current_thread) ≠ u ∧ waits s' u c ∧ (dist s'.(current_thread) u < dist s.(current_thread) u)%nat)).

Lemma schedule_progress s s' u c : wf s → s.(current_thread) ≠ u → waits s u c →
  thread_schedule s = Ok (Some tt, s') → progress s s' u c.
Proof.
  intros [Hlen Hcur] Hne (th & Hth & Hrun & Hc). pose proof (lookup_lt_Some _ _ _ Hth) as Hu. rw Hlen in Hu.
  destruct (ring_dist _ u Hcur Hu) as (Hd & _ & Hd2). specialize (Hd2 Hne).
  rw /thread_schedule /mbind /M_bind /gets /modify /mret /M_ret.
  pose proof (find_next_spec MAX_THREAD (S s.(current_thread)) s.(all_thread) Hlen ltac:(lia)) as Hf.
  destruct (find_next _ _ _) as [r|]; [|done]. destruct Hf as (k & Hk & -> & (thr & Hthr & Hrr) & Hno).
  assert (k ≤ dist (current_thread s) u)%nat as Hkd.
  { destruct (Nat.le_gt_cases k (dist (current_thread s) u)) as [|Hgt]; [done|]. exfalso.
    apply (Hno _ Hgt). rw Hd. by exists th. }
  destruct (ring_ne _ k Hcur ltac:(lia)) as [Hrne Hrlt].
  destruct (Nat.eq_dec k (dist (current_thread s) u)) as [->|Hkne].
  - rw Hd in Hthr Hrne |- *. simplify_eq. rw bool_decide_eq_true_2; [|done]. rw /set_current /set_threads /thread_switch /=.
    destruct (lookup_lt_is_Some_2 s.(all_thread) s.(current_thread)) as [tc Htc]; [lia|].
    rw list_lookup_alter_ne // Htc /= list_lookup_alter_ne // list_lookup_alter_eq Hth /=. intros [= <-].
    split; [split; [by rw !length_alter|done]|]. left. done.
  - rw bool_decide_eq_true_2; [|done]. rw /set_current /set_threads /thread_switch /=.
    destruct (lookup_lt_is_Some_2 s.(all_thread) s.(current_thread)) as [tc Htc]; [lia|].
    set (r := ring (S (current_thread s)) k) in *.
    rw list_lookup_alter_ne // Htc /= list_lookup_alter_ne // list_lookup_alter_eq Hthr /=. intros [= <-].
    assert (dist r u < dist (current_thread s) u)%nat as Hlt by (apply dist_ring; lia).
    assert (r ≠ u) as Hru.
    { intros Hru. assert (dist r u = 3%nat) as E; [|lia]. rw Hru. clear -Hu. rw /dist. change MAX_THREAD with 4%nat in *.
      do 4 (destruct u as [|u]; [done|]). lia. }
    split; [split; [by rw !length_alter|done]|]. right. split; [done|]. split; [|done].
    exists th. cbn [all_thread]. by rw list_lookup_alter_ne // list_lookup_alter_ne.
Qed.

(** The other threads' actions. *)
Lemma step_progress s a s' u c : wf s → s.(current_thread) ≠ u → waits s u c → step s a s' →
  if gives_up a then progress s s' u c
  else wf s' ∧ s'.(current_thread) = s.(current_thread) ∧ waits s' u c.
Proof.
  intros Hwf Hne Hw Hstep. inversion Hstep as [s0 a0 s1 Hact]; subst s0 a0 s1; clear Hstep. pose proof Hwf as [Hlen Hcur]. destruct Hw as (th & Hth & Hr & Hc).
  assert (∀ x, let sx := set_threads (alter (with_state x) s.(current_thread)) s in wf sx ∧ waits sx u c) as Hset.
  { intros x sx. subst sx. split; [split; [|exact Hcur]|exists th]; cbn [set_threads all_thread].
    - by rw length_alter.
    - by rw list_lookup_alter_ne. }
  destruct a as [r| | |func]; cbn [gives_up act] in *.
  - revert Hact. wp_unfold. intros [= <-]. split; [done|]. split; [done|]. by exists th.
  - destruct (Hset RUNNABLE) as [Hwf' Hw']. exact (schedule_progress _ _ u c Hwf' Hne Hw' Hact).
  - destruct (Hset FREE) as [Hwf' Hw']. exact (schedule_progress _ _ u c Hwf' Hne Hw' Hact).
  - revert Hact. rw /thread_create. wp_unfold. destruct (list_find _ _) as [[i t]|] eqn:E; [|done]. intros [= <-].
    apply list_find_Some in E as (Hi & Hfree & _). apply lookup_take_Some in Hi as [Hi _].
    assert (i ≠ u) as Hiu by (intros ->; rw Hth in Hi; simplify_eq; by rw Hr in Hfree).
    split; [split; [|exact Hcur]|split; [done|exists th]]; cbn [set_threads all_thread].
    + by rw length_insert.
    + by rw list_lookup_insert_ne.
Qed.

Lemma without_progress u c s l s' : without u s l s' → wf s → waits s u c →
  wf s' ∧ waits s' u c ∧ s'.(current_thread) ≠ u ∧
  switches l ≤ Z.of_nat (dist s.(current_thread) u) - Z.of_nat (dist s'.(current_thread) u).
Proof.
  induction 1 as [s Hne|s a s1 l s2 Hne Hstep Hrest IH]; intros Hwf Hw.
  - split_and!; [done..|]. rw /switches /=. lia.
  - pose proof (step_progress _ _ _ _ _ Hwf Hne Hw Hstep) as Hp. assert (s1.(current_thread) ≠ u) as Hne1 by (by inversion Hrest).
    rw /switches. destruct (gives_up a) eqn:Ea.
    + destruct Hp as [Hwf1 [[? _]|(_ & Hw1 & Hlt)]]; [done|]. destruct (IH Hwf1 Hw1) as (? & ? & ? & Hs).
      split_and!; [done..|]. rewrite -> filter_cons_True by done. cbn [length]. rw /switches in Hs. lia.
    + destruct Hp as (Hwf1 & Hc1 & Hw1). destruct (IH Hwf1 Hw1) as (? & ? & ? & Hs).
      split_and!; [done..|]. rewrite -> filter_cons_False by (by rw Ea). rw /switches Hc1 in Hs. lia.
Qed.

(** A thread that yields waits with its registers saved. *)
Lemma yield_waits s s1 : wf s → thread_yield s = Ok (Some tt, s1) → s1.(current_thread) ≠ s.(current_thread) →
  wf s1 ∧ waits s1 s.(current_thread) s.(regs).
Proof.
  intros [Hlen Hcur]. rw /thread_yield /thread_schedule /mbind /M_bind /gets /modify /mret /M_ret.
  set (s0 := set_threads _ s). assert (length s0.(all_thread) = MAX_THREAD) as Hlen0 by (cbn; by rw length_alter).
  pose proof (find_next_spec MAX_THREAD (S s0.(current_thread)) s0.(all_thread) Hlen0 ltac:(cbn; lia)) as Hf.
  destruct (find_next _ _ _) as [r|]; [|done]. destruct Hf as (k & _ & _ & (thr & Hthr & _) & _).
  destruct (bool_decide_reflect (s0.(current_thread) ≠ r)) as [Hne|]; [|by intros [= <-]].
  change (current_thread s0) with (current_thread s) in Hne.
  destruct (lookup_lt_is_Some_2 s.(all_thread) s.(current_thread)) as [tc Htc]; [by rw Hlen|].
  subst s0. rw /thread_switch /set_current. cbn [all_thread current_thread regs set_threads] in *.
  assert (alter (with_state RUNNABLE) (current_thread s) (all_thread s) !! current_thread s = Some (with_state RUNNABLE tc)) as Hc
    by (by rw list_lookup_alter_eq Htc).
  rewrite -> list_lookup_alter_ne by congruence. rw Hc. rewrite -> list_lookup_alter_ne by done.
  rw list_lookup_alter_eq Hthr /=. intros [= <-] _. apply lookup_lt_Some in Hthr as Hr. rw length_alter Hlen in Hr.
  split; [split; cbn [all_thread current_thread]; [by rw !length_alter|done]|].
  exists (with_ctx s.(regs) (with_state RUNNABLE tc)). cbn [all_thread]. split; [|done].
  rw list_lookup_alter_eq. rewrite -> list_lookup_alter_ne by congruence. by rw Hc.
Qed.

(** With a thread waiting, the scheduler finds one. *)
Lemma yield_finds s r u c : wf s → s.(current_thread) ≠ u → waits s u c → thread_yield s ≠ Ok (None, r).
Proof.
  intros [Hlen Hcur] Hne (th & Hth & Hrun & _). rw /thread_yield /thread_schedule /mbind /M_bind /gets /modify /mret /M_ret.
  set (s0 := set_threads _ s). assert (length s0.(all_thread) = MAX_THREAD) as Hlen0 by (cbn; by rw length_alter).
  pose proof (find_next_spec MAX_THREAD (S s0.(current_thread)) s0.(all_thread) Hlen0 ltac:(cbn; lia)) as Hf.
  pose proof (lookup_lt_Some _ _ _ Hth) as Hu. rw Hlen in Hu. destruct (ring_dist _ u Hcur Hu) as (Hd & Hd2 & _).
  destruct (find_next _ _ _) as [t|].
  - case_match; [|done]. destruct (thread_switch _ _ _) as [[[] ?]|]; done.
  - exfalso. apply (Hf _ Hd2). change (current_thread s0) with (current_thread s). rw Hd. exists th. split; [|done].
    cbn. by rw list_lookup_alter_ne.
Qed.


(** ** Creation *)

(** With no free entry [thread_create] writes past the table. *)
Theorem thread_create_overruns s func : length s.(all_thread) = MAX_THREAD →
  (∀ t, t ∈ s.(all_thread) → t.(t_state) ≠ FREE) →
  thread_create func s = Err (Undef "all_thread[MAX_THREAD]").
Proof.
  intros Hlen Hno. rw /thread_create /mbind /M_bind /gets. rewrite -> take_ge by lia.
  destruct (list_find _ _) as [[i t]|] eqn:E; [|done]. apply list_find_Some in E as (Hi & Hf & _).
  exfalso. apply (Hno t); [by eapply list_elem_of_lookup_2|done].
Qed.

(** A new thread starts at its function, at the top of its own stack. *)
Theorem thread_create_ok s func i t : s.(all_thread) !! i = Some t → t.(t_state) = FREE → (i < MAX_THREAD)%nat →
  (∀ j t', (j < i)%nat → s.(all_thread) !! j = Some t' → t'.(t_state) ≠ FREE) → (2 ≤ length t.(t_ctx))%nat →
  ∃ s' t', thread_create func s = Ok (tt, s') ∧ s'.(all_thread) = <[i := t']> s.(all_thread) ∧
    t'.(t_state) = RUNNABLE ∧ t'.(t_ctx) !! 0%nat = Some func ∧ t'.(t_ctx) !! 1%nat = Some (t.(t_stack) + STACK_SIZE).
Proof.
  intros Hi Hf Hlt Hfirst Hctx. rw /thread_create /mbind /M_bind /gets /modify.
  assert (list_find (λ t, t.(t_state) = FREE) (take MAX_THREAD s.(all_thread)) = Some (i, t)) as ->.
  { apply list_find_Some. split; [by rw lookup_take_lt|]. split; [done|]. intros j t' Hj Hlt'.
    apply lookup_take_Some in Hj as [Hj _]. by eapply Hfirst. }
  eexists _, _. split; [done|]. split; [done|]. split; [done|]. cbn [t_ctx]. split.
  - rw list_lookup_insert_ne // list_lookup_insert_eq //. lia.
  - rw list_lookup_insert_eq //. rw length_insert. lia.
Qed.

(** ** A concrete table *)

(** Thread 1 runs, thread 2 can; 3 is free. *)
Definition ut_demo : uts := MkUts
  [MkT 0x1000 RUNNING (replicate 14 0); MkT 0x4000 RUNNING (replicate 14 0);
   MkT 0x7000 RUNNABLE (replicate 14 2); MkT 0xa000 FREE (replicate 14 0)] 1 (replicate 14 1).
Definition ut_yield : uts := MkUts
  [MkT 0x1000 RUNNING (replicate 14 0); MkT 0x4000 RUNNABLE (replicate 14 1);
   MkT 0x7000 RUNNING (replicate 14 2); MkT 0xa000 FREE (replicate 14 0)] 2 (replicate 14 2).
Definition ut_compute : uts := MkUts ut_yield.(all_thread) 2 (replicate 14 7).
Definition ut_back : uts := MkUts
  [MkT 0x1000 RUNNING (replicate 14 0); MkT 0x4000 RUNNING (replicate 14 1);
   MkT 0x7000 RUNNABLE (replicate 14 7); MkT 0xa000 FREE (replicate 14 0)] 1 (replicate 14 1).

End UthreadProps.
