(* ===== verification/Ulib.v ===== *)
(** * The user library (pagetables lab, [user/ulib.c])

    String and memory functions over the bytes of the process.  [char] is
    unsigned on RISC-V.  A pointer is an address; pointers are not wrapped,
    since those of a process stay below [MAXVA].  [read], [open], [fstat] and
    [close] are system calls: the class [UserCalls]. *)

From S2P Require Import Prelude Machine.

Module Ulib.

(** The rest of the process's world, and the system calls the library makes. *)
Class UserCalls (W : Type) := {
  read1 : W → option Z * W;                  (* read(0, &c, 1): a byte, or nothing *)
  open : W → list Z → Z → Z * W;
  fstat : W → mem → Z → Z → Z * mem * W;     (* fills the buffer at the last argument *)
  close : W → Z → W;
}.

Section ulib.
Context {W : Type} `{UC : UserCalls W}.

Record ul := MkUl { l_mem : mem; l_world : W }.

Definition ldb (a : Z) : M ul Z := gets (λ s, ld8 s.(l_mem) a).
Definition stb (a v : Z) : M ul unit := modify (λ s, MkUl (st8 s.(l_mem) a v) s.(l_world)).

Definition strcpy (s t : Z) : M ul Z :=
  loop (λ '(p, t),
    c ← ldb t;
    stb p c;;
    if c =? 0 then mret (inr s) else mret (inl (p + 1, t + 1))) (s, t).

Definition strcmp (p q : Z) : M ul Z :=
  loop (λ '(p, q),
    a ← ldb p;
    b ← ldb q;
    if negb (a =? 0) && (a =? b) then mret (inl (p + 1, q + 1))
    else mret (inr (a - b))) (p, q).

Definition strlen (s : Z) : M ul Z :=
  loop (λ n,
    c ← ldb (s + n);
    if c =? 0 then mret (inr (u32 n)) else mret (inl (s32 (n + 1)))) 0.

(** [i] is an [int] compared with the [uint] [n]. *)
Definition memset (dst c n : Z) : M ul Z :=
  loop (λ i,
    if u32 i <? n then stb (dst + i) c;; mret (inl (s32 (i + 1)))
    else mret (inr dst)) 0.

Definition strchr (s c : Z) : M ul Z :=
  loop (λ s,
    a ← ldb s;
    if a =? 0 then mret (inr 0)
    else if a =? c then mret (inr s)
    else mret (inl (s + 1))) s.

(** [inr i] leaves the loop with [i] bytes read. *)
Definition gets (buf max : Z) : M ul Z :=
  i ← loop (λ i,
    if i + 1 <? max then
      w ← Prelude.gets l_world;
      match read1 w with
      | (None, w') => modify (λ s, MkUl s.(l_mem) w');; mret (inr i)
      | (Some c, w') =>
          modify (λ s, MkUl s.(l_mem) w');;
          stb (buf + i) c;;
          if (c =? 10) || (c =? 13) then mret (inr (i + 1)) else mret (inl (i + 1))
      end
    else mret (inr i)) 0;
  stb (buf + i) 0;;
  mret buf.

(** The file name is the list of its bytes; [fstat] fills the buffer [st]. *)
Definition stat (n : list Z) (st : Z) : M ul Z :=
  w ← Prelude.gets l_world;
  let '(fd, w) := open w n 0 in
  if fd <? 0 then modify (λ s, MkUl s.(l_mem) w);; mret (-1)
  else
    m ← Prelude.gets l_mem;
    let '(r, m, w) := fstat w m fd st in
    let w := close w fd in
    modify (λ _, MkUl m w);; mret r.

Definition atoi (s : Z) : M ul Z :=
  loop (λ '(s, n),
    c ← ldb s;
    if (48 <=? c) && (c <=? 57) then mret (inl (s + 1, s32 (n * 10 + c - 48)))
    else mret (inr n)) (s, 0).

Definition memmove (vdst vsrc n : Z) : M ul Z :=
  if vdst <? vsrc then
    loop (λ '(dst, src, n),
      if 0 <? n then c ← ldb src; stb dst c;; mret (inl (dst + 1, src + 1, n - 1))
      else mret (inr vdst)) (vdst, vsrc, n)
  else
    loop (λ '(dst, src, n),
      if 0 <? n then c ← ldb (src - 1); stb (dst - 1) c;; mret (inl (dst - 1, src - 1, n - 1))
      else mret (inr vdst)) (vdst + n, vsrc + n, n).

Definition memcmp (s1 s2 n : Z) : M ul Z :=
  loop (λ '(p1, p2, n),
    if 0 <? n then
      a ← ldb p1;
      b ← ldb p2;
      if negb (a =? b) then mret (inr (a - b)) else mret (inl (p1 + 1, p2 + 1, n - 1))
    else mret (inr 0)) (s1, s2, n).

Definition memcpy (dst src n : Z) : M ul Z := memmove dst src (s32 n).

(** The page the kernel shares with the process. *)
Definition USYSCALL : Z := TRAPFRAME - PGSIZE.

Definition ugetpid : M ul Z := Prelude.gets (λ s, s32 (ld32 s.(l_mem) USYSCALL)).
End ulib.
Arguments ul W : clear implicits.

(** A NUL-terminated string in memory. *)
Definition cstr (m : mem) (p : Z) (l : list Z) : Prop :=
  (∀ i, 0 ≤ i < Z.of_nat (length l) → ld8 m (p + i) = nth (Z.to_nat i) l 0) ∧
  Forall (λ b, 0 < b < 256) l ∧ ld8 m (p + Z.of_nat (length l)) = 0.
End Ulib.
