(* ===== verification/UlibProps.v ===== *)
(** * Correctness of the user library

    Each routine against its meaning: [memmove] and [memset] against the memory
    operations of the machine model, overlapping buffers included; [strlen],
    [strcpy], [strchr] and [strcmp] against lists of bytes; [gets] against the
    input stream. *)

From S2P Require Import Prelude Machine Ulib.
Import Ulib.

Module UlibProps.

(** ** Memory *)

(** The same bytes. *)
Definition same_bytes (m m' : mem) : Prop := ∀ x, ld8 m x = ld8 m' x.

Lemma ld8_st8 m a v x : ld8 (st8 m a v) x = if x =? a then u8 v else ld8 m x.
Proof. rw /ld8 /st8. destruct (x =? a); [|done]. apply u8_u8. Qed.

Lemma ld8_move m d s n x :
  ld8 (Machine.memmove m d s n) x = if (d <=? x) && (x <? d + n) then ld8 m (s + (x - d)) else ld8 m x.
Proof. rw /ld8 /Machine.memmove. by destruct (_ && _). Qed.

(** [m'] is [m] with the bytes [lo] to [hi] of a move from [s] to [d] done. *)
Definition moved (m : mem) (d s lo hi : Z) (m' : mem) : Prop := ∀ x,
  ld8 m' x = if (d + lo <=? x) && (x <? d + hi) then ld8 m (s + (x - d)) else ld8 m x.

Lemma moved_put m d s lo hi m' j : moved m d s lo hi m' → lo ≤ hi →
  j = lo - 1 ∨ j = hi → ¬ (d + lo ≤ s + j < d + hi) →
  moved m d s (Z.min lo j) (Z.max hi (j + 1)) (st8 m' (d + j) (ld8 m' (s + j))).
Proof.
  intros Hm Hle Hj Hfree x. rw ld8_st8 (Hm (s + j)) (Hm x).
  assert ((d + lo <=? s + j) && (s + j <? d + hi) = false) as -> by (zbool; (done || lia)).
  destruct (Z.eqb_spec x (d + j)) as [->|Hne].
  - zdec. rw /ld8 u8_u8. by replace (s + (d + j - d)) with (s + j) by lia.
  - zbool; (done || lia).
Qed.

Lemma moved_none m d s j : moved m d s j j m.
Proof. intros x. zbool; (done || lia). Qed.

Lemma moved_all m d s n m' : moved m d s 0 n m' → same_bytes m' (Machine.memmove m d s n).
Proof. intros Hm x. rw Hm ld8_move Z.add_0_r //. Qed.

Section ulib.
Context {W : Type} `{UC : UserCalls W}.

(** [memmove] copies as if through a temporary buffer, whatever the overlap:
    upwards, what has been written is never read again when the destination is
    below the source; downwards, when it is not. *)
Theorem memmove_copies (u : ul W) vdst vsrc n : 0 ≤ n < 2 ^ 31 →
  ∃ m', memmove vdst vsrc n u = Ok (vdst, MkUl m' u.(l_world)) ∧
    same_bytes m' (Machine.memmove u.(l_mem) vdst vsrc n).
Proof.
  intros Hn.
  assert (wp (memmove vdst vsrc n) (λ r u', r = vdst ∧ u'.(l_world) = u.(l_world) ∧
      moved u.(l_mem) vdst vsrc 0 n u'.(l_mem)) u) as Hwp.
  { rw /memmove. destruct (Z.ltb_spec vdst vsrc) as [Hlt|Hge].
    - apply (wp_loop (λ '(d, s, k) u', 0 ≤ k ≤ n ∧ d = vdst + (n - k) ∧ s = vsrc + (n - k) ∧
        u'.(l_world) = u.(l_world) ∧ moved u.(l_mem) vdst vsrc 0 (n - k) u'.(l_mem)) (λ '(_, _, k), k)).
      + split_and!; [lia..|done|]. rw Z.sub_diag. apply moved_none.
      + lia.
      + intros [[d s] k] u' (Hk & -> & -> & Hw & Hm) _. destruct (Z.ltb_spec 0 k).
        * apply wp_gets_bind, wp_modify_bind, wp_ret. simpl. split; [|lia]. split_and!; [lia..|done|].
          pose proof (moved_put _ _ _ _ _ _ (n - k) Hm ltac:(lia) ltac:(lia) ltac:(lia)) as Hp.
          by replace (Z.min 0 (n - k)) with 0 in Hp by lia; replace (Z.max _ _) with (n - (k - 1)) in Hp by lia.
        * apply wp_ret. split_and!; [done..|]. by replace (n - k) with n in Hm by lia.
    - apply (wp_loop (λ '(d, s, k) u', 0 ≤ k ≤ n ∧ d = vdst + k ∧ s = vsrc + k ∧
        u'.(l_world) = u.(l_world) ∧ moved u.(l_mem) vdst vsrc k n u'.(l_mem)) (λ '(_, _, k), k)).
      + split_and!; [lia..|done|]. apply moved_none.
      + lia.
      + intros [[d s] k] u' (Hk & -> & -> & Hw & Hm) _. destruct (Z.ltb_spec 0 k).
        * apply wp_gets_bind, wp_modify_bind, wp_ret. simpl. split; [|lia]. split_and!; [lia..|done|].
          pose proof (moved_put _ _ _ _ _ _ (k - 1) Hm ltac:(lia) ltac:(lia) ltac:(lia)) as Hp.
          replace (vdst + k - 1) with (vdst + (k - 1)) by lia. replace (vsrc + k - 1) with (vsrc + (k - 1)) by lia.
          by replace (Z.min k (k - 1)) with (k - 1) in Hp by lia; replace (Z.max _ _) with n in Hp by lia.
        * apply wp_ret. split_and!; [done..|]. by replace k with 0 in Hm by lia. }
  destruct (wp_run _ _ _ Hwp) as (r & [m' w] & Hrun & -> & Hw & Hm). simpl in *. subst w.
  exists m'. split; [done|]. by apply moved_all.
Qed.

(** [memset] of up to [2^31 - 1] bytes; beyond that its [int] counter wraps. *)
Theorem memset_fills (u : ul W) dst c n : 0 ≤ n < 2 ^ 31 →
  ∃ m', memset dst c n u = Ok (dst, MkUl m' u.(l_world)) ∧
    same_bytes m' (Machine.memset u.(l_mem) dst c n).
Proof.
  intros Hn.
  assert (wp (memset dst c n) (λ r u', r = dst ∧ u'.(l_world) = u.(l_world) ∧
      same_bytes u'.(l_mem) (Machine.memset u.(l_mem) dst c n)) u) as Hwp.
  { apply (wp_loop (λ i u', 0 ≤ i ≤ n ∧ u'.(l_world) = u.(l_world) ∧
      same_bytes u'.(l_mem) (Machine.memset u.(l_mem) dst c i)) (λ i, n - i)).
    - split_and!; [lia..|done|]. intros x. rw /ld8 /Machine.memset. zbool; (done || lia).
    - lia.
    - intros i u' (Hi & Hw & Hm) _. rewrite -> u32_small by lia. destruct (Z.ltb_spec i n).
      + apply wp_modify_bind, wp_ret. rewrite -> s32_small by lia. split; [|lia]. split_and!; [lia..|done|].
        intros x. simpl. rw ld8_st8 Hm /ld8 /Machine.memset. zbool; rewrite ?u8_u8; (done || lia).
      + apply wp_ret. split_and!; [done..|]. by replace n with i by lia. }
  destruct (wp_run _ _ _ Hwp) as (r & [m' w] & Hrun & -> & Hw & Hm). simpl in *. subst w. by exists m'.
Qed.

(** ** Strings *)

Implicit Types l : list Z.

(** The byte at index [i] of a string: a character, or the NUL at its end. *)
Lemma cstr_at m p l i : cstr m p l → (i ≤ length l)%nat →
  ld8 m (p + Z.of_nat i) = nth i l 0 ∧ (ld8 m (p + Z.of_nat i) = 0 ↔ i = length l).
Proof.
  intros (Hm & Hc & Hnul) Hi. destruct (decide (i = length l)) as [->|Hne].
  - rw Hnul nth_overflow //.
  - rewrite -> Hm by lia. rw Nat2Z.id. split; [done|].
    destruct (lookup_lt_is_Some_2 l i ltac:(lia)) as [c Hl]. rw (nth_lookup_Some _ _ _ _ Hl).
    pose proof (proj1 (Forall_lookup _ _) Hc _ _ Hl). simpl in *. lia.
Qed.

Lemma cstr_agree m m' p l : (∀ x, p ≤ x ≤ p + Z.of_nat (length l) → ld8 m' x = ld8 m x) → cstr m p l → cstr m' p l.
Proof.
  intros Ha (Hb & Hf & Hz). split; [|split; [done|]].
  - intros i Hi. rw Ha; [|lia]. by apply Hb.
  - rw Ha; [done|lia].
Qed.

(** [strlen] is the number of bytes before the NUL. *)
Theorem strlen_counts (u : ul W) p l : cstr u.(l_mem) p l → Z.of_nat (length l) < 2 ^ 31 →
  strlen p u = Ok (Z.of_nat (length l), u).
Proof.
  intros Hc Hl. apply wp_eq_run.
  apply (wp_loop (λ n u', u' = u ∧ ∃ i, n = Z.of_nat i ∧ (i ≤ length l)%nat) (λ n, Z.of_nat (length l) - n)).
  - split; [done|]. exists 0%nat. lia.
  - lia.
  - intros n u' [-> (i & -> & Hi)] _. apply wp_gets_bind. destruct (cstr_at _ _ _ i Hc Hi) as [_ H0].
    destruct (Z.eqb_spec (ld8 (l_mem u) (p + Z.of_nat i)) 0) as [E|E]; apply wp_ret.
    + apply H0 in E as ->. rewrite -> u32_small by lia. done.
    + assert (i ≠ length l) by tauto. rewrite -> s32_small by lia. split; [|lia]. split; [done|]. exists (S i). lia.
Qed.

(** [strcpy] to a place that does not overlap the string copies it with its
    NUL and touches nothing else. *)
Theorem strcpy_copies (u : ul W) s t l : let n := Z.of_nat (length l) in
  cstr u.(l_mem) t l → n < 2 ^ 63 → s + n < t ∨ t + n < s →
  ∃ m', strcpy s t u = Ok (s, MkUl m' u.(l_world)) ∧ cstr m' s l ∧ cstr m' t l ∧
    ∀ x, x < s ∨ s + n < x → ld8 m' x = ld8 u.(l_mem) x.
Proof.
  intros n Hc Hn Hd. subst n.
  assert (wp (strcpy s t) (λ r u', r = s ∧ u'.(l_world) = u.(l_world) ∧
      moved u.(l_mem) s t 0 (Z.of_nat (length l) + 1) u'.(l_mem)) u) as Hwp.
  { apply (wp_loop (λ '(p, q) u', ∃ i, (i ≤ length l)%nat ∧ p = s + Z.of_nat i ∧ q = t + Z.of_nat i ∧
      u'.(l_world) = u.(l_world) ∧ moved u.(l_mem) s t 0 (Z.of_nat i) u'.(l_mem))
      (λ '(p, _), s + Z.of_nat (length l) - p)).
    - exists 0%nat. split_and!; [lia..|done|apply moved_none].
    - lia.
    - intros [p q] u' (i & Hi & -> & -> & Hw & Hm) _. apply wp_gets_bind, wp_modify_bind.
      destruct (cstr_at _ _ _ i Hc Hi) as [_ H0].
      assert (ld8 (l_mem u') (t + Z.of_nat i) = ld8 (l_mem u) (t + Z.of_nat i)) as Er
        by (rw Hm; zbool; (done || lia)).
      pose proof (moved_put _ _ _ _ _ _ (Z.of_nat i) Hm ltac:(lia) ltac:(lia) ltac:(lia)) as Hp.
      replace (Z.min 0 (Z.of_nat i)) with 0 in Hp by lia. replace (Z.max _ _) with (Z.of_nat i + 1) in Hp by lia.
      rewrite -> Er in Hp. rw Er. destruct (Z.eqb_spec (ld8 (l_mem u) (t + Z.of_nat i)) 0) as [E|E]; apply wp_ret.
      + apply H0 in E as ->. done.
      + assert (i ≠ length l) by tauto. split; [|lia]. exists (S i).
        replace (Z.of_nat (S i)) with (Z.of_nat i + 1) by lia. split_and!; [lia..|done|done]. }
  destruct (wp_run _ _ _ Hwp) as (r & [m' w] & Hrun & -> & Hw & Hm). simpl in *. subst w.
  exists m'. split; [done|]. split; [|split].
  - destruct Hc as (Hb & Hf & Hz). split; [|split; [done|]]; intros; rw Hm; zdec.
    + rw -Hb; [|done]. f_equal. lia.
    + rw -Hz. f_equal. lia.
  - eapply cstr_agree; [|exact Hc]. intros x Hx. rw Hm. zbool; (done || lia).
  - intros x Hx. rw Hm. zbool; (done || lia).
Qed.

(** [strcmp] is zero exactly on equal strings, and otherwise the difference of
    the first bytes that differ, the end of a string counting as zero. *)
Theorem strcmp_orders (u : ul W) p q l1 l2 : cstr u.(l_mem) p l1 → cstr u.(l_mem) q l2 →
  Z.of_nat (length l1) < 2 ^ 63 →
  ∃ r, strcmp p q u = Ok (r, u) ∧ (r = 0 ↔ l1 = l2) ∧
    ∃ i, take i l1 = take i l2 ∧ r = nth i l1 0 - nth i l2 0.
Proof.
  intros H1 H2 Hl.
  assert (wp (strcmp p q) (λ r u', u' = u ∧ (r = 0 ↔ l1 = l2) ∧
    ∃ i, take i l1 = take i l2 ∧ r = nth i l1 0 - nth i l2 0) u) as Hwp.
  { apply (wp_loop (λ '(a, b) u', u' = u ∧ ∃ i, (i ≤ length l1)%nat ∧ (i ≤ length l2)%nat ∧ a = p + Z.of_nat i ∧
      b = q + Z.of_nat i ∧ take i l1 = take i l2) (λ '(a, _), p + Z.of_nat (length l1) - a)).
    - split; [done|]. exists 0%nat. split_and!; [lia..|done].
    - lia.
    - intros [a b] u' [-> (i & Hi1 & Hi2 & -> & -> & Heq)] _. apply wp_gets_bind, wp_gets_bind.
      destruct (cstr_at _ _ _ i H1 Hi1) as [E1 Z1]. destruct (cstr_at _ _ _ i H2 Hi2) as [E2 Z2].
      set (a := ld8 _ (p + Z.of_nat i)) in *. set (b := ld8 _ (q + Z.of_nat i)) in *.
      destruct (negb (a =? 0) && (a =? b)) eqn:Eb; apply wp_ret.
      + apply andb_true_iff in Eb as [Ea Eb]. apply negb_true_iff, Z.eqb_neq in Ea. apply Z.eqb_eq in Eb.
        assert (i ≠ length l1 ∧ i ≠ length l2) as [??] by (split; intros ?; apply Ea; [|rw Eb]; tauto).
        split; [|lia]. split; [done|]. exists (S i). split_and!; [lia..|].
        destruct (lookup_lt_is_Some_2 l1 i ltac:(lia)) as [c1 Hc1].
        destruct (lookup_lt_is_Some_2 l2 i ltac:(lia)) as [c2 Hc2].
        rw (take_S_r _ _ _ Hc1) (take_S_r _ _ _ Hc2) Heq.
        by rw -(nth_lookup_Some _ _ 0 _ Hc1) -(nth_lookup_Some _ _ 0 _ Hc2) -E1 -E2 Eb.
      + split; [done|]. split; [|exists i; by rw E1 E2]. split; intros E.
        * assert (a = 0) as Ea. { destruct (Z.eqb_spec a 0); [done|]. destruct (Z.eqb_spec a b); simpl in Eb; [done|lia]. }
          apply Z1 in Ea as Ea1. assert (b = 0) as Ez by lia. apply Z2 in Ez.
          move: Heq. rw {1}Ea1 Ez !firstn_all //.
        * subst l2. lia. }
  destruct (wp_run _ _ _ Hwp) as (r & u' & Hrun & -> & Hr). by exists r.
Qed.

(** [gets] stays within its buffer whatever the input is, and leaves a NUL in
    it; it reads at most [max - 1] bytes. *)
Theorem gets_bounded (u : ul W) buf max : 1 ≤ max < 2 ^ 31 →
  ∃ u', gets buf max u = Ok (buf, u') ∧
    (∀ x, x < buf ∨ buf + max ≤ x → ld8 u'.(l_mem) x = ld8 u.(l_mem) x) ∧
    ∃ i, 0 ≤ i < max ∧ ld8 u'.(l_mem) (buf + i) = 0.
Proof.
  intros Hmax.
  assert (wp (gets buf max) (λ r u', r = buf ∧
    (∀ x, x < buf ∨ buf + max ≤ x → ld8 u'.(l_mem) x = ld8 u.(l_mem) x) ∧
    ∃ i, 0 ≤ i < max ∧ ld8 u'.(l_mem) (buf + i) = 0) u) as Hwp.
  { apply wp_bind. apply (wp_loop (λ i u', 0 ≤ i < max ∧
      ∀ x, x < buf ∨ buf + max ≤ x → ld8 u'.(l_mem) x = ld8 u.(l_mem) x) (λ i, max - i)).
    - split; [lia|done].
    - lia.
    - assert (∀ i (u' : ul W), 0 ≤ i < max → (∀ x, x < buf ∨ buf + max ≤ x → ld8 u'.(l_mem) x = ld8 u.(l_mem) x) →
        wp (stb (buf + i) 0;; mret buf) (λ r u', r = buf ∧
          (∀ x, x < buf ∨ buf + max ≤ x → ld8 u'.(l_mem) x = ld8 u.(l_mem) x) ∧
          ∃ i, 0 ≤ i < max ∧ ld8 u'.(l_mem) (buf + i) = 0) u') as Hend.
      { intros i u' Hi Hx. apply wp_modify_bind, wp_ret. simpl. split; [done|]. split.
        - intros x Ho. rw ld8_st8. zdec. by apply Hx.
        - exists i. split; [done|]. rw ld8_st8. by zdec. }
      intros i u' [Hi Hx] _. destruct (Z.ltb_spec (i + 1) max); [|apply wp_ret; by apply Hend].
      apply wp_gets_bind. destruct (read1 _) as [[c|] w].
      2:{ apply wp_modify_bind, wp_ret. by apply Hend. }
      assert (∀ x, x < buf ∨ buf + max ≤ x → ld8 (st8 u'.(l_mem) (buf + i) c) x = ld8 u.(l_mem) x) as Hx'.
      { intros x Ho. rw ld8_st8. zdec. by apply Hx. }
      apply wp_modify_bind, wp_modify_bind. simpl. destruct (_ || _); apply wp_ret; [apply Hend; [lia|done]|].
      split; [split; [lia|done]|lia]. }
  destruct (wp_run _ _ _ Hwp) as (r & u' & Hrun & -> & Hr). by exists u'.
Qed.
End ulib.
End UlibProps.
