(* ===== verification/Printf.v ===== *)
(** * Console output of the kernel (traps lab, [printf.c])

    Output is the list of bytes given to [consputc] ([console.c] is not part of
    the repository, and neither is [spinlock.c]: the console lock is held or
    free, and taking it twice or releasing it free is the panic it documents).
    A format is the list of
    its bytes before the NUL; the arguments after it are words and strings,
    taken one by one as [va_arg] does.  [panic] ends in an endless loop: the
    model of it returns the state in which it loops. *)

From S2P Require Import Prelude Machine.

Module Printf.

Record pst := MkPr {
  pr_out : list Z;        (* bytes sent to the console *)
  pr_locking : bool;      (* pr.locking *)
  pr_lock : bool;         (* pr.lock is held *)
  pr_panicked : bool;
}.

Definition consputc (c : Z) : M pst unit :=
  modify (λ s, MkPr (s.(pr_out) ++ [u8 c]) s.(pr_locking) s.(pr_lock) s.(pr_panicked)).
Definition acquire : M pst unit :=
  l ← gets pr_lock;
  if (l : bool) then panic "acquire"
  else modify (λ s, MkPr s.(pr_out) s.(pr_locking) true s.(pr_panicked)).
Definition release : M pst unit :=
  l ← gets pr_lock;
  if (l : bool) then modify (λ s, MkPr s.(pr_out) s.(pr_locking) false s.(pr_panicked))
  else panic "release".

(** The string "0123456789abcdef". *)
Definition digits (d : Z) : Z := if d <? 10 then 48 + d else 97 + (d - 10).

(** [buf] has room for 16 bytes; a store past it is undefined. *)
Definition push_buf (buf : list Z) (c : Z) : M pst (list Z) :=
  if 16 <=? Z.of_nat (length buf) then undef "buf" else mret (buf ++ [c]).

Definition putall (l : list Z) : M pst (option unit) :=
  for_each l (λ c, consputc c;; mret None).

(** [- xx] wraps at [INT_MIN], as compiled. *)
Definition printint (xx base sign : Z) : M pst unit :=
  let neg := negb (sign =? 0) && (xx <? 0) in
  let x := if neg then u32 (- xx) else u32 xx in
  buf ← loop (λ '(x, buf),
    buf ← push_buf buf (digits (x mod base));
    let x := x / base in
    if negb (x =? 0) then mret (inl (x, buf)) else mret (inr buf)) (x, []);
  buf ← (if neg then push_buf buf 45 else mret buf);
  putall (rev buf);;
  mret tt.

Definition printptr (x : Z) : M pst unit :=
  consputc 48;;
  consputc 120;;
  loop (λ '(i, x),
    if i <? 16 then
      consputc (digits (Z.shiftr x 60));;
      mret (inl (i + 1, u64 (Z.shiftl x 4)))
    else mret (inr tt)) (0, x).

Inductive varg :=
  | VWord (w : Z)
  | VStr (s : option (list Z)).       (* a string, or the null pointer *)

Definition NULLSTR : list Z := [40; 110; 117; 108; 108; 41].

(** The loop over the format; taking an argument that is not there, or not of
    the kind asked for, is undefined. *)
Fixpoint format (fmt : list Z) (ap : list varg) : M pst unit :=
  match fmt with
  | [] => mret tt
  | c :: fmt =>
      if negb (c =? 37) then consputc c;; format fmt ap
      else
        match fmt with
        | [] => mret tt
        | c :: fmt =>
            if c =? 100 then
              match ap with VWord w :: ap => printint (s32 w) 10 1;; format fmt ap | _ => undef "va_arg" end
            else if c =? 120 then
              match ap with VWord w :: ap => printint (s32 w) 16 1;; format fmt ap | _ => undef "va_arg" end
            else if c =? 112 then
              match ap with VWord w :: ap => printptr (u64 w);; format fmt ap | _ => undef "va_arg" end
            else if c =? 115 then
              match ap with VStr s :: ap => putall (default NULLSTR s);; format fmt ap | _ => undef "va_arg" end
            else if c =? 37 then consputc 37;; format fmt ap
            else consputc 37;; consputc c;; format fmt ap
        end
  end.

Definition printf (fmt : option (list Z)) (ap : list varg) : M pst unit :=
  locking ← gets pr_locking;
  when locking acquire;;
  match fmt with
  | None => panic "null fmt"
  | Some fmt => format fmt ap
  end;;
  when locking release.

Definition PANIC : list Z := [112; 97; 110; 105; 99; 58; 32].

Definition kpanic (msg : list Z) : M pst unit :=
  modify (λ s, MkPr s.(pr_out) false s.(pr_lock) s.(pr_panicked));;
  printf (Some PANIC) [];;
  printf (Some msg) [];;
  printf (Some [10]) [];;
  modify (λ s, MkPr s.(pr_out) s.(pr_locking) s.(pr_lock) true).

Definition printfinit : M pst unit :=
  modify (λ s, MkPr s.(pr_out) true false s.(pr_panicked)).

Definition BACKTRACE : list Z := [98; 97; 99; 107; 116; 114; 97; 99; 101; 58; 10].

(** [fp] is the value of [r_fp()], [m] the memory of the kernel stack. *)
Definition backtrace (m : mem) (fp : Z) : M pst unit :=
  let top := u64 (PGROUNDDOWN fp + PGSIZE) in
  printf (Some BACKTRACE) [];;
  loop (λ fp,
    if fp <? top then
      let ra := ld64 m (fp - 8) in
      printf (Some [37; 112; 10]) [VWord ra];;
      mret (inl (ld64 m (fp - 16)))
    else mret (inr tt)) fp.
End Printf.
