(* ===== verification/PrintfProps.v ===== *)
(** * Correctness of console output

    What [printint] prints is the number, in decimal or hexadecimal, and never
    overruns its buffer; [atoi] of the user library reads it back; [backtrace]
    prints the return addresses of the frames. *)

From S2P Require Import Prelude Machine Ulib Printf.
Import Ulib Printf.

Module PrintfProps.

(** ** Digits *)

Definition digit_val (c : Z) : Z := if c <? 58 then c - 48 else c - 87.

(** The number a buffer denotes, least significant digit first. *)
Fixpoint val (base : Z) (buf : list Z) : Z :=
  match buf with
  | [] => 0
  | c :: buf => digit_val c + base * val base buf
  end.

(** Reading digits from the left. *)
Definition value (base : Z) (ds : list Z) : Z := fold_left (λ n c, n * base + digit_val c) ds 0.

Lemma value_app base l1 l2 : value base (l1 ++ l2) = fold_left (λ n c, n * base + digit_val c) l2 (value base l1).
Proof. apply fold_left_app. Qed.

Lemma val_snoc base buf c : val base (buf ++ [c]) = val base buf + digit_val c * base ^ Z.of_nat (length buf).
Proof.
  induction buf as [|a buf IH]; cbn [app val length]; [rw Z.pow_0_r; lia|].
  rw IH Nat2Z.inj_succ Z.pow_succ_r; lia.
Qed.

Lemma value_rev base buf : value base (rev buf) = val base buf.
Proof.
  induction buf as [|c buf IH]; [done|]. cbn [rev val]. rw value_app IH /=. lia.
Qed.

Definition is_digit (base c : Z) : Prop := ∃ d, 0 ≤ d < base ∧ c = digits d.

Lemma digits_val d : 0 ≤ d < 16 → digit_val (digits d) = d ∧ 0 ≤ digits d < 256.
Proof. intros Hd. rw /digits /digit_val. zbool; lia. Qed.

(** The numeral of [x]: its digits from the most significant one, without
    leading zeros. *)
Definition numeral (base x : Z) (ds : list Z) : Prop :=
  Forall (is_digit base) ds ∧ value base ds = x ∧ (1 ≤ length ds ≤ 10)%nat ∧
  (head ds = Some 48 → ds = [48]).

(** Appending to the output. *)
Definition says (s : pst) (l : list Z) : pst := MkPr (s.(pr_out) ++ l) s.(pr_locking) s.(pr_lock) s.(pr_panicked).

Lemma says_app s l1 l2 : says (says s l1) l2 = says s (l1 ++ l2).
Proof. rw /says /=. by rw app_assoc. Qed.
Lemma says_nil s : says s [] = s.
Proof. rw /says app_nil_r. by destruct s. Qed.

Lemma putall_ok s l : putall l s = Ok (None, says s (u8 <$> l)).
Proof.
  rw /putall. revert s. induction l as [|c l IH]; intros s; [by rw /= says_nil|].
  change (for_each (c :: l) _ s) with
    (for_each l (λ c, consputc c;; mret (A := option unit) None) (says s [u8 c])).
  rw IH says_app //.
Qed.

Definition bytes (l : list Z) : Prop := Forall (λ b, 0 ≤ b < 256) l.
Lemma bytes_u8 l : bytes l → u8 <$> l = l.
Proof. induction 1 as [|b l Hb _ IH]; [done|]. rw fmap_cons IH u8_small //. Qed.

Lemma digit_bytes base l : base ≤ 16 → Forall (is_digit base) l → bytes l.
Proof.
  intros Hb Hl. eapply Forall_impl; [exact Hl|]. intros c (d & Hd & ->). apply digits_val. lia.
Qed.

(** The digits of a number: what is left to divide is smaller by a factor of
    [base] each time, so that ten digits are always enough. *)
Lemma digits_loop_ok s base x0 : 10 ≤ base ≤ 16 → 0 ≤ x0 < 2 ^ 32 →
  wp (loop (λ '(x, buf),
      buf ← push_buf buf (digits (x mod base));
      let x := x / base in
      if negb (x =? 0) then mret (inl (x, buf)) else mret (inr buf)) (x0, []))
    (λ buf s', s' = s ∧ Forall (is_digit base) buf ∧ val base buf = x0 ∧ (1 ≤ length buf ≤ 10)%nat ∧
      (last buf = Some 48 → buf = [48])) s.
Proof.
  intros Hb Hx0. apply (wp_loop (λ '(x, buf) s', s' = s ∧ Forall (is_digit base) buf ∧ 0 ≤ x ∧
      x0 = val base buf + x * base ^ Z.of_nat (length buf) ∧ 0 ≤ val base buf ∧ (buf ≠ [] → 0 < x)) (λ '(x, _), x)).
  - split_and!; [done|constructor|lia|cbn [val length]; rw Z.pow_0_r; lia|simpl; lia|done].
  - lia.
  - intros [x buf] s' (-> & Hd & Hx & Hsum & Hv & Hpos) _.
    assert (length buf ≤ 9)%nat as Hlen.
    { destruct buf as [|c buf]; [simpl; lia|]. specialize (Hpos ltac:(done)). set (n := length (c :: buf)) in *.
      assert (base ^ Z.of_nat n ≤ x0) by nia. destruct (Nat.le_gt_cases n 9) as [|Hgt]; [done|exfalso].
      assert (10 ^ 10 ≤ base ^ Z.of_nat n); [|lia]. etrans; [apply (Z.pow_le_mono_l 10 base 10); lia|].
      apply Z.pow_le_mono_r; lia. }
    apply wp_bind. rw /push_buf. rewrite -> (proj2 (Z.leb_gt _ _)) by lia. apply wp_ret. cbv zeta.
    assert (0 ≤ x mod base < base) as Hm by (apply Z.mod_pos_bound; lia).
    destruct (digits_val (x mod base) ltac:(lia)) as [Hdv _].
    assert (Forall (is_digit base) (buf ++ [digits (x mod base)])) as Hd'.
    { apply Forall_app. split; [done|]. repeat constructor. by exists (x mod base). }
    assert (val base (buf ++ [digits (x mod base)]) = val base buf + x mod base * base ^ Z.of_nat (length buf)) as Hvs
      by (by rw val_snoc Hdv).
    pose proof (Z.div_mod x base ltac:(lia)) as Hdm. pose proof (Z.pow_pos_nonneg base (Z.of_nat (length buf)) ltac:(lia) ltac:(lia)).
    assert (0 ≤ x / base) as Hq by (apply Z.div_pos; lia).
    destruct (Z.eqb_spec (x / base) 0) as [E|E]; simpl; apply wp_ret.
    + split; [done|]. split; [done|]. rw length_app /=. split; [rw Hvs; nia|]. split; [lia|]. rw last_snoc.
      intros [=Hz]. destruct buf as [|c buf]; [by rw Hz|exfalso]. specialize (Hpos ltac:(done)).
      assert (x mod base = 0); [|nia]. move: Hz. rw /digits. zbool; lia.
    + split.
      * split; [done|]. split; [done|]. split; [lia|]. rw length_app Nat2Z.inj_add Z.pow_add_r; [|lia..].
        change (Z.of_nat (length [digits (x mod base)])) with 1. rw Z.pow_1_r Hvs. split; [nia|]. split; [nia|lia].
      * split; [lia|]. apply Z.div_lt; lia.
Qed.

Lemma head_rev (l : list Z) : head (rev l) = last l.
Proof. destruct l as [|x l _] using rev_ind; [done|]. by rw rev_unit last_snoc. Qed.

Lemma printint_ok s xx base sign : 10 ≤ base ≤ 16 → - 2 ^ 31 ≤ xx < 2 ^ 31 →
  let neg := negb (sign =? 0) && (xx <? 0) in
  ∃ ds, printint xx base sign s = Ok (tt, says s ((if neg then [45] else []) ++ ds)) ∧
    numeral base (if neg then - xx else u32 xx) ds.
Proof.
  intros Hb Hxx neg. set (x := if neg then u32 (- xx) else u32 xx).
  assert (0 ≤ x < 2 ^ 32 ∧ x = if neg then - xx else u32 xx) as [Hx Hxe].
  { subst x neg. destruct (sign =? 0); simpl; [split; [apply u32_range|done]|].
    destruct (Z.ltb_spec xx 0); [|split; [apply u32_range|done]]. rw u32_small; lia. }
  destruct (wp_run _ _ _ (digits_loop_ok s base x Hb Hx)) as (buf & s' & Hrun & -> & Hd & Hv & Hlen & Hz).
  exists (rev buf). split.
  2:{ split; [by apply Forall_rev|]. split; [by rw value_rev Hv Hxe|]. split; [by rw length_rev|].
      rw head_rev. intros ->%Hz. done. }
  rw /printint -/neg -/x. rw {1}/mbind /M_bind Hrun. destruct neg.
  - rw /push_buf. rewrite -> (proj2 (Z.leb_gt _ _)) by lia. wp_unfold. rw putall_ok rev_unit. f_equal. f_equal. f_equal.
    apply bytes_u8. constructor; [lia|]. eapply digit_bytes; [|by apply Forall_rev]. lia.
  - wp_unfold. rw putall_ok. f_equal. f_equal. f_equal. apply bytes_u8. eapply digit_bytes; [|by apply Forall_rev]. lia.
Qed.

(** ** Pointers *)

(** One turn of [printptr]: the top nibble of the word is the next digit of
    [x], and the shift drops it. *)
Lemma nibble x i : 0 ≤ x → 0 ≤ i < 16 →
  let y := x mod 16 ^ (16 - i) * 16 ^ i in
  Z.shiftr y 60 = x mod 16 ^ (16 - i) / 16 ^ (15 - i) ∧
  0 ≤ Z.shiftr y 60 < 16 ∧
  u64 (Z.shiftl y 4) = x mod 16 ^ (16 - (i + 1)) * 16 ^ (i + 1) ∧
  x / 16 ^ (16 - i) * 16 + Z.shiftr y 60 = x / 16 ^ (15 - i).
Proof.
  intros Hx Hi y. set (b := 16 ^ (15 - i)). set (c := 16 ^ i) in *.
  assert (0 < b ∧ 0 < c) as [Hb Hc] by (split; apply Z.pow_pos_nonneg; lia).
  assert (16 ^ (16 - i) = 16 * b) as Eb by (subst b; rw -Z.pow_succ_r; [f_equal|]; lia).
  assert (2 ^ 60 = b * c) as E60 by (subst b c; rw -Z.pow_add_r; [|lia..]; by rewrite -> Z.sub_add).
  assert (16 ^ (i + 1) = 16 * c) as Ec by (subst c; rw Z.add_1_r Z.pow_succ_r; lia).
  assert (Z.shiftr y 60 = x mod (16 * b) / b) as Ed.
  { rw Z.shiftr_div_pow2; [|lia]. subst y. rw E60 Eb Z.div_mul_cancel_r; lia. }
  pose proof (Z.mod_pos_bound x (16 * b) ltac:(lia)) as Hm.
  pose proof (Z.div_mod x (16 * b) ltac:(lia)) as Hdm.
  pose proof (Z.div_mod (x mod (16 * b)) b ltac:(lia)) as Hdm'.
  pose proof (Z.mod_pos_bound (x mod (16 * b)) b ltac:(lia)) as Hm'.
  rw Ed Eb. split_and!; [done|apply Z.div_pos; lia|apply Z.div_lt_upper_bound; lia| |].
  - replace (16 - (i + 1)) with (15 - i) by lia. rw -/b Ec /u64 Z.shiftl_mul_pow2; [|lia]. subst y. rw Eb.
    replace (x mod (16 * b) * c * 2 ^ 4) with (x mod (16 * b) * (16 * c)) by lia.
    replace (2 ^ 64) with (b * (16 * c)) by lia. rw Z.mul_mod_distr_r; [|lia..]. f_equal.
    rewrite -> (Z.mul_comm 16 b), Z.rem_mul_r by lia. rewrite -> (Z.mul_comm b), Z.mod_add by lia.
    apply Z.mod_mod. lia.
  - apply (Z.div_unique_pos _ _ _ (x mod (16 * b) mod b)); lia.
Qed.

Lemma printptr_loop s x : 0 ≤ x < 2 ^ 64 →
  wp (loop (λ '(i, x),
      if i <? 16 then
        consputc (digits (Z.shiftr x 60));;
        mret (inl (i + 1, u64 (Z.shiftl x 4)))
      else mret (inr tt)) (0, x))
    (λ _ s', ∃ ds, s' = says s ds ∧ Forall (is_digit 16) ds ∧ value 16 ds = x ∧ length ds = 16%nat) s.
Proof.
  intros Hx. apply (wp_loop (λ '(i, y) s', 0 ≤ i ≤ 16 ∧ y = x mod 16 ^ (16 - i) * 16 ^ i ∧
      ∃ ds, s' = says s ds ∧ Forall (is_digit 16) ds ∧ length ds = Z.to_nat i ∧ value 16 ds = x / 16 ^ (16 - i))
      (λ '(i, _), 16 - i)).
  - split; [lia|]. split; [rw Z.mod_small; lia|]. exists []. rw says_nil. split_and!; [done|constructor|done|].
    cbn [value fold_left]. symmetry. by apply Z.div_small.
  - lia.
  - intros [i y] s' (Hi & -> & ds & -> & Hd & Hlen & Hv) _. destruct (Z.ltb_spec i 16).
    + destruct (nibble x i ltac:(lia) ltac:(lia)) as (_ & Hn & Hy & Hq). cbv zeta in Hn, Hy, Hq. rw /consputc.
      set (d := Z.shiftr (_ * _) 60) in *. destruct (digits_val d Hn) as [Hdv Hdb].
      apply wp_modify_bind. apply wp_ret. rw Hy. split; [|lia]. split; [lia|]. split; [done|].
      exists (ds ++ [digits d]). rw u8_small; [|done]. split_and!.
      * by rw -says_app.
      * apply Forall_app. split; [done|]. repeat constructor. by exists d.
      * rw length_app /=. lia.
      * rw value_app /= Hv Hdv Hq. f_equal. f_equal. lia.
    + apply wp_ret. assert (i = 16) as -> by lia. exists ds. split_and!; [done..| |done].
      rw Hv. change (16 ^ (16 - 16)) with 1. apply Z.div_1_r.
Qed.

(** The text of a pointer: [0x] and sixteen hexadecimal digits. *)
Definition pointer (x : Z) (l : list Z) : Prop :=
  ∃ ds, l = 48 :: 120 :: ds ∧ Forall (is_digit 16) ds ∧ value 16 ds = x ∧ length ds = 16%nat.

Lemma printptr_ok s x : 0 ≤ x < 2 ^ 64 → ∃ l, printptr x s = Ok (tt, says s l) ∧ pointer x l.
Proof.
  intros Hx. destruct (wp_run _ _ _ (printptr_loop (says s [48; 120]) x Hx)) as ([] & s' & Hrun & ds & -> & Hds).
  exists (48 :: 120 :: ds). split; [|by exists ds]. rw /printptr.
  change (mbind _ (consputc 48) s) with ((consputc 120;; loop (λ '(i, x),
      if i <? 16 then consputc (digits (Z.shiftr x 60));; mret (inl (i + 1, u64 (Z.shiftl x 4)))
      else mret (inr tt)) (0, x)) (says s [48])).
  change (mbind _ (consputc 120) _) with (loop (λ '(i, x),
      if i <? 16 then consputc (digits (Z.shiftr x 60));; mret (inl (i + 1, u64 (Z.shiftl x 4)))
      else mret (inr tt)) (0, x) (says (says s [48]) [120])).
  rw says_app Hrun says_app //.
Qed.

(** ** Formats

    What a format and its arguments stand for, said without the loop. *)

(** A signed number in [base]. *)
Definition signed (base w : Z) (l : list Z) : Prop :=
  ∃ ds, l = (if s32 w <? 0 then [45] else []) ++ ds ∧ numeral base (Z.abs (s32 w)) ds.

Inductive renders : list Z → list varg → list Z → Prop :=
  | rend_end ap : renders [] ap []
  | rend_char c fmt ap l :
      c ≠ 37 → renders fmt ap l → renders (c :: fmt) ap (u8 c :: l)
  | rend_lone ap : renders [37] ap []
  | rend_d fmt w ap n l :
      signed 10 w n → renders fmt ap l → renders (37 :: 100 :: fmt) (VWord w :: ap) (n ++ l)
  | rend_x fmt w ap n l :
      signed 16 w n → renders fmt ap l → renders (37 :: 120 :: fmt) (VWord w :: ap) (n ++ l)
  | rend_p fmt w ap n l :
      pointer (u64 w) n → renders fmt ap l → renders (37 :: 112 :: fmt) (VWord w :: ap) (n ++ l)
  | rend_s fmt str ap l :
      renders fmt ap l → renders (37 :: 115 :: fmt) (VStr (Some str) :: ap) ((u8 <$> str) ++ l)
  | rend_null fmt ap l :
      renders fmt ap l → renders (37 :: 115 :: fmt) (VStr None :: ap) (NULLSTR ++ l)
  | rend_percent fmt ap l : renders fmt ap l → renders (37 :: 37 :: fmt) ap (37 :: l)
  | rend_other c fmt ap l :
      c ∉ [100; 120; 112; 115; 37] → renders fmt ap l → renders (37 :: c :: fmt) ap (37 :: u8 c :: l).

(** The arguments are those the format asks for. *)
Fixpoint args_fit (fmt : list Z) (ap : list varg) : bool :=
  match fmt with
  | [] => true
  | c :: fmt =>
      if negb (c =? 37) then args_fit fmt ap
      else match fmt with
      | [] => true
      | c :: fmt =>
          if (c =? 100) || (c =? 120) || (c =? 112) then
            match ap with VWord _ :: ap => args_fit fmt ap | _ => false end
          else if c =? 115 then
            match ap with VStr _ :: ap => args_fit fmt ap | _ => false end
          else args_fit fmt ap
      end
  end.

(** From [s], [m] prints a text that satisfies [P] and changes nothing else. *)
Definition prints {A} (m : M pst A) (P : list Z → Prop) (s : pst) : Prop :=
  ∃ a l, m s = Ok (a, says s l) ∧ P l.

Lemma prints_bind {A B} (m : M pst A) (k : M pst B) P Q s :
  prints m P s → (∀ l, P l → prints k (λ l', Q (l ++ l')) (says s l)) → prints (m;; k) Q s.
Proof.
  intros (a & l & Hm & Hl) Hk. destruct (Hk l Hl) as (b & l' & Hb & Hq). exists b, (l ++ l').
  by rw /mbind /M_bind Hm Hb says_app.
Qed.

Lemma prints_ret {A} (a : A) (P : list Z → Prop) s : P [] → prints (mret a) P s.
Proof. intros Hp. exists a, []. by rw says_nil. Qed.
Lemma prints_char c s : prints (consputc c) (λ l, l = [u8 c]) s.
Proof. by exists tt, [u8 c]. Qed.
Lemma prints_all l s : prints (putall l) (λ l', l' = u8 <$> l) s.
Proof. exists None, (u8 <$> l). by rw putall_ok. Qed.
Lemma prints_pointer w s : prints (printptr (u64 w)) (pointer (u64 w)) s.
Proof. exists tt. apply printptr_ok, u64_range. Qed.

Lemma prints_signed base w s : 10 ≤ base ≤ 16 → prints (printint (s32 w) base 1) (signed base w) s.
Proof.
  intros Hb. destruct (printint_ok s (s32 w) base 1 Hb (s32_range w)) as (ds & Hrun & Hn). cbv zeta in Hn. simpl in *.
  exists tt, ((if s32 w <? 0 then [45] else []) ++ ds). split; [done|]. exists ds. split; [done|].
  destruct (Z.ltb_spec (s32 w) 0); [by rewrite -> Z.abs_neq by lia|].
  pose proof (s32_range w). rewrite -> u32_small in Hn by lia. by rewrite -> Z.abs_eq by lia.
Qed.

Lemma format_renders fmt ap s : args_fit fmt ap → prints (format fmt ap) (renders fmt ap) s.
Proof.
  remember (length fmt) as n eqn:En. revert fmt ap s En.
  induction (lt_wf n) as [n _ IH]. intros [|c fmt] ap s -> Hfit; [apply prints_ret; constructor|].
  cbn [args_fit format] in *.
  assert (∀ fmt' ap' s', (length fmt' ≤ length fmt)%nat → args_fit fmt' ap' → prints (format fmt' ap') (renders fmt' ap') s')
    as IH' by (intros fmt' ap' s' Hl; apply (IH (length fmt')); [simpl; lia|done]). clear IH.
  assert (∀ {A} (m : M pst A) P Q fmt' ap', prints m P s → (length fmt' ≤ length fmt)%nat → args_fit fmt' ap' →
      (∀ l l', P l → renders fmt' ap' l' → Q (l ++ l')) → prints (m;; format fmt' ap') Q s) as Hstep.
  { intros A m P Q fmt' ap' Hm Hl Hf HQ. eapply prints_bind; [done|]. intros l Hp.
    destruct (IH' fmt' ap' (says s l) Hl Hf) as (a & l' & Hrun & Hr). exists a, l'. eauto. }
  destruct (Z.eqb_spec c 37) as [->|Hc]; simpl in *.
  2:{ eapply Hstep; [apply prints_char|lia|done|]. intros ? l -> Hl. by constructor. }
  destruct fmt as [|c fmt]; [apply prints_ret; constructor|]. simpl in *.
  destruct (Z.eqb_spec c 100) as [->|]; simpl in *.
  { destruct ap as [|[w|] ap]; try done. eapply Hstep; [apply prints_signed; lia|lia|done|]. by constructor. }
  destruct (Z.eqb_spec c 120) as [->|]; simpl in *.
  { destruct ap as [|[w|] ap]; try done. eapply Hstep; [apply prints_signed; lia|lia|done|]. by constructor. }
  destruct (Z.eqb_spec c 112) as [->|]; simpl in *.
  { destruct ap as [|[w|] ap]; try done. eapply Hstep; [apply prints_pointer|lia|done|]. by constructor. }
  destruct (Z.eqb_spec c 115) as [->|]; simpl in *.
  { destruct ap as [|[|str] ap]; try done. eapply Hstep; [apply prints_all|lia|done|].
    intros ? l -> Hl. destruct str; by constructor. }
  destruct (Z.eqb_spec c 37) as [->|].
  { eapply Hstep; [apply prints_char|lia|done|]. intros ? l -> Hl. by constructor. }
  eapply prints_bind; [apply prints_char|]. intros ? ->. eapply prints_bind; [apply prints_char|]. intros ? ->.
  destruct (IH' fmt ap (says (says s [u8 37]) [u8 c]) ltac:(lia) Hfit) as (a & l & Hrun & Hr). exists a, l.
  split; [done|]. constructor; [|done]. set_solver.
Qed.

(** The lock is free when [printf] is to take it. *)
Definition pr_ready (s : pst) : Prop := s.(pr_locking) = true → s.(pr_lock) = false.

Lemma printf_prints fmt ap s : pr_ready s → args_fit fmt ap → prints (printf (Some fmt) ap) (renders fmt ap) s.
Proof.
  intros Hr Hfit. rw /prints /printf. destruct s as [out [] lk pk].
  - rewrite /pr_ready /= in Hr. rw Hr; [|done].
    destruct (format_renders fmt ap (MkPr out true true pk) Hfit) as ([] & l & Hrun & Hl).
    exists tt, l. split; [|done]. rw /mbind /M_bind /gets /when /acquire /=. rw /modify Hrun //.
  - destruct (format_renders fmt ap (MkPr out false lk pk) Hfit) as ([] & l & Hrun & Hl).
    exists tt, l. split; [|done]. rw /mbind /M_bind /gets /when /= Hrun //.
Qed.

(** ** Reading a number back *)

Lemma value_take_S base ds i c : ds !! i = Some c →
  value base (take (S i) ds) = value base (take i ds) * base + digit_val c.
Proof. intros Hc. by rw (take_S_r _ _ _ Hc) value_app. Qed.

(** Digits only make a number larger. *)
Lemma value_prefix ds i : Forall (is_digit 10) ds → 0 ≤ value 10 (take i ds) ≤ value 10 ds.
Proof.
  intros Hd. rw -{3}(take_drop i ds) value_app.
  assert (∀ l acc, Forall (is_digit 10) l → 0 ≤ acc → acc ≤ fold_left (λ n c, n * 10 + digit_val c) l acc) as Hfold.
  { induction l as [|c l IH]; intros acc Hl Ha; [done|]. apply Forall_cons in Hl as [(d & Hdig & ->) Hl].
    pose proof (proj1 (digits_val d ltac:(lia))). etrans; [|apply IH; [done|]]; simpl; lia. }
  assert (0 ≤ value 10 (take i ds)) by (apply (Hfold _ 0); [by apply Forall_take|done]).
  split; [done|]. by apply Hfold; [apply Forall_drop|].
Qed.

Section atoi.
Context {W : Type} `{UC : UserCalls W}.

Lemma atoi_reads (u : ul W) p ds :
  cstr u.(l_mem) p ds → Forall (is_digit 10) ds → value 10 ds < 2 ^ 31 → Z.of_nat (length ds) < 2 ^ 63 →
  atoi p u = Ok (value 10 ds, u).
Proof.
  intros (Hm & _ & Hnul) Hd Hv Hlen.
  apply wp_eq_run. apply (wp_loop (λ '(q, n) u', u' = u ∧ ∃ i, (i ≤ length ds)%nat ∧ q = p + Z.of_nat i ∧
      n = value 10 (take i ds)) (λ '(q, _), p + Z.of_nat (length ds) - q)).
  - split; [done|]. exists 0%nat. split_and!; [lia|lia|done].
  - lia.
  - intros [q n] u' [-> (i & Hi & -> & ->)] _. rw /ldb. apply wp_gets_bind.
    destruct (decide (i = length ds)) as [->|Hne].
    { rw Hnul. apply wp_ret. by rw firstn_all. }
    destruct (lookup_lt_is_Some_2 ds i ltac:(lia)) as [c Hc].
    rewrite -> Hm by lia. rw Nat2Z.id (nth_lookup_Some _ _ _ _ Hc).
    pose proof (proj1 (Forall_lookup _ _) Hd _ _ Hc) as (d & Hdig & ->).
    assert (digits d = 48 + d) as Ed by (rw /digits; by zdec). zdec. apply wp_ret.
    pose proof (value_prefix ds (S i) Hd) as Hp. pose proof (value_take_S 10 ds i _ Hc) as HS.
    rewrite -> (proj1 (digits_val d ltac:(lia))) in HS. split; [|lia]. split; [done|]. exists (S i).
    split_and!; [lia|lia|]. rw HS Ed. rw s32_small; lia.
Qed.

(** What the kernel prints for [%d] is read back by [atoi]: the digits
    [printf] sends to the console, put in user memory with a NUL after them,
    are the number for any non-negative [int]. *)
Theorem printf_atoi (s : pst) (w : Z) :
  pr_ready s → 0 ≤ w < 2 ^ 31 →
  ∃ ds, printf (Some [37; 100]) [VWord w] s = Ok (tt, says s ds) ∧ (1 ≤ length ds ≤ 10)%nat ∧
    ∀ (u : ul W) p, cstr u.(l_mem) p ds → atoi p u = Ok (w, u).
Proof.
  intros Hs Hw. destruct (printf_prints [37; 100] [VWord w] s Hs I) as ([] & l & Hrun & Hr).
  inversion Hr as [| | |fmt w' ap n l' (ds & -> & Hd & Hv & Hlen & _) Hl'| | | | | |]; subst; [done| |set_solver].
  inversion Hl'; subst. revert Hv Hrun. rewrite -> s32_small by lia. zdec. rewrite app_nil_r Z.abs_eq; [|lia].
  intros Hv Hrun. exists ds. split_and!; [done|lia..|]. intros u p Hc. rw -Hv. apply atoi_reads; [done..|lia|lia].
Qed.
End atoi.

(** ** Formats and backtraces *)

(** C39: [printf] refines the reading of a format: for every format and every
    argument list that fits it, with the console lock free when locking is on,
    it returns, leaves the lock as it was and sends to the console a text the
    format renders: characters as they are, [%d] and [%x] as the signed numeral
    without leading zeros, [%p] as [0x] and sixteen digits, [%s] as the string
    or [(null)], [%%] as one percent sign, an unknown conversion as it is
    written, and nothing for a percent sign that ends the format. *)
Theorem printf_renders (fmt : list Z) (ap : list varg) (s : pst) :
  pr_ready s → args_fit fmt ap →
  ∃ l, printf (Some fmt) ap s = Ok (tt, says s l) ∧ renders fmt ap l.
Proof. intros Hs Hfit. destruct (printf_prints fmt ap s Hs Hfit) as ([] & l & Hl). eauto. Qed.

Lemma printf_renders_witness :
  ∃ l, printf (Some [112; 105; 100; 32; 37; 100; 58; 32; 37; 115; 10]) [VWord 42; VStr None]
         (MkPr [] true false false) = Ok (tt, says (MkPr [] true false false) l) ∧
       renders [112; 105; 100; 32; 37; 100; 58; 32; 37; 115; 10] [VWord 42; VStr None] l.
Proof. apply printf_renders; [by intros _|exact I]. Defined.

(** The frames from [fp] up to the top of the stack page, each with its return
    address; every frame's caller lies above it. *)
Inductive frames (m : mem) (top : Z) : Z → list Z → Prop :=
  | frames_top fp : top ≤ fp → frames m top fp []
  | frames_up fp ras :
      fp < top → fp < ld64 m (fp - 16) → frames m top (ld64 m (fp - 16)) ras →
      frames m top fp (ld64 m (fp - 8) :: ras).

(** The lines of a backtrace. *)
Definition lines (ras l : list Z) : Prop :=
  ∃ ls, Forall2 pointer ras ls ∧ l = mjoin ((.++ [10]) <$> ls).

Lemma lines_snoc ras l ra n : lines ras l → pointer ra n → lines (ras ++ [ra]) (l ++ n ++ [10]).
Proof.
  intros (ls & Hf & ->) Hn. exists (ls ++ [n]). split; [by apply Forall2_app; [|repeat constructor]|].
  by rw fmap_app join_app /= app_nil_r.
Qed.

(** A line prints the return address, the lock being free again after it. *)
Lemma print_line s ra : pr_ready s → 0 ≤ ra < 2 ^ 64 →
  ∃ n, printf (Some [37; 112; 10]) [VWord ra] s = Ok (tt, says s (n ++ [10])) ∧ pointer ra n.
Proof.
  intros Hs Hra. destruct (printf_prints [37; 112; 10] [VWord ra] s Hs I) as ([] & l & Hrun & Hr).
  inversion Hr as [| | | | |fmt w' ap n l' Hn Hl'| | | |]; subst; [done| |set_solver].
  rewrite -> u64_small in Hn by done. exists n. split; [|done]. rw Hrun. do 3 f_equal.
  inversion Hl' as [|? ? ? ? _ Hend| | | | | | | |]; subst. by inversion Hend.
Qed.

(** A format without a percent sign prints itself. *)
Definition plain (fmt : list Z) : Prop := Forall (λ c, 0 ≤ c < 256 ∧ c ≠ 37) fmt.

Lemma printf_plain fmt s : pr_ready s → plain fmt → printf (Some fmt) [] s = Ok (tt, says s fmt).
Proof.
  intros Hs Hp.
  assert (args_fit fmt []) as Hfit.
  { clear Hs. induction Hp as [|c fmt [_ Hc] _ IH]; [done|]. cbn [args_fit]. by zdec. }
  destruct (printf_prints fmt [] s Hs Hfit) as ([] & l & Hrun & Hr). rw Hrun. do 3 f_equal. clear Hrun Hfit.
  revert l Hr. induction Hp as [|c fmt [Hb Hc] _ IH]; intros l Hr; [by inversion Hr|].
  inversion Hr; subst; try done. rw u8_small; [|done]. f_equal. by apply IH.
Qed.

(** [panic] of a plain message prints it even when the console lock is held,
    and leaves the console frozen. *)
Theorem panic_prints (msg : list Z) (s : pst) : plain msg →
  kpanic msg s = Ok (tt, MkPr (s.(pr_out) ++ PANIC ++ msg ++ [10]) false s.(pr_lock) true).
Proof.
  intros Hm. rw /kpanic /mbind /M_bind /modify.
  rw printf_plain; [|done|repeat constructor; lia].
  rw printf_plain; [|done..]. rw printf_plain; [|done|repeat constructor; lia].
  by rw /says /= -!app_assoc.
Qed.

Lemma backtrace_loop m top fp ras s : pr_ready s → 0 ≤ fp → 0 ≤ top < 2 ^ 64 → frames m top fp ras →
  wp (loop (λ fp,
    if fp <? top then
      let ra := ld64 m (fp - 8) in
      printf (Some [37; 112; 10]) [VWord ra];;
      mret (inl (ld64 m (fp - 16)))
    else mret (inr tt)) fp) (λ _ s', ∃ l, s' = says s l ∧ lines ras l) s.
Proof.
  intros Hs Hfp Htop Hfr.
  apply (wp_loop (λ fp s', ∃ l rs rest, s' = says s l ∧ ras = rs ++ rest ∧ lines rs l ∧ frames m top fp rest)
      (λ fp, Z.max 0 (top - fp))).
  - exists [], [], ras. rw says_nil. split_and!; [done|done|by exists []|done].
  - lia.
  - intros fp' s' (l & rs & rest & -> & -> & Hl & Hrest) _.
    inversion Hrest as [? Hge|? rest' Hlt Hup Hrest']; subst; zdec.
    + apply wp_ret. exists l. by rw app_nil_r.
    + destruct (print_line (says s l) (ld64 m (fp' - 8)) Hs (ld64_range _ _)) as (n & Hrun & Hn).
      apply wp_bind, (wp_of_run _ _ _ _ _ Hrun), wp_ret. split; [|lia].
      exists (l ++ n ++ [10]), (rs ++ [ld64 m (fp' - 8)]), rest'.
      split_and!; [by rw says_app|by rw -app_assoc|by apply lines_snoc|done].
Qed.

(** [backtrace] walks the frames of the kernel stack from the innermost one and
    prints the return address of each on a line of its own, stopping at the
    end of the stack page. *)
Theorem backtrace_prints (m : mem) (fp : Z) (ras : list Z) (s : pst) :
  pr_ready s → 0 ≤ fp < 2 ^ 64 - 4096 → frames m (PGROUNDDOWN fp + PGSIZE) fp ras →
  ∃ l, backtrace m fp s = Ok (tt, says s (BACKTRACE ++ l)) ∧ lines ras l.
Proof.
  intros Hs Hfp Hfr. rw /backtrace.
  assert (0 ≤ PGROUNDDOWN fp + PGSIZE < 2 ^ 64) as Htop by (rw PGROUNDDOWN_eq; consts; lia).
  rewrite -> (u64_small (PGROUNDDOWN fp + PGSIZE)) by done.
  rw /mbind {1}/M_bind printf_plain; [|done|repeat constructor; lia].
  destruct (wp_run _ _ _ (backtrace_loop m _ fp ras (says s BACKTRACE) Hs ltac:(lia) Htop Hfr))
    as ([] & s' & Hrun & l & -> & Hl).
  exists l. by rw -says_app -Hrun.
Qed.

(** Two frames near the top of a stack page. *)
Lemma backtrace_prints_witness :
  let m := st64 (st64 (st64 (st64 (λ _, 0) (8192 - 72) 2147483700) (8192 - 80) 8160) (8160 - 8) 2147483800) (8160 - 16) 8192 in
  ∃ l, backtrace m (8192 - 64) (MkPr [] true false false) =
         Ok (tt, says (MkPr [] true false false) (BACKTRACE ++ l)) ∧ lines [2147483700; 2147483800] l.
Proof.
  intros m. apply (backtrace_prints m (8192 - 64)); [by intros _|lia|].
  change [2147483700; 2147483800] with [ld64 m (8192 - 64 - 8); ld64 m (8160 - 8)].
  apply frames_up; [vm_compute; done..|]. change (ld64 m (8192 - 64 - 16)) with 8160.
  apply frames_up; [vm_compute; done..|]. apply frames_top. vm_compute. done.
Defined.
End PrintfProps.
