(* ===== verification/Utils.v ===== *)
(** * The utilities lab ([xargs.c], [primes.c], [find.c])

    The programs run over what [fork], [read] and [exec] do for them: whether
    the [n]-th [fork] succeeds is the class [Forks]; standard input is a list
    of bytes, its end the end of file; [exec] in a child is recorded with the
    argument strings it is given; the file system [find] walks is the class
    [FileTree].  A parent waits for its child, so that at any
    time one process of a program runs. *)

From S2P Require Import Prelude Machine.

Module Utils.

Class Forks := { fork_ok : nat → bool }.

(** An array of the program: a store past its end is undefined. *)
Definition put {A} (l : list A) (i : Z) (v : A) : option (list A) :=
  if (0 <=? i) && (i <? Z.of_nat (length l)) then Some (<[Z.to_nat i := v]> l) else None.

(** ** xargs *)

Definition MAXARG : nat := 32.

(** A pointer of [new_argv]: an argument of [main], a place in [buf], null, or
    what the array held before. *)
Inductive argp :=
  | PArg (i : nat)
  | PBuf (off : Z)
  | PNull
  | PJunk.

Record xst := MkX {
  x_in : list Z;                  (* the rest of standard input *)
  x_buf : list Z;                 (* char buf[128] *)
  x_argv : list argp;             (* char *new_argv[MAXARG] *)
  x_forks : nat;                  (* forks so far *)
  x_runs : list (list (list Z));  (* argument lists of the programs run *)
}.

Section xargs.
Context `{FK : Forks}.

Definition set_buf (i c : Z) : M xst unit :=
  b ← gets x_buf;
  match put b i c with
  | Some b => modify (λ s, MkX s.(x_in) b s.(x_argv) s.(x_forks) s.(x_runs))
  | None => undef "buf"
  end.

Definition set_argv (i : Z) (p : argp) : M xst unit :=
  a ← gets x_argv;
  match put a i p with
  | Some a => modify (λ s, MkX s.(x_in) s.(x_buf) a s.(x_forks) s.(x_runs))
  | None => undef "new_argv"
  end.

Definition read_ch : M xst (option Z) :=
  l ← gets x_in;
  match l with
  | [] => mret None
  | c :: l => modify (λ s, MkX l s.(x_buf) s.(x_argv) s.(x_forks) s.(x_runs));; mret (Some c)
  end.

(** The string at an offset of a buffer: up to the NUL. *)
Fixpoint cstring (l : list Z) : list Z :=
  match l with
  | [] => []
  | c :: l => if c =? 0 then [] else c :: cstring l
  end.

(** The argument strings [exec] reads: those of [new_argv] before the null. *)
Fixpoint exec_args (args : list (list Z)) (buf : list Z) (a : list argp) : list (list Z) :=
  match a with
  | PArg i :: a => default [] (args !! i) :: exec_args args buf a
  | PBuf off :: a => cstring (drop (Z.to_nat off) buf) :: exec_args args buf a
  | _ => []
  end.

(** [fork] and the child's [exec]. *)
Definition fork_exec (args : list (list Z)) : M xst unit :=
  modify (λ s, MkX s.(x_in) s.(x_buf) s.(x_argv) (S s.(x_forks))
    (if fork_ok s.(x_forks) then s.(x_runs) ++ [exec_args args s.(x_buf) s.(x_argv)] else s.(x_runs))).

(** [args] are [argv[1]] to [argv[argc - 1]]. *)
Definition xargs (args : list (list Z)) : M xst unit :=
  let argc := Z.of_nat (length args) + 1 in
  cur_argv ← loop (λ cur_argv,
    if cur_argv <=? argc - 1 then
      set_argv (cur_argv - 1) (PArg (Z.to_nat (cur_argv - 1)));;
      mret (inl (cur_argv + 1))
    else mret (inr cur_argv)) 1;
  set_argv (cur_argv - 1) (PBuf 0);;
  loop (λ '(cur_buf, cur_argv),
    c ← read_ch;
    match c with
    | None => mret (inr tt)
    | Some ch =>
        if ch =? 32 then
          set_buf cur_buf 0;;
          let cur_buf := cur_buf + 1 in
          set_argv cur_argv (PBuf cur_buf);;
          mret (inl (cur_buf, cur_argv + 1))
        else if ch =? 10 then
          set_buf cur_buf 0;;
          set_argv cur_argv PNull;;
          fork_exec args;;
          mret (inl (0, argc))
        else
          set_buf cur_buf ch;;
          mret (inl (cur_buf + 1, cur_argv))
    end) (0, cur_argv).

(** ** primes *)

Record pst := MkP {
  p_buff : list Z;      (* int buff[34] *)
  p_pipe : list Z;      (* what lies in the pipe *)
  p_forks : nat;
  p_out : list Z;       (* the numbers printed *)
}.

(** [if(buff[i] % prime != 0) buff[cnt++] = buff[i]], in place. *)
Definition sieve (prime size : Z) (buff : list Z) : M pst (Z * list Z) :=
  loop (λ '(i, cnt, buff),
    if i <? size then
      match buff !! Z.to_nat i with
      | None => undef "buff"
      | Some v =>
          if prime =? 0 then undef "division by zero"
          else if negb (Z.rem v prime =? 0) then
            match put buff cnt v with
            | Some buff => mret (inl (i + 1, cnt + 1, buff))
            | None => undef "buff"
            end
          else mret (inl (i + 1, cnt, buff))
      end
    else mret (inr (cnt, buff))) (0, 0, buff).

(** A turn of the loop in the child, from its [read] to its [write]. *)
Definition child (size : Z) : M pst Z :=
  s ← gets id;
  let got := take (Z.to_nat size) s.(p_pipe) in
  let buff := got ++ drop (length got) s.(p_buff) in
  match buff with
  | [] => undef "buff"
  | prime :: _ =>
      r ← sieve prime size buff;
      let '(cnt, buff) := r in
      modify (λ s, MkP buff (take (Z.to_nat cnt) buff) s.(p_forks) (s.(p_out) ++ [prime]));;
      mret cnt
  end.

Definition primes : M pst unit :=
  modify (λ s, let b := seqZ 2 34 in MkP b b s.(p_forks) s.(p_out));;
  loop (λ size,
    if negb (size =? 0) then
      n ← gets p_forks;
      modify (λ s, MkP s.(p_buff) s.(p_pipe) (S n) s.(p_out));;
      if fork_ok n then cnt ← child size; mret (inl cnt)
      else mret (inr tt)
    else mret (inr tt)) 34.
End xargs.

(** ** find *)

Definition DIRSIZ : nat := 14.
Definition NOFILE : nat := 16.

(** A directory entry: its inode number and the [DIRSIZ] bytes of its name. *)
Record dirent := MkDe { de_inum : Z; de_name : list Z }.
Inductive node :=
  | TDir (es : list dirent)
  | TFile
  | TDev.

(** What [open] (and so [stat]) finds at a path, and whether [fstat] works. *)
Class FileTree := {
  node_at : list Z → option node;
  fstat_ok : list Z → bool;
}.

(** What the program prints. *)
Inductive msg :=
  | MFound (path : list Z)
  | MIsFile (path : list Z)
  | MTooLong
  | MNoStat (path : list Z)
  | MNoOpen (path : list Z)
  | MUsage.

Section find.
Context `{FT : FileTree}.

Definition say (m : msg) : M (list msg) unit := modify (λ out, out ++ [m]).

(** [!strcmp(d, n)] for the bytes [d] of a name and a string [n]; running off
    the end of [d] is undefined. *)
Fixpoint same_name (d n : list Z) : option bool :=
  match d, n with
  | [], _ => None
  | c :: _, [] => Some (c =? 0)
  | c :: d, x :: n => if c =? 0 then Some false else if c =? x then same_name d n else Some false
  end.

Definition same (d n : list Z) : M (list msg) bool :=
  match same_name d n with Some b => mret b | None => undef "de.name" end.

(** The string in [buf]: the path, a slash, the name up to its NUL or its
    [DIRSIZ] bytes. *)
Definition join (path nm : list Z) : list Z := path ++ 47 :: cstring nm.

(** [fuel] bounds the depth of the recursion; [nfd] descriptors are open, and
    [open] fails when all [NOFILE] are. *)
Fixpoint search (fuel nfd : nat) (path name : list Z) : M (list msg) unit :=
  match fuel with
  | O => out_of_fuel
  | S fuel =>
      match (if (NOFILE <=? nfd)%nat then None else node_at path) with
      | None => say (MNoOpen path)
      | Some nd =>
          if negb (fstat_ok path) then say (MNoStat path) else
          match nd with
          | TFile => say (MIsFile path)
          | TDev => mret tt
          | TDir es =>
              if (512 <? length path + 1 + DIRSIZ + 1)%nat then say MTooLong else
              for_each es (λ de,
                dot ← same de.(de_name) [46];
                dotdot ← (if (dot : bool) then mret true else same de.(de_name) [46; 46]);
                if (dotdot : bool) || (de.(de_inum) =? 0) then mret (A := option unit) None else
                let buf := join path de.(de_name) in
                if negb (fstat_ok buf) then say (MNoStat buf);; mret None else
                match (if (NOFILE <=? S nfd)%nat then None else node_at buf) with
                | None => say (MNoStat buf);; mret None
                | Some (TDir _) => search fuel (S nfd) buf name;; mret None
                | Some TFile =>
                    eq ← same de.(de_name) name;
                    (if (eq : bool) then say (MFound buf) else mret tt);;
                    mret None
                | Some TDev => mret None
                end);;
              mret tt
          end
      end
  end.

(** [argv] without the name of the program; the result is the exit status.
    Standard input, output and error are open. *)
Definition find (argv : list (list Z)) : M (list msg) Z :=
  match argv with
  | path :: name :: _ => search 513 3 path name;; mret 0
  | _ => say MUsage;; mret 1
  end.
End find.
End Utils.
