(* ===== verification/UtilsProps.v ===== *)
(** * Correctness of the utilities

    [primes] prints the primes up to 35, as far as its forks succeed.  [xargs]
    runs one program per line of its input, with the words of the line after
    its own arguments, as long as the lines fit its buffers.  [find] always
    returns and prints the files of the given name below its root, all of them
    unless it says that a path is too long. *)

From Stdlib Require Import Znumtheory Sorted.
From S2P Require Import Prelude Machine Utils.
Import Utils.

Module UtilsProps.

(** ** Arrays *)

Lemma put_ok {A} (l : list A) i v : 0 ≤ i < Z.of_nat (length l) → put l i v = Some (<[Z.to_nat i := v]> l).
Proof. intros Hi. rw /put. by zdec. Qed.

(** Storing at the end of a prefix. *)
Lemma take_put {A} (l : list A) i v : (i < length l)%nat → take (S i) (<[i := v]> l) = take i l ++ [v].
Proof.
  intros Hi. rw (take_S_r _ _ v); [by rw take_insert_ge|by rw list_lookup_insert_eq].
Qed.

Section utils.
Context `{FK : Forks}.

(** ** primes *)

Definition indivisible (p v : Z) : Prop := Z.rem v p ≠ 0.
#[local] Instance indivisible_dec p v : Decision (indivisible p v).
Proof. rw /indivisible. apply _. Defined.

(** The loop compacts the array in place. *)
Lemma sieve_filters prime size buff s : prime ≠ 0 → 0 ≤ size ≤ Z.of_nat (length buff) → size < 2 ^ 63 →
  wp (sieve prime size buff) (λ '(cnt, buff') s', s' = s ∧ length buff' = length buff ∧ 0 ≤ cnt ≤ size ∧
    take (Z.to_nat cnt) buff' = filter (indivisible prime) (take (Z.to_nat size) buff)) s.
Proof.
  intros Hp Hsz Hb.
  apply (wp_loop (λ '(i, cnt, b) s', s' = s ∧ length b = length buff ∧ 0 ≤ cnt ≤ i ∧ i ≤ size ∧
    take (Z.to_nat cnt) b = filter (indivisible prime) (take (Z.to_nat i) buff) ∧
    ∀ j, i ≤ j → b !! Z.to_nat j = buff !! Z.to_nat j) (λ '(i, _, _), size - i)).
  - by split_and!; try lia.
  - lia.
  - intros [[i cnt] b] s' (-> & Hl & Hc & Hi & Ht & Hrest) _. destruct (Z.ltb_spec i size).
    + destruct (lookup_lt_is_Some_2 buff (Z.to_nat i) ltac:(lia)) as [v Hv]. rw Hrest // Hv.
      rw (proj2 (Z.eqb_neq _ _) Hp).
      assert (take (Z.to_nat (i + 1)) buff = take (Z.to_nat i) buff ++ [v]) as Hts.
      { replace (Z.to_nat (i + 1)) with (S (Z.to_nat i)) by lia. by apply take_S_r. }
      destruct (Z.eqb_spec (Z.rem v prime) 0) as [E|E]; simpl.
      * apply wp_ret. split; [|lia]. split_and!; try done; try lia.
        -- rw Hts filter_app filter_cons_False; [by rw filter_nil app_nil_r|by intros []].
        -- intros j Hj. apply Hrest. lia.
      * rw put_ok; [|lia]. apply wp_ret. split; [|lia]. split_and!; try done; try lia.
        -- by rw length_insert.
        -- rw Hts filter_app filter_cons_True // filter_nil. replace (Z.to_nat (cnt + 1)) with (S (Z.to_nat cnt)) by lia.
           rw take_put; [by rw Ht|lia].
        -- intros j Hj. rw list_lookup_insert_ne; [|lia]. apply Hrest. lia.
    + apply wp_ret. assert (i = size) as -> by lia. split_and!; (done || lia).
Qed.

(** What is left of the numbers after [k] turns. *)
Definition cull (l : list Z) : list Z :=
  match l with [] => [] | p :: _ => filter (indivisible p) l end.
Definition left_after (k : nat) : list Z := Nat.iter k cull (seqZ 2 34).
Definition PRIMES : list Z := [2; 3; 5; 7; 11; 13; 17; 19; 23; 29; 31].

Lemma left_head k : (k < 11)%nat → ∃ p l, left_after k = p :: l ∧ PRIMES !! k = Some p ∧ 0 < p.
Proof. intros Hk. do 11 (destruct k as [|k]; [vm_compute; eauto|]). lia. Qed.
Lemma left_none : left_after 11 = [].
Proof. by vm_compute. Qed.
Lemma left_short k : (length (left_after k) ≤ 34)%nat.
Proof.
  induction k as [|k IH]; [by vm_compute; lia|]. change (left_after (S k)) with (cull (left_after k)).
  rw /cull. destruct (left_after k) as [|p l]; [simpl; lia|]. etrans; [apply length_filter|done].
Qed.

(** After [k] turns: the pipe holds what is left and [k] primes are printed. *)
Definition turns (k : nat) (s : pst) : Prop :=
  s.(p_pipe) = left_after k ∧ s.(p_out) = take k PRIMES ∧ length s.(p_buff) = 34%nat.

Lemma child_turn k s : (k < 11)%nat → turns k s →
  wp (child (Z.of_nat (length (left_after k))))
    (λ cnt s', cnt = Z.of_nat (length (left_after (S k))) ∧ turns (S k) s' ∧ s'.(p_forks) = s.(p_forks)) s.
Proof.
  intros Hk (Hp & Ho & Hb). destruct (left_head k Hk) as (p & l & Hl & HP & Hpos). pose proof (left_short k) as Hs.
  rw /child. apply wp_gets_bind. cbv beta zeta delta [id]. rw Nat2Z.id Hp firstn_all.
  set (buff := left_after k ++ drop (length (left_after k)) (p_buff s)).
  assert (take (length (left_after k)) buff = left_after k) as Ht by apply take_app_length.
  assert (length buff = 34%nat) as Hlen by (subst buff; rw length_app length_drop; lia).
  destruct buff as [|p' b] eqn:Eb; [done|]. assert (p' = p) as -> by (subst buff; rw Hl in Eb; by injection Eb).
  apply wp_bind. eapply wp_mono; [|apply (sieve_filters p (Z.of_nat (length (left_after k))) (p :: b) s); lia].
  intros [cnt buff'] s' (-> & Hl' & Hcnt & Hfil). rw Nat2Z.id Ht in Hfil.
  assert (left_after (S k) = filter (indivisible p) (left_after k)) as Hnext
    by (change (left_after (S k)) with (cull (left_after k)); rw /cull {1}Hl //).
  rw -Hnext in Hfil. apply wp_modify_bind, wp_ret. split_and!.
  - rw -Hfil length_take. lia.
  - rw /turns. cbn [p_pipe p_out p_buff]. split_and!; [done| |lia]. by rw Ho (take_S_r _ _ _ HP).
  - done.
Qed.

(** The numbers [primes] prints are the first primes, one for each fork that
    succeeds until one fails; it stops by itself after eleven, the primes up to
    35. *)
Theorem primes_prints (s : pst) : s.(p_forks) = 0%nat → s.(p_out) = [] →
  ∃ k s', primes s = Ok (tt, s') ∧ s'.(p_out) = take k PRIMES ∧ (k ≤ 11)%nat ∧
    (∀ i, (i < k)%nat → fork_ok i = true) ∧ ((k < 11)%nat → fork_ok k = false).
Proof.
  intros Hf Ho.
  assert (wp primes (λ _ s', ∃ k, s'.(p_out) = take k PRIMES ∧ (k ≤ 11)%nat ∧
    (∀ i, (i < k)%nat → fork_ok i = true) ∧ ((k < 11)%nat → fork_ok k = false)) s) as Hwp.
  { apply wp_modify_bind. apply (wp_loop_n (λ n size s', ∃ k, (k ≤ 11)%nat ∧ n = 11 - Z.of_nat k ∧
      size = Z.of_nat (length (left_after k)) ∧ turns k s' ∧ s'.(p_forks) = k ∧ ∀ i, (i < k)%nat → fork_ok i = true)
      _ _ 11).
    - exists 0%nat. split; [lia|]. split; [lia|]. split; [done|]. split; [by rw /turns /= Ho|]. split; [done|lia].
    - lia.
    - intros n size s1 (k & Hk & -> & -> & Ht & Hfk & Hok) _. destruct (decide (k = 11%nat)) as [->|Hne].
      { rw left_none /=. apply wp_ret. exists 11%nat. split_and!; [apply Ht|done|done|lia]. }
      destruct (left_head k ltac:(lia)) as (p & l & Hl & _).
      destruct (Z.eqb_spec (Z.of_nat (length (left_after k))) 0) as [E|_]; [rw Hl /= in E; lia|]. simpl.
      apply wp_gets_bind. rw Hfk. apply wp_modify_bind. destruct (fork_ok k) eqn:Hfo.
      + apply wp_bind. eapply wp_mono; [|apply child_turn; [lia|exact Ht]].
        intros cnt s2 (-> & Ht2 & Hf2). apply wp_ret. exists (10 - Z.of_nat k). split; [lia|]. exists (S k).
        split_and!; try done; try lia. intros i Hi. destruct (decide (i = k)) as [->|]; [done|]. apply Hok. lia.
      + apply wp_ret. exists k. split_and!; [apply Ht|lia|done|done]. }
  destruct (wp_run _ _ _ Hwp) as ([] & s' & Hrun & k & H). by exists k, s'.
Qed.

(** [PRIMES] are the primes among the numbers [primes] starts from. *)
Lemma PRIMES_prime p : p ∈ PRIMES ↔ prime p ∧ 2 ≤ p ≤ 35.
Proof.
  assert (∀ n, 1 < n → forallb (λ d, negb (n mod d =? 0)) (seqZ 2 (n - 2)) = true ↔ prime n) as Htest.
  { intros n Hn. rw -prime_alt forallb_forall. split.
    - intros H. split; [done|]. intros d Hd Hdiv. specialize (H d).
      rewrite -> negb_true_iff, Z.eqb_neq in H. apply H; [apply list_elem_of_In, elem_of_seqZ; lia|].
      by apply Z.mod_divide; [lia|].
    - intros [_ H] d Hd%list_elem_of_In. apply elem_of_seqZ in Hd. apply negb_true_iff, Z.eqb_neq. intros E.
      apply (H d); [lia|]. apply Z.mod_divide; [lia|done]. }
  split.
  - intros Hp. assert (1 < p ≤ 35 ∧ forallb (λ d, negb (p mod d =? 0)) (seqZ 2 (p - 2)) = true) as [Hr Hb].
    { revert p Hp. apply Forall_forall. apply (bool_decide_unpack _). by vm_compute. }
    split; [apply Htest; [lia|done]|lia].
  - intros [Hp Hr]. apply Htest in Hp; [|lia].
    assert (p ∈ seqZ 2 34) as Hin by (apply elem_of_seqZ; lia). clear Hr.
    assert (Forall (λ q, forallb (λ d, negb (q mod d =? 0)) (seqZ 2 (q - 2)) = true → q ∈ PRIMES) (seqZ 2 34)) as HF.
    { apply (bool_decide_unpack _). by vm_compute. }
    rw Forall_forall in HF. by apply HF.
Qed.

(** With every fork, [primes] prints exactly the primes up to 35, in order. *)
Theorem primes_all (s : pst) : s.(p_forks) = 0%nat → s.(p_out) = [] → (∀ i, (i < 11)%nat → fork_ok i = true) →
  ∃ s', primes s = Ok (tt, s') ∧ StronglySorted Z.lt s'.(p_out) ∧ ∀ p, p ∈ s'.(p_out) ↔ prime p ∧ 2 ≤ p ≤ 35.
Proof.
  intros Hf Ho Hok. destruct (primes_prints s Hf Ho) as (k & s' & Hrun & Hout & Hk & _ & Hstop).
  assert (k = 11%nat) as ->. { destruct (decide (k = 11%nat)); [done|]. rw Hok in Hstop; [|lia]. by specialize (Hstop ltac:(lia)). }
  exists s'. rw Hout. split; [done|]. split; [|apply PRIMES_prime]. vm_compute. by repeat constructor.
Qed.

(** ** Splitting text *)

Fixpoint split_on (c : Z) (l : list Z) : list (list Z) :=
  match l with
  | [] => [[]]
  | x :: l =>
      if x =? c then [] :: split_on c l
      else match split_on c l with w :: ws => (x :: w) :: ws | [] => [[x]] end
  end.

Lemma split_on_nonnil c l : split_on c l ≠ [].
Proof. induction l as [|x l IH]; [done|]. simpl. destruct (x =? c); [done|]. by destruct (split_on c l). Qed.

(** Text without the separator joins the first piece. *)
Lemma split_on_prefix c pre l h t : c ∉ pre → split_on c l = h :: t → split_on c (pre ++ l) = (pre ++ h) :: t.
Proof.
  intros Hn Hl. induction pre as [|x pre IH]; [done|]. simpl. apply not_elem_of_cons in Hn as [Hx Hn].
  rw (proj2 (Z.eqb_neq _ _)); [by rw IH|]. congruence.
Qed.

Lemma split_on_sep c pre l : c ∉ pre → split_on c (pre ++ c :: l) = pre :: split_on c l.
Proof. intros Hn. rw (split_on_prefix c pre _ [] (split_on c l)) //; [by rw app_nil_r|]. simpl. by rw Z.eqb_refl. Qed.

Lemma split_on_none c pre : c ∉ pre → split_on c pre = [pre].
Proof. intros Hn. rw -{1}(app_nil_r pre) (split_on_prefix c pre [] [] []) // app_nil_r //. Qed.

Lemma split_on_snoc_sep c l : split_on c (l ++ [c]) = split_on c l ++ [[]].
Proof.
  induction l as [|x l IH]; simpl; [by rw Z.eqb_refl|]. rw IH. destruct (x =? c); [done|].
  pose proof (split_on_nonnil c l). by destruct (split_on c l).
Qed.

Lemma split_on_snoc c l x ws w : x ≠ c → split_on c l = ws ++ [w] → split_on c (l ++ [x]) = ws ++ [w ++ [x]].
Proof.
  intros Hx. revert ws w. induction l as [|y l IH]; intros ws w; simpl.
  - rw (proj2 (Z.eqb_neq _ _) Hx). destruct ws as [|w0 ws]; [intros [= <-]; done|]. by destruct ws.
  - destruct (y =? c).
    + destruct ws as [|w0 ws]; [intros [= _ E]; by destruct (split_on_nonnil c l)|]. intros [= <- E]. by rw (IH ws w).
    + destruct (split_on c l) as [|w0 ws0] eqn:E; [by destruct (split_on_nonnil c l)|].
      destruct ws as [|w1 ws].
      * intros [= <- ->]. by rw (IH [] w0).
      * intros [= <- ->]. by rw (IH (w0 :: ws) w).
Qed.

(** More text never makes fewer pieces. *)
Lemma split_on_length c l l' : (length (split_on c l) ≤ length (split_on c (l ++ l')))%nat.
Proof.
  induction l as [|x l IH]; simpl.
  - pose proof (split_on_nonnil c l'). destruct (split_on c l'); [done|simpl; lia].
  - destruct (x =? c); simpl; [lia|]. destruct (split_on c l), (split_on c (l ++ l')); simpl in *; lia.
Qed.

Lemma split_on_elem c l w x : w ∈ split_on c l → x ∈ w → x ∈ l.
Proof.
  revert w. induction l as [|y l IH]; intros w; simpl.
  - intros ->%list_elem_of_singleton. done.
  - destruct (y =? c).
    + intros [->|Hw]%elem_of_cons Hx; [by apply not_elem_of_nil in Hx|]. right. by eapply IH.
    + destruct (split_on c l) as [|w0 ws] eqn:E; [by destruct (split_on_nonnil c l)|].
      intros [->|Hw]%elem_of_cons Hx; [|right; eapply IH; [by right|done]].
      apply elem_of_cons in Hx as [->|Hx]; [by left|]. right. eapply IH; [by left|done].
Qed.

(** ** The buffer of xargs *)

(** Words with a NUL after each, as they lie in [buf], and where each starts. *)
Definition flat (ws : list (list Z)) : list Z := mjoin ((.++ [0]) <$> ws).
Definition start (ws : list (list Z)) (k : nat) : Z := Z.of_nat (length (flat (take k ws))).
Definition starts (ws : list (list Z)) : list argp := (λ k, PBuf (start ws k)) <$> seq 0 (S (length ws)).
Definition own (args : list (list Z)) : list argp := PArg <$> seq 0 (length args).

Lemma flat_app ws1 ws2 : flat (ws1 ++ ws2) = flat ws1 ++ flat ws2.
Proof. by rw /flat fmap_app join_app. Qed.
Lemma flat_one w : flat [w] = w ++ [0].
Proof. by rw /flat /= app_nil_r. Qed.

Lemma starts_snoc ws w : starts (ws ++ [w]) = starts ws ++ [PBuf (Z.of_nat (length (flat (ws ++ [w]))))].
Proof.
  rw /starts length_app Nat.add_1_r (seq_S (S (length ws))) fmap_app. f_equal.
  - apply list_fmap_ext. intros i k Hk%lookup_seq. f_equal. rw /start take_app_le //. lia.
  - simpl. rw /start take_ge // length_app /=. lia.
Qed.

Lemma cstring_stops w l : 0 ∉ w → cstring (w ++ 0 :: l) = w.
Proof.
  induction w as [|x w IH]; [done|]. intros [Hx Hw]%not_elem_of_cons. simpl.
  rw (proj2 (Z.eqb_neq _ _)); [by rw IH|congruence].
Qed.

(** What a pointer of [new_argv] stands for. *)
Definition resolve (args : list (list Z)) (buf : list Z) (p : argp) : list Z :=
  match p with
  | PArg i => default [] (args !! i)
  | PBuf off => cstring (drop (Z.to_nat off) buf)
  | _ => []
  end.
Definition real (p : argp) : Prop := match p with PArg _ | PBuf _ => True | _ => False end.

Lemma exec_args_app args buf l l' : Forall real l →
  exec_args args buf (l ++ PNull :: l') = resolve args buf <$> l.
Proof. induction 1 as [|p l Hp _ IH]; [done|]. destruct p; try done; simpl; by rw IH. Qed.

Lemma own_args args buf : resolve args buf <$> own args = args.
Proof.
  rw /own -list_fmap_compose. apply list_eq. intros i. rw list_lookup_fmap.
  destruct (decide (i < length args)%nat) as [Hi|Hi].
  - rw lookup_seq_lt //=. destruct (lookup_lt_is_Some_2 args i Hi) as [x Hx]. by rw Hx.
  - rw lookup_seq_ge; [|lia]. by rw lookup_ge_None_2; [|lia].
Qed.

(** The words in the buffer are read back. *)
Lemma starts_words args ws w rest : (∀ w', w' ∈ ws ++ [w] → 0 ∉ w') →
  resolve args (flat (ws ++ [w]) ++ rest) <$> starts ws = ws ++ [w].
Proof.
  intros Hz. rw /starts -list_fmap_compose. apply list_eq. intros k. rw list_lookup_fmap.
  destruct (decide (k < S (length ws))%nat) as [Hk|Hk].
  - rw lookup_seq_lt //=. destruct (lookup_lt_is_Some_2 (ws ++ [w]) k) as [x Hx]; [rw length_app /=; lia|].
    rw Hx. f_equal. rw /start Nat2Z.id.
    assert (take k ws = take k (ws ++ [w])) as -> by (rw take_app_le //; lia).
    rw -{2}(take_drop_middle _ _ _ Hx) flat_app -app_assoc drop_app_length.
    change (x :: drop (S k) (ws ++ [w])) with ([x] ++ drop (S k) (ws ++ [w])). rw flat_app flat_one -!app_assoc.
    apply cstring_stops, Hz. by eapply list_elem_of_lookup_2.
  - rw lookup_seq_ge; [|lia]. rw lookup_ge_None_2 //. rw length_app /=. lia.
Qed.

(** ** xargs *)

Definition NL : Z := 10.
Definition SP : Z := 32.

(** The lines of the input that end in a newline, and the program each runs. *)
Definition lines (input : list Z) : list (list Z) := removelast (split_on NL input).
Definition command (args : list (list Z)) (line : list Z) : list (list Z) := args ++ split_on SP line.

(** The programs that run: one for each fork that succeeds. *)
Definition ran (cs : list (list (list Z))) : list (list (list Z)) :=
  omap id (imap (λ i c, if fork_ok i then Some c else None) cs).

Lemma ran_snoc cs c : ran (cs ++ [c]) = ran cs ++ (if fork_ok (length cs) then [c] else []).
Proof.
  rw /ran imap_app omap_app. f_equal. rw /= Nat.add_0_r. by destruct (fork_ok _).
Qed.
Lemma ran_all cs : (∀ i, (i < length cs)%nat → fork_ok i = true) → ran cs = cs.
Proof.
  induction cs as [|c cs IH] using rev_ind; [done|]. intros Hok. rw ran_snoc IH.
  - rw Hok // length_app /=. lia.
  - intros i Hi. apply Hok. rw length_app. lia.
Qed.

(** Every line, the unterminated rest included, fits [buf] and [new_argv]. *)
Definition fits (args : list (list Z)) (input : list Z) : Prop :=
  ∀ l, l ∈ split_on NL input → (length l ≤ 127)%nat ∧ (length (command args l) < MAXARG)%nat.

(** In the middle of a line of which [pre] was read, after the lines [dl]. *)
Record reading (args : list (list Z)) (input : list Z) (dl : list (list Z)) (pre : list Z)
    (ws : list (list Z)) (w : list Z) (s : xst) : Prop := {
  rd_lines : split_on NL input = dl ++ split_on NL (pre ++ s.(x_in));
  rd_nl : NL ∉ pre;
  rd_words : split_on SP pre = ws ++ [w];
  rd_nul : 0 ∉ pre ++ s.(x_in);
  rd_buf : length s.(x_buf) = 128%nat;
  rd_argv : length s.(x_argv) = MAXARG;
  rd_flat : take (length pre) s.(x_buf) = flat ws ++ w;
  rd_ptrs : take (length args + length ws + 1) s.(x_argv) = own args ++ starts ws;
  rd_forks : s.(x_forks) = length dl;
  rd_runs : s.(x_runs) = ran (command args <$> dl);
}.

(** The bounds while a line is being read. *)
Lemma reading_fits args input dl pre ws w s : fits args input → reading args input dl pre ws w s →
  (length pre ≤ 127)%nat ∧ (length args + length ws + 1 < MAXARG)%nat ∧ length (flat ws ++ w) = length pre.
Proof.
  intros Hf [Hl Hn Hw _ Hb _ Hfl _ _ _]. destruct (split_on NL s.(x_in)) as [|h t] eqn:E; [by destruct (split_on_nonnil NL s.(x_in))|].
  rw (split_on_prefix _ _ _ _ _ Hn E) in Hl. destruct (Hf (pre ++ h)) as [H1 H2]; [rw Hl; set_solver|].
  rw length_app in H1. pose proof (split_on_length SP pre h) as H3. rw Hw length_app /= in H3.
  rw /command length_app in H2. assert (length pre ≤ 127)%nat by lia. split_and!; [done|lia|].
  rw -Hfl length_take. lia.
Qed.

Lemma set_buf_ok s i c : 0 ≤ i < Z.of_nat (length s.(x_buf)) →
  set_buf i c s = Ok (tt, MkX s.(x_in) (<[Z.to_nat i := c]> s.(x_buf)) s.(x_argv) s.(x_forks) s.(x_runs)).
Proof. intros Hi. rw /set_buf /mbind /M_bind /gets put_ok //. Qed.
Lemma set_argv_ok s i p : 0 ≤ i < Z.of_nat (length s.(x_argv)) →
  set_argv i p s = Ok (tt, MkX s.(x_in) s.(x_buf) (<[Z.to_nat i := p]> s.(x_argv)) s.(x_forks) s.(x_runs)).
Proof. intros Hi. rw /set_argv /mbind /M_bind /gets put_ok //. Qed.

(** Reading a character of a word. *)
Lemma reading_char args input dl pre ws w s ch l : fits args input → reading args input dl pre ws w s →
  s.(x_in) = ch :: l → ch ≠ NL → ch ≠ SP →
  reading args input dl (pre ++ [ch]) ws (w ++ [ch])
    (MkX l (<[length pre := ch]> s.(x_buf)) s.(x_argv) s.(x_forks) s.(x_runs)).
Proof.
  intros Hf Hr Hin Hnl Hsp. destruct (reading_fits _ _ _ _ _ _ _ Hf Hr) as (Hp & Ha & Hlen). destruct Hr.
  rw Hin in rd_lines0 rd_nul0. split; simpl; try done.
  - by rw -app_assoc.
  - set_solver.
  - by apply split_on_snoc.
  - by rw -app_assoc.
  - by rw length_insert.
  - rw length_app Nat.add_1_r take_put; [|lia]. by rw rd_flat0 -app_assoc.
Qed.

(** A space ends the word: the next one starts behind its NUL. *)
Lemma reading_space args input dl pre ws w s l : fits args input → reading args input dl pre ws w s →
  s.(x_in) = SP :: l →
  reading args input dl (pre ++ [SP]) (ws ++ [w]) []
    (MkX l (<[length pre := 0]> s.(x_buf)) (<[(length args + length ws + 1)%nat := PBuf (Z.of_nat (length pre) + 1)]> s.(x_argv))
       s.(x_forks) s.(x_runs)).
Proof.
  intros Hf Hr Hin. destruct (reading_fits _ _ _ _ _ _ _ Hf Hr) as (Hp & Ha & Hlen). destruct Hr.
  rw Hin in rd_lines0 rd_nul0. split; simpl; try done.
  - by rw -app_assoc.
  - set_solver.
  - by rw split_on_snoc_sep rd_words0.
  - by rw -app_assoc.
  - by rw length_insert.
  - by rw length_insert.
  - rw length_app Nat.add_1_r take_put; [|lia]. by rw rd_flat0 app_nil_r flat_app flat_one app_assoc.
  - rw length_app /=. replace (length args + (length ws + 1) + 1)%nat with (S (length args + length ws + 1)) by lia.
    rw take_put; [|lia]. rw rd_ptrs0 starts_snoc -app_assoc. do 4 f_equal.
    rw flat_app flat_one app_assoc length_app Hlen /=. lia.
Qed.

(** A newline ends the line: its program is run and the next line starts. *)
Lemma reading_newline args input dl pre ws w s l : fits args input → reading args input dl pre ws w s →
  s.(x_in) = NL :: l →
  let b := <[length pre := 0]> s.(x_buf) in
  let a := <[(length args + length ws + 1)%nat := PNull]> s.(x_argv) in
  reading args input (dl ++ [pre]) [] [] []
    (MkX l b a (S s.(x_forks)) (if fork_ok s.(x_forks) then s.(x_runs) ++ [exec_args args b a] else s.(x_runs))).
Proof.
  intros Hf Hr Hin b a. destruct (reading_fits _ _ _ _ _ _ _ Hf Hr) as (Hp & Ha & Hlen). destruct Hr.
  rw Hin in rd_lines0 rd_nul0.
  assert (exec_args args b a = command args pre) as Hex.
  { assert (a = (own args ++ starts ws) ++ PNull :: drop (S (length args + length ws + 1)) a) as ->.
    { rw -{1}(take_drop (S (length args + length ws + 1)) a) /a take_put; [|lia]. by rw rd_ptrs0 -app_assoc. }
    assert (b = flat (ws ++ [w]) ++ drop (S (length pre)) b) as ->.
    { rw -{1}(take_drop (S (length pre)) b) {1}/b take_put; [|lia]. by rw rd_flat0 flat_app flat_one app_assoc. }
    rw exec_args_app.
    - rw fmap_app own_args starts_words; [by rw /command rd_words0|].
      intros w' Hw' Hx. rw -rd_words0 in Hw'. pose proof (split_on_elem _ _ _ _ Hw' Hx). set_solver.
    - apply Forall_app. split; apply Forall_fmap, Forall_true; done. }
  split; simpl; try done.
  - rw rd_lines0 split_on_sep // -app_assoc //.
  - apply not_elem_of_nil.
  - set_solver.
  - by rw length_insert.
  - by rw length_insert.
  - rw /a take_insert_ge; [|lia]. assert (take (length args + 0 + 1) (take (length args + length ws + 1) s.(x_argv)) =
      take (length args + 0 + 1) (x_argv s)) as <- by (rw take_take; f_equal; lia).
    rw rd_ptrs0 take_app_ge; [|rw /own length_fmap length_seq; lia]. f_equal.
    rw /own length_fmap length_seq. by replace (length args + 0 + 1 - length args)%nat with 1%nat by lia.
  - rw rd_forks0 length_app /=. lia.
  - rw fmap_app ran_snoc length_fmap -rd_forks0 Hex rd_runs0. destruct (fork_ok _); [done|by rw app_nil_r].
Qed.

(** The prologue copies the arguments and points the next entry at the buffer. *)
Lemma prologue_ok args s : (length args < MAXARG)%nat → length s.(x_argv) = MAXARG →
  wp (loop (λ cur_argv,
        if cur_argv <=? Z.of_nat (length args) + 1 - 1 then
          set_argv (cur_argv - 1) (PArg (Z.to_nat (cur_argv - 1)));;
          mret (inl (cur_argv + 1))
        else mret (inr cur_argv)) 1)
    (λ c s', c = Z.of_nat (length args) + 1 ∧ ∃ a, length a = MAXARG ∧ take (length args) a = own args ∧
       s' = MkX s.(x_in) s.(x_buf) a s.(x_forks) s.(x_runs)) s.
Proof.
  intros Ha Hl. change MAXARG with 32%nat in *.
  apply (wp_loop (λ c s', ∃ k a, (k ≤ length args)%nat ∧ c = Z.of_nat k + 1 ∧ length a = 32%nat ∧
    take k a = PArg <$> seq 0 k ∧ s' = MkX s.(x_in) s.(x_buf) a s.(x_forks) s.(x_runs))
    (λ c, Z.of_nat (length args) + 1 - c)).
  - exists 0%nat, s.(x_argv). split_and!; try done; [lia|]. by destruct s.
  - lia.
  - intros c s' (k & a & Hk & -> & Hla & Ht & ->) _. destruct (Z.leb_spec (Z.of_nat k + 1) (Z.of_nat (length args) + 1 - 1)).
    + apply wp_bind. eapply wp_of_run; [apply set_argv_ok; simpl; lia|]. apply wp_ret. split; [|lia].
      replace (Z.to_nat (Z.of_nat k + 1 - 1)) with k by lia. exists (S k), (<[k := PArg k]> a). cbn [x_in x_buf x_argv x_forks x_runs].
      split_and!; [lia|lia|by rw length_insert| |done]. rw take_put; [|lia]. by rw Ht seq_S fmap_app.
    + apply wp_ret. assert (k = length args) as -> by lia. split; [done|]. by exists a.
Qed.

Lemma fits_args args input : fits args input → (length args + 1 < MAXARG)%nat.
Proof.
  intros Hf. destruct (split_on NL input) as [|h t] eqn:E; [by destruct (split_on_nonnil NL input)|].
  destruct (Hf h) as [_ Hc]; [rw E; by left|]. rw /command length_app in Hc.
  pose proof (split_on_nonnil SP h). destruct (split_on SP h); simpl in *; [done|lia].
Qed.

(** [xargs] refines splitting: for an input without NUL bytes whose lines fit,
    it reads the input to its end and runs, for every line that ends in a
    newline and whose fork succeeds, the program with its own arguments followed
    by the words of the line.  What follows the last newline is not run. *)
Theorem xargs_runs (args : list (list Z)) (s : xst) :
  length s.(x_buf) = 128%nat → length s.(x_argv) = MAXARG → s.(x_forks) = 0%nat → s.(x_runs) = [] →
  0 ∉ s.(x_in) → fits args s.(x_in) → Z.of_nat (length s.(x_in)) < 2 ^ 63 →
  ∃ s', xargs args s = Ok (tt, s') ∧ s'.(x_in) = [] ∧ s'.(x_runs) = ran (command args <$> lines s.(x_in)).
Proof.
  intros Hb Ha Hfk Hrn Hz Hf Hlen.
  assert (wp (xargs args) (λ _ s', s'.(x_in) = [] ∧ s'.(x_runs) = ran (command args <$> lines s.(x_in))) s) as Hwp.
  2:{ destruct (wp_run _ _ _ Hwp) as ([] & s' & Hrun & H). by exists s'. }
  pose proof (fits_args _ _ Hf) as Hargs. change MAXARG with 32%nat in Hargs.
  apply wp_bind. eapply wp_mono; [|apply prologue_ok; [change MAXARG with 32%nat; lia|done]].
  intros c s1 (-> & a & Hla & Hta & ->). change MAXARG with 32%nat in Hla.
  apply wp_bind. eapply wp_of_run; [apply set_argv_ok; simpl; lia|].
  replace (Z.to_nat (Z.of_nat (length args) + 1 - 1)) with (length args) by lia.
  apply (wp_loop_n (λ n '(cb, ca) s', ∃ dl pre ws w, reading args s.(x_in) dl pre ws w s' ∧
    n = Z.of_nat (length s'.(x_in)) ∧ cb = Z.of_nat (length pre) ∧ ca = Z.of_nat (length args + length ws + 1))
    _ _ (Z.of_nat (length s.(x_in)))).
  - exists [], [], [], []. split_and!; [|done|done|simpl; lia].
    split; simpl; try done; [apply not_elem_of_nil|by rw length_insert|].
    rw Nat.add_0_r Nat.add_1_r take_put; [|lia]. by rw Hta.
  - lia.
  - intros n [cb ca] s2 (dl & pre & ws & w & Hr & -> & -> & ->) _.
    destruct (reading_fits _ _ _ _ _ _ _ Hf Hr) as (Hp & Hw & _). change MAXARG with 32%nat in Hw.
    pose proof (rd_buf _ _ _ _ _ _ _ Hr) as Hlb. pose proof (rd_argv _ _ _ _ _ _ _ Hr) as Hlv. change MAXARG with 32%nat in Hlv.
    apply wp_bind, wp_gets_bind. destruct (x_in s2) as [|ch l] eqn:Hin; [apply wp_ret, wp_ret|].
    { split; [done|]. rw (rd_runs _ _ _ _ _ _ _ Hr) /lines (rd_lines _ _ _ _ _ _ _ Hr) Hin app_nil_r.
      rw split_on_none; [|apply Hr]. by rw removelast_last. }
    apply wp_modify_bind, wp_ret. destruct (Z.eqb_spec ch 32) as [->|Hsp]; [|destruct (Z.eqb_spec ch 10) as [->|Hnl]].
    + apply wp_bind. eapply wp_of_run; [apply set_buf_ok; simpl; lia|].
      apply wp_bind. eapply wp_of_run; [apply set_argv_ok; simpl; lia|]. apply wp_ret.
      exists (Z.of_nat (length l)). split; [simpl; lia|]. exists dl, (pre ++ [SP]), (ws ++ [w]), [].
      pose proof (reading_space _ _ _ _ _ _ _ _ Hf Hr Hin) as H. rw !Nat2Z.id. rw !length_app /=. split_and!; [exact H|done|lia|lia].
    + apply wp_bind. eapply wp_of_run; [apply set_buf_ok; simpl; lia|].
      apply wp_bind. eapply wp_of_run; [apply set_argv_ok; simpl; lia|]. apply wp_modify_bind, wp_ret.
      exists (Z.of_nat (length l)). split; [simpl; lia|]. exists (dl ++ [pre]), [], [], [].
      pose proof (reading_newline _ _ _ _ _ _ _ _ Hf Hr Hin) as H. rw !Nat2Z.id. split_and!; [exact H|done|done|simpl; lia].
    + apply wp_bind. eapply wp_of_run; [apply set_buf_ok; simpl; lia|]. apply wp_ret.
      exists (Z.of_nat (length l)). split; [simpl; lia|]. exists dl, (pre ++ [ch]), ws, (w ++ [ch]).
      pose proof (reading_char _ _ _ _ _ _ _ _ _ Hf Hr Hin Hnl Hsp) as H. rw !Nat2Z.id. rw !length_app /=. split_and!; [exact H|done|lia|done].
Qed.
End utils.

(** ** find *)

Section find.
Context `{FT : FileTree}.

(** Names are [DIRSIZ] bytes. *)
Definition tree_wf : Prop := ∀ p es de, node_at p = Some (TDir es) → de ∈ es → length de.(de_name) = DIRSIZ.

(** Entries [find] follows: in use, and neither [.] nor [..]. *)
Definition live (de : dirent) : Prop :=
  cstring de.(de_name) ≠ [46] ∧ cstring de.(de_name) ≠ [46; 46] ∧ de.(de_inum) ≠ 0.

Definition is_dir (p : list Z) (es : list dirent) : Prop := node_at p = Some (TDir es) ∧ fstat_ok p = true.

(** [hits name nfd p q]: [q] is a file called [name] in the tree below [p], not
    so deep that the descriptors run out when [nfd] are open at [p]. *)
Inductive hits (name : list Z) (nfd : nat) (p : list Z) : list Z → Prop :=
  | hit_file es de :
      (S nfd < NOFILE)%nat → is_dir p es → de ∈ es → live de →
      node_at (join p de.(de_name)) = Some TFile → fstat_ok (join p de.(de_name)) = true →
      cstring de.(de_name) = name → hits name nfd p (join p de.(de_name))
  | hit_below es de es' q :
      (S nfd < NOFILE)%nat → is_dir p es → de ∈ es → live de → is_dir (join p de.(de_name)) es' →
      hits name (S nfd) (join p de.(de_name)) q → hits name nfd p q.

(** A string shorter than the field is compared within the field. *)
Lemma same_name_ok d n : (length n < length d)%nat → 0 ∉ n →
  ∃ b, same_name d n = Some b ∧ (b = true ↔ cstring d = n).
Proof.
  revert n. induction d as [|c d IH]; intros n Hl Hz; [simpl in Hl; lia|].
  destruct n as [|x n]; simpl.
  - eexists. split; [done|]. by destruct (Z.eqb_spec c 0); split.
  - apply not_elem_of_cons in Hz as [Hx Hz]. destruct (Z.eqb_spec c 0); [eexists; split; [done|by split]|].
    destruct (Z.eqb_spec c x) as [->|Hne]; [|eexists; split; [done|split; [done|congruence]]].
    destruct (IH n ltac:(simpl in Hl; lia) Hz) as (b & -> & Hb). exists b. split; [done|].
    rw Hb. split; [by intros ->|by intros [=]].
Qed.

Lemma same_ok d n out : length d = DIRSIZ → (length n < DIRSIZ)%nat → 0 ∉ n →
  ∃ b, same d n out = Ok (b, out) ∧ (b = true ↔ cstring d = n).
Proof.
  intros Hd Hn Hz. destruct (same_name_ok d n ltac:(lia) Hz) as (b & Hb & Hiff). exists b. by rw /same Hb.
Qed.

(** What a run prints about [p]. *)
Definition reports (P : list Z → Prop) (out out' : list msg) : Prop := ∃ ms, out' = out ++ ms ∧
  (∀ q, MFound q ∈ ms → P q) ∧ (MTooLong ∉ ms → ∀ q, P q → MFound q ∈ ms).

Lemma reports_none P out m : (∀ q, ¬ P q) → (∀ q, m ≠ MFound q) → reports P out (out ++ [m]).
Proof. intros HP Hm. exists [m]. split; [done|]. split; [|by intros _ q ?%HP]. intros q Hq%list_elem_of_singleton. by destruct (Hm q). Qed.
Lemma reports_nothing P out : (∀ q, ¬ P q) → reports P out out.
Proof. intros HP. exists []. rw app_nil_r. split; [done|]. split; [by intros q ?%not_elem_of_nil|by intros _ q ?%HP]. Qed.
Lemma reports_app P Q R out out' out'' : (∀ q, R q ↔ P q ∨ Q q) →
  reports P out out' → reports Q out' out'' → reports R out out''.
Proof.
  intros HR (m1 & -> & Hs1 & Hc1) (m2 & -> & Hs2 & Hc2). exists (m1 ++ m2). split; [by rw app_assoc|]. split.
  - intros q [H|H]%elem_of_app; apply HR; auto.
  - intros Hn q [H|H]%HR; apply elem_of_app; [left; apply Hc1|right; apply Hc2]; set_solver.
Qed.

(** The part of [hits] that comes from one entry. *)
Definition hits_via (name : list Z) (nfd : nat) (p : list Z) (de : dirent) (q : list Z) : Prop :=
  live de ∧ (S nfd < NOFILE)%nat ∧ fstat_ok (join p de.(de_name)) = true ∧
  (node_at (join p de.(de_name)) = Some TFile ∧ cstring de.(de_name) = name ∧ q = join p de.(de_name) ∨
   (∃ es', node_at (join p de.(de_name)) = Some (TDir es')) ∧ hits name (S nfd) (join p de.(de_name)) q).

Lemma hits_entries name nfd p es q : is_dir p es → hits name nfd p q ↔ ∃ de, de ∈ es ∧ hits_via name nfd p de q.
Proof.
  intros [Hd Hf]. split.
  - destruct 1 as [es0 de ? [Hd' _]|es0 de es' q ? [Hd' _] ? ? [??]]; rw Hd in Hd'; injection Hd' as <-;
      exists de; split; try done; split_and!; eauto.
  - intros (de & Hin & Hl & Hfd & Hok & [(Hn & Hc & ->)|([es' Hn] & Hh)]).
    + by eapply hit_file.
    + by eapply (hit_below _ _ _ es de es').
Qed.

Lemma hits_nothing name nfd p q : (NOFILE ≤ nfd)%nat ∨ (∀ es, ¬ is_dir p es) → ¬ hits name nfd p q.
Proof. intros Hn H. destruct H as [es de ? Hd|es de es' q ? Hd]; (destruct Hn as [Hn|Hn]; [lia|by eapply Hn]). Qed.

(** The depth of the recursion is bounded by the length of the path. *)
Lemma join_longer p nm : (length p < length (join p nm))%nat.
Proof. rw /join length_app /=. lia. Qed.

Lemma reports_iff P Q out out' : (∀ q, P q ↔ Q q) → reports Q out out' → reports P out out'.
Proof. intros HPQ (ms & -> & Hs & Hc). exists ms. split; [done|]. split; [intros q ?; apply HPQ; auto|intros ? q ?%HPQ; auto]. Qed.

(** One entry of a directory. *)
Lemma entry_reports (rec : list Z → list Z → M (list msg) unit) nfd path name de out :
  length de.(de_name) = DIRSIZ → (length name < DIRSIZ)%nat → 0 ∉ name →
  (∀ out, wp (rec (join path de.(de_name)) name)
     (λ _ out', reports (hits name (S nfd) (join path de.(de_name))) out out') out) →
  wp (dot ← same de.(de_name) [46];
      dotdot ← (if (dot : bool) then mret true else same de.(de_name) [46; 46]);
      if (dotdot : bool) || (de.(de_inum) =? 0) then mret (A := option unit) None else
      let buf := join path de.(de_name) in
      if negb (fstat_ok buf) then say (MNoStat buf);; mret None else
      match (if (NOFILE <=? S nfd)%nat then None else node_at buf) with
      | None => say (MNoStat buf);; mret None
      | Some (TDir _) => rec buf name;; mret None
      | Some TFile =>
          eq ← same de.(de_name) name;
          (if (eq : bool) then say (MFound buf) else mret tt);;
          mret None
      | Some TDev => mret None
      end)
    (λ r out', match r with None => reports (hits_via name nfd path de) out out' | Some _ => False end) out.
Proof.
  intros Hd Hn Hz Hrec. change DIRSIZ with 14%nat in *.
  destruct (same_ok (de_name de) [46] out Hd) as (b1 & H1 & E1); [by vm_compute; lia|set_solver|].
  destruct (same_ok (de_name de) [46; 46] out Hd) as (b2 & H2 & E2); [by vm_compute; lia|set_solver|].
  apply wp_bind, (wp_of_run _ _ _ _ _ H1), wp_bind.
  apply (wp_of_run _ _ _ (b1 || b2) out); [by destruct b1|].
  destruct ((b1 || b2) || (de_inum de =? 0)) eqn:Eskip.
  { apply wp_ret, reports_nothing. intros q [(Hl1 & Hl2 & Hl3) _].
    destruct b1; [by apply Hl1, E1|]. destruct b2; [by apply Hl2, E2|]. by apply Z.eqb_eq in Eskip. }
  apply orb_false_iff in Eskip as [[-> ->]%orb_false_iff Hi%Z.eqb_neq].
  assert (live de) as Hlive by (split_and!; [by intros ?%E1|by intros ?%E2|done]).
  cbv zeta. destruct (fstat_ok _) eqn:Hok; cbn [negb].
  2:{ apply wp_modify_bind, wp_ret, reports_none; [|done]. intros q (_ & _ & Hf & _). by rw Hok in Hf. }
  destruct (Nat.leb_spec NOFILE (S nfd)).
  { apply wp_modify_bind, wp_ret, reports_none; [|done]. intros q (_ & Hf & _). lia. }
  destruct (node_at _) as [[es'| |]|] eqn:Hnd.
  - apply wp_bind. eapply wp_mono; [|apply Hrec]. intros ? out' Hr. apply wp_ret. eapply reports_iff; [|exact Hr].
    intros q. split; [|by intros Hq; split_and!; [done..|]; right; eauto]. intros (_ & _ & _ & [(Hx & _)|[_ ?]]); [by rw Hnd in Hx|done].
  - destruct (same_ok (de_name de) name out Hd Hn Hz) as (b3 & H3 & E3). apply wp_bind, (wp_of_run _ _ _ _ _ H3).
    destruct b3.
    + apply wp_modify_bind, wp_ret. exists [MFound (join path (de_name de))]. split; [done|]. split.
      * intros q [= ->]%list_elem_of_singleton. split_and!; [done..|]. left. split_and!; [done|by apply E3|done].
      * intros _ q (_ & _ & _ & [(_ & _ & ->)|[[es' Hx] _]]); [by left|by rw Hnd in Hx].
    + apply wp_bind, wp_ret, wp_ret, reports_nothing.
      intros q (_ & _ & _ & [(_ & Hc & _)|[[es' Hx] _]]); [by apply E3 in Hc|by rw Hnd in Hx].
  - apply wp_ret, reports_nothing. intros q (_ & _ & _ & [(Hx & _)|[[es' Hx] _]]); by rw Hnd in Hx.
  - apply wp_modify_bind, wp_ret, reports_none; [|done]. intros q (_ & _ & _ & [(Hx & _)|[[es' Hx] _]]); by rw Hnd in Hx.
Qed.

Lemma search_reports fuel nfd path name out : tree_wf → (length name < DIRSIZ)%nat → 0 ∉ name →
  (512 < fuel + length path)%nat ∧ (0 < fuel)%nat →
  wp (search fuel nfd path name) (λ _ out', reports (hits name nfd path) out out') out.
Proof.
  intros Hwf Hl Hz. revert nfd path out. induction fuel as [|fuel IH]; intros nfd path out Hfuel; [lia|].
  cbn [search]. destruct (Nat.leb_spec NOFILE nfd) as [Hfd|Hfd].
  { apply reports_none; [|done]. intros q. apply hits_nothing. by left. }
  destruct (node_at path) as [nd|] eqn:Hnd.
  2:{ apply reports_none; [|done]. intros q. apply hits_nothing. right. by intros es [Hd _]; rw Hnd in Hd. }
  destruct (fstat_ok path) eqn:Hok; cbn [negb].
  2:{ apply reports_none; [|done]. intros q. apply hits_nothing. right. intros es [_ Hf]. by rw Hok in Hf. }
  destruct nd as [es| |].
  2:{ apply reports_none; [|done]. intros q. apply hits_nothing. right. by intros es [Hd _]; rw Hnd in Hd. }
  2:{ apply reports_nothing. intros q. apply hits_nothing. right. by intros es [Hd _]; rw Hnd in Hd. }
  assert (is_dir path es) as Hdir by done.
  destruct (Nat.ltb_spec 512 (length path + 1 + DIRSIZ + 1)) as [Hlong|Hshort].
  { exists [MTooLong]. split; [done|]. split; [by intros q ?%list_elem_of_singleton|]. set_solver. }
  apply wp_bind. eapply wp_mono; [|apply (wp_for_each (λ dn out', reports (λ q, ∃ de, de ∈ dn ∧ hits_via name nfd path de q) out out')
    (λ _ _, False))].
  - intros [r|] out' H; [done|]. apply wp_ret. eapply reports_iff; [|exact H]. intros q. by apply hits_entries.
  - apply reports_nothing. by intros q (de & ?%not_elem_of_nil & _).
  - intros dn de td out1 Hes H1. assert (de ∈ es) as Hin by (rw Hes; set_solver).
    eapply wp_mono; [|apply (entry_reports (search fuel (S nfd)) nfd path name de out1); [by eapply Hwf|done|done|]].
    + intros [r|] out2 H2; [done|]. eapply reports_app; [|exact H1|exact H2]. intros q. simpl. split.
      * intros (de' & [Hd| ->%list_elem_of_singleton]%elem_of_app & Hq); [left; eauto|by right].
      * intros [(de' & Hd & Hq)|Hq]; [exists de'|exists de]; split; try done; set_solver.
    + intros out2. apply IH. pose proof (join_longer path (de_name de)). change DIRSIZ with 14%nat in *. lia.
Qed.

(** [find] always returns: the length of the path bounds its recursion, cycles
    in the tree included.  Every path it reports is a file of the given name in
    the tree below the root, and unless it complains of a path that is too long
    it reports all of them that its descriptors let it reach. *)
Theorem find_exact (root name : list Z) (rest : list (list Z)) :
  tree_wf → (length name < DIRSIZ)%nat → 0 ∉ name →
  ∃ out, find (root :: name :: rest) [] = Ok (0, out) ∧
    (∀ q, MFound q ∈ out → hits name 3 root q) ∧
    (MTooLong ∉ out → ∀ q, hits name 3 root q → MFound q ∈ out).
Proof.
  intros Hwf Hl Hz. assert ((512 < 513 + length root)%nat ∧ (0 < 513)%nat) as Hf by lia.
  destruct (wp_run _ _ _ (search_reports 513 3 root name [] Hwf Hl Hz Hf)) as ([] & out & Hrun & ms & -> & H).
  exists ms. split; [|exact H]. rw /find /mbind /M_bind Hrun //.
Qed.
End find.

(** ** Examples and faults *)

Module UtilsDemo.

Definition always : Forks := {| fork_ok := λ _, true |}.
Definition x0 (input : list Z) : xst := MkX input (repeat 7 128) (repeat PJunk 32) 0 [].

(** "ab c\nd" with the argument "echo": the last line has no newline. *)
Lemma xargs_runs_example : let FK := always in
  ∃ s', xargs [[101; 99; 104; 111]] (x0 [97; 98; 32; 99; 10; 100]) = Ok (tt, s') ∧ s'.(x_in) = [] ∧
    s'.(x_runs) = ran [[[101; 99; 104; 111]; [97; 98]; [99]]].
Proof.
  intros FK. apply (xargs_runs [[101; 99; 104; 111]] (x0 [97; 98; 32; 99; 10; 100])); try done; [set_solver|].
  intros l Hl. revert l Hl. apply Forall_forall. vm_compute. repeat constructor; lia.
Defined.

(** A line of 129 characters is stored past the end of [buf]. *)
Theorem xargs_overruns : let FK := always in
  xargs [] (x0 (repeat 97 129)) = Err (Undef "buf").
Proof. by vm_compute. Qed.

(** A file whose name fills its 14 bytes, searched by that name: [strcmp] reads
    past the end of the directory entry. *)
Definition full : list Z := repeat 97 14.
Definition one_file : FileTree := {|
  node_at p := if bool_decide (p = [46]) then Some (TDir [MkDe 5 full]) else Some TFile;
  fstat_ok _ := true |}.
Theorem find_full_name_undefined : let FT := one_file in find [[46]; full] [] = Err (Undef "de.name").
Proof. by vm_compute. Qed.

(** A tree with a file "b" in a directory "a". *)
Definition pad (l : list Z) : list Z := l ++ repeat 0 (14 - length l).
Definition small_tree : FileTree := {|
  node_at p :=
    if bool_decide (p = [46]) then Some (TDir [MkDe 1 (pad [46]); MkDe 1 (pad [46; 46]); MkDe 2 (pad [97])])
    else if bool_decide (p = [46; 47; 97]) then Some (TDir [MkDe 2 (pad [46]); MkDe 3 (pad [98])])
    else if bool_decide (p = [46; 47; 97; 47; 98]) then Some TFile else None;
  fstat_ok _ := true |}.
Lemma find_exact_example : let FT := small_tree in
  find [[46]; [98]] [] = Ok (0, [MFound [46; 47; 97; 47; 98]]) ∧
  ∃ out, find [[46]; [98]] [] = Ok (0, out) ∧ (∀ q, MFound q ∈ out → hits [98] 3 [46] q) ∧
    (MTooLong ∉ out → ∀ q, hits [98] 3 [46] q → MFound q ∈ out).
Proof.
  intros FT. split; [by vm_compute|]. apply find_exact; [|by vm_compute; lia|set_solver].
  intros p es de. cbn. repeat case_bool_decide; try done; intros [= <-] Hin; revert de Hin; apply Forall_forall; by repeat constructor.
Defined.
End UtilsDemo.
End UtilsProps.
