(* ===== verification/Pingpong.v ===== *)
(** * Two processes and two pipes (utilities lab, [pingpong.c])

    The program creates two pipes and forks; parent and child then run at the
    same time.  A state holds the pipes and, for each process, the calls it has
    still to make; a step is one call of one process, and a [printf] one step
    per character, as the user library writes them one by one.  Pipes and the
    digits of a number, which belong to the kernel and the user library of
    xv6, are the class [Pipes]: a pipe keeps bytes in order, a read waits while
    it is empty and somebody holds its write end, and an end is closed when the
    last process that holds it closes it.  The [int] arrays [buf] are 32 bytes. *)

From S2P Require Import Prelude Machine.

Module Pingpong.

Inductive side := READ | WRITE.
Inductive chan := FD | FDC.
#[export] Instance side_eq_dec : EqDecision side.
Proof. solve_decision. Defined.
#[export] Instance chan_eq_dec : EqDecision chan.
Proof. solve_decision. Defined.

Class Pipes (P : Type) := {
  pdata : P → list Z;
  pholders : P → side → Z;
  pipe : P;
  pdup : P → P;                                   (* fork: both ends *)
  pclose : side → P → P;
  pread : nat → P → option (list Z * P);          (* None: the caller waits *)
  pwrite : list Z → P → option P;
  decimal : Z → list Z;
  pipe_ok : pdata pipe = [] ∧ ∀ sd, pholders pipe sd = 1;
  pdup_ok p : pdata (pdup p) = pdata p ∧ ∀ sd, pholders (pdup p) sd = 2 * pholders p sd;
  pclose_ok p sd : 0 < pholders p sd → pdata (pclose sd p) = pdata p ∧
    ∀ sd', pholders (pclose sd p) sd' = pholders p sd' - if decide (sd' = sd) then 1 else 0;
  pread_wait p n : pdata p = [] → 0 < pholders p WRITE → pread n p = None;
  pread_ok p n : pdata p ≠ [] → (0 < n)%nat → ∃ p', pread n p = Some (take n (pdata p), p') ∧
    pdata p' = drop n (pdata p) ∧ ∀ sd, pholders p' sd = pholders p sd;
  pwrite_ok p bs : 0 < pholders p READ → Z.of_nat (length (pdata p) + length bs) ≤ 512 →
    ∃ p', pwrite bs p = Some p' ∧ pdata p' = pdata p ++ bs ∧ ∀ sd, pholders p' sd = pholders p sd;
}.

Inductive instr :=
  | Close (c : chan) (sd : side)
  | Read (c : chan) (n : nat)       (* into buf *)
  | Write (c : chan) (bs : list Z)
  | Receive                         (* printf("%d: receive %s", getpid(), buf) *)
  | Putc (c : Z)
  | Exit (n : Z).

Record uproc := MkU { u_pid : Z; u_code : list instr; u_buf : list Z; u_status : option Z }.

Section pingpong.
Context {P : Type} {PP : Pipes P}.

Record pst := MkP { p_fd : P; p_fdc : P; p_parent : uproc; p_child : uproc; p_out : list Z }.

Definition chr (s : string) : list Z := (λ a, Z.of_N (Ascii.N_of_ascii a)) <$> String.list_ascii_of_string s.
Definition ping : list Z := chr "ping" ++ [10].
Definition pong : list Z := chr "pong" ++ [10].

(** The string at the start of [buf]. *)
Fixpoint cstring (l : list Z) : list Z :=
  match l with [] => [] | c :: l => if c =? 0 then [] else c :: cstring l end.
Definition receive_text (pid : Z) (buf : list Z) : list Z := decimal pid ++ chr ": receive " ++ cstring buf.

Definition child_code : list instr :=
  [Close FD WRITE; Read FD 5; Receive; Close FDC READ; Write FDC pong; Close FD READ; Close FDC WRITE; Exit 0].
Definition parent_code : list instr :=
  [Close FD READ; Write FD ping; Close FDC WRITE; Read FDC 5; Receive; Close FD WRITE; Close FDC READ; Exit 0].
Definition fork_error_code : list instr :=
  (Putc <$> chr "fork error" ++ [10]) ++ [Close FDC READ; Close FDC WRITE; Close FD READ; Close FD WRITE; Exit 1].

(** The state after the two calls of [pipe] and [fork]. *)
Definition main (fork_ok : bool) (pid cpid : Z) : pst :=
  let proc id code := MkU id code (replicate 32 0) None in
  if fork_ok then MkP (pdup pipe) (pdup pipe) (proc pid parent_code) (proc cpid child_code) []
  else MkP pipe pipe (proc pid fork_error_code) (MkU 0 [] [] None) [].

Definition get_pipe (c : chan) (s : pst) : P := match c with FD => s.(p_fd) | FDC => s.(p_fdc) end.
Definition set_pipe (c : chan) (p : P) (s : pst) : pst :=
  match c with
  | FD => MkP p s.(p_fdc) s.(p_parent) s.(p_child) s.(p_out)
  | FDC => MkP s.(p_fd) p s.(p_parent) s.(p_child) s.(p_out)
  end.

(** One call of a process; [None] when it waits or has exited. *)
Definition exec (u : uproc) (s : pst) : option (uproc * pst) :=
  match u.(u_code) with
  | [] => None
  | Close c sd :: k => Some (MkU u.(u_pid) k u.(u_buf) u.(u_status), set_pipe c (pclose sd (get_pipe c s)) s)
  | Read c n :: k =>
      '(bs, p) ← pread n (get_pipe c s);
      Some (MkU u.(u_pid) k (bs ++ drop (length bs) u.(u_buf)) u.(u_status), set_pipe c p s)
  | Write c bs :: k =>
      p ← pwrite bs (get_pipe c s);
      Some (MkU u.(u_pid) k u.(u_buf) u.(u_status), set_pipe c p s)
  | Receive :: k =>
      Some (MkU u.(u_pid) ((Putc <$> receive_text u.(u_pid) u.(u_buf)) ++ k) u.(u_buf) u.(u_status), s)
  | Putc x :: k => Some (MkU u.(u_pid) k u.(u_buf) u.(u_status), MkP s.(p_fd) s.(p_fdc) s.(p_parent) s.(p_child) (s.(p_out) ++ [x]))
  | Exit n :: _ => Some (MkU u.(u_pid) [] u.(u_buf) (Some n), s)
  end.

Definition step (child : bool) (s : pst) : option pst :=
  if child then
    '(u, s) ← exec s.(p_child) s; Some (MkP s.(p_fd) s.(p_fdc) s.(p_parent) u s.(p_out))
  else
    '(u, s) ← exec s.(p_parent) s; Some (MkP s.(p_fd) s.(p_fdc) u s.(p_child) s.(p_out)).

End pingpong.
Arguments pst P : clear implicits.
End Pingpong.

Module PingpongProps.
Import Pingpong.
Lemma ping_length : length ping = 5%nat.
Proof. done. Qed.
Lemma pong_length : length pong = 5%nat.
Proof. done. Qed.
#[local] Opaque ping pong.
#[local] Arguments receive_text : simpl never.
#[local] Arguments replicate : simpl never.

Section props.
Context {P : Type} {PP : Pipes P} (pid cpid : Z).
Implicit Types (s : pst P) (u : uproc).

(** What a process has done so far, seen from the other one. *)
Record view := MkView {
  h_out : bool;       (* holds the write end it sends through *)
  h_out_r : bool;     (* holds the read end of that pipe *)
  h_in : bool;        (* holds the read end it receives through *)
  h_in_w : bool;      (* holds the write end of that pipe *)
  sent : bool;
  got : bool;
  printed : list Z;
}.

Definition ptext : list Z := receive_text pid (pong ++ replicate 27 0).
Definition ctext : list Z := receive_text cpid (ping ++ replicate 27 0).

Inductive parent_at : list instr → view → Prop :=
  | PA0 : parent_at parent_code (MkView true true true true false false [])
  | PA1 : parent_at (drop 1 parent_code) (MkView true false true true false false [])
  | PA2 : parent_at (drop 2 parent_code) (MkView true false true true true false [])
  | PA3 : parent_at (drop 3 parent_code) (MkView true false true false true false [])
  | PA4 : parent_at (drop 4 parent_code) (MkView true false true false true true [])
  | PA5 dn td : ptext = dn ++ td →
      parent_at ((Putc <$> td) ++ drop 5 parent_code) (MkView true false true false true true dn)
  | PA6 : parent_at (drop 6 parent_code) (MkView false false true false true true ptext)
  | PA7 : parent_at (drop 7 parent_code) (MkView false false false false true true ptext)
  | PA8 : parent_at [] (MkView false false false false true true ptext).

Inductive child_at : list instr → view → Prop :=
  | CA0 : child_at child_code (MkView true true true true false false [])
  | CA1 : child_at (drop 1 child_code) (MkView true true true false false false [])
  | CA2 : child_at (drop 2 child_code) (MkView true true true false false true [])
  | CA3 dn td : ctext = dn ++ td →
      child_at ((Putc <$> td) ++ drop 3 child_code) (MkView true true true false false true dn)
  | CA4 : child_at (drop 4 child_code) (MkView true false true false false true ctext)
  | CA5 : child_at (drop 5 child_code) (MkView true false true false true true ctext)
  | CA6 : child_at (drop 6 child_code) (MkView true false false false true true ctext)
  | CA7 : child_at (drop 7 child_code) (MkView false false false false true true ctext)
  | CA8 : child_at [] (MkView false false false false true true ctext).

Definition b2z (b : bool) : Z := if b then 1 else 0.

(** A pipe whose sender is at [v] and whose receiver at [w]. *)
Record pipe_at (p : P) (v w : view) (msg : list Z) : Prop := {
  pa_data : pdata p = if v.(sent) && negb w.(got) then msg else [];
  pa_writers : pholders p WRITE = b2z v.(h_out) + b2z w.(h_in_w);
  pa_readers : pholders p READ = b2z v.(h_out_r) + b2z w.(h_in);
  pa_order : w.(got) = true → v.(sent) = true;
}.

Record inv s (v w : view) : Prop := {
  i_parent : parent_at s.(p_parent).(u_code) v;
  i_child : child_at s.(p_child).(u_code) w;
  i_pids : s.(p_parent).(u_pid) = pid ∧ s.(p_child).(u_pid) = cpid;
  i_fd : pipe_at s.(p_fd) v w ping;
  i_fdc : pipe_at s.(p_fdc) w v pong;
  i_pbuf : s.(p_parent).(u_buf) = if v.(got) then pong ++ replicate 27 0 else replicate 32 0;
  i_cbuf : s.(p_child).(u_buf) = if w.(got) then ping ++ replicate 27 0 else replicate 32 0;
  i_out : s.(p_out) = w.(printed) ++ v.(printed);
  i_status : s.(p_parent).(u_status) = (if decide (s.(p_parent).(u_code) = []) then Some 0 else None) ∧
    s.(p_child).(u_status) = (if decide (s.(p_child).(u_code) = []) then Some 0 else None);
}.

Lemma main_inv : ∃ v w, inv (main true pid cpid) v w.
Proof.
  destruct (pdup_ok pipe) as [D H], pipe_ok as [D0 H0].
  do 2 eexists. split; [apply PA0|apply CA0|done|..]; try done.
  all: split; rewrite ?D ?H ?D0 ?H0; done.
Qed.

(** What the order of the calls of one process implies. *)
Definition sound (v : view) : Prop :=
  (v.(sent) = false → v.(h_out) = true) ∧ (v.(got) = false → v.(h_in) = true).
Lemma parent_facts c v : parent_at c v → sound v ∧ (v.(printed) ≠ [] → v.(got) = true).
Proof. by destruct 1. Qed.
Lemma child_facts c w : child_at c w → sound w ∧ (w.(sent) = true → w.(printed) = ctext).
Proof. by destruct 1. Qed.

(** Reading from and writing to a pipe. *)
Lemma pipe_read p v w msg : pipe_at p v w msg → sound v → w.(got) = false → length msg = 5%nat →
  (v.(sent) = false → pread 5 p = None) ∧
  (v.(sent) = true → ∃ p', pread 5 p = Some (msg, p') ∧ pdata p' = [] ∧ ∀ sd, pholders p' sd = pholders p sd).
Proof.
  intros [Hd Hw _ _] [Ho _] Hg Hl. rw Hg andb_true_r in Hd. split; intros Hs; rw Hs in Hd.
  - apply pread_wait; [done|]. rw Hw Ho //. destruct (h_in_w w); simpl; lia.
  - destruct (pread_ok p 5) as (p' & Hr & Hd' & Hh); [rw Hd; by intros ->|lia|]. exists p'.
    rw Hd in Hr Hd'. rewrite -> take_ge in Hr by lia. rewrite -> drop_ge in Hd' by lia. done.
Qed.

Lemma pipe_write p v w msg : pipe_at p v w msg → sound w → v.(sent) = false → length msg = 5%nat →
  ∃ p', pwrite msg p = Some p' ∧ pdata p' = msg ∧ w.(got) = false ∧ ∀ sd, pholders p' sd = pholders p sd.
Proof.
  intros [Hd _ Hr Ho] [_ Hi] Hs Hl. rw Hs in Hd Ho. simpl in Hd.
  assert (w.(got) = false) as Hg by (destruct (got w); [by discriminate Ho|done]).
  destruct (pwrite_ok p msg) as (p' & Hw & Hd' & Hh).
  - rw Hr Hi //. destruct (h_out_r v); simpl; lia.
  - rw Hd Hl. simpl. lia.
  - exists p'. by rw Hd in Hd'.
Qed.

(** The calls a process still makes. *)
Definition calls (text : list Z) (k : list instr) : nat :=
  sum_list_with (λ i, match i with Receive => S (length text) | _ => 1%nat end) k.
Lemma calls_putc text td k : calls text ((Putc <$> td) ++ k) = (length td + calls text k)%nat.
Proof. rw /calls sum_list_with_app. f_equal. by induction td as [|x td IH]; [|rw fmap_cons /= IH]. Qed.
Definition calls_left s : nat := (calls ptext s.(p_parent).(u_code) + calls ctext s.(p_child).(u_code))%nat.

Lemma parent_step s s' v w : inv s v w → step false s = Some s' → ∃ v', inv s' v' w.
Proof.
  intros [Hp Hc [Ep Ec] Hfd Hfdc Hpb Hcb Ho [Hsp Hsc]]. destruct s as [fd fdc [pp pc pb ps] [cp cc cb cs] out]. simpl in *. subst pp cp.
  destruct (child_facts _ _ Hc) as [Hcs Hct]. pose proof Hfd as [D1 W1 R1 O1]. pose proof Hfdc as [D2 W2 R2 O2].
  rw /step /exec /=. inversion Hp; subst; simpl in *.
  - destruct (pclose_ok fd READ) as [Dc Hh]; [rw R1; destruct (h_in w); simpl; lia|]. intros [= <-].
    eexists. split; [apply PA1|done..| | | | | |]; simpl; try done.
    split; rewrite ?Dc ?Hh; simpl; try done; rewrite ?W1 ?R1; lia.
  - destruct (pipe_write _ _ _ _ Hfd Hcs eq_refl ping_length) as (p' & Hw & Hd & Hg & Hh). rw Hw /=. intros [= <-].
    eexists. split; [apply PA2|done..| | | | | |]; simpl; try done.
    split; rewrite ?Hd ?Hh ?Hg; done.
  - destruct (pclose_ok fdc WRITE) as [Dc Hh]; [rw W2; destruct (h_out w); simpl; lia|]. intros [= <-].
    eexists. split; [apply PA3|done..| | | | | |]; simpl; try done.
    split; rewrite ?Dc ?Hh; simpl; try done; rewrite ?W2 ?R2; lia.
  - destruct (pipe_read _ _ _ _ Hfdc Hcs eq_refl pong_length) as [Hno Hyes]. destruct (sent w) eqn:Es; [|by rw Hno].
    destruct (Hyes eq_refl) as (p' & Hr & Hd & Hh). rw Hr /=. intros [= <-].
    eexists. split; [apply PA4|done..| | | | | |]; simpl; try done.
    split; rewrite ?Hd ?Hh ?Es; done.
  - intros [= <-]. eexists. split; [by apply (PA5 [] ptext)|done..| | | | | |]; simpl; try done.
    split; [|done]. by destruct (receive_text pid _).
  - destruct td as [|x td]; simpl in *.
    + destruct (pclose_ok fd WRITE) as [Dc Hh]; [rw W1; destruct (h_in_w w); simpl; lia|]. intros [= <-].
      rewrite -> app_nil_r in *. subst dn. eexists. split; [apply PA6|done..| | | | | |]; simpl; try done.
      split; rewrite ?Dc ?Hh; simpl; try done; rewrite ?W1 ?R1; lia.
    + intros [= <-]. eexists. split; [apply (PA5 (dn ++ [x]) td); by rw -app_assoc|done..| | | | | |]; simpl; try done.
      * by rw app_assoc.
      * split; [|done]. by destruct td.
  - destruct (pclose_ok fdc READ) as [Dc Hh]; [rw R2; destruct (h_out_r w); simpl; lia|]. intros [= <-].
    eexists. split; [apply PA7|done..| | | | | |]; simpl; try done.
    split; rewrite ?Dc ?Hh; simpl; try done; rewrite ?W2 ?R2; lia.
  - intros [= <-]. eexists. split; [apply PA8|done..]; done.
  - done.
Qed.

Lemma child_step s s' v w : inv s v w → step true s = Some s' → ∃ w', inv s' v w'.
Proof.
  intros [Hp Hc [Ep Ec] Hfd Hfdc Hpb Hcb Ho [Hsp Hsc]]. destruct s as [fd fdc [pp pc pb ps] [cp cc cb cs] out]. simpl in *. subst pp cp.
  destruct (parent_facts _ _ Hp) as [Hps Hpt]. pose proof Hfd as [D1 W1 R1 O1]. pose proof Hfdc as [D2 W2 R2 O2].
  rw /step /exec /=. inversion Hc; subst; simpl in *.
  - destruct (pclose_ok fd WRITE) as [Dc Hh]; [rw W1; destruct (h_out v); simpl; lia|]. intros [= <-].
    eexists. split; [done|apply CA1|done..| | | | | |]; simpl; try done.
    split; rewrite ?Dc ?Hh; simpl; try done; rewrite ?W1 ?R1; lia.
  - destruct (pipe_read _ _ _ _ Hfd Hps eq_refl ping_length) as [Hno Hyes]. destruct (sent v) eqn:Es; [|by rw Hno].
    destruct (Hyes eq_refl) as (p' & Hr & Hd & Hh). rw Hr /=. intros [= <-].
    eexists. split; [done|apply CA2|done..| | | | | |]; simpl; try done.
    split; rewrite ?Hd ?Hh ?Es; done.
  - intros [= <-]. eexists. split; [done|by apply (CA3 [] ctext)|done..| | | | | |]; simpl; try done.
    split; [done|]. by destruct (receive_text cpid _).
  - assert (printed v = []) as Hv.
    { destruct (printed v) as [|x l] eqn:E; [done|]. by discriminate (O2 (Hpt ltac:(done))). }
    destruct td as [|x td]; simpl in *.
    + destruct (pclose_ok fdc READ) as [Dc Hh]; [rw R2; destruct (h_in v); simpl; lia|]. intros [= <-].
      rewrite -> app_nil_r in *. subst dn. eexists. split; [done|apply CA4|done..| | | | | |]; simpl; try done.
      split; rewrite ?Dc ?Hh; simpl; try done; rewrite ?W2 ?R2; lia.
    + intros [= <-]. eexists. split; [done|apply (CA3 (dn ++ [x]) td); by rw -app_assoc|done..| | | | | |]; simpl; try done.
      * by rw Hv !app_nil_r.
      * split; [done|]. by destruct td.
  - destruct (pipe_write _ _ _ _ Hfdc Hps eq_refl pong_length) as (p' & Hw & Hd & Hg & Hh). rw Hw /=. intros [= <-].
    eexists. split; [done|apply CA5|done..| | | | | |]; simpl; try done.
    split; rewrite ?Hd ?Hh ?Hg; done.
  - destruct (pclose_ok fd READ) as [Dc Hh]; [rw R1; destruct (h_out_r v); simpl; lia|]. intros [= <-].
    eexists. split; [done|apply CA6|done..| | | | | |]; simpl; try done.
    split; rewrite ?Dc ?Hh; simpl; try done; rewrite ?W1 ?R1; lia.
  - destruct (pclose_ok fdc WRITE) as [Dc Hh]; [rw W2; destruct (h_in_w v); simpl; lia|]. intros [= <-].
    eexists. split; [done|apply CA7|done..| | | | | |]; simpl; try done.
    split; rewrite ?Dc ?Hh; simpl; try done; rewrite ?W2 ?R2; lia.
  - intros [= <-]. eexists. split; [done|apply CA8|done..]; done.
  - done.
Qed.

Lemma exec_calls text u (s : pst P) u' s' : (∀ k, u.(u_code) = Receive :: k → receive_text u.(u_pid) u.(u_buf) = text) →
  (∀ n k, u.(u_code) = Exit n :: k → k = []) →
  exec u s = Some (u', s') → calls text u.(u_code) = S (calls text u'.(u_code)).
Proof.
  rw /exec. destruct (u_code u) as [|[c sd|c n|c bs| |x|n] k]; intros Hr He; [done| | | | | |].
  - by intros [= <- _].
  - destruct (pread _ _) as [[bs p]|]; [|done]. by intros [= <- _].
  - destruct (pwrite _ _) as [p|]; [|done]. by intros [= <- _].
  - intros [= <- _]. cbn [u_code]. by rw (Hr k) // calls_putc.
  - by intros [= <- _].
  - intros [= <- _]. by rw (He n k).
Qed.

Lemma exec_procs u (s : pst P) u' s' : exec u s = Some (u', s') → s'.(p_parent) = s.(p_parent) ∧ s'.(p_child) = s.(p_child).
Proof.
  rw /exec. destruct (u_code u) as [|[c sd|c n|c bs| |x|n] k]; [done| | | | | |].
  - intros [= _ <-]. by destruct c.
  - destruct (pread _ _) as [[bs p]|]; [|done]. intros [= _ <-]. by destruct c.
  - destruct (pwrite _ _) as [p|]; [|done]. intros [= _ <-]. by destruct c.
  - by intros [= _ <-].
  - by intros [= _ <-].
  - by intros [= _ <-].
Qed.

Lemma child_next k w i : child_at k w → head k = Some i →
  (i = Receive → w.(got) = true) ∧ (∀ n, i = Exit n → k = [i]).
Proof. intros H Hk. destruct H as [| | |dn [|x td]| | | | |]; simpl in Hk; simplify_eq; by split. Qed.
Lemma child_end k w : child_at k w → k = [] → w = MkView false false false false true true ctext.
Proof. intros H Hk. by destruct H as [| | |dn [|x td]| | | | |]. Qed.
Lemma parent_end k v : parent_at k v → k = [] → v = MkView false false false false true true ptext.
Proof. intros H Hk. by destruct H as [| | | | |dn [|x td]| | |]. Qed.
Lemma parent_next k v i : parent_at k v → head k = Some i →
  (i = Receive → v.(got) = true) ∧ (∀ n, i = Exit n → k = [i]).
Proof. intros H Hk. destruct H as [| | | | |dn [|x td]| | |]; simpl in Hk; simplify_eq; by split. Qed.

Lemma step_left (b : bool) s s' v w : inv s v w → step b s = Some s' → calls_left s = S (calls_left s').
Proof.
  intros [Hp Hc [Ep Ec] _ _ Hpb Hcb _ _]. rw /step /calls_left. destruct b.
  - destruct (exec (p_child s) s) as [[u s1]|] eqn:E; [|done]. destruct (exec_procs _ _ _ _ E) as [E1 _].
    intros [= <-]. simpl. rw (exec_calls ctext _ _ _ _ _ _ E); [rw E1; lia| |].
    + intros k Ek. destruct (child_next _ _ Receive Hc) as [Hg _]; [by rw Ek|]. by rw Ec Hcb Hg.
    + intros n k Ek. destruct (child_next _ _ (Exit n) Hc) as [_ Hx]; [by rw Ek|]. rw Ek in Hx. by injection (Hx n eq_refl).
  - destruct (exec (p_parent s) s) as [[u s1]|] eqn:E; [|done]. destruct (exec_procs _ _ _ _ E) as [_ E1].
    intros [= <-]. simpl. rw (exec_calls ptext _ _ _ _ _ _ E); [rw E1; lia| |].
    + intros k Ek. destruct (parent_next _ _ Receive Hp) as [Hg _]; [by rw Ek|]. by rw Ep Hpb Hg.
    + intros n k Ek. destruct (parent_next _ _ (Exit n) Hp) as [_ Hx]; [by rw Ek|]. rw Ek in Hx. by injection (Hx n eq_refl).
Qed.

(** Somebody can go on until both are done. *)
Lemma child_can s v w : inv s v w → v.(sent) = true → s.(p_child).(u_code) ≠ [] → ∃ s', step true s = Some s'.
Proof.
  intros [Hp Hc _ Hfd Hfdc _ _ _ _] Hs Hne. rw /step /exec. destruct (parent_facts _ _ Hp) as [Hps _].
  inversion Hc as [H|H|H|dn td Hd H|H|H|H|H|H]; simpl; try (by eauto).
  - destruct (pipe_read _ _ _ _ Hfd Hps) as [_ Hy]; [by subst|done|]. destruct (Hy Hs) as (p' & Hr & _). simpl. rw Hr. simpl. eauto.
  - destruct td; simpl; eauto.
  - destruct (pipe_write _ _ _ _ Hfdc Hps) as (p' & Hw & _); [by subst|done|]. simpl. rw Hw. simpl. eauto.
Qed.

Lemma progress s v w : inv s v w →
  (∃ b s', step b s = Some s') ∨ (s.(p_parent).(u_code) = [] ∧ s.(p_child).(u_code) = []).
Proof.
  intros Hi. pose proof Hi as [Hp Hc _ Hfd Hfdc _ _ _ _]. destruct (child_facts _ _ Hc) as [Hcs _].
  assert (v.(sent) = true → s.(p_child).(u_code) ≠ [] → ∃ b s', step b s = Some s') as Hchild.
  { intros Hs Hne. destruct (child_can _ _ _ Hi Hs Hne) as [s' H]. by exists true, s'. }
  inversion Hp as [H|H|H|H|H|dn td Hd H|H|H|H].
  1,2,3,5,6,7,8: left; exists false; rw /step /exec -H; simpl; eauto.
  - destruct (pipe_write _ _ _ _ Hfd Hcs) as (p' & Hw & _); [by subst|done|]. rw Hw. simpl. eauto.
  - destruct td; simpl; eauto.
  - destruct (sent w) eqn:Es.
    + left. exists false. rw /step /exec -H /=. destruct (pipe_read _ _ _ _ Hfdc Hcs) as [_ Hy]; [by subst|done|].
      destruct (Hy Es) as (p' & Hr & _). rw Hr. simpl. eauto.
    + left. apply Hchild; [by subst|]. intros E. by rw (child_end _ _ Hc E) in Es.
  - destruct (decide (s.(p_child).(u_code) = [])) as [E|E]; [by right|]. left. apply Hchild; [by subst|done].
Qed.

Definition moves s s' : Prop := ∃ b, step b s = Some s'.

Lemma reach_inv n s0 s : nsteps moves n s0 s → (∃ v w, inv s0 v w) →
  (∃ v w, inv s v w) ∧ (n + calls_left s = calls_left s0)%nat.
Proof.
  induction 1 as [s0|n s0 s1 s [b Hs] _ IH]; intros (v & w & Hi); [by eauto|].
  pose proof (step_left _ _ _ _ _ Hi Hs). destruct IH as [Hinv Hn]; [|split; [done|lia]].
  destruct b; [destruct (child_step _ _ _ _ Hi Hs)|destruct (parent_step _ _ _ _ Hi Hs)]; eauto.
Qed.

(** However the two processes are scheduled, they exchange their messages:
    after at most as many calls as the program and its two texts have, nobody
    waits any more; the child's whole line is printed before the parent's, both
    exit with status 0, every end of both pipes is closed and no byte is left
    in them; and before that, some process can always go on. *)
Theorem pingpong_exchanges n s : nsteps moves n (main true pid cpid) s →
  (n ≤ 16 + length ctext + length ptext)%nat ∧
  ((∃ s', moves s s') ∨
   n = (16 + length ctext + length ptext)%nat ∧ s.(p_out) = ctext ++ ptext ∧
   s.(p_parent).(u_status) = Some 0 ∧ s.(p_child).(u_status) = Some 0 ∧
   ∀ c, pdata (get_pipe c s) = [] ∧ ∀ sd, pholders (get_pipe c s) sd = 0).
Proof.
  intros H. destruct (reach_inv _ _ _ H main_inv) as [(v & w & Hi) Hn].
  assert (calls_left (main true pid cpid) = 16 + length ctext + length ptext)%nat as E by (rw /calls_left /calls /=; lia).
  split; [lia|].
  destruct (progress s v w Hi) as [(b & s' & Hs)|[Ep Ec]]; [left; by exists s', b|right].
  pose proof Hi as [Hp Hc _ [D1 W1 R1 _] [D2 W2 R2 _] _ _ Ho [S1 S2]].
  rewrite -> (parent_end _ _ Hp Ep), (child_end _ _ Hc Ec) in *.
  split_and!; [rw /calls_left Ep Ec in Hn; rw /calls /= in Hn; lia|done|by rw S1 Ep|by rw S2 Ec|]. intros []; simpl; (split; [done|]); by intros [].
Qed.

(** The texts are the lines of the exercise. *)
Lemma texts : ctext = decimal cpid ++ chr ": receive ping" ++ [10] ∧ ptext = decimal pid ++ chr ": receive pong" ++ [10].
Proof. by split. Qed.

(** A schedule: which process makes the next call. *)
Fixpoint run (l : list bool) s : option (pst P) :=
  match l with [] => Some s | b :: l => s ← step b s; run l s end.

(** When [fork] fails, the process says so, closes what it opened and exits
    with status 1. *)
Theorem fork_error_closes : ∃ s, run (replicate 16 false) (main false pid cpid) = Some s ∧ s.(p_out) = chr "fork error" ++ [10] ∧
  s.(p_parent).(u_status) = Some 1 ∧ ∀ c sd, pholders (get_pipe c s) sd = 0.
Proof.
  eexists. split; [cbv; reflexivity|]. split; [done|]. split; [done|].
  assert (∀ sd, pholders (pclose WRITE (pclose READ pipe)) sd = 0) as H.
  { destruct pipe_ok as [_ H]. destruct (pclose_ok pipe READ) as [_ H1]; [by rw H|].
    destruct (pclose_ok (pclose READ pipe) WRITE) as [_ H2]; [by rw H1 H|]. intros []; by rw H2 H1 H. }
  by intros [].
Qed.

End props.

(** A kernel whose pipes are a list and two counters. *)
#[local] Instance list_pipes : Pipes (list Z * (side → Z)).
Proof.
  refine {| pdata := λ p, p.1; pholders := λ p, p.2; pipe := ([], λ _, 1); pdup := λ p, (p.1, λ sd, 2 * p.2 sd);
    pclose := λ sd p, (p.1, λ sd', p.2 sd' - if decide (sd' = sd) then 1 else 0);
    pread := λ n p, if decide (p.1 = []) then (if p.2 WRITE <=? 0 then Some ([], p) else None)
                    else Some (take n p.1, (drop n p.1, p.2));
    pwrite := λ bs p, if p.2 READ <=? 0 then None else Some (p.1 ++ bs, p.2);
    decimal := λ n, [48 + n mod 10] |}; try done.
  - intros p n E H. rewrite decide_True //. by zdec.
  - intros p n E _. eexists. by rewrite decide_False.
  - intros p bs H _. eexists. by zdec.
Defined.

(** A schedule of the 48 calls of processes 3 and 4. *)
Example pingpong_demo :
  p_out <$> run (replicate 3 false ++ replicate 21 true ++ replicate 21 false ++ replicate 3 true) (main true 3 4)
  = Some (chr "4: receive ping" ++ [10] ++ chr "3: receive pong" ++ [10]).
Proof. by vm_compute. Qed.
End PingpongProps.
