(* ===== verification/UserProgs.v ===== *)
(** * Two small programs ([sleep.c] of the utilities lab, [trace.c] of the
    syscalls lab)

    Both read a number from their first argument with [atoi] and pass it to a
    system call.  The process is the one of [Ulib]: its memory, and as its
    world the calls it has made so far.  Whether [trace] and [exec] succeed is
    the class [ProgCalls]; a successful [exec] does not return.  [argv] is the
    list of its [argc] pointers; the array [nargv] is not initialised, so that
    an element holds a pointer or nothing the program has put there. *)

From S2P Require Import Prelude Machine Ulib Printf PrintfProps Utils.
Import Printf Ulib PrintfProps.

Module UserProgs.

Class ProgCalls := { trace : Z → Z; exec_ok : Z → bool }.

Inductive ucall :=
  | CPrint (fd : Z) (fmt : string) (args : list Z)
  | CSleep (n : Z)
  | CTrace (mask : Z)
  | CExec (path : Z) (argv : list (option Z))
  | CExit (status : Z).

Section progs.
Context {PC : ProgCalls}.
Abbreviation process := (ul (list ucall)).

Definition call (c : ucall) : M process unit := modify (λ u, MkUl u.(l_mem) (u.(l_world) ++ [c])).

Definition arg (argv : list Z) (i : Z) : M process Z :=
  match argv !! Z.to_nat i with Some p => mret p | None => undef "argv" end.

Definition sleep_main (argv : list Z) : M process unit :=
  (if Z.of_nat (length argv) =? 1 then call (CPrint 1 "Please enter thr parameters!" [])
   else
     p ← arg argv 1;
     time ← atoi p;
     call (CSleep time));;
  call (CExit 0).

(** [argc < 3 || (argv[1][0] < '0' || argv[1][0] > '9')]. *)
Definition bad_usage (argv : list Z) : M process bool :=
  if Z.of_nat (length argv) <? 3 then mret true
  else
    p ← arg argv 1;
    c ← ldb p;
    mret ((c <? 48) || (57 <? c)).

Definition fill_nargv (argv : list Z) : M process (list (option Z)) :=
  loop (λ '(i, nargv),
    if (i <? Z.of_nat (length argv)) && (i <? Z.of_nat Utils.MAXARG) then
      a ← arg argv i;
      match Utils.put nargv (i - 2) (Some a) with
      | Some nargv => mret (inl (i + 1, nargv))
      | None => undef "nargv"
      end
    else mret (inr nargv)) (2, replicate Utils.MAXARG None).

Definition trace_main (argv : list Z) : M process unit :=
  bad ← bad_usage argv;
  if (bad : bool) then
    p ← arg argv 0;
    call (CPrint 2 "Usage: %s mask command" [p]);;
    call (CExit 1)
  else
    p ← arg argv 1;
    mask ← atoi p;
    call (CTrace mask);;
    if trace mask <? 0 then
      p ← arg argv 0;
      call (CPrint 2 "%s: trace failed" [p]);;
      call (CExit 1)
    else
      nargv ← fill_nargv argv;
      match nargv !! 0%nat with
      | Some (Some p) =>
          call (CExec p nargv);;
          if exec_ok p then mret tt else call (CExit 0)
      | _ => undef "nargv[0]"
      end.

(** ** What they do *)

(** The process after more calls. *)
Definition did (u : process) (l : list ucall) : process := MkUl u.(l_mem) (u.(l_world) ++ l).

Lemma did_did u l l' : did (did u l) l' = did u (l ++ l').
Proof. by rw /did /= app_assoc. Qed.

Lemma wp_call (c : ucall) Q u : Q tt (did u [c]) → wp (call c) Q u.
Proof. by intros H. Qed.

Lemma wp_arg argv i p Q u : argv !! Z.to_nat i = Some p → Q p u → wp (arg argv i) Q u.
Proof. intros Hi HQ. rw /arg Hi. by apply wp_ret. Qed.

(** A decimal argument: a non-empty string of digits below [2^31]. *)
Record number (m : mem) (p : Z) (ds : list Z) : Prop := {
  nb_str : cstr m p ds;
  nb_digits : Forall (is_digit 10) ds;
  nb_some : ds ≠ [];
  nb_small : value 10 ds < 2 ^ 31;
  nb_len : Z.of_nat (length ds) < 2 ^ 63;
}.

Lemma wp_atoi (u : process) p ds Q : number u.(l_mem) p ds → Q (value 10 ds) u → wp (atoi p) Q u.
Proof. intros [] HQ. eapply wp_of_run; [by apply atoi_reads|done]. Qed.

(** [sleep n] sleeps for [n] ticks and exits. *)
Theorem sleep_sleeps (u : process) argv p ds :
  length argv ≠ 1%nat → argv !! 1%nat = Some p → number u.(l_mem) p ds →
  sleep_main argv u = Ok (tt, did u [CSleep (value 10 ds); CExit 0]).
Proof.
  intros Hn Hp Hd. apply wp_eq_run. rw /sleep_main. zdec.
  apply wp_bind, wp_bind. eapply wp_arg; [done|]. apply wp_bind. eapply wp_atoi; [done|].
  apply wp_call, wp_call. by rw did_did.
Qed.

(** Without an argument [sleep] complains and exits with the same status. *)
Theorem sleep_needs_argument (u : process) p :
  sleep_main [p] u = Ok (tt, did u [CPrint 1 "Please enter thr parameters!" []; CExit 0]).
Proof. apply wp_eq_run. apply wp_bind, wp_call, wp_call. by rw did_did. Qed.

(** What [nargv] holds when it is passed to [exec]. *)
Definition nargv_of (argv : list Z) : list (option Z) :=
  let cmd := take 30 (drop 2 argv) in (Some <$> cmd) ++ replicate (32 - length cmd) None.

Lemma put_replicate (l : list (option Z)) n a :
  Utils.put (l ++ replicate (S n) None) (Z.of_nat (length l)) (Some a) = Some ((l ++ [Some a]) ++ replicate n None).
Proof.
  rw /Utils.put length_app length_replicate. zdec. rw Nat2Z.id. f_equal.
  rw -{1}(Nat.add_0_r (length l)) insert_app_r -app_assoc //.
Qed.

Lemma fill_nargv_spec argv u : (2 ≤ length argv)%nat → fill_nargv argv u = Ok (nargv_of argv, u).
Proof.
  intros Hn. apply wp_eq_run. rw /fill_nargv.
  apply (wp_loop (λ '(i, nargv) u', u' = u ∧ ∃ k, i = 2 + Z.of_nat k ∧ (k ≤ length (take 30 (drop 2 argv)))%nat ∧
    nargv = (Some <$> take k (drop 2 argv)) ++ replicate (32 - k) None) (λ '(i, _), 32 - i)).
  - split; [done|]. exists 0%nat. split_and!; [lia..|done].
  - lia.
  - intros [i nargv] u' [-> (k & -> & Hk & ->)] _. rewrite length_take length_drop in Hk.
    change (Z.of_nat Utils.MAXARG) with 32.
    destruct (decide (k < 30 ∧ 2 + k < length argv)%nat) as [[H1 H2]|Hend].
    + zdec. destruct (lookup_lt_is_Some_2 argv (2 + k) H2) as [a Ha].
      apply wp_bind. eapply wp_arg. { by replace (Z.to_nat (2 + Z.of_nat k)) with (2 + k)%nat by lia. }
      replace (2 + Z.of_nat k - 2) with (Z.of_nat (length (Some <$> take k (drop 2 argv))))
        by (rewrite length_fmap length_take length_drop; lia).
      replace (32 - k)%nat with (S (31 - k)) by lia. rw put_replicate. apply wp_ret. split; [|lia].
      split; [done|]. exists (S k). split_and!; [lia|rewrite length_take length_drop; lia|].
      rw (take_S_r _ _ a); [|by rw lookup_drop]. by rw fmap_app.
    + assert ((2 + Z.of_nat k <? Z.of_nat (length argv)) && (2 + Z.of_nat k <? 32) = false) as -> by (zbool; (done || lia)).
      apply wp_ret. split; [|done]. rw /nargv_of.
      assert (k = Nat.min 30 (length argv - 2))%nat as -> by lia.
      rewrite length_take length_drop. f_equal. f_equal.
      destruct (decide (30 ≤ length argv - 2)%nat); [by rewrite Nat.min_l|].
      rewrite -> Nat.min_r by lia. rewrite !take_ge ?length_drop //; lia.
Qed.

(** A mask that starts with a digit, a command, and a kernel that takes the
    mask: [trace] runs the command with its arguments, the first thirty. *)
Theorem trace_runs (u : process) argv p ds q :
  argv !! 1%nat = Some p → number u.(l_mem) p ds → argv !! 2%nat = Some q → 0 ≤ trace (value 10 ds) →
  trace_main argv u =
    Ok (tt, did u ([CTrace (value 10 ds); CExec q (nargv_of argv)] ++ if exec_ok q then [] else [CExit 0])).
Proof.
  intros Hp Hd Hq Ht. assert (2 < length argv)%nat as Hlen by (apply lookup_lt_is_Some; eauto).
  destruct Hd as [Hs Hdig Hne Hsm Hl]. destruct ds as [|c ds]; [done|].
  apply wp_eq_run. apply wp_bind. rw /bad_usage. zdec.
  apply wp_bind. eapply wp_arg; [done|]. apply wp_gets_bind, wp_ret.
  assert (ld8 (l_mem u) p = c) as ->.
  { destruct Hs as [Hs _]. rewrite <-(Z.add_0_r p). by rewrite -> Hs by (simpl; lia). }
  apply Forall_cons in Hdig as Hc. destruct Hc as [(d & Hd & ->) _].
  assert (digits d = 48 + d) as Ed by (rw /digits; by zdec).
  assert ((digits d <? 48) || (57 <? digits d) = false) as -> by (rw Ed; zbool; (done || lia)).
  apply wp_bind. eapply wp_arg; [done|]. apply wp_bind. eapply wp_atoi; [by split|].
  apply wp_bind, wp_call. zdec. apply wp_bind. eapply wp_of_run; [apply fill_nargv_spec; lia|].
  assert (nargv_of argv !! 0%nat = Some (Some q)) as ->.
  { rw /nargv_of. rewrite lookup_app_l ?length_fmap ?length_take ?length_drop; [|lia].
    rewrite list_lookup_fmap lookup_take_lt ?lookup_drop ?Hq //. lia. }
  apply wp_bind, wp_call. rw did_did. destruct (exec_ok q).
  - by apply wp_ret.
  - apply wp_call. by rw did_did.
Qed.

(** The array has no null pointer: where the arguments end, [exec] goes on
    with whatever the stack held. *)
Theorem trace_unterminated argv : Forall (λ p, p ≠ 0) argv → Some 0 ∉ nargv_of argv ∧
  (length argv ≤ 32 → 2 ≤ length argv → nargv_of argv !! (length argv - 2) = Some None)%nat.
Proof.
  intros Hf. split.
  - rw /nargv_of elem_of_app. intros [H%list_elem_of_fmap|H%elem_of_replicate]; [|by destruct H].
    destruct H as (x & [= <-] & Hx). rewrite Forall_forall in Hf. eapply Hf; [|done].
    eapply elem_of_submseteq; [exact Hx|]. etrans; [apply sublist_submseteq, sublist_take|apply sublist_submseteq, sublist_drop].
  - intros H1 H2. rw /nargv_of. rewrite -> (take_ge (drop 2 argv)) by (rewrite length_drop; lia).
    rewrite lookup_app_r length_fmap length_drop; [|lia]. apply lookup_replicate_2. lia.
Qed.

(** Fewer than two arguments: the usage message and status 1. *)
Theorem trace_usage (u : process) argv p : (length argv < 3)%nat → argv !! 0%nat = Some p →
  trace_main argv u = Ok (tt, did u [CPrint 2 "Usage: %s mask command" [p]; CExit 1]).
Proof.
  intros Hn Hp. apply wp_eq_run. apply wp_bind. rw /bad_usage. zdec. apply wp_ret.
  apply wp_bind. eapply wp_arg; [done|]. apply wp_bind, wp_call, wp_call. by rw did_did.
Qed.
End progs.
End UserProgs.

(** [trace 32 grep], the strings at 100, 110 and 120. *)
Module UserProgsDemo.
Import UserProgs.

#[local] Instance demo_calls : ProgCalls := {| trace := λ _, 0; exec_ok := λ _, false |}.

Definition demo_mem : mem := λ a, if a =? 110 then 51 else if a =? 111 then 50 else 0.

Example trace_demo : trace_main [100; 110; 120] (MkUl demo_mem []) =
  Ok (tt, MkUl demo_mem [CTrace 32; CExec 120 (Some 120 :: replicate 31 None); CExit 0]).
Proof. vm_compute. reflexivity. Qed.

Example sleep_demo : sleep_main [100; 110] (MkUl demo_mem []) = Ok (tt, MkUl demo_mem [CSleep 32; CExit 0]).
Proof. vm_compute. reflexivity. Qed.
End UserProgsDemo.
